(** * Account orchestrator of the scraping gateway: a shallow embedding

    The definitions below follow [TwitterClientProvider] and the helpers
    declared next to it ([classifyError], the enums, the records).
    Conventions of the embedding:

    - JavaScript numbers that hold counters and millisecond timestamps are
      integers of [Z];
    - a [Map<string, _>] is a [gmap string _];
    - an object that is shared by reference (an element of
      [this.credentials], an element of [this.proxies]) is named by its
      index in the array that owns it;
    - [Date.now()] is an argument [now] of every synchronous method: the
      millisecond clock is read once per run of a method;
    - [data.json] is a field of the state, read by [loadCredentials] and
      written by [saveCredentials]; a write may fail, which the code logs
      and which leaves the file as it was, and the write that
      [updateAccountHealth] starts without waiting for it is in flight
      until it settles;
    - what the upstream driver answers is an argument of the method that
      asks; what the file system answers to a write that the provider
      waits for is read from the state ([writeAnswers]), which the
      environment sets. *)

From Stdlib Require Import ZArith Ascii String List Bool Lia.
From Stdlib Require QArith DecimalString.
From stdpp Require Import base option list sorting gmap strings.

Local Open Scope string_scope.
Local Open Scope list_scope.
Local Open Scope Z_scope.

(** ** Enumerations *)

Inductive ErrorType :=
| TIMEOUT | NETWORK | RATE_LIMIT | AUTH | NOT_FOUND
| ACCOUNT_LOCKED | ACCOUNT_SUSPENDED | UNKNOWN.

Inductive AccountStatus :=
| HEALTHY | PROBATION | COOLDOWN | DISABLED | LOCKED | SUSPENDED.

Inductive CircuitState := CLOSED | OPEN | HALF_OPEN.

#[global] Instance ErrorType_eq_dec : EqDecision ErrorType.
Proof. solve_decision. Defined.

#[global] Instance AccountStatus_eq_dec : EqDecision AccountStatus.
Proof. solve_decision. Defined.

#[global] Instance CircuitState_eq_dec : EqDecision CircuitState.
Proof. solve_decision. Defined.

(** ** Strings

    A string is the bytes of its UTF-8 encoding, and [includes] is the
    substring test.

    [toLowerCase] maps the letters A-Z to a-z, the Kelvin sign U+212A
    (bytes E2 84 AA) to [k], and the dotted capital I U+0130 (bytes C4 B0)
    to [i] followed by the combining dot U+0307 (bytes CC 87): these are
    the characters whose lower-case form has an ASCII character in it.
    [String.prototype.toLowerCase] maps every other character outside ASCII
    to characters outside ASCII; they are left in place here.  No byte of
    a character outside ASCII is an ASCII byte, so [includes] with an ASCII
    phrase, and [JSON.parse] as far as the ASCII member names [errors] and
    [code] and the numbers go, answer the same on both. *)

Module Str.

Definition lower_ascii (c : ascii) : ascii :=
  let n := N_of_ascii c in
  if ((65 <=? n) && (n <=? 90))%N then ascii_of_N (n + 32) else c.

Definition is_byte (n : N) (c : ascii) : bool := (N_of_ascii c =? n)%N.

Fixpoint toLowerCase (s : string) : string :=
  match s with
  | EmptyString => EmptyString
  | String c r =>
      match r with
      | String c1 r1 =>
          if is_byte 196 c && is_byte 176 c1
          then String "i" (String (ascii_of_N 204) (String (ascii_of_N 135) (toLowerCase r1)))
          else
            match r1 with
            | String c2 r2 =>
                if is_byte 226 c && is_byte 132 c1 && is_byte 170 c2
                then String "k" (toLowerCase r2)
                else String (lower_ascii c) (toLowerCase r)
            | EmptyString => String (lower_ascii c) (toLowerCase r)
            end
      | EmptyString => String (lower_ascii c) EmptyString
      end
  end.

Fixpoint includes (s sub : string) : bool :=
  String.prefix sub s ||
  match s with
  | EmptyString => false
  | String _ r => includes r sub
  end.

(** The double quote, and a string in which every ['] stands for it. *)
Definition quote : ascii := ascii_of_N 34.

Fixpoint quoted (s : string) : string :=
  match s with
  | EmptyString => EmptyString
  | String c r => String (if Ascii.eqb c "'" then quote else c) (quoted r)
  end.

End Str.

(** ** JSON.parse

    The runtime's parser, after the JSON grammar: white space, the three
    literals, numbers, strings with their escapes, arrays and objects.  A
    string value is the list of its code units, a number is kept as the
    decimal [m * 10^e] it was written as. *)

Module Json.

#[warnings="-register-all"]
Inductive value :=
| JNull
| JBool (b : bool)
| JNumber (m e : Z)
| JString (s : list N)
| JArray (items : list value)
| JObject (members : list (list N * value)).

Definition units (s : string) : list N := map N_of_ascii (list_ascii_of_string s).

Definition is_ws (c : ascii) : bool :=
  let n := N_of_ascii c in ((n =? 32) || (n =? 9) || (n =? 10) || (n =? 13))%N.

Fixpoint skip_ws (s : string) : string :=
  match s with
  | String c r => if is_ws c then skip_ws r else s
  | EmptyString => s
  end.

Definition digit_val (c : ascii) : option Z :=
  let n := N_of_ascii c in
  if ((48 <=? n) && (n <=? 57))%N then Some (Z.of_N n - 48) else None.

Definition hex_val (c : ascii) : option N :=
  let n := N_of_ascii c in
  if ((48 <=? n) && (n <=? 57))%N then Some (n - 48)%N
  else if ((97 <=? n) && (n <=? 102))%N then Some (n - 87)%N
  else if ((65 <=? n) && (n <=? 70))%N then Some (n - 55)%N
  else None.

Definition escape_val (c : ascii) : option N :=
  if Ascii.eqb c Str.quote then Some 34%N else
  match c with
  | "\"%char => Some 92%N
  | "/"%char => Some 47%N
  | "b"%char => Some 8%N
  | "f"%char => Some 12%N
  | "n"%char => Some 10%N
  | "r"%char => Some 13%N
  | "t"%char => Some 9%N
  | _ => None
  end.

(** The characters of a string literal, after its opening quote. *)
Fixpoint parse_chars (s : string) (acc : list N) : option (list N * string) :=
  match s with
  | EmptyString => None
  | String c r =>
      if Ascii.eqb c Str.quote then Some (rev acc, r)
      else if Ascii.eqb c "\" then
        match r with
        | String e r1 =>
            match escape_val e with
            | Some n => parse_chars r1 (n :: acc)
            | None =>
                if Ascii.eqb e "u" then
                  match r1 with
                  | String h1 (String h2 (String h3 (String h4 r2))) =>
                      match hex_val h1, hex_val h2, hex_val h3, hex_val h4 with
                      | Some a, Some b, Some c', Some d =>
                          parse_chars r2 (((a * 16 + b) * 16 + c') * 16 + d :: acc)%N
                      | _, _, _, _ => None
                      end
                  | _ => None
                  end
                else None
            end
        | EmptyString => None
        end
      else if (N_of_ascii c <? 32)%N then None
      else parse_chars r (N_of_ascii c :: acc)
  end.

(** Leading decimal digits: their value on top of [acc], how many, the rest. *)
Fixpoint digits (s : string) (acc : Z) (n : Z) : Z * Z * string :=
  match s with
  | String c r =>
      match digit_val c with
      | Some d => digits r (acc * 10 + d) (n + 1)
      | None => (acc, n, s)
      end
  | EmptyString => (acc, n, s)
  end.

Definition parse_exponent (s : string) : option (Z * string) :=
  match s with
  | String c r =>
      if Ascii.eqb c "e" || Ascii.eqb c "E" then
        let '(neg, r1) :=
          match r with
          | String sg r' =>
              if Ascii.eqb sg "-" then (true, r')
              else if Ascii.eqb sg "+" then (false, r') else (false, r)
          | EmptyString => (false, r)
          end in
        let '(v, n, r2) := digits r1 0 0 in
        if n =? 0 then None else Some (if neg then - v else v, r2)
      else Some (0, s)
  | EmptyString => Some (0, s)
  end.

Definition parse_fraction (s : string) (m : Z) : option (Z * Z * string) :=
  match s with
  | String c r =>
      if Ascii.eqb c "." then
        let '(v, n, r1) := digits r m 0 in
        if n =? 0 then None else Some (v, n, r1)
      else Some (m, 0, s)
  | EmptyString => Some (m, 0, s)
  end.

Definition parse_number (s : string) : option (value * string) :=
  let '(neg, s1) :=
    match s with
    | String c r => if Ascii.eqb c "-" then (true, r) else (false, s)
    | EmptyString => (false, s)
    end in
  let int_part :=
    match s1 with
    | String c r =>
        if Ascii.eqb c "0" then Some (0, r)
        else match digit_val c with
             | Some _ => let '(v, _, r1) := digits s1 0 0 in Some (v, r1)
             | None => None
             end
    | EmptyString => None
    end in
  match int_part with
  | None => None
  | Some (i, r1) =>
      match parse_fraction r1 i with
      | None => None
      | Some (m, nfrac, r2) =>
          match parse_exponent r2 with
          | None => None
          | Some (e, r3) => Some (JNumber (if neg then - m else m) (e - nfrac), r3)
          end
      end
  end.

(** [s] without its prefix [lit], when it has that prefix. *)
Fixpoint strip (lit s : string) : option string :=
  match lit with
  | EmptyString => Some s
  | String a lit' =>
      match s with
      | String b r => if Ascii.eqb a b then strip lit' r else None
      | EmptyString => None
      end
  end.

Definition expect (lit : string) (v : value) (s : string) : option (value * string) :=
  match strip lit s with
  | Some r => Some (v, r)
  | None => None
  end.

Fixpoint parse_value (fuel : nat) (s : string) : option (value * string) :=
  match fuel with
  | O => None
  | S fuel' =>
      match skip_ws s with
      | EmptyString => None
      | String c r as s0 =>
          if Ascii.eqb c "[" then
            match skip_ws r with
            | String c1 r1 as r0 =>
                if Ascii.eqb c1 "]" then Some (JArray [], r1)
                else parse_items fuel' r0 []
            | EmptyString => None
            end
          else if Ascii.eqb c "{" then
            match skip_ws r with
            | String c1 r1 as r0 =>
                if Ascii.eqb c1 "}" then Some (JObject [], r1)
                else parse_members fuel' r0 []
            | EmptyString => None
            end
          else if Ascii.eqb c Str.quote then
            match parse_chars r [] with
            | Some (u, r1) => Some (JString u, r1)
            | None => None
            end
          else if Ascii.eqb c "t" then expect "true" (JBool true) s0
          else if Ascii.eqb c "f" then expect "false" (JBool false) s0
          else if Ascii.eqb c "n" then expect "null" JNull s0
          else parse_number s0
      end
  end
with parse_items (fuel : nat) (s : string) (acc : list value)
  : option (value * string) :=
  match fuel with
  | O => None
  | S fuel' =>
      match parse_value fuel' s with
      | None => None
      | Some (v, r) =>
          match skip_ws r with
          | String c r1 =>
              if Ascii.eqb c "," then parse_items fuel' r1 (v :: acc)
              else if Ascii.eqb c "]" then Some (JArray (rev (v :: acc)), r1)
              else None
          | EmptyString => None
          end
      end
  end
with parse_members (fuel : nat) (s : string) (acc : list (list N * value))
  : option (value * string) :=
  match fuel with
  | O => None
  | S fuel' =>
      match skip_ws s with
      | String q r =>
          if Ascii.eqb q Str.quote then
            match parse_chars r [] with
            | None => None
            | Some (k, r1) =>
                match skip_ws r1 with
                | String c r2 =>
                    if Ascii.eqb c ":" then
                      match parse_value fuel' r2 with
                      | None => None
                      | Some (v, r3) =>
                          match skip_ws r3 with
                          | String d r4 =>
                              if Ascii.eqb d "," then parse_members fuel' r4 ((k, v) :: acc)
                              else if Ascii.eqb d "}" then Some (JObject (rev ((k, v) :: acc)), r4)
                              else None
                          | EmptyString => None
                          end
                      end
                    else None
                | EmptyString => None
                end
            end
          else None
      | EmptyString => None
      end
  end.

(** [JSON.parse text]: one value, white space around it, nothing else.
    [None] is the [SyntaxError].  The fuel is more than the parser can use
    on [text] ([JsonFuel.parse_fuel] below). *)
Definition parse (text : string) : option value :=
  match parse_value (2 * String.length text + 2) text with
  | Some (v, r) =>
      match skip_ws r with
      | EmptyString => Some v
      | String _ _ => None
      end
  | None => None
  end.

(** [obj[key]] on a parsed object: of two members with one key the later
    one wins. *)
Fixpoint get (key : list N) (members : list (list N * value)) : option value :=
  match members with
  | [] => None
  | (k, v) :: r =>
      match get key r with
      | Some v' => Some v'
      | None => if decide (k = key) then Some v else None
      end
  end.

(** [x === 326] for a parsed number [m * 10^e]: the decimal is rounded to
    the nearest double, so it equals 326 when it lies within half a unit in
    the last place (2^-45) of 326. *)
Definition is_326 (m e : Z) : bool :=
  if 0 <=? e then m * 10 ^ e =? 326
  else Z.abs (m - 326 * 10 ^ (- e)) * 2 ^ 45 <=? 10 ^ (- e).

End Json.

(** ** classifyError *)

(** [errorObj.errors.some((err) => err.code === 326)].  Reading [.code] of
    [null] throws a [TypeError], which is [None] here; every other value
    that is not an object has no [code]. *)
Definition code_is_326 (err : Json.value) : option bool :=
  match err with
  | Json.JNull => None
  | Json.JObject members =>
      match Json.get (Json.units "code") members with
      | Some (Json.JNumber m e) => Some (Json.is_326 m e)
      | _ => Some false
      end
  | _ => Some false
  end.

Fixpoint some_code_326 (errors : list Json.value) : option bool :=
  match errors with
  | [] => Some false
  | err :: rest =>
      match code_is_326 err with
      | None => None
      | Some true => Some true
      | Some false => some_code_326 rest
      end
  end.

(** The [try { ... } catch (e) {}] block at the head of [classifyError]:
    [true] when it returns [ACCOUNT_LOCKED].  A [SyntaxError] of the parser
    and a [TypeError] of a property read on [null] are both swallowed. *)
Definition json_code_326 (message : string) : bool :=
  match Json.parse message with
  | Some (Json.JObject members) =>
      match Json.get (Json.units "errors") members with
      | Some (Json.JArray errors) =>
          match some_code_326 errors with
          | Some true => true
          | _ => false
          end
      | _ => false
      end
  | _ => false
  end.

Definition classifyError (error_message : string) : ErrorType :=
  let message := Str.toLowerCase error_message in
  if json_code_326 message then ACCOUNT_LOCKED
  else if Str.includes message "response status: 401"
          || Str.includes message "status code: 401" then ACCOUNT_SUSPENDED
  else if Str.includes message "timeout" || Str.includes message "timed out" then TIMEOUT
  else if Str.includes message "network"
          || Str.includes message "fetch failed"
          || Str.includes message "connection"
          || Str.includes message "socket" then NETWORK
  else if Str.includes message "rate limit"
          || Str.includes message "too many requests"
          || Str.includes message "429" then RATE_LIMIT
  else if Str.includes message "auth"
          || Str.includes message "login"
          || Str.includes message "credentials"
          || Str.includes message "unauthorized"
          || Str.includes message "401" then AUTH
  else if Str.includes message "not found" || Str.includes message "404" then NOT_FOUND
  else if Str.includes message "account is temporarily locked"
          || Str.includes message "account locked"
          || Str.includes message "to unlock your account" then ACCOUNT_LOCKED
  else UNKNOWN.

(** ** Records *)

Record ErrorEntry := {
  err_type : ErrorType;
  err_timestamp : Z;
  err_message : string;
}.

Record AccountHealth := {
  status : AccountStatus;
  lastUsed : Z;
  requestCount : Z;
  errorCounts : ErrorType -> Z;
  consecutiveFailures : Z;
  consecutiveSuccesses : Z;
  cooldownUntil : option Z;
  lastErrorType : option ErrorType;
  lastErrorMessage : option string;
  lastErrorTime : option Z;
  errorHistory : list ErrorEntry;
  responseTimeHistory : list Z;
  successRate : QArith_base.Q;
  lastSuccessTime : option Z;
  requestHistory : list Z;
}.

Record Cookie := {
  key : string;
  value : string;
  domain : string;
  path : string;
  expires : option string;
  secure : bool;
  httpOnly : bool;
  sameSite : string;
}.

(** An entry of [data.json]; an absent [usable] or [isLocked] is falsy. *)
Record Account := {
  username : string;
  password : string;
  email : string;
  twofa : string;
  usable : bool;
  isLocked : bool;
  cookie : list Cookie;
}.

Record Proxy := {
  host : string;
  port : string;
  proxy_username : string;
  proxy_password : string;
  proxy_id : string;
  nextRequestAt : Z;
}.

(** The fields of [TwitterClientProvider] that the methods below read or
    write, and the file system as the provider meets it: [data.json]
    ([None]: the file cannot be read); the calls of [fs.writeFile] on it
    that have not settled, oldest first, each with the content it was
    given; and what the file system will answer to the writes that the
    provider waits for ([writeAnswers st 0] to the next one, [true] when
    the file is written). *)
Record Provider := {
  credentials : list Account;
  dataFile : option (list Account);
  proxies : list Proxy;
  proxyAssignment : gmap string nat;
  accountHealth : gmap string AccountHealth;
  concurrentOperations : Z;
  credentialsLoaded : bool;
  loadingCredentials : bool;
  circuitState : CircuitState;
  circuitFailureCount : Z;
  circuitOpenTime : Z;
  writesInFlight : list (list Account);
  writeAnswers : nat -> bool;
}.

(** *** Constants of the class *)

Definition MAX_CONSECUTIVE_FAILURES : Z := 50.
Definition COOLDOWN_DURATION_MS : Z := 2 * 60 * 1000.
Definition ERROR_RESET_TIME_MS : Z := 15 * 60 * 1000.
Definition ERROR_HISTORY_LIMIT : Z := 25.
Definition AUTH_ERROR_THRESHOLD : Z := 50.
Definition AUTH_ERROR_WINDOW_MS : Z := 24 * 60 * 60 * 1000.
Definition RESPONSE_TIME_HISTORY_LIMIT : Z := 50.
Definition SUCCESS_RATE_WINDOW : Z := 100.
Definition CIRCUIT_FAILURE_THRESHOLD : Z := 15.
Definition CIRCUIT_RESET_TIMEOUT_MS : Z := 60 * 1000.
Definition REQUESTS_PER_HOUR : Z := 200.
Definition RATE_LIMIT_WINDOW_MS : Z := 15 * 60 * 1000.

(** [Math.max(50, Math.min(50, cpuCount * 4))] of the constructor. *)
Definition MAX_CONCURRENT_OPERATIONS (cpuCount : Z) : Z :=
  Z.max 50 (Z.min 50 (cpuCount * 4)).

(** *** Field updates *)

Definition set_status (v : AccountStatus) (h : AccountHealth) : AccountHealth :=
  {| status := v; lastUsed := lastUsed h; requestCount := requestCount h;
     errorCounts := errorCounts h; consecutiveFailures := consecutiveFailures h;
     consecutiveSuccesses := consecutiveSuccesses h; cooldownUntil := cooldownUntil h;
     lastErrorType := lastErrorType h; lastErrorMessage := lastErrorMessage h;
     lastErrorTime := lastErrorTime h; errorHistory := errorHistory h;
     responseTimeHistory := responseTimeHistory h; successRate := successRate h;
     lastSuccessTime := lastSuccessTime h; requestHistory := requestHistory h |}.

Definition set_consecutiveFailures (v : Z) (h : AccountHealth) : AccountHealth :=
  {| status := status h; lastUsed := lastUsed h; requestCount := requestCount h;
     errorCounts := errorCounts h; consecutiveFailures := v;
     consecutiveSuccesses := consecutiveSuccesses h; cooldownUntil := cooldownUntil h;
     lastErrorType := lastErrorType h; lastErrorMessage := lastErrorMessage h;
     lastErrorTime := lastErrorTime h; errorHistory := errorHistory h;
     responseTimeHistory := responseTimeHistory h; successRate := successRate h;
     lastSuccessTime := lastSuccessTime h; requestHistory := requestHistory h |}.

Definition set_consecutiveSuccesses (v : Z) (h : AccountHealth) : AccountHealth :=
  {| status := status h; lastUsed := lastUsed h; requestCount := requestCount h;
     errorCounts := errorCounts h; consecutiveFailures := consecutiveFailures h;
     consecutiveSuccesses := v; cooldownUntil := cooldownUntil h;
     lastErrorType := lastErrorType h; lastErrorMessage := lastErrorMessage h;
     lastErrorTime := lastErrorTime h; errorHistory := errorHistory h;
     responseTimeHistory := responseTimeHistory h; successRate := successRate h;
     lastSuccessTime := lastSuccessTime h; requestHistory := requestHistory h |}.

Definition set_cooldownUntil (v : option Z) (h : AccountHealth) : AccountHealth :=
  {| status := status h; lastUsed := lastUsed h; requestCount := requestCount h;
     errorCounts := errorCounts h; consecutiveFailures := consecutiveFailures h;
     consecutiveSuccesses := consecutiveSuccesses h; cooldownUntil := v;
     lastErrorType := lastErrorType h; lastErrorMessage := lastErrorMessage h;
     lastErrorTime := lastErrorTime h; errorHistory := errorHistory h;
     responseTimeHistory := responseTimeHistory h; successRate := successRate h;
     lastSuccessTime := lastSuccessTime h; requestHistory := requestHistory h |}.

Definition set_lastSuccessTime (v : option Z) (h : AccountHealth) : AccountHealth :=
  {| status := status h; lastUsed := lastUsed h; requestCount := requestCount h;
     errorCounts := errorCounts h; consecutiveFailures := consecutiveFailures h;
     consecutiveSuccesses := consecutiveSuccesses h; cooldownUntil := cooldownUntil h;
     lastErrorType := lastErrorType h; lastErrorMessage := lastErrorMessage h;
     lastErrorTime := lastErrorTime h; errorHistory := errorHistory h;
     responseTimeHistory := responseTimeHistory h; successRate := successRate h;
     lastSuccessTime := v; requestHistory := requestHistory h |}.

Definition set_requestHistory (v : list Z) (h : AccountHealth) : AccountHealth :=
  {| status := status h; lastUsed := lastUsed h; requestCount := requestCount h;
     errorCounts := errorCounts h; consecutiveFailures := consecutiveFailures h;
     consecutiveSuccesses := consecutiveSuccesses h; cooldownUntil := cooldownUntil h;
     lastErrorType := lastErrorType h; lastErrorMessage := lastErrorMessage h;
     lastErrorTime := lastErrorTime h; errorHistory := errorHistory h;
     responseTimeHistory := responseTimeHistory h; successRate := successRate h;
     lastSuccessTime := lastSuccessTime h; requestHistory := v |}.

Definition set_errorCounts (v : ErrorType -> Z) (h : AccountHealth) : AccountHealth :=
  {| status := status h; lastUsed := lastUsed h; requestCount := requestCount h;
     errorCounts := v; consecutiveFailures := consecutiveFailures h;
     consecutiveSuccesses := consecutiveSuccesses h; cooldownUntil := cooldownUntil h;
     lastErrorType := lastErrorType h; lastErrorMessage := lastErrorMessage h;
     lastErrorTime := lastErrorTime h; errorHistory := errorHistory h;
     responseTimeHistory := responseTimeHistory h; successRate := successRate h;
     lastSuccessTime := lastSuccessTime h; requestHistory := requestHistory h |}.

Definition set_flags (u l : bool) (a : Account) : Account :=
  {| username := username a; password := password a; email := email a;
     twofa := twofa a; usable := u; isLocked := l; cookie := cookie a |}.

Definition set_cookie (c : list Cookie) (a : Account) : Account :=
  {| username := username a; password := password a; email := email a;
     twofa := twofa a; usable := usable a; isLocked := isLocked a; cookie := c |}.

Definition set_nextRequestAt (v : Z) (p : Proxy) : Proxy :=
  {| host := host p; port := port p; proxy_username := proxy_username p;
     proxy_password := proxy_password p; proxy_id := proxy_id p; nextRequestAt := v |}.

Definition set_credentials (v : list Account) (st : Provider) : Provider :=
  {| credentials := v; dataFile := dataFile st; proxies := proxies st;
     proxyAssignment := proxyAssignment st; accountHealth := accountHealth st;
     concurrentOperations := concurrentOperations st;
     credentialsLoaded := credentialsLoaded st;
     loadingCredentials := loadingCredentials st; circuitState := circuitState st;
     circuitFailureCount := circuitFailureCount st; circuitOpenTime := circuitOpenTime st;
     writesInFlight := writesInFlight st; writeAnswers := writeAnswers st |}.

Definition set_dataFile (v : option (list Account)) (st : Provider) : Provider :=
  {| credentials := credentials st; dataFile := v; proxies := proxies st;
     proxyAssignment := proxyAssignment st; accountHealth := accountHealth st;
     concurrentOperations := concurrentOperations st;
     credentialsLoaded := credentialsLoaded st;
     loadingCredentials := loadingCredentials st; circuitState := circuitState st;
     circuitFailureCount := circuitFailureCount st; circuitOpenTime := circuitOpenTime st;
     writesInFlight := writesInFlight st; writeAnswers := writeAnswers st |}.

Definition set_proxies (v : list Proxy) (st : Provider) : Provider :=
  {| credentials := credentials st; dataFile := dataFile st; proxies := v;
     proxyAssignment := proxyAssignment st; accountHealth := accountHealth st;
     concurrentOperations := concurrentOperations st;
     credentialsLoaded := credentialsLoaded st;
     loadingCredentials := loadingCredentials st; circuitState := circuitState st;
     circuitFailureCount := circuitFailureCount st; circuitOpenTime := circuitOpenTime st;
     writesInFlight := writesInFlight st; writeAnswers := writeAnswers st |}.

Definition set_proxyAssignment (v : gmap string nat) (st : Provider) : Provider :=
  {| credentials := credentials st; dataFile := dataFile st; proxies := proxies st;
     proxyAssignment := v; accountHealth := accountHealth st;
     concurrentOperations := concurrentOperations st;
     credentialsLoaded := credentialsLoaded st;
     loadingCredentials := loadingCredentials st; circuitState := circuitState st;
     circuitFailureCount := circuitFailureCount st; circuitOpenTime := circuitOpenTime st;
     writesInFlight := writesInFlight st; writeAnswers := writeAnswers st |}.

Definition set_accountHealth (v : gmap string AccountHealth) (st : Provider) : Provider :=
  {| credentials := credentials st; dataFile := dataFile st; proxies := proxies st;
     proxyAssignment := proxyAssignment st; accountHealth := v;
     concurrentOperations := concurrentOperations st;
     credentialsLoaded := credentialsLoaded st;
     loadingCredentials := loadingCredentials st; circuitState := circuitState st;
     circuitFailureCount := circuitFailureCount st; circuitOpenTime := circuitOpenTime st;
     writesInFlight := writesInFlight st; writeAnswers := writeAnswers st |}.

Definition set_credentialsLoaded (v : bool) (st : Provider) : Provider :=
  {| credentials := credentials st; dataFile := dataFile st; proxies := proxies st;
     proxyAssignment := proxyAssignment st; accountHealth := accountHealth st;
     concurrentOperations := concurrentOperations st;
     credentialsLoaded := v;
     loadingCredentials := loadingCredentials st; circuitState := circuitState st;
     circuitFailureCount := circuitFailureCount st; circuitOpenTime := circuitOpenTime st;
     writesInFlight := writesInFlight st; writeAnswers := writeAnswers st |}.

Definition set_circuit (s : CircuitState) (count openTime : Z) (st : Provider) : Provider :=
  {| credentials := credentials st; dataFile := dataFile st; proxies := proxies st;
     proxyAssignment := proxyAssignment st; accountHealth := accountHealth st;
     concurrentOperations := concurrentOperations st;
     credentialsLoaded := credentialsLoaded st;
     loadingCredentials := loadingCredentials st; circuitState := s;
     circuitFailureCount := count; circuitOpenTime := openTime;
     writesInFlight := writesInFlight st; writeAnswers := writeAnswers st |}.

Definition set_writesInFlight (v : list (list Account)) (st : Provider) : Provider :=
  {| credentials := credentials st; dataFile := dataFile st; proxies := proxies st;
     proxyAssignment := proxyAssignment st; accountHealth := accountHealth st;
     concurrentOperations := concurrentOperations st;
     credentialsLoaded := credentialsLoaded st;
     loadingCredentials := loadingCredentials st; circuitState := circuitState st;
     circuitFailureCount := circuitFailureCount st; circuitOpenTime := circuitOpenTime st;
     writesInFlight := v; writeAnswers := writeAnswers st |}.

Definition set_writeAnswers (v : nat -> bool) (st : Provider) : Provider :=
  {| credentials := credentials st; dataFile := dataFile st; proxies := proxies st;
     proxyAssignment := proxyAssignment st; accountHealth := accountHealth st;
     concurrentOperations := concurrentOperations st;
     credentialsLoaded := credentialsLoaded st;
     loadingCredentials := loadingCredentials st; circuitState := circuitState st;
     circuitFailureCount := circuitFailureCount st; circuitOpenTime := circuitOpenTime st;
     writesInFlight := writesInFlight st; writeAnswers := v |}.

(** The provider as its field initialisers leave it, with no write in
    flight and a file system on which every write succeeds. *)
Definition initial : Provider :=
  {| credentials := []; dataFile := None; proxies := [];
     proxyAssignment := ∅; accountHealth := ∅;
     concurrentOperations := 0;
     credentialsLoaded := false; loadingCredentials := false;
     circuitState := CLOSED; circuitFailureCount := 0; circuitOpenTime := 0;
     writesInFlight := []; writeAnswers := fun _ => true |}.

(** ** Health tracker *)

(** The record that [getAccountHealth] and [loadCredentials] create. *)
Definition fresh_health : AccountHealth :=
  {| status := HEALTHY; lastUsed := 0; requestCount := 0;
     errorCounts := fun _ => 0; consecutiveFailures := 0;
     consecutiveSuccesses := 0; cooldownUntil := None;
     lastErrorType := None; lastErrorMessage := None; lastErrorTime := None;
     errorHistory := []; responseTimeHistory := [];
     successRate := QArith_base.Qmake 1 1;
     lastSuccessTime := None; requestHistory := [] |}.

(** Writing through the reference that [getAccountHealth] returned. *)
Definition put_health (user : string) (h : AccountHealth) (st : Provider) : Provider :=
  set_accountHealth (<[user := h]> (accountHealth st)) st.

Definition getAccountHealth (user : string) (st : Provider) : AccountHealth * Provider :=
  match accountHealth st !! user with
  | Some h => (h, st)
  | None => (fresh_health, put_health user fresh_health st)
  end.

(** [now - timestamp < window], the test of the sliding windows. *)
Definition in_window (now window : Z) (timestamp : Z) : Prop := now - timestamp < window.

#[global] Instance in_window_dec now window timestamp : Decision (in_window now window timestamp).
Proof. unfold in_window. apply _. Defined.

(** The filter of [countRecentAuthErrors]. *)
Definition recent_auth (now windowMs : Z) (e : ErrorEntry) : Prop :=
  err_type e = AUTH /\ now - err_timestamp e < windowMs.

#[global] Instance recent_auth_dec now windowMs e : Decision (recent_auth now windowMs e).
Proof. unfold recent_auth. apply _. Defined.

Definition countRecentAuthErrors (user : string) (windowMs : Z) (now : Z) (st : Provider)
  : Z * Provider :=
  let '(health, st) := getAccountHealth user st in
  (Z.of_nat (length (filter (recent_auth now windowMs) (errorHistory health))), st).

Record RequestCheck := {
  canRequest : bool;
  waitTime : option Z;
}.

Definition canAccountMakeRequest (user : string) (now : Z) (st : Provider)
  : RequestCheck * Provider :=
  let '(health, st) := getAccountHealth user st in
  let trimmed := filter (in_window now RATE_LIMIT_WINDOW_MS) (requestHistory health) in
  let st := put_health user (set_requestHistory trimmed health) st in
  if Z.of_nat (length trimmed) <? REQUESTS_PER_HOUR then
    ({| canRequest := true; waitTime := None |}, st)
  else
    (* [requestHistory[0]]; of an empty array it is [undefined] and the
       wait is [NaN], which no caller takes for a wait *)
    match trimmed with
    | oldestRequest :: _ =>
        ({| canRequest := false;
            waitTime := Some (RATE_LIMIT_WINDOW_MS - (now - oldestRequest)) |}, st)
    | [] => ({| canRequest := false; waitTime := None |}, st)
    end.

(** [array.push(x); if (array.length > limit) array.shift()] *)
Definition push_bounded {A} (limit : Z) (x : A) (l : list A) : list A :=
  let pushed := l ++ [x] in
  if limit <? Z.of_nat (length pushed) then drop 1 pushed else pushed.

(** The head of [updateAccountHealth], which runs for every outcome: the
    use is counted and time-stamped, the window trimmed, the response time
    kept, the success rate recomputed. *)
Definition record_use (now : Z) (responseTimeMs : option Z) (h : AccountHealth)
  : AccountHealth :=
  let requests := requestCount h + 1 in
  let successCount :=
    Z.of_nat (length (filter (fun e => in_window now SUCCESS_RATE_WINDOW (err_timestamp e))
                             (errorHistory h))) in
  {| status := status h; lastUsed := now; requestCount := requests;
     errorCounts := errorCounts h; consecutiveFailures := consecutiveFailures h;
     consecutiveSuccesses := consecutiveSuccesses h; cooldownUntil := cooldownUntil h;
     lastErrorType := lastErrorType h; lastErrorMessage := lastErrorMessage h;
     lastErrorTime := lastErrorTime h; errorHistory := errorHistory h;
     responseTimeHistory :=
       match responseTimeMs with
       | Some ms => push_bounded RESPONSE_TIME_HISTORY_LIMIT ms (responseTimeHistory h)
       | None => responseTimeHistory h
       end;
     successRate :=
       if 0 <? requests
       then QArith_base.Qmake (requests - successCount) (Z.to_pos requests)
       else QArith_base.Qmake 1 1;
     lastSuccessTime := lastSuccessTime h;
     requestHistory :=
       filter (in_window now RATE_LIMIT_WINDOW_MS) (requestHistory h ++ [now]) |}.

(** The [if (success)] branch. *)
Definition record_success (now : Z) (h : AccountHealth) : AccountHealth :=
  let h := set_lastSuccessTime (Some now)
             (set_consecutiveFailures 0
                (set_consecutiveSuccesses (consecutiveSuccesses h + 1) h)) in
  if bool_decide (status h = PROBATION) && (3 <=? consecutiveSuccesses h)
  then set_status HEALTHY h else h.

(** The [else if (error)] branch up to its [switch]: counters, last error,
    bounded error history. *)
Definition record_error (errorType : ErrorType) (message : string) (now : Z)
    (h : AccountHealth) : AccountHealth :=
  {| status := status h; lastUsed := lastUsed h; requestCount := requestCount h;
     errorCounts :=
       (fun t => if decide (t = errorType) then errorCounts h t + 1 else errorCounts h t);
     consecutiveFailures := consecutiveFailures h + 1;
     consecutiveSuccesses := 0; cooldownUntil := cooldownUntil h;
     lastErrorType := Some errorType; lastErrorMessage := Some message;
     lastErrorTime := Some now;
     errorHistory :=
       push_bounded ERROR_HISTORY_LIMIT
         {| err_type := errorType; err_timestamp := now; err_message := message |}
         (errorHistory h);
     responseTimeHistory := responseTimeHistory h; successRate := successRate h;
     lastSuccessTime := lastSuccessTime h; requestHistory := requestHistory h |}.

(** The cases of the [switch] that end in [break]. *)
Definition switch_break (errorType : ErrorType) (now : Z) (h : AccountHealth)
  : AccountHealth :=
  match errorType with
  | AUTH =>
      if 5 <=? consecutiveFailures h
      then set_cooldownUntil (Some (now + COOLDOWN_DURATION_MS)) (set_status COOLDOWN h)
      else h
  | RATE_LIMIT =>
      set_cooldownUntil (Some (now + COOLDOWN_DURATION_MS)) (set_status COOLDOWN h)
  | NETWORK =>
      if 10 <=? consecutiveFailures h then set_status PROBATION h else h
  | NOT_FOUND =>
      set_consecutiveFailures (Z.max 0 (consecutiveFailures h - 1)) h
  | _ =>
      if MAX_CONSECUTIVE_FAILURES <=? consecutiveFailures h
      then set_status PROBATION h else h
  end.

(** [saveCredentials] takes [JSON.stringify(this.credentials)] when it is
    called, starts [fs.writeFile] with it and waits for the write; a write
    that fails is logged, throws nothing and leaves the file as it was.

    [saveCredentials_start] is the call that is not awaited: the write is
    in flight when the caller goes on.  [write_settles j ok] is the end of
    the write in flight at index [j]; writes to one file that are in flight
    together may end in any order.  [saveCredentials] is the call that is
    awaited, when nothing else runs while the caller waits: when the caller
    goes on the write has ended, as the file system answered. *)
Definition saveCredentials_start (st : Provider) : Provider :=
  set_writesInFlight (writesInFlight st ++ [credentials st]) st.

Definition write_settles (j : nat) (ok : bool) (st : Provider) : Provider :=
  match writesInFlight st !! j with
  | Some content =>
      let st := set_writesInFlight (delete j (writesInFlight st)) st in
      if ok then set_dataFile (Some content) st else st
  | None => st
  end.

Definition saveCredentials (st : Provider) : Provider :=
  set_writeAnswers (fun n => writeAnswers st (S n))
    (set_dataFile (if writeAnswers st 0%nat then Some (credentials st) else dataFile st) st).

(** [account.isLocked = true; account.usable = false] on the account that
    the reference [i] names. *)
Definition lock_account (i : nat) (st : Provider) : Provider :=
  match credentials st !! i with
  | Some account =>
      set_credentials (<[i := set_flags false true account]> (credentials st)) st
  | None => st
  end.

(** The callback of [this.credentials.find] in [updateAccountHealth]. *)
Definition has_username (user : string) (c : Account) : Prop := username c = user.

#[global] Instance has_username_dec user c : Decision (has_username user c).
Proof. unfold has_username. apply _. Defined.

Definition updateAccountHealth (user : string) (success : bool)
    (error : option string) (responseTimeMs : option Z) (now : Z) (st : Provider)
  : bool * Provider :=
  let '(health, st) := getAccountHealth user st in
  let health := record_use now responseTimeMs health in
  if success then (true, put_health user (record_success now health) st)
  else
    match error with
    | None => (true, put_health user health st)
    | Some message =>
        let errorType := classifyError message in
        let health := record_error errorType message now health in
        match errorType with
        | TIMEOUT | ACCOUNT_LOCKED | ACCOUNT_SUSPENDED =>
            let health :=
              set_status (if decide (errorType = ACCOUNT_SUSPENDED)
                          then SUSPENDED else LOCKED) health in
            let st := put_health user health st in
            match list_find (has_username user) (credentials st) with
            | Some (i, _) => (false, saveCredentials_start (lock_account i st))
            | None => (false, st)
            end
        | _ =>
            let health := switch_break errorType now health in
            let st := put_health user health st in
            let '(recentAuthErrors, st) :=
              countRecentAuthErrors user AUTH_ERROR_WINDOW_MS now st in
            if AUTH_ERROR_THRESHOLD <=? recentAuthErrors
            then (false, put_health user (set_status DISABLED health) st)
            else (true, st)
        end
    end.

(** ** Account registry *)

(** The body of the [forEach] in [loadCredentials]: a missing health record
    is created; a locked account has its health set to [LOCKED], any other
    account is made usable. *)
Definition load_one (cred : Account) (health : gmap string AccountHealth)
  : Account * gmap string AccountHealth :=
  let health :=
    match health !! username cred with
    | Some _ => health
    | None => <[username cred := fresh_health]> health
    end in
  if isLocked cred
  then (cred, alter (set_status LOCKED) (username cred) health)
  else (set_flags true (isLocked cred) cred, health).

Fixpoint load_each (creds : list Account) (health : gmap string AccountHealth)
  : list Account * gmap string AccountHealth :=
  match creds with
  | [] => ([], health)
  | cred :: rest =>
      let '(cred', health) := load_one cred health in
      let '(rest', health) := load_each rest health in
      (cred' :: rest', health)
  end.

(** [loadCredentials]: nothing while another load runs or once a non-empty
    set is loaded; otherwise [data.json] replaces [this.credentials], and a
    file that cannot be read leaves the empty set. *)
Definition loadCredentials (st : Provider) : Provider :=
  if loadingCredentials st then st
  else if credentialsLoaded st && (0 <? Z.of_nat (length (credentials st))) then st
  else
    match dataFile st with
    | Some accounts =>
        let '(creds, health) := load_each accounts (accountHealth st) in
        set_accountHealth health (set_credentialsLoaded true (set_credentials creds st))
    | None => set_credentials [] st
    end.

(** ** Account selection *)

Inductive Selection :=
| Selected (account : nat)
| MustWait (account : nat) (waitTime : Z)
| NoAccount.

(** JavaScript truthiness of an optional number. *)
Definition truthy (x : option Z) : bool :=
  match x with
  | Some v => negb (v =? 0)
  | None => false
  end.

Definition before (now : Z) (x : option Z) : bool :=
  match x with
  | Some v => now <? v
  | None => false
  end.

(** The callback of [this.credentials.filter] in [selectAvailableAccount]. *)
Definition is_available (now : Z) (acc : Account) (st : Provider) : bool * Provider :=
  let '(health, st) := getAccountHealth (username acc) st in
  let '(check, st) := canAccountMakeRequest (username acc) now st in
  (usable acc
   && negb (isLocked acc)
   && canRequest check
   && negb (bool_decide (status health = DISABLED))
   && negb (bool_decide (status health = LOCKED))
   && negb (bool_decide (status health = COOLDOWN)
            && truthy (cooldownUntil health)
            && before now (cooldownUntil health)),
   st).

(** The filter itself; [i] is the index of the head of [creds] in
    [this.credentials], and the result lists the accounts kept. *)
Fixpoint filter_available (now : Z) (i : nat) (creds : list Account) (st : Provider)
  : list nat * Provider :=
  match creds with
  | [] => ([], st)
  | acc :: rest =>
      let '(keep, st) := is_available now acc st in
      let '(kept, st) := filter_available now (S i) rest st in
      (if keep then i :: kept else kept, st)
  end.

(** The second loop: the rate-limited account with the least wait, the
    first one of several.  [soonest] is [None] while [minWait] is
    [Infinity]. *)
Fixpoint soonest_wait (now : Z) (i : nat) (creds : list Account)
    (soonest : option (nat * Z)) (st : Provider) : option (nat * Z) * Provider :=
  match creds with
  | [] => (soonest, st)
  | acc :: rest =>
      let '(check, st) := canAccountMakeRequest (username acc) now st in
      let below_min w :=
        match soonest with
        | Some (_, minWait) => w <? minWait
        | None => true
        end in
      let soonest :=
        match waitTime check with
        | Some w =>
            if negb (canRequest check) && negb (w =? 0) && below_min w
            then Some (i, w) else soonest
        | None => soonest
        end in
      soonest_wait now (S i) rest soonest st
  end.

(** [selectAvailableAccount]; [random] stands for the draw
    [Math.floor(Math.random() * available.length)], any index of
    [available]. *)
Definition selectAvailableAccount (now : Z) (random : nat) (st : Provider)
  : Selection * Provider :=
  let st := loadCredentials st in
  let '(available, st) := filter_available now 0 (credentials st) st in
  match available !! (random mod length available)%nat with
  | Some i => (Selected i, st)
  | None =>
      let '(soonest, st) := soonest_wait now 0 (credentials st) None st in
      match soonest with
      | Some (i, minWait) => (MustWait i minWait, st)
      | None => (NoAccount, st)
      end
  end.

(** ** Circuit breaker *)

Definition checkCircuitBreaker (now : Z) (st : Provider) : bool * Provider :=
  match circuitState st with
  | CLOSED => (true, st)
  | OPEN =>
      if CIRCUIT_RESET_TIMEOUT_MS <? now - circuitOpenTime st
      then (true, set_circuit HALF_OPEN (circuitFailureCount st) (circuitOpenTime st) st)
      else (false, st)
  | HALF_OPEN => (true, st)
  end.

Definition updateCircuitBreaker (success : bool) (now : Z) (st : Provider) : Provider :=
  match circuitState st with
  | CLOSED =>
      if negb success then
        let count := circuitFailureCount st + 1 in
        if CIRCUIT_FAILURE_THRESHOLD <=? count
        then set_circuit OPEN count now st
        else set_circuit CLOSED count (circuitOpenTime st) st
      else
        set_circuit CLOSED (Z.max 0 (circuitFailureCount st - 1)) (circuitOpenTime st) st
  | HALF_OPEN =>
      if success
      then set_circuit CLOSED 0 (circuitOpenTime st) st
      else set_circuit OPEN (circuitFailureCount st) now st
  | OPEN => st
  end.

(** ** Proxy pool

    [this.proxyAssignment] maps a username to a reference to one of the
    objects of [this.proxies]; the reference is the index of that object.
    [this.proxies] is assigned by [loadProxies] alone, when the module
    starts. *)

Definition assignProxyToAccount (user : string) (st : Provider) : option nat * Provider :=
  match proxyAssignment st !! user with
  | Some assignedProxy => (Some assignedProxy, st)
  | None =>
      if bool_decide (length (proxies st) = 0%nat) then (None, st)
      else
        let assignedCount := size (proxyAssignment st) in
        let proxyIndex := (assignedCount mod length (proxies st))%nat in
        (Some proxyIndex, set_proxyAssignment (<[user := proxyIndex]> (proxyAssignment st)) st)
  end.

Definition getProxyForAccount (user : string) (now : Z) (st : Provider)
  : option nat * Provider :=
  match assignProxyToAccount user st with
  | (None, st) => (None, st)
  | (Some p, st) =>
      match proxies st !! p with
      | Some assignedProxy =>
          if now <? nextRequestAt assignedProxy then (None, st)
          else
            let reserved := set_nextRequestAt (now + 1000) assignedProxy in
            (Some p, set_proxies (<[p := reserved]> (proxies st)) st)
      | None => (None, st)
      end
  end.

(** ** Concurrency gate *)

Definition set_concurrentOperations (v : Z) (st : Provider) : Provider :=
  {| credentials := credentials st; dataFile := dataFile st; proxies := proxies st;
     proxyAssignment := proxyAssignment st; accountHealth := accountHealth st;
     concurrentOperations := v;
     credentialsLoaded := credentialsLoaded st;
     loadingCredentials := loadingCredentials st; circuitState := circuitState st;
     circuitFailureCount := circuitFailureCount st; circuitOpenTime := circuitOpenTime st;
     writesInFlight := writesInFlight st; writeAnswers := writeAnswers st |}.

(** One turn of the loop of [acquireSemaphore]. *)
Definition try_acquire (cpuCount : Z) (st : Provider) : bool * Provider :=
  if concurrentOperations st <? MAX_CONCURRENT_OPERATIONS cpuCount
  then (true, set_concurrentOperations (concurrentOperations st + 1) st)
  else (false, st).

Definition releaseSemaphore (st : Provider) : Provider :=
  if 0 <? concurrentOperations st
  then set_concurrentOperations (concurrentOperations st - 1) st
  else st.

(** ** Driver session: tryLogin

    [tryLogin] suspends on the driver.  [tryLogin_begin] is its run up to
    the first [await] on [scraper.login], [tryLogin_resume] is the run after
    that promise settles; other tasks of the event loop may run between the
    two.  The answers of the driver are arguments. *)

Inductive LoginAnswer :=
| LoginResolved (newCookies : list Cookie)
| LoginRejected (message : string).

Inductive LoginProgress :=
| LoginDone (success : bool)
| LoginPending.

(** [setCookiesOk]: whether [scraper.setCookies] returns rather than throws. *)
Definition tryLogin_begin (cred : nat) (setCookiesOk : bool) (st : Provider)
  : LoginProgress :=
  match credentials st !! cred with
  | None => LoginPending
  | Some c =>
      if isLocked c then LoginDone false
      else if (0 <? Z.of_nat (length (cookie c))) && setCookiesOk then LoginDone true
      else LoginPending
  end.

Definition kept_cookie (c : Cookie) : bool :=
  bool_decide (key c = "auth_token") || bool_decide (key c = "ct0")
  || bool_decide (key c = "guest_id").

Definition stored_cookie (c : Cookie) : Cookie :=
  {| key := key c; value := value c; expires := expires c; domain := domain c;
     path := if bool_decide (path c = "") then "/" else path c;
     secure := secure c; httpOnly := httpOnly c;
     sameSite := if bool_decide (sameSite c = "") then "Lax" else sameSite c |}.

(** The [lockedError] of the [catch]: the first element of [errors] whose
    code is 326, on the message as it is (not lower-cased). *)
Definition login_code_326 (message : string) : bool :=
  match Json.parse message with
  | Some (Json.JObject members) =>
      match Json.get (Json.units "errors") members with
      | Some (Json.JArray errors) =>
          match some_code_326 errors with
          | Some true => true
          | _ => false
          end
      | _ => false
      end
  | _ => false
  end.

Definition tryLogin_resume (cred : nat) (answer : LoginAnswer) (st : Provider)
  : bool * Provider :=
  match credentials st !! cred with
  | None => (false, st)
  | Some c =>
      match answer with
      | LoginResolved newCookies =>
          let cookiesToStore := map stored_cookie (List.filter kept_cookie newCookies) in
          let c := if 0 <? Z.of_nat (length cookiesToStore)
                   then set_cookie cookiesToStore c else c in
          let c := set_flags true false c in
          (true, saveCredentials (set_credentials (<[cred := c]> (credentials st)) st))
      | LoginRejected message =>
          if login_code_326 message then
            let st := saveCredentials (lock_account cred st) in
            let '(health, st) := getAccountHealth (username c) st in
            (false, put_health (username c) (set_status LOCKED health) st)
          else (false, st)
      end
  end.

(** [tryLogin] when nothing else runs while it waits. *)
Definition tryLogin (cred : nat) (setCookiesOk : bool) (answer : LoginAnswer)
    (st : Provider) : bool * Provider :=
  match tryLogin_begin cred setCookiesOk st with
  | LoginDone success => (success, st)
  | LoginPending => tryLogin_resume cred answer st
  end.

(** ** Dispatcher: the [catch] block of one attempt of [executeWithAccount]

    [account] is the selected account and [message] the message of the
    error that the executor threw.  The block either gives the attempt back
    ([attempt--]) or lets it count. *)

Inductive Caught :=
| SkipSuspended   (* added to [suspendedAccountsInThisRequest], attempt given back *)
| SkipBanned      (* added to [bannedAccounts], attempt given back *)
| RetryLater      (* the [screen_name] error: wait two seconds, attempt counts *)
| Counted (keepUsable : bool).

Definition mark_unusable (account : nat) (s : AccountStatus) (st : Provider) : Provider :=
  let st := saveCredentials (lock_account account st) in
  match credentials st !! account with
  | Some c =>
      let '(health, st) := getAccountHealth (username c) st in
      put_health (username c) (set_status s health) st
  | None => st
  end.

Definition executeWithAccount_catch (account : nat) (message : string) (now : Z)
    (st : Provider) : Caught * Provider :=
  match credentials st !! account with
  | None => (Counted true, st)
  | Some c =>
      if Str.includes message "Response status: 401"
         || Str.includes message "status code: 401"
         || Str.includes message "Failed to perform request"
      then (SkipSuspended, mark_unusable account SUSPENDED st)
      else if Str.includes message "User tweets fetch timed out"
      then (SkipBanned, mark_unusable account LOCKED st)
      else
        let errorType := classifyError message in
        if Str.includes message "Cannot read properties of undefined (reading 'screen_name')"
        then (RetryLater, snd (updateAccountHealth (username c) false (Some message) None now st))
        else if bool_decide (errorType = TIMEOUT) || bool_decide (errorType = NETWORK)
                || Str.includes message "timed out after"
        then (SkipSuspended, mark_unusable account SUSPENDED st)
        else
          let '(keepUsable, st) :=
            updateAccountHealth (username c) false (Some message) None now st in
          (Counted keepUsable, st)
  end.

(** ** Dispatcher: calls of executeWithAccount on the event loop

    A call of [executeWithAccount] runs until it reaches an [await], and
    other calls run while it is suspended.  A [Call] is the local state of
    one call in flight: its attempt counter, its two skip sets, and the
    point where it is suspended.  An [Event] resumes one call and runs it to
    its next suspension, or is an event of the file system: a write that
    [updateAccountHealth] started and did not wait for ends, or the file
    system changes what it will answer to the writes that are waited for.
    The suspensions that the model follows are the wait for
    [scraper.login] and the wait for the executor; the other waits of a
    call (for the file system, for [scraper.setCookies], for a timer) are
    taken together with the code after them.  The model follows the calls
    that get through the breaker and the gate at once; a call that would
    have to wait for the gate is not started. *)

Module Dispatch.

Inductive Point :=
| AtLoopHead                      (* before [selectAvailableAccount] *)
| InLogin (account : nat)         (* inside [tryLogin], waiting for [scraper.login] *)
| InExecutor (account : nat).     (* waiting for [executor(account)] *)

Record Call := {
  attempt : Z;
  bannedAccounts : gset string;
  suspendedAccountsInThisRequest : gset string;
  point : Point;
}.

Record World := {
  provider : Provider;
  calls : list Call;
}.

Inductive Outcome :=
| Payload                                (* a result that is not empty *)
| NoData                                 (* [null], [undefined] or [[]] *)
| Thrown (message : string).

Inductive Event :=
| Enter (now : Z)
| Attempt (call : nat) (now : Z) (random : nat) (setCookiesOk : bool)
| LoginSettles (call : nat) (answer : LoginAnswer) (now : Z)
| ExecutorSettles (call : nat) (outcome : Outcome) (responseTimeMs : Z) (now : Z)
| WriteSettles (write : nat) (ok : bool)   (* a write that nobody waits for ends *)
| Disk (answers : nat -> bool).            (* the file system changes its answers *)

Definition at_point (p : Point) (c : Call) : Call :=
  {| attempt := attempt c; bannedAccounts := bannedAccounts c;
     suspendedAccountsInThisRequest := suspendedAccountsInThisRequest c; point := p |}.

(** [continue]: the loop goes to its next turn, the counter is incremented. *)
Definition next_attempt (c : Call) : Call :=
  {| attempt := attempt c + 1; bannedAccounts := bannedAccounts c;
     suspendedAccountsInThisRequest := suspendedAccountsInThisRequest c;
     point := AtLoopHead |}.

(** [attempt--; continue]: the turn is given back. *)
Definition same_attempt (c : Call) : Call := at_point AtLoopHead c.

Definition skip_suspended (user : string) (c : Call) : Call :=
  {| attempt := attempt c; bannedAccounts := bannedAccounts c;
     suspendedAccountsInThisRequest := {[user]} ∪ suspendedAccountsInThisRequest c;
     point := AtLoopHead |}.

Definition skip_banned (user : string) (c : Call) : Call :=
  {| attempt := attempt c; bannedAccounts := {[user]} ∪ bannedAccounts c;
     suspendedAccountsInThisRequest := suspendedAccountsInThisRequest c;
     point := AtLoopHead |}.

(** The call returns: the [finally] releases the gate. *)
Definition leave (k : nat) (st : Provider) (w : World) : World :=
  {| provider := releaseSemaphore st; calls := delete k (calls w) |}.

Definition resume (k : nat) (c : Call) (st : Provider) (w : World) : World :=
  {| provider := st; calls := <[k := c]> (calls w) |}.

Definition login_failed (user : string) (now : Z) (st : Provider) : Provider :=
  snd (updateAccountHealth user false (Some "Login failed") None now st).

Definition step (cpuCount : Z) (w : World) (e : Event) : option World :=
  match e with
  | Enter now =>
      let '(allowed, st) := checkCircuitBreaker now (provider w) in
      if allowed then
        let '(acquired, st) := try_acquire cpuCount st in
        if acquired then
          Some {| provider := st;
                  calls := calls w ++ [ {| attempt := 0; bannedAccounts := ∅;
                                           suspendedAccountsInThisRequest := ∅;
                                           point := AtLoopHead |} ] |}
        else None
      else None
  | Attempt k now random setCookiesOk =>
      match calls w !! k with
      | Some c =>
          match point c with
          | AtLoopHead =>
              if attempt c <? 10 then
                let '(selection, st) := selectAvailableAccount now random (provider w) in
                match selection with
                | NoAccount => Some (leave k (updateCircuitBreaker false now st) w)
                | MustWait i _ =>
                    match credentials st !! i with
                    | Some acc =>
                        if bool_decide (username acc ∈ bannedAccounts c)
                           || bool_decide (username acc ∈ suspendedAccountsInThisRequest c)
                        then Some (resume k (next_attempt c) st w)
                        else Some (resume k (same_attempt c) st w)
                    | None => None
                    end
                | Selected i =>
                    match credentials st !! i with
                    | Some acc =>
                        if bool_decide (username acc ∈ bannedAccounts c)
                           || bool_decide (username acc ∈ suspendedAccountsInThisRequest c)
                        then Some (resume k (next_attempt c) st w)
                        else
                          let user := username acc in
                          let st := snd (getProxyForAccount user now st) in
                          let st := snd (updateAccountHealth user false None None now st) in
                          match tryLogin_begin i setCookiesOk st with
                          | LoginDone true => Some (resume k (at_point (InExecutor i) c) st w)
                          | LoginDone false =>
                              Some (resume k (next_attempt c) (login_failed user now st) w)
                          | LoginPending => Some (resume k (at_point (InLogin i) c) st w)
                          end
                    | None => None
                    end
                end
              else Some (leave k (updateCircuitBreaker false now (provider w)) w)
          | _ => None
          end
      | None => None
      end
  | LoginSettles k answer now =>
      match calls w !! k with
      | Some c =>
          match point c with
          | InLogin i =>
              match credentials (provider w) !! i with
              | Some acc =>
                  let '(success, st) := tryLogin_resume i answer (provider w) in
                  if success then Some (resume k (at_point (InExecutor i) c) st w)
                  else Some (resume k (next_attempt c) (login_failed (username acc) now st) w)
              | None => None
              end
          | _ => None
          end
      | None => None
      end
  | ExecutorSettles k outcome responseTimeMs now =>
      match calls w !! k with
      | Some c =>
          match point c with
          | InExecutor i =>
              match credentials (provider w) !! i with
              | Some acc =>
                  match outcome with
                  | Payload =>
                      let st := snd (updateAccountHealth (username acc) true None
                                       (Some responseTimeMs) now (provider w)) in
                      Some (leave k (updateCircuitBreaker true now st) w)
                  | NoData =>
                      let st := snd (updateAccountHealth (username acc) false
                                       (Some "No data returned") None now (provider w)) in
                      Some (resume k (next_attempt c) st w)
                  | Thrown message =>
                      let '(caught, st) :=
                        executeWithAccount_catch i message now (provider w) in
                      match caught with
                      | SkipSuspended => Some (resume k (skip_suspended (username acc) c) st w)
                      | SkipBanned => Some (resume k (skip_banned (username acc) c) st w)
                      | RetryLater => Some (resume k (next_attempt c) st w)
                      | Counted _ => Some (resume k (next_attempt c) st w)
                      end
                  end
              | None => None
              end
          | _ => None
          end
      | None => None
      end
  | WriteSettles j ok =>
      match writesInFlight (provider w) !! j with
      | Some _ => Some {| provider := write_settles j ok (provider w); calls := calls w |}
      | None => None
      end
  | Disk answers =>
      Some {| provider := set_writeAnswers answers (provider w); calls := calls w |}
  end.

(** A schedule of the event loop; [None] when an event names a call that is
    not at the point the event resumes, or a write that is not in flight. *)
Fixpoint run (cpuCount : Z) (schedule : list Event) (w : World) : option World :=
  match schedule with
  | [] => Some w
  | e :: rest =>
      match step cpuCount w e with
      | Some w' => run cpuCount rest w'
      | None => None
      end
  end.

(** The provider after [onModuleInit], with the given [proxies.txt] and
    [data.json], and no call in flight. *)
Definition started (proxyList : list Proxy) (file : option (list Account)) : World :=
  {| provider := loadCredentials (set_dataFile file (set_proxies proxyList initial));
     calls := [] |}.

End Dispatch.

(** ** Periodic sweep: checkAccountHealth

    The body of the loop of [checkAccountHealth] for the account that the
    reference [i] names, when nothing else runs while it waits for
    [saveCredentials] and [tryLogin]; [setCookiesOk] and [answer] are what
    the driver answers if the sweep tries a login.  [adjustRequestRate],
    which ends the sweep, writes fields that are not among those of
    [Provider]. *)

(** [now > x] for an optional number. *)
Definition later_than (now : Z) (x : option Z) : bool :=
  match x with
  | Some v => v <? now
  | None => false
  end.

(** [now - x > limit] for an optional number. *)
Definition elapsed_over (now limit : Z) (x : option Z) : bool :=
  match x with
  | Some v => limit <? now - v
  | None => false
  end.

Definition sweep_account (i : nat) (now : Z) (setCookiesOk : bool) (answer : LoginAnswer)
    (st : Provider) : Provider :=
  match credentials st !! i with
  | None => st
  | Some cred =>
      let '(health, st) := getAccountHealth (username cred) st in
      let health :=
        set_requestHistory
          (filter (in_window now RATE_LIMIT_WINDOW_MS) (requestHistory health)) health in
      let st := put_health (username cred) health st in
      if bool_decide (status health = HEALTHY) then st
      else if bool_decide (status health = LOCKED) || isLocked cred then st
      else if bool_decide (status health = SUSPENDED) then st
      else
        let health :=
          if bool_decide (status health = COOLDOWN)
             && truthy (cooldownUntil health)
             && later_than now (cooldownUntil health)
          then set_consecutiveFailures 0 (set_status PROBATION health)
          else health in
        let health :=
          if truthy (lastErrorTime health)
             && elapsed_over now ERROR_RESET_TIME_MS (lastErrorTime health)
          then set_consecutiveFailures 0 (set_errorCounts (fun _ => 0) health)
          else health in
        let st := put_health (username cred) health st in
        let st :=
          if negb (usable cred) && negb (isLocked cred)
          then saveCredentials
                 (set_credentials
                    (<[i := set_flags true (isLocked cred) cred]> (credentials st)) st)
          else st in
        if (bool_decide (status health = PROBATION) || bool_decide (status health = COOLDOWN))
           && (COOLDOWN_DURATION_MS <? now - lastUsed health)
        then
          let '(success, st) := tryLogin i setCookiesOk answer st in
          if success then
            let '(health, st) := getAccountHealth (username cred) st in
            put_health (username cred)
              (set_consecutiveFailures 0
                 (set_consecutiveSuccesses 1 (set_status PROBATION health))) st
          else st
        else st
  end.

(** The sweep: [loadCredentials], then the loop over [this.credentials];
    [driver i] is what the driver answers for the account at index [i]. *)
Definition checkAccountHealth (now : Z) (driver : nat -> bool * LoginAnswer)
    (st : Provider) : Provider :=
  let st := loadCredentials st in
  fold_left (fun st i => sweep_account i now (fst (driver i)) (snd (driver i)) st)
            (seq 0 (length (credentials st))) st.

(** ** Administration of the registry file

    The account operations of [TwitterService] (src/twitter/
    twitter.service.ts): each reads [data.json], and writes it back when it
    changes something.  The file is [None] when it cannot be read or
    parsed; an operation then throws and writes nothing.  [written] is what
    [fs.writeFile] answers if the operation calls it: when the write fails
    the operation logs the error and throws it again, and the file is left
    as it was. *)

Module TwitterService.

Inductive AdminError :=
| NotFound          (* [NotFoundException] *)
| AlreadyExists     (* "Account with username ... already exists" *)
| ReadFailed        (* [fs.readFile] or [JSON.parse] threw *)
| WriteFailed.      (* [fs.writeFile] threw *)

(** The fields of [TwitterAccountDto] that reach the file through
    [addAccount]; [usable] is overwritten there. *)
Record TwitterAccountDto := {
  dto_username : string;
  dto_password : string;
  dto_email : string;
  dto_twofa : string;
}.

(** What [sanitizeAccount] returns: the entry without [password] and
    [cookie], and [hasCookies]. *)
Record SanitizedAccount := {
  s_username : string;
  s_email : string;
  s_twofa : string;
  s_usable : bool;
  s_isLocked : bool;
  hasCookies : bool;
}.

Record DeletedLocked := {
  deletedCount : Z;
  remainingCount : Z;
}.

Definition sanitizeAccount (account : Account) : SanitizedAccount :=
  {| s_username := username account; s_email := email account; s_twofa := twofa account;
     s_usable := usable account; s_isLocked := isLocked account;
     hasCookies := 0 <? Z.of_nat (length (cookie account)) |}.

Definition getAllAccounts (file : option (list Account)) : list SanitizedAccount :=
  match file with
  | Some accounts => sanitizeAccount <$> accounts
  | None => []
  end.

Definition getAccountByUsername (user : string) (file : option (list Account))
  : AdminError + SanitizedAccount :=
  match list_find (fun acc => s_username acc = user) (getAllAccounts file) with
  | Some (_, account) => inr account
  | None => inl NotFound
  end.

(** The entry that [addAccount] appends: the DTO, no cookies, usable. *)
Definition newAccount (accountDto : TwitterAccountDto) : Account :=
  {| username := dto_username accountDto; password := dto_password accountDto;
     email := dto_email accountDto; twofa := dto_twofa accountDto;
     usable := true; isLocked := false; cookie := [] |}.

(** Each operation returns its result and the file as it leaves it. *)
Definition addAccount (accountDto : TwitterAccountDto) (written : bool)
    (file : option (list Account))
  : (AdminError + SanitizedAccount) * option (list Account) :=
  match file with
  | None => (inl ReadFailed, file)
  | Some accounts =>
      match list_find (has_username (dto_username accountDto)) accounts with
      | Some _ => (inl AlreadyExists, file)
      | None =>
          if written
          then (inr (sanitizeAccount (newAccount accountDto)),
                Some (accounts ++ [newAccount accountDto]))
          else (inl WriteFailed, file)
      end
  end.

Definition deleteAccount (user : string) (written : bool) (file : option (list Account))
  : option AdminError * option (list Account) :=
  match file with
  | None => (Some ReadFailed, file)
  | Some accounts =>
      match list_find (has_username user) accounts with
      | Some (accountIndex, _) =>
          if written then (None, Some (delete accountIndex accounts))
          else (Some WriteFailed, file)
      | None => (Some NotFound, file)
      end
  end.

Definition clearCookies (user : string) (written : bool) (file : option (list Account))
  : option AdminError * option (list Account) :=
  match file with
  | None => (Some ReadFailed, file)
  | Some accounts =>
      match list_find (has_username user) accounts with
      | Some (accountIndex, account) =>
          if written
          then (None, Some (<[accountIndex := set_cookie [] account]> accounts))
          else (Some WriteFailed, file)
      | None => (Some NotFound, file)
      end
  end.

Definition clearAllCookies (written : bool) (file : option (list Account))
  : option AdminError * option (list Account) :=
  match file with
  | None => (Some ReadFailed, file)
  | Some accounts =>
      if written then (None, Some (set_cookie [] <$> accounts))
      else (Some WriteFailed, file)
  end.

Definition deleteLockedAccounts (written : bool) (file : option (list Account))
  : (AdminError + DeletedLocked) * option (list Account) :=
  match file with
  | None => (inl ReadFailed, file)
  | Some accounts =>
      let initialCount := Z.of_nat (length accounts) in
      let activeAccounts := List.filter (fun account => negb (isLocked account)) accounts in
      let deleted := initialCount - Z.of_nat (length activeAccounts) in
      if written
      then (inr {| deletedCount := deleted;
                   remainingCount := Z.of_nat (length activeAccounts) |},
            Some activeAccounts)
      else (inl WriteFailed, file)
  end.

End TwitterService.

(** ** Normalisation of search results

    What [fetchTweetsSearch] and [fetchMultipleSearches] do to each tweet
    of a response.  A string is the bytes of its UTF-8 encoding: the bytes
    of [<], [>] and [/] occur in no other character. *)

Module Tweets.

(** Whether a [>] occurs in the string. *)
Fixpoint has_gt (s : string) : bool :=
  match s with
  | EmptyString => false
  | String c r => Ascii.eqb c ">" || has_gt r
  end.

(** [html.replace(/<[^>]*>/g, '')].  A match starts at a [<] that has a
    [>] somewhere after it and runs to the first such [>]; [inTag] says
    that the scan is inside a match. *)
Fixpoint strip_from (inTag : bool) (s : string) : string :=
  match s with
  | EmptyString => EmptyString
  | String c r =>
      if inTag then
        if Ascii.eqb c ">" then strip_from false r else strip_from true r
      else if Ascii.eqb c "<" && has_gt r then strip_from true r
      else String c (strip_from false r)
  end.

Definition stripTags (html : string) : string := strip_from false html.

(** [s.split(sep)] for a separator of one character. *)
Fixpoint split_on (sep : ascii) (s : string) : list string :=
  match s with
  | EmptyString => [EmptyString]
  | String c r =>
      if Ascii.eqb c sep then EmptyString :: split_on sep r
      else
        match split_on sep r with
        | first :: rest => String c first :: rest
        | [] => [String c EmptyString]
        end
  end.

(** The fields of a tweet that the normalisation reads or writes; [None]
    is a field that is absent. *)
Record Tweet := {
  tweet_username : option string;
  permanentUrl : option string;
  text : option string;
  html : option string;
}.

(** JavaScript truthiness of an optional string. *)
Definition is_set (x : option string) : bool :=
  match x with
  | Some s => negb (String.eqb s EmptyString)
  | None => false
  end.

Definition set_tweet_username (v : option string) (tweet : Tweet) : Tweet :=
  {| tweet_username := v; permanentUrl := permanentUrl tweet; text := text tweet;
     html := html tweet |}.

Definition set_text (v : option string) (tweet : Tweet) : Tweet :=
  {| tweet_username := tweet_username tweet; permanentUrl := permanentUrl tweet; text := v;
     html := html tweet |}.

(** The callback of [response.tweets.map]. *)
Definition normalizeTweet (tweet : Tweet) : Tweet :=
  let tweet :=
    match permanentUrl tweet with
    | Some url =>
        if negb (is_set (tweet_username tweet)) && is_set (permanentUrl tweet) then
          let urlParts := split_on "/" url in
          if 4 <=? Z.of_nat (length urlParts)
          then set_tweet_username (urlParts !! 3%nat) tweet
          else tweet
        else tweet
    | None => tweet
    end in
  match html tweet with
  | Some h =>
      if negb (is_set (text tweet)) && is_set (html tweet)
      then set_text (Some (stripTags h)) tweet
      else tweet
  | None => tweet
  end.

End Tweets.

(** ** Paginated fetches of the client

    The executors of [getUserTweetsLarge] and [getUserTimelineInDateRange].
    [A] is the type of the tweets of the driver.  The driver is asked one
    batch after the other; what it answers is an argument. *)

Module Timeline.
Section Fetch.
Context {A : Type}.

(** The answer to one [scraper.getUserTweets]: it throws (or times out), or
    it resolves; a response without tweets is [PageOf [] _]. *)
Inductive Page :=
| PageThrows
| PageOf (tweets : list A) (next : option string).

Record LargeFetch := {
  lf_tweets : list A;
  totalFetched : Z;
  batchesCompleted : Z;
  lastCursor : option string;
  requestedAmount : Z;
}.

(** The [while] loop of [getUserTweetsLarge]; [driver k count cursor] is
    the answer to the [k]-th request.  The result is the three variables
    that the loop leaves: [allTweets], [cursor], [batchCount]. *)
Fixpoint large_loop (fuel : nat) (driver : Z -> Z -> option string -> Page)
    (maxTweets batchSize : Z) (allTweets : list A) (cursor : option string)
    (fetchedCount batchCount : Z) : option (list A * option string * Z) :=
  if fetchedCount <? maxTweets then
    match fuel with
    | O => None
    | S fuel =>
        let remainingTweets := maxTweets - fetchedCount in
        let currentBatchSize := Z.min batchSize remainingTweets in
        let batchCount := batchCount + 1 in
        match driver batchCount currentBatchSize cursor with
        | PageThrows => Some (allTweets, cursor, batchCount)
        | PageOf [] _ => Some (allTweets, cursor, batchCount)
        | PageOf tweets next =>
            let allTweets := allTweets ++ tweets in
            let fetchedCount := fetchedCount + Z.of_nat (length tweets) in
            if Tweets.is_set next
            then large_loop fuel driver maxTweets batchSize allTweets next
                   fetchedCount batchCount
            else Some (allTweets, next, batchCount)
        end
    end
  else Some (allTweets, cursor, batchCount).

Definition getUserTweetsLarge (driver : Z -> Z -> option string -> Page)
    (maxTweets batchSize : Z) : option LargeFetch :=
  match large_loop (Z.to_nat maxTweets) driver maxTweets batchSize [] None 0 0 with
  | Some (allTweets, cursor, batchCount) =>
      Some {| lf_tweets := allTweets; totalFetched := Z.of_nat (length allTweets);
              batchesCompleted := batchCount; lastCursor := cursor;
              requestedAmount := maxTweets |}
  | None => None
  end.

Record RangeFetch := {
  rf_tweets : list (Z * A);
  totalInRange : Z;
  totalProcessed : Z;
  reachedEndOfRange : bool;
}.

(** [tweetDate < endDate]; the date of a tweet is its time value, [None]
    for an invalid date, which compares false with everything. *)
Definition older (tweetDate : option Z) (endDate : Z) : bool :=
  match tweetDate with
  | Some d => d <? endDate
  | None => false
  end.

(** The tweet with its [parsedDate], when its date is in the range. *)
Definition in_range (startDate endDate : Z) (entry : option Z * A) : option (Z * A) :=
  match fst entry with
  | Some d => if (endDate <=? d) && (d <=? startDate) then Some (d, snd entry) else None
  | None => None
  end.

(** The [for await] loop of [getUserTimelineInDateRange] over the tweets
    that the iterator of the driver yields before it ends or throws. *)
Fixpoint range_loop (tweets : list (option Z * A)) (startDate endDate maxTweets : Z)
    (allTweets : list (Z * A)) (fetchedCount batchCount : Z)
  : list (Z * A) * Z * bool :=
  match tweets with
  | [] => (allTweets, batchCount, false)
  | entry :: rest =>
      let batchCount := batchCount + 1 in
      if older (fst entry) endDate then (allTweets, batchCount, true)
      else
        let '(allTweets, fetchedCount) :=
          match in_range startDate endDate entry with
          | Some kept => (allTweets ++ [kept], fetchedCount + 1)
          | None => (allTweets, fetchedCount)
          end in
        if maxTweets <=? fetchedCount then (allTweets, batchCount, false)
        else range_loop rest startDate endDate maxTweets allTweets fetchedCount batchCount
  end.

(** [allTweets.sort((a, b) => date(b) - date(a))]: the sort of the runtime
    is stable, so tweets of one date keep their order. *)
Fixpoint insert_newest_first (x : Z * A) (sorted : list (Z * A)) : list (Z * A) :=
  match sorted with
  | [] => [x]
  | y :: rest =>
      if fst x <=? fst y then y :: insert_newest_first x rest else x :: y :: rest
  end.

Definition sort_newest_first (l : list (Z * A)) : list (Z * A) :=
  fold_left (fun sorted x => insert_newest_first x sorted) l [].

Definition getUserTimelineInDateRange (tweets : list (option Z * A))
    (startDate endDate maxTweets : Z) : RangeFetch :=
  let '(allTweets, batchCount, foundOlderThanRange) :=
    range_loop tweets startDate endDate maxTweets [] 0 0 in
  let allTweets := sort_newest_first allTweets in
  {| rf_tweets := allTweets; totalInRange := Z.of_nat (length allTweets);
     totalProcessed := batchCount; reachedEndOfRange := foundOlderThanRange |}.

End Fetch.

Arguments Page : clear implicits.
Arguments LargeFetch : clear implicits.
Arguments RangeFetch : clear implicits.

End Timeline.

(** ** Proxy pool: loadProxies

    [proxies.txt] is the bytes of its UTF-8 text, [None] when it cannot be
    read.  A line gives a proxy [host:port:username:password]; a component
    that the line does not have is [undefined], here [None]. *)

Module Proxies.

(** The white space of [String.prototype.trim]: the ASCII characters TAB,
    LF, VT, FF, CR and SP, and the UTF-8 encodings of U+00A0, U+1680,
    U+2000 to U+200A, U+2028, U+2029, U+202F, U+205F, U+3000 and U+FEFF. *)
Definition ascii_space (c : ascii) : bool :=
  let n := N_of_ascii c in (((9 <=? n) && (n <=? 13)) || (n =? 32))%N.

Definition wide_space2 (c1 c2 : ascii) : bool :=
  ((N_of_ascii c1 =? 194) && (N_of_ascii c2 =? 160))%N.

Definition wide_space3 (c1 c2 c3 : ascii) : bool :=
  let n1 := N_of_ascii c1 in
  let n2 := N_of_ascii c2 in
  let n3 := N_of_ascii c3 in
  (((n1 =? 225) && (n2 =? 154) && (n3 =? 128))
   || ((n1 =? 226) && (n2 =? 128)
       && (((128 <=? n3) && (n3 <=? 138)) || (n3 =? 168) || (n3 =? 169) || (n3 =? 175)))
   || ((n1 =? 226) && (n2 =? 129) && (n3 =? 159))
   || ((n1 =? 227) && (n2 =? 128) && (n3 =? 128))
   || ((n1 =? 239) && (n2 =? 187) && (n3 =? 191)))%N.

Fixpoint trim_start (l : list ascii) : list ascii :=
  match l with
  | [] => []
  | c1 :: r1 =>
      if ascii_space c1 then trim_start r1
      else
        match r1 with
        | [] => l
        | c2 :: r2 =>
            if wide_space2 c1 c2 then trim_start r2
            else
              match r2 with
              | [] => l
              | c3 :: r3 => if wide_space3 c1 c2 c3 then trim_start r3 else l
              end
        end
  end.

(** [trim_start] on the reversed string: the encodings are read backwards. *)
Fixpoint trim_end_reversed (l : list ascii) : list ascii :=
  match l with
  | [] => []
  | c1 :: r1 =>
      if ascii_space c1 then trim_end_reversed r1
      else
        match r1 with
        | [] => l
        | c2 :: r2 =>
            if wide_space2 c2 c1 then trim_end_reversed r2
            else
              match r2 with
              | [] => l
              | c3 :: r3 => if wide_space3 c3 c2 c1 then trim_end_reversed r3 else l
              end
        end
  end.

Definition trim (s : string) : string :=
  string_of_list_ascii
    (rev (trim_end_reversed (rev (trim_start (list_ascii_of_string s))))).

(** The object that [loadProxies] builds for a line. *)
Record LoadedProxy := {
  lp_id : string;
  lp_host : option string;
  lp_port : option string;
  lp_username : option string;
  lp_password : option string;
  lp_nextRequestAt : Z;
}.

(** [`${index}`] *)
Definition decimal (index : nat) : string :=
  DecimalString.NilEmpty.string_of_uint (Nat.to_uint index).

Definition line_feed : ascii := ascii_of_N 10.

Definition loadProxies (file : option string) : list LoadedProxy :=
  match file with
  | None => []
  | Some data =>
      let proxyLines :=
        trim <$> List.filter (fun line => negb (String.eqb (trim line) EmptyString))
                             (Tweets.split_on line_feed data) in
      imap (fun index line =>
              let fields := Tweets.split_on ":" line in
              {| lp_id := "proxy-" ++ decimal index;
                 lp_host := fields !! 0%nat; lp_port := fields !! 1%nat;
                 lp_username := fields !! 2%nat; lp_password := fields !! 3%nat;
                 lp_nextRequestAt := 0 |})
           proxyLines
  end.

End Proxies.

(** * Definitions that the statements use *)

(** ** Circuit breaker *)

(** The breaker after [n] failed dispatches in a row, all at time [now]. *)
Definition consecutive_failures (n : nat) (now : Z) (st : Provider) : Provider :=
  Nat.iter n (updateCircuitBreaker false now) st.

(** ** Proxy pool *)

(** What the provider does with the pool after [loadProxies]: it assigns
    ([assignProxyToAccount]) and it reserves ([getProxyForAccount]). *)
Inductive PoolOp :=
| Assign (user : string)
| Reserve (user : string) (now : Z).

Definition pool_step (st : Provider) (op : PoolOp) : Provider :=
  match op with
  | Assign user => snd (assignProxyToAccount user st)
  | Reserve user now => snd (getProxyForAccount user now st)
  end.

Definition pool_run (ops : list PoolOp) (st : Provider) : Provider :=
  fold_left pool_step ops st.

(** A [proxies.txt] of two lines. *)
Definition two_proxies : list Proxy :=
  [ {| host := "10.0.0.1"; port := "8000"; proxy_username := "u"; proxy_password := "p";
       proxy_id := "proxy-0"; nextRequestAt := 0 |};
    {| host := "10.0.0.2"; port := "8000"; proxy_username := "u"; proxy_password := "p";
       proxy_id := "proxy-1"; nextRequestAt := 0 |} ].

(** ** Account registry *)

(** What [load_one] leaves of an entry of the file. *)
Definition loaded (c : Account) : Account :=
  if isLocked c then c else set_flags true false c.

(** An entry of [data.json] without cookies. *)
Definition mk_account (user : string) (u l : bool) : Account :=
  {| username := user; password := "secret"; email := user; twofa := "";
     usable := u; isLocked := l; cookie := [] |}.

(** ** Health tracker *)

(** What every health record of a running provider satisfies: the failure
    counter is not negative and the error history holds at most
    [ERROR_HISTORY_LIMIT] entries. *)
Definition health_ok (h : AccountHealth) : Prop :=
  0 <= consecutiveFailures h /\ (length (errorHistory h) <= 25)%nat.

(** The kinds whose [switch] case ends in [break]. *)
Definition breaks (t : ErrorType) : Prop :=
  t <> TIMEOUT /\ t <> ACCOUNT_LOCKED /\ t <> ACCOUNT_SUSPENDED.

(** The status that the first [switch] case sets. *)
Definition terminal_status (t : ErrorType) : AccountStatus :=
  if decide (t = ACCOUNT_SUSPENDED) then SUSPENDED else LOCKED.

(** Failures reported one after the other for one account, with one
    message, at the given times: the answers and the provider at the end. *)
Fixpoint repeated_failures (user message : string) (times : list Z) (st : Provider)
  : list bool * Provider :=
  match times with
  | [] => ([], st)
  | t :: rest =>
      let '(keep, st) := updateAccountHealth user false (Some message) None t st in
      let '(keeps, st) := repeated_failures user message rest st in
      (keep :: keeps, st)
  end.

(** ** Error classification *)

(** A rule of a first-match table: the substrings that trigger it and the
    kind it gives. *)
Definition Rule : Type := list string * ErrorType.

Definition triggers (message : string) (rule : Rule) : bool :=
  existsb (Str.includes message) (fst rule).

Fixpoint first_match (rules : list Rule) (message : string) : ErrorType :=
  match rules with
  | [] => UNKNOWN
  | rule :: rest => if triggers message rule then snd rule else first_match rest message
  end.

(** The substring rules that [classifyError] applies, in its order. *)
Definition substring_rules : list Rule :=
  [ (["response status: 401"; "status code: 401"], ACCOUNT_SUSPENDED);
    (["timeout"; "timed out"], TIMEOUT);
    (["network"; "fetch failed"; "connection"; "socket"], NETWORK);
    (["rate limit"; "too many requests"; "429"], RATE_LIMIT);
    (["auth"; "login"; "credentials"; "unauthorized"; "401"], AUTH);
    (["not found"; "404"], NOT_FOUND);
    (["account is temporarily locked"; "account locked"; "to unlock your account"],
     ACCOUNT_LOCKED) ].

(** *** The rules as section 4.3 of the specification words them *)

(** Rules 2 to 8 of section 4.3. *)
Definition spec_rules : list Rule :=
  [ (["status 401"; "status code: 401"], ACCOUNT_SUSPENDED);
    (["timeout"; "timed out"], TIMEOUT);
    (["network"; "fetch failed"; "connection"; "socket"], NETWORK);
    (["rate limit"; "too many requests"; "429"], RATE_LIMIT);
    (["auth"; "login"; "credentials"; "unauthorized"; "401"], AUTH);
    (["not found"; "404"], NOT_FOUND);
    (["account is temporarily locked"; "account locked"; "to unlock your account"],
     ACCOUNT_LOCKED) ].

(** [err.code == 326] of an entry of [errors]. *)
Definition has_code_326 (err : Json.value) : bool :=
  match err with
  | Json.JObject members =>
      match Json.get (Json.units "code") members with
      | Some (Json.JNumber m e) => Json.is_326 m e
      | _ => false
      end
  | _ => false
  end.

(** Rule 1 of section 4.3: the message parses as JSON and contains
    [errors[].code == 326]. *)
Definition spec_json_rule (message : string) : bool :=
  match Json.parse message with
  | Some (Json.JObject members) =>
      match Json.get (Json.units "errors") members with
      | Some (Json.JArray errors) => existsb has_code_326 errors
      | _ => false
      end
  | _ => false
  end.

(** The classification of section 4.3, first match on the lower-cased
    message. *)
Definition classify_spec (error_message : string) : ErrorType :=
  let message := Str.toLowerCase error_message in
  if spec_json_rule message then ACCOUNT_LOCKED else first_match spec_rules message.

(** *** Section 4.3 as amended

    Rule 2 with the phrase that the code looks for, ["response status: 401"]
    in place of ["status 401"]; rule 1 and rules 3 to 9 as section 4.3
    words them. *)
Definition amended_rules : list Rule :=
  (["response status: 401"; "status code: 401"], ACCOUNT_SUSPENDED) :: tail spec_rules.

Definition classify_amended (error_message : string) : ErrorType :=
  let message := Str.toLowerCase error_message in
  if spec_json_rule message then ACCOUNT_LOCKED else first_match amended_rules message.

(** The messages that the amended claim speaks of: when the lower-cased
    message is a JSON object with an [errors] array, no entry of the array
    is [null]. *)
Definition no_null_entry (error_message : string) : Prop :=
  match Json.parse (Str.toLowerCase error_message) with
  | Some (Json.JObject members) =>
      match Json.get (Json.units "errors") members with
      | Some (Json.JArray errors) => Forall (fun err => err <> Json.JNull) errors
      | _ => True
      end
  | _ => True
  end.

(** The Kelvin sign U+212A, whose lower-case form is [k]. *)
Definition kelvin_sign : string :=
  String (ascii_of_N 226) (String (ascii_of_N 132) (String (ascii_of_N 170) EmptyString)).

(** ** Account selection *)

(** The status and the cooldown deadline that the tracker has, or would
    create, for a username. *)
Definition health_view (user : string) (st : Provider) : AccountStatus * option Z :=
  let h := fst (getAccountHealth user st) in (status h, cooldownUntil h).

(** What the filter callback has checked when it keeps an account. *)
Definition passes (now : Z) (acc : Account) (view : AccountStatus * option Z) : Prop :=
  usable acc = true
  /\ isLocked acc = false
  /\ fst view <> DISABLED
  /\ fst view <> LOCKED
  /\ (fst view = COOLDOWN -> forall t, snd view = Some t -> t <> 0 -> t <= now).

(** ** Schedules of the event loop *)

(** A cookie that [scraper.getCookies] returns after a login. *)
Definition session_cookie (v : string) : Cookie :=
  {| key := "auth_token"; value := v; domain := ".x.com"; path := "/";
     expires := None; secure := true; httpOnly := true; sameSite := "None" |}.

(** Two calls pick the only account, which has no cookies yet, and both
    start a login.  The login of the second call resolves, its executor is
    answered ["Response status: 401"], and the account is marked: locked,
    unusable, [SUSPENDED].  Then the login of the first call resolves, and
    the end of [tryLogin] sets [usable = true] and [isLocked = false]. *)
Definition race_schedule : list Dispatch.Event :=
  [ Dispatch.Enter 1000; Dispatch.Attempt 0 1000 0 true;
    Dispatch.Enter 1001; Dispatch.Attempt 1 1001 0 true;
    Dispatch.LoginSettles 1 (LoginResolved [session_cookie "second"]) 3000;
    Dispatch.ExecutorSettles 1 (Dispatch.Thrown "Response status: 401") 0 3500;
    Dispatch.LoginSettles 0 (LoginResolved [session_cookie "first"]) 4000 ].

(** ** Runs of the gate, of the breaker and of the dispatcher *)

(** What callers do with the gate: [acquireSemaphore] gets through when a
    turn of its loop finds room, [releaseSemaphore] gives the place back. *)
Inductive GateOp := Acquire | Release.

Definition gate_step (cpuCount : Z) (st : Provider) (op : GateOp) : Provider :=
  match op with
  | Acquire => snd (try_acquire cpuCount st)
  | Release => releaseSemaphore st
  end.

Definition gate_run (cpuCount : Z) (ops : list GateOp) (st : Provider) : Provider :=
  fold_left (gate_step cpuCount) ops st.

(** What callers do with the breaker: they ask it ([checkCircuitBreaker])
    and they report an outcome ([updateCircuitBreaker]). *)
Inductive BreakerOp :=
| Check (now : Z)
| Report (success : bool) (now : Z).

Definition breaker_step (st : Provider) (op : BreakerOp) : Provider :=
  match op with
  | Check now => snd (checkCircuitBreaker now st)
  | Report success now => updateCircuitBreaker success now st
  end.

Definition breaker_run (ops : list BreakerOp) (st : Provider) : Provider :=
  fold_left breaker_step ops st.

(** The failure count of a closed breaker is below the threshold; the count
    of a breaker that is open or half open is the threshold. *)
Definition breaker_ok (st : Provider) : Prop :=
  match circuitState st with
  | CLOSED => 0 <= circuitFailureCount st < CIRCUIT_FAILURE_THRESHOLD
  | _ => circuitFailureCount st = CIRCUIT_FAILURE_THRESHOLD
  end.

(** A check that comes no later than the reset timeout after [openedAt];
    reports come when they come. *)
Definition early_check (openedAt : Z) (op : BreakerOp) : Prop :=
  match op with
  | Check now => now - openedAt <= CIRCUIT_RESET_TIMEOUT_MS
  | Report _ _ => True
  end.

(** The counter of the gate is the number of calls in flight. *)
Definition gate_counted (w : Dispatch.World) : Prop :=
  concurrentOperations (Dispatch.provider w) = Z.of_nat (length (Dispatch.calls w))
  /\ (length (Dispatch.calls w) <= 50)%nat.

(** ** Health tracker: what a report leaves alone, and reports in a row *)

(** The fields of the provider that belong neither to the tracker nor to
    the registry. *)
Definition outside_tracker (st : Provider)
  : list Proxy * gmap string nat * Z * bool * bool * CircuitState * Z * Z :=
  (proxies st, proxyAssignment st, concurrentOperations st, credentialsLoaded st,
   loadingCredentials st, circuitState st, circuitFailureCount st, circuitOpenTime st).

(** Two entries of the registry that differ in their flags at most. *)
Definition same_identity (c c' : Account) : Prop :=
  username c' = username c /\ password c' = password c /\ email c' = email c
  /\ twofa c' = twofa c /\ cookie c' = cookie c.

(** The threshold on [consecutiveFailures] and the status it leads to, for
    the kinds whose [switch] case compares the counter. *)
Definition escalation (t : ErrorType) : Z * AccountStatus :=
  match t with
  | AUTH => (5, COOLDOWN)
  | NETWORK => (10, PROBATION)
  | _ => (MAX_CONSECUTIVE_FAILURES, PROBATION)
  end.

(** Successes reported one after the other for one account, at the given
    times. *)
Fixpoint repeated_successes (user : string) (responseTimeMs : option Z) (times : list Z)
    (st : Provider) : Provider :=
  match times with
  | [] => st
  | t :: rest =>
      repeated_successes user responseTimeMs rest
        (snd (updateAccountHealth user true None responseTimeMs t st))
  end.

(** ** Account selection: the request window of a username *)

(** The request window of a username as [canAccountMakeRequest] trims it at
    [now]. *)
Definition window_of (user : string) (now : Z) (st : Provider) : list Z :=
  filter (in_window now RATE_LIMIT_WINDOW_MS) (requestHistory (fst (getAccountHealth user st))).

(** The answer of [canAccountMakeRequest] on a trimmed window. *)
Definition check_of (now : Z) (trimmed : list Z) : RequestCheck :=
  if Z.of_nat (length trimmed) <? REQUESTS_PER_HOUR then
    {| canRequest := true; waitTime := None |}
  else
    match trimmed with
    | oldestRequest :: _ =>
        {| canRequest := false;
           waitTime := Some (RATE_LIMIT_WINDOW_MS - (now - oldestRequest)) |}
    | [] => {| canRequest := false; waitTime := None |}
    end.

(** The wait that [canAccountMakeRequest] reports for an account. *)
Definition wait_of (now : Z) (st : Provider) (acc : Account) : option Z :=
  waitTime (fst (canAccountMakeRequest (username acc) now st)).

(** The record of [user] in [st] holds the window of [st0] trimmed at [now]. *)
Definition trimmed_record (user : string) (now : Z) (st0 st : Provider) : Prop :=
  requestHistory <$> accountHealth st !! user = Some (window_of user now st0).

(** ** Driver session and registry flags *)

(** The names of the cookies that [tryLogin] stores. *)
Definition session_keys : list string := ["auth_token"; "ct0"; "guest_id"].

(** In the registry, an entry that is not locked is usable. *)
Definition flags_ok (st : Provider) : Prop :=
  Forall (fun c => isLocked c = false -> usable c = true) (credentials st).

(** ** Normalisation of search results *)

(** No complete tag: no [<] of the string has a [>] after it. *)
Fixpoint tag_free (s : string) : bool :=
  match s with
  | EmptyString => true
  | String c r => negb (Ascii.eqb c "<" && Tweets.has_gt r) && tag_free r
  end.

(** Whether the character occurs in the string. *)
Fixpoint has_char (sep : ascii) (s : string) : bool :=
  match s with
  | EmptyString => false
  | String c r => Ascii.eqb c sep || has_char sep r
  end.

(** [parts.join(sep)] for a separator of one character. *)
Fixpoint join_with (sep : ascii) (parts : list string) : string :=
  match parts with
  | [] => EmptyString
  | [part] => part
  | part :: rest => (part ++ String sep (join_with sep rest))%string
  end.

(** ** Paginated fetches *)

(** A driver that returns no more tweets than it is asked for. *)
Definition honours_count {A} (driver : Z -> Z -> option string -> Timeline.Page A) : Prop :=
  forall k count cursor tweets next,
    driver k count cursor = Timeline.PageOf tweets next ->
    Z.of_nat (length tweets) <= Z.max 0 count.

(** Newest first. *)
Definition newer_first {A} (x y : Z * A) : Prop := fst y <= fst x.

(** ** Proxy pool: the order of reservations *)

(** No proxy of [st] is ready earlier in [st']. *)
Definition not_earlier (st st' : Provider) : Prop :=
  forall p q, proxies st !! p = Some q ->
    exists q', proxies st' !! p = Some q' /\ nextRequestAt q <= nextRequestAt q'.

(** ** Proxy pool: a well-formed proxies.txt *)

(** A printable ASCII character other than the space and the colon. *)
Definition plain_char (c : ascii) : bool :=
  let n := N_of_ascii c in ((33 <=? n) && (n <=? 126) && negb (n =? 58))%N.

Fixpoint plain (s : string) : bool :=
  match s with
  | EmptyString => true
  | String c r => plain_char c && plain r
  end.

(** The four components of a proxy and the line that gives them. *)
Record ProxyEntry := {
  entry_host : string;
  entry_port : string;
  entry_username : string;
  entry_password : string;
}.

Definition plain_entry (e : ProxyEntry) : Prop :=
  plain (entry_host e) = true /\ plain (entry_port e) = true
  /\ plain (entry_username e) = true /\ plain (entry_password e) = true.

Definition entry_line (e : ProxyEntry) : string :=
  join_with ":" [entry_host e; entry_port e; entry_username e; entry_password e].

Definition entry_proxy (index : nat) (e : ProxyEntry) : Proxies.LoadedProxy :=
  {| Proxies.lp_id := "proxy-" ++ Proxies.decimal index;
     Proxies.lp_host := Some (entry_host e); Proxies.lp_port := Some (entry_port e);
     Proxies.lp_username := Some (entry_username e);
     Proxies.lp_password := Some (entry_password e);
     Proxies.lp_nextRequestAt := 0 |}.

(** A character that [trim] leaves alone wherever it stands, and that does
    not end a line. *)
Definition line_char (c : ascii) : Prop :=
  Proxies.ascii_space c = false
  /\ (forall c2, Proxies.wide_space2 c c2 = false)
  /\ (forall c2 c3, Proxies.wide_space3 c c2 c3 = false)
  /\ Ascii.eqb c Proxies.line_feed = false.

(** ** Health tracker: the records of a running provider *)

(** A record with a failure counter that is not negative, an error history
    within its limit, and a status other than DISABLED. *)
Definition record_ok (h : AccountHealth) : Prop := health_ok h /\ status h <> DISABLED.

Definition records_ok (st : Provider) : Prop :=
  forall user h, accountHealth st !! user = Some h -> record_ok h.

(** ** Dispatcher: logins that do not overlap *)

(** The call waits inside [tryLogin]. *)
Definition in_login (c : Dispatch.Call) : bool :=
  match Dispatch.point c with
  | Dispatch.InLogin _ => true
  | _ => false
  end.

(** No call waits inside [tryLogin]. *)
Definition quiet (w : Dispatch.World) : bool :=
  forallb (fun c => negb (in_login c)) (Dispatch.calls w).

(** The schedules on which nothing runs while a login is pending: an event
    that leaves a call inside [tryLogin] is followed at once by the
    [LoginSettles] of that call. *)
Fixpoint run_sequential (cpuCount : Z) (schedule : list Dispatch.Event) (w : Dispatch.World)
  : option Dispatch.World :=
  match schedule with
  | [] => Some w
  | e :: rest =>
      match Dispatch.step cpuCount w e with
      | None => None
      | Some w1 =>
          if quiet w1 then run_sequential cpuCount rest w1
          else
            match rest with
            | Dispatch.LoginSettles k answer now :: rest' =>
                match Dispatch.step cpuCount w1 (Dispatch.LoginSettles k answer now) with
                | Some w2 => if quiet w2 then run_sequential cpuCount rest' w2 else None
                | None => None
                end
            | _ => None
            end
      end
  end.

(** A status that marks an account as lost. *)
Definition lost (s : AccountStatus) : Prop := s = SUSPENDED \/ s = LOCKED.

(** Every entry of the registry whose username has a lost status is
    locked. *)
Definition lost_is_locked (st : Provider) : Prop :=
  forall i c, credentials st !! i = Some c ->
    lost (fst (health_view (username c) st)) -> isLocked c = true.

(** From [st] to [st']: the load flag and the usernames of the registry are
    the same, no entry is unlocked, and a username whose status is lost in
    [st'] had a lost status in [st] or has all its entries locked. *)
Definition keeps (st st' : Provider) : Prop :=
  credentialsLoaded st' = credentialsLoaded st
  /\ username <$> credentials st' = username <$> credentials st
  /\ (forall i c c', credentials st !! i = Some c -> credentials st' !! i = Some c' ->
        isLocked c = true -> isLocked c' = true)
  /\ (forall u, lost (fst (health_view u st')) ->
        lost (fst (health_view u st))
        \/ forall i c', credentials st' !! i = Some c' -> username c' = u ->
             isLocked c' = true).

(** The registry is loaded, is not empty, has usernames that are all
    different, and locks what is lost. *)
Definition orderly (st : Provider) : Prop :=
  credentialsLoaded st = true
  /\ credentials st <> []
  /\ NoDup (username <$> credentials st)
  /\ lost_is_locked st.

(** Every account that a call waits on inside [tryLogin] is unlocked. *)
Definition pending_unlocked (w : Dispatch.World) : Prop :=
  forall k c i a,
    Dispatch.calls w !! k = Some c -> Dispatch.point c = Dispatch.InLogin i ->
    credentials (Dispatch.provider w) !! i = Some a -> isLocked a = false.

(** The status that the tracker holds for a username, [HEALTHY] when it
    holds none. *)
Definition status_at (m : gmap string AccountHealth) (u : string) : AccountStatus :=
  match m !! u with
  | Some h => status h
  | None => HEALTHY
  end.

(** One call on its own: the login resolves, the executor is answered
    ["Response status: 401"], and the next turn of the loop finds no
    account. *)
Definition sequential_schedule : list Dispatch.Event :=
  [ Dispatch.Enter 1000; Dispatch.Attempt 0 1000 0 true;
    Dispatch.LoginSettles 0 (LoginResolved [session_cookie "first"]) 3000;
    Dispatch.ExecutorSettles 0 (Dispatch.Thrown "Response status: 401") 0 3500;
    Dispatch.Attempt 0 3600 0 true ].

(** ** Dispatcher: the phrases of the suspension test

    The first test of the [catch] block of [executeWithAccount], on the
    message as it is. *)
Definition suspension_phrase (message : string) : bool :=
  Str.includes message "Response status: 401"
  || Str.includes message "status code: 401"
  || Str.includes message "Failed to perform request".

(** ** Request windows in the order of the clock *)

(** The request window that the tracker holds for a username; a username
    without a record has no request behind it. *)
Definition stored_window (user : string) (st : Provider) : list Z :=
  match accountHealth st !! user with
  | Some h => requestHistory h
  | None => []
  end.

(** A window whose timestamps are in the order they were taken, none later
    than [t]. *)
Definition upto (t : Z) (window : list Z) : Prop :=
  Sorted Z.le window /\ Forall (fun x => x <= t) window.

Definition windows_upto (t : Z) (st : Provider) : Prop :=
  forall user h, accountHealth st !! user = Some h -> upto t (requestHistory h).

(** The reading of the clock that an event carries. *)
Definition event_time (e : Dispatch.Event) : option Z :=
  match e with
  | Dispatch.Enter now => Some now
  | Dispatch.Attempt _ now _ _ => Some now
  | Dispatch.LoginSettles _ _ now => Some now
  | Dispatch.ExecutorSettles _ _ _ now => Some now
  | Dispatch.WriteSettles _ _ => None
  | Dispatch.Disk _ => None
  end.

(** The clock does not go back along the schedule: each event that reads
    the clock reads [t] or later, and no earlier than the event before
    it. *)
Fixpoint clock_forward (t : Z) (schedule : list Dispatch.Event) : Prop :=
  match schedule with
  | [] => True
  | e :: rest =>
      match event_time e with
      | Some now => t <= now /\ clock_forward now rest
      | None => clock_forward t rest
      end
  end.

(** ** Health tracker: what goes on while an account rests *)

(** A selection, or a report to the tracker. *)
Inductive RestOp :=
| Selects (now : Z) (random : nat)
| Reports (user : string) (success : bool) (error : option string)
    (responseTimeMs : option Z) (now : Z).

Definition rest_step (st : Provider) (op : RestOp) : Provider :=
  match op with
  | Selects now random => snd (selectAvailableAccount now random st)
  | Reports user success error responseTimeMs now =>
      snd (updateAccountHealth user success error responseTimeMs now st)
  end.

Definition rest_run (ops : list RestOp) (st : Provider) : Provider :=
  fold_left rest_step ops st.

(** The operation is no report about [user]. *)
Definition spares (user : string) (op : RestOp) : Prop :=
  match op with
  | Selects _ _ => True
  | Reports other _ _ _ _ => other <> user
  end.

(** ** Registry: the file once the registry is loaded *)

(** A registry that is loaded and not empty. *)
Definition loaded_registry (st : Provider) : Prop :=
  credentialsLoaded st = true /\ credentials st <> [].

(** A result with another content of [data.json]. *)
Definition refile {A} (file : option (list Account)) (result : A * Provider) : A * Provider :=
  (fst result, set_dataFile file (snd result)).

(** A world with another content of [data.json], and a world without the
    content of the file: what the provider holds in memory, the calls, and
    the writes in flight. *)
Definition with_file (file : option (list Account)) (w : Dispatch.World) : Dispatch.World :=
  {| Dispatch.provider := set_dataFile file (Dispatch.provider w);
     Dispatch.calls := Dispatch.calls w |}.

Definition without_file (w : Dispatch.World) : Dispatch.World := with_file None w.

(** * Properties *)

(** ** JSON.parse: the fuel of the parser *)

Module JsonFuel.
Import Json.

Lemma skip_ws_le s : (String.length (skip_ws s) <= String.length s)%nat.
Proof. induction s as [|c r IH]; cbn; [lia|]. destruct (is_ws c); cbn; lia. Qed.

Lemma parse_chars_lt_aux (n : nat) :
  forall s, (String.length s <= n)%nat ->
  forall acc u r,
    parse_chars s acc = Some (u, r) -> (String.length r < String.length s)%nat.
Proof.
  induction n as [|n IH]; intros s Hn acc u r;
    (destruct s as [|c s1]; [discriminate|]); cbn [String.length] in Hn; [lia|].
  cbn [parse_chars].
  destruct (Ascii.eqb c Str.quote). { intros [= _ <-]. cbn; lia. }
  destruct (Ascii.eqb c "\").
  - destruct s1 as [|e s2]; [discriminate|].
    destruct (escape_val e).
    + intros H. apply IH in H; cbn [String.length] in *; lia.
    + destruct (Ascii.eqb e "u"); [|discriminate].
      destruct s2 as [|h1 [|h2 [|h3 [|h4 s3]]]]; try discriminate.
      destruct (hex_val h1), (hex_val h2), (hex_val h3), (hex_val h4); try discriminate.
      intros H. apply IH in H; cbn [String.length] in *; lia.
  - destruct (_ <? _)%N; [discriminate|].
    intros H. apply IH in H; cbn [String.length] in *; lia.
Qed.

Lemma parse_chars_lt s acc u r :
  parse_chars s acc = Some (u, r) -> (String.length r < String.length s)%nat.
Proof. by apply (parse_chars_lt_aux (String.length s)). Qed.

Lemma digits_le s :
  forall a n v k r,
    digits s a n = (v, k, r) -> (String.length r <= String.length s)%nat.
Proof.
  induction s as [|c s IH]; intros a n v k r; cbn [digits].
  - intros [= _ _ <-]. lia.
  - destruct (digit_val c); [| intros [= _ _ <-]; lia].
    intros H. apply IH in H. cbn [String.length]. lia.
Qed.

Lemma strip_lt lit :
  forall s r,
    strip lit s = Some r ->
    (String.length r + String.length lit = String.length s)%nat.
Proof.
  induction lit as [|a lit IH]; intros s r; cbn [strip].
  - intros [= <-]. cbn; lia.
  - destruct s as [|b s]; [discriminate|]. destruct (Ascii.eqb a b); [|discriminate].
    intros H. apply IH in H. cbn [String.length]. lia.
Qed.

Lemma parse_exponent_le s e r :
  parse_exponent s = Some (e, r) -> (String.length r <= String.length s)%nat.
Proof.
  unfold parse_exponent. destruct s as [|c s]; [intros [= _ <-]; lia|].
  destruct (_ || _); [| intros [= _ <-]; lia].
  destruct s as [|sg s'].
  - cbn. discriminate.
  - destruct (Ascii.eqb sg "-"); [| destruct (Ascii.eqb sg "+")];
    match goal with
    | |- context [digits ?x 0 0] => destruct (digits x 0 0) as [[v n] r2] eqn:Hd
    end;
    apply digits_le in Hd; destruct (n =? 0); try discriminate;
    intros [= _ <-]; cbn [String.length] in *; lia.
Qed.

Lemma parse_fraction_le s m v n r :
  parse_fraction s m = Some (v, n, r) -> (String.length r <= String.length s)%nat.
Proof.
  unfold parse_fraction. destruct s as [|c s]; [intros [= _ _ <-]; lia|].
  destruct (Ascii.eqb c "."); [| intros [= _ _ <-]; lia].
  destruct (digits s m 0) as [[v' n'] r1] eqn:Hd. apply digits_le in Hd.
  destruct (n' =? 0); [discriminate|]. intros [= _ _ <-]. cbn [String.length]. lia.
Qed.

Lemma parse_number_lt s v r :
  parse_number s = Some (v, r) -> (String.length r < String.length s)%nat.
Proof.
  unfold parse_number.
  set (p := match s with
            | String c r0 => if Ascii.eqb c "-" then (true, r0) else (false, s)
            | EmptyString => (false, s)
            end).
  assert (Hp : (String.length (snd p) <= String.length s)%nat).
  { subst p. destruct s as [|c r0]; [cbn; lia|]. destruct (Ascii.eqb c "-"); cbn; lia. }
  destruct p as [neg s1]. cbn [snd] in Hp.
  destruct s1 as [|c r0]; [discriminate|].
  assert (Hint : forall i r1,
    (if Ascii.eqb c "0" then Some (0, r0)
     else match digit_val c with
          | Some _ => let '(v0, _, r1) := digits (String c r0) 0 0 in Some (v0, r1)
          | None => None
          end) = Some (i, r1) ->
    (String.length r1 < String.length (String c r0))%nat).
  { intros i r1. destruct (Ascii.eqb c "0"); [intros [= _ <-]; cbn; lia|].
    destruct (digit_val c) eqn:Hdc; [|discriminate].
    cbn [digits]. rewrite Hdc. destruct (digits r0 _ _) as [[v0 k] r2] eqn:Hd.
    apply digits_le in Hd. intros [= _ <-]. cbn [String.length]. lia. }
  destruct (if Ascii.eqb c "0" then _ else _) as [[i r1]|] eqn:Hi; [|discriminate].
  specialize (Hint i r1 eq_refl).
  destruct (parse_fraction r1 i) as [[[m nf] r2]|] eqn:Hf; [|discriminate].
  apply parse_fraction_le in Hf.
  destruct (parse_exponent r2) as [[e r3]|] eqn:He; [|discriminate].
  apply parse_exponent_le in He. intros [= _ <-]. cbn [String.length] in *. lia.
Qed.

Lemma expect_lt lit v s v' r :
  lit <> EmptyString ->
  expect lit v s = Some (v', r) -> (String.length r < String.length s)%nat.
Proof.
  intros Hl. unfold expect. destruct (strip lit s) eqn:H; [|discriminate].
  intros [= _ <-]. apply strip_lt in H.
  destruct lit; [congruence|]. cbn [String.length] in H. lia.
Qed.

(** A value takes at least one character. *)
Lemma parse_lt (fuel : nat) :
  (forall s v r,
     parse_value fuel s = Some (v, r) -> (String.length r < String.length s)%nat)
  /\ (forall s acc v r,
        parse_items fuel s acc = Some (v, r) -> (String.length r < String.length s)%nat)
  /\ (forall s acc v r,
        parse_members fuel s acc = Some (v, r) -> (String.length r < String.length s)%nat).
Proof.
  induction fuel as [|fuel (IHv & IHi & IHm)]; [repeat split; discriminate|].
  split; [|split].
  - intros s v r. cbn [parse_value].
    pose proof (skip_ws_le s) as Hs.
    destruct (skip_ws s) as [|c s1]; [discriminate|]. cbn [String.length] in Hs.
    destruct (Ascii.eqb c "[").
    { pose proof (skip_ws_le s1) as Hs1.
      destruct (skip_ws s1) as [|c1 s2]; [discriminate|]. cbn [String.length] in Hs1.
      destruct (Ascii.eqb c1 "]"); [intros [= _ <-]; lia|].
      intros H. apply IHi in H. cbn [String.length] in H. lia. }
    destruct (Ascii.eqb c "{").
    { pose proof (skip_ws_le s1) as Hs1.
      destruct (skip_ws s1) as [|c1 s2]; [discriminate|]. cbn [String.length] in Hs1.
      destruct (Ascii.eqb c1 "}"); [intros [= _ <-]; lia|].
      intros H. apply IHm in H. cbn [String.length] in H. lia. }
    destruct (Ascii.eqb c Str.quote).
    { destruct (parse_chars s1 []) as [[u r1]|] eqn:Hc; [|discriminate].
      apply parse_chars_lt in Hc. intros [= _ <-]. lia. }
    destruct (Ascii.eqb c "t").
    { intros H. apply expect_lt in H; [cbn [String.length] in H; lia | discriminate]. }
    destruct (Ascii.eqb c "f").
    { intros H. apply expect_lt in H; [cbn [String.length] in H; lia | discriminate]. }
    destruct (Ascii.eqb c "n").
    { intros H. apply expect_lt in H; [cbn [String.length] in H; lia | discriminate]. }
    intros H. apply parse_number_lt in H. cbn [String.length] in H. lia.
  - intros s acc v r. cbn [parse_items].
    destruct (parse_value fuel s) as [[v1 r1]|] eqn:Hv; [|discriminate].
    apply IHv in Hv. pose proof (skip_ws_le r1) as Hs.
    destruct (skip_ws r1) as [|c r2]; [discriminate|]. cbn [String.length] in Hs.
    destruct (Ascii.eqb c ",").
    { intros H. apply IHi in H. lia. }
    destruct (Ascii.eqb c "]"); [|discriminate]. intros [= _ <-]. lia.
  - intros s acc v r. cbn [parse_members].
    pose proof (skip_ws_le s) as Hs.
    destruct (skip_ws s) as [|q s1]; [discriminate|]. cbn [String.length] in Hs.
    destruct (Ascii.eqb q Str.quote); [|discriminate].
    destruct (parse_chars s1 []) as [[k r1]|] eqn:Hc; [|discriminate].
    apply parse_chars_lt in Hc. pose proof (skip_ws_le r1) as Hs1.
    destruct (skip_ws r1) as [|c r2]; [discriminate|]. cbn [String.length] in Hs1.
    destruct (Ascii.eqb c ":"); [|discriminate].
    destruct (parse_value fuel r2) as [[v1 r3]|] eqn:Hv; [|discriminate].
    apply IHv in Hv. pose proof (skip_ws_le r3) as Hs3.
    destruct (skip_ws r3) as [|d r4]; [discriminate|]. cbn [String.length] in Hs3.
    destruct (Ascii.eqb d ",").
    { intros H. apply IHm in H. lia. }
    destruct (Ascii.eqb d "}"); [|discriminate]. intros [= _ <-]. lia.
Qed.

(** More fuel than twice the length of the text changes nothing. *)
Lemma parse_stable (fuel : nat) :
  (forall s more, (2 * String.length s + 1 <= fuel)%nat -> (fuel <= more)%nat ->
     parse_value more s = parse_value fuel s)
  /\ (forall s acc more, (2 * String.length s + 2 <= fuel)%nat -> (fuel <= more)%nat ->
     parse_items more s acc = parse_items fuel s acc)
  /\ (forall s acc more, (2 * String.length s + 2 <= fuel)%nat -> (fuel <= more)%nat ->
     parse_members more s acc = parse_members fuel s acc).
Proof.
  induction fuel as [|fuel (IHv & IHi & IHm)]; [repeat split; intros; lia|].
  pose proof (parse_lt fuel) as (Lv & _ & _).
  split; [|split].
  - intros s more Hb Hm. destruct more as [|more]; [lia|]. cbn [parse_value].
    pose proof (skip_ws_le s) as Hs.
    destruct (skip_ws s) as [|c s1]; [reflexivity|]. cbn [String.length] in Hs.
    pose proof (skip_ws_le s1) as Hs1.
    destruct (skip_ws s1) as [|c1 s2]; [reflexivity|]. cbn [String.length] in Hs1.
    rewrite (IHi (String c1 s2) [] more) by (cbn [String.length]; lia).
    rewrite (IHm (String c1 s2) [] more) by (cbn [String.length]; lia).
    reflexivity.
  - intros s acc more Hb Hm. destruct more as [|more]; [lia|]. cbn [parse_items].
    rewrite (IHv s more) by lia.
    destruct (parse_value fuel s) as [[v1 r1]|] eqn:Hv; [|reflexivity].
    apply Lv in Hv. pose proof (skip_ws_le r1) as Hs.
    destruct (skip_ws r1) as [|c r2]; [reflexivity|]. cbn [String.length] in Hs.
    rewrite (IHi r2 (v1 :: acc) more) by lia. reflexivity.
  - intros s acc more Hb Hm. destruct more as [|more]; [lia|]. cbn [parse_members].
    pose proof (skip_ws_le s) as Hs.
    destruct (skip_ws s) as [|q s1]; [reflexivity|]. cbn [String.length] in Hs.
    destruct (Ascii.eqb q Str.quote); [|reflexivity].
    destruct (parse_chars s1 []) as [[k r1]|] eqn:Hc; [|reflexivity].
    apply parse_chars_lt in Hc. pose proof (skip_ws_le r1) as Hs1.
    destruct (skip_ws r1) as [|c r2]; [reflexivity|]. cbn [String.length] in Hs1.
    destruct (Ascii.eqb c ":"); [|reflexivity].
    rewrite (IHv r2 more) by lia.
    destruct (parse_value fuel r2) as [[v1 r3]|] eqn:Hv; [|reflexivity].
    apply Lv in Hv. pose proof (skip_ws_le r3) as Hs3.
    destruct (skip_ws r3) as [|d r4]; [reflexivity|]. cbn [String.length] in Hs3.
    rewrite (IHm r4 ((k, v1) :: acc) more) by lia. reflexivity.
Qed.

(** [Json.parse] has all the fuel it can use: with any larger amount the
    answer is the same. *)
Lemma parse_fuel (text : string) (more : nat) :
  (2 * String.length text + 2 <= more)%nat ->
  parse_value more text = parse_value (2 * String.length text + 2) text.
Proof.
  intros H. destruct (parse_stable (2 * String.length text + 2)) as (Hv & _ & _).
  apply Hv; lia.
Qed.
End JsonFuel.

(** ** Concurrency gate *)

Module Gate.

(** C8 (as written, refuted): with 13 cores the written capacity
    [max(50, cpuCount * 4)] is 52, and the constructor computes 50, which
    does not exceed 50. *)
Lemma capacity_of_13_cores_is_not_52 :
  MAX_CONCURRENT_OPERATIONS 13 <> Z.max 50 (13 * 4)
  /\ ~ (50 < MAX_CONCURRENT_OPERATIONS 13).
Proof. split; vm_compute; congruence. Qed.

(** C8 (amended): the capacity is [max(50, min(50, cpuCount * 4))], which
    is 50 for every number of cores; an acquisition is granted exactly when
    fewer than 50 operations are in flight. *)
Theorem capacity_is_50 (cpuCount : Z) (st : Provider) :
  MAX_CONCURRENT_OPERATIONS cpuCount = 50
  /\ fst (try_acquire cpuCount st) = (concurrentOperations st <? 50).
Proof.
  assert (H : MAX_CONCURRENT_OPERATIONS cpuCount = 50)
    by (unfold MAX_CONCURRENT_OPERATIONS; lia).
  split; [exact H |].
  unfold try_acquire. rewrite H.
  destruct (concurrentOperations st <? 50); reflexivity.
Qed.

End Gate.

(** ** Circuit breaker *)

Module Breaker.

Lemma failures_S (n : nat) (now : Z) (st : Provider) :
  consecutive_failures (S n) now st
  = updateCircuitBreaker false now (consecutive_failures n now st).
Proof. reflexivity. Qed.

Lemma failures_closed (n : nat) (now : Z) (st : Provider) :
  circuitState st = CLOSED ->
  circuitFailureCount st + Z.of_nat n < CIRCUIT_FAILURE_THRESHOLD ->
  circuitState (consecutive_failures n now st) = CLOSED
  /\ circuitFailureCount (consecutive_failures n now st)
     = circuitFailureCount st + Z.of_nat n.
Proof.
  unfold CIRCUIT_FAILURE_THRESHOLD.
  induction n as [|n IH]; intros Hc Hlt.
  - split; [assumption | change (consecutive_failures 0 now st) with st; lia].
  - rewrite Nat2Z.inj_succ in *.
    destruct IH as [IHs IHc]; [assumption | lia |].
    rewrite failures_S. unfold updateCircuitBreaker.
    rewrite IHs. cbn [negb]. unfold CIRCUIT_FAILURE_THRESHOLD.
    destruct (Z.leb_spec 15 (circuitFailureCount (consecutive_failures n now st) + 1))
      as [Hle|Hgt]; [lia |].
    cbn [set_circuit circuitState circuitFailureCount]. split; [reflexivity | lia].
Qed.

(** Fifteen failures in a row trip a closed breaker that had counted none,
    and the tripped breaker refuses every dispatch of the next 60 s. *)
Lemma fifteen_failures_open (now : Z) (st : Provider) :
  circuitState st = CLOSED ->
  circuitFailureCount st = 0 ->
  let tripped := consecutive_failures 15 now st in
  circuitState tripped = OPEN
  /\ circuitOpenTime tripped = now
  /\ forall later, later - now <= 60000 ->
       checkCircuitBreaker later tripped = (false, tripped).
Proof.
  intros Hc H0 tripped.
  destruct (failures_closed 14 now st Hc) as [Hs Hn];
    [rewrite H0; unfold CIRCUIT_FAILURE_THRESHOLD; lia |].
  assert (Hstate : circuitState tripped = OPEN /\ circuitOpenTime tripped = now).
  { subst tripped. rewrite failures_S. unfold updateCircuitBreaker.
    rewrite Hs, Hn, H0. cbn [negb]. unfold CIRCUIT_FAILURE_THRESHOLD.
    change (15 <=? 0 + Z.of_nat 14 + 1) with true. cbv iota.
    split; reflexivity. }
  destruct Hstate as [Hopen Htime].
  split; [exact Hopen |]. split; [exact Htime |].
  intros later Hlater. unfold checkCircuitBreaker. rewrite Hopen, Htime.
  unfold CIRCUIT_RESET_TIMEOUT_MS.
  destruct (Z.ltb_spec (60 * 1000) (later - now)) as [Hlt|Hge]; [lia | reflexivity].
Qed.

(** C3 (as written, refuted): a breaker tripped at time 0 by fifteen
    failures is asked at time 60000.  Then [now - openedAt >= 60 s], and the
    dispatch is still refused, the breaker still [OPEN]. *)
Lemma open_refuses_at_exactly_60s :
  let st := consecutive_failures 15 0 initial in
  circuitState st = OPEN
  /\ 60000 - circuitOpenTime st >= 60 * 1000
  /\ checkCircuitBreaker 60000 st = (false, st).
Proof. vm_compute. repeat split; congruence. Qed.

(** C3 (amended): the three-state machine of the breaker, with the [OPEN]
    state left only once strictly more than 60 s have passed.
    - [CLOSED]: every dispatch is allowed; a failure adds one to the count
      and, once the count reaches 15, opens the breaker and records the
      time; a success takes one off the count, not below zero.
    - [OPEN]: a dispatch is refused, and nothing changes, while
      [now - openedAt <= 60 s]; after that the next dispatch is allowed and
      the breaker is [HALF_OPEN]; outcomes reported meanwhile change nothing.
    - [HALF_OPEN]: dispatches are allowed; a success closes the breaker with
      the count at 0, a failure opens it again with a fresh opening time. *)
Theorem breaker_machine (count openedAt now : Z) (st : Provider) :
  let closed := set_circuit CLOSED count openedAt st in
  let open := set_circuit OPEN count openedAt st in
  let half := set_circuit HALF_OPEN count openedAt st in
  (* CLOSED *)
  checkCircuitBreaker now closed = (true, closed)
  /\ updateCircuitBreaker false now closed =
       (if 15 <=? count + 1 then set_circuit OPEN (count + 1) now st
        else set_circuit CLOSED (count + 1) openedAt st)
  /\ updateCircuitBreaker true now closed =
       set_circuit CLOSED (Z.max 0 (count - 1)) openedAt st
  (* OPEN *)
  /\ checkCircuitBreaker now open =
       (if 60000 <? now - openedAt then (true, half) else (false, open))
  /\ (forall success, updateCircuitBreaker success now open = open)
  (* HALF_OPEN *)
  /\ checkCircuitBreaker now half = (true, half)
  /\ updateCircuitBreaker true now half = set_circuit CLOSED 0 openedAt st
  /\ updateCircuitBreaker false now half = set_circuit OPEN count now st
  (* fifteen failures in a row, from a closed breaker with a count of 0 *)
  /\ (let tripped := consecutive_failures 15 now (set_circuit CLOSED 0 openedAt st) in
      circuitState tripped = OPEN
      /\ circuitOpenTime tripped = now
      /\ forall later, later - now <= 60000 ->
           checkCircuitBreaker later tripped = (false, tripped)).
Proof.
  cbv zeta.
  split; [reflexivity |]. split; [reflexivity |]. split; [reflexivity |].
  split; [reflexivity |]. split; [reflexivity |]. split; [reflexivity |].
  split; [reflexivity |]. split; [reflexivity |].
  by apply fifteen_failures_open.
Qed.

End Breaker.

(** ** Proxy pool *)

Module Pool.

Lemma assign_bound (user : string) (p : nat) (st : Provider) :
  proxyAssignment st !! user = Some p ->
  assignProxyToAccount user st = (Some p, st).
Proof. intros H. unfold assignProxyToAccount. rewrite H. reflexivity. Qed.

Lemma assign_fresh (user : string) (st : Provider) :
  proxyAssignment st !! user = None ->
  proxies st <> [] ->
  let index := (size (proxyAssignment st) mod length (proxies st))%nat in
  assignProxyToAccount user st =
    (Some index, set_proxyAssignment (<[user := index]> (proxyAssignment st)) st).
Proof.
  intros H Hne. unfold assignProxyToAccount. rewrite H.
  rewrite bool_decide_eq_false_2; [reflexivity |].
  destruct (proxies st); [congruence | discriminate].
Qed.

Lemma assign_empty (user : string) (st : Provider) :
  proxyAssignment st !! user = None ->
  proxies st = [] ->
  assignProxyToAccount user st = (None, st).
Proof.
  intros H He. unfold assignProxyToAccount. rewrite H, He. reflexivity.
Qed.

Lemma assign_keeps (user other : string) (p : nat) (st : Provider) :
  proxyAssignment st !! user = Some p ->
  proxyAssignment (snd (assignProxyToAccount other st)) !! user = Some p.
Proof.
  intros H. unfold assignProxyToAccount.
  destruct (proxyAssignment st !! other) eqn:Ho; [exact H |].
  case_bool_decide; [exact H |]. cbn.
  rewrite lookup_insert_ne; [exact H | congruence].
Qed.

Lemma assign_proxies (user : string) (st : Provider) :
  proxies (snd (assignProxyToAccount user st)) = proxies st.
Proof.
  unfold assignProxyToAccount.
  destruct (proxyAssignment st !! user); [reflexivity |].
  case_bool_decide; reflexivity.
Qed.

Lemma reserve_assignment (user : string) (now : Z) (st : Provider) :
  proxyAssignment (snd (getProxyForAccount user now st))
  = proxyAssignment (snd (assignProxyToAccount user st)).
Proof.
  unfold getProxyForAccount.
  destruct (assignProxyToAccount user st) as [[p|] st1]; [| reflexivity].
  cbn [snd]. destruct (proxies st1 !! p) as [q|]; [| reflexivity].
  destruct (now <? nextRequestAt q); reflexivity.
Qed.

Lemma step_keeps (op : PoolOp) (user : string) (p : nat) (st : Provider) :
  proxyAssignment st !! user = Some p ->
  proxyAssignment (pool_step st op) !! user = Some p.
Proof.
  intros H. destruct op as [other|other now]; cbn [pool_step].
  - by apply assign_keeps.
  - rewrite reserve_assignment. by apply assign_keeps.
Qed.

(** Once bound, bound for good. *)
Lemma run_keeps (ops : list PoolOp) (user : string) (p : nat) (st : Provider) :
  proxyAssignment st !! user = Some p ->
  proxyAssignment (pool_run ops st) !! user = Some p.
Proof.
  revert st. induction ops as [|op ops IH]; intros st H; [exact H |].
  cbn [pool_run fold_left]. apply IH. by apply step_keeps.
Qed.

(** A reservation rewrites [nextRequestAt] of one proxy and nothing else:
    the array keeps its length. *)
Lemma step_length (op : PoolOp) (st : Provider) :
  length (proxies (pool_step st op)) = length (proxies st).
Proof.
  destruct op as [user|user now]; cbn [pool_step].
  - by rewrite assign_proxies.
  - unfold getProxyForAccount.
    pose proof (assign_proxies user st) as Hp.
    destruct (assignProxyToAccount user st) as [[p|] st1]; cbn [snd] in *;
      [| by rewrite Hp].
    destruct (proxies st1 !! p) as [q|]; cbn [snd]; [| by rewrite Hp].
    destruct (now <? nextRequestAt q); cbn [snd set_proxies proxies];
      [by rewrite Hp |].
    rewrite length_insert. by rewrite Hp.
Qed.

Lemma run_length (ops : list PoolOp) (st : Provider) :
  length (proxies (pool_run ops st)) = length (proxies st).
Proof.
  revert st. induction ops as [|op ops IH]; intros st; [reflexivity |].
  cbn [pool_run fold_left]. fold (pool_run ops (pool_step st op)). rewrite IH. apply step_length.
Qed.

(** With no proxy loaded nobody is ever bound. *)
Lemma run_unbound (ops : list PoolOp) (st : Provider) :
  proxies st = [] -> proxyAssignment st = ∅ ->
  proxies (pool_run ops st) = [] /\ proxyAssignment (pool_run ops st) = ∅.
Proof.
  revert st. induction ops as [|op ops IH]; intros st Hp Ha; [by split |].
  cbn [pool_run fold_left]. apply IH.
  - pose proof (step_length op st) as Hl. rewrite Hp in Hl.
    by destruct (proxies (pool_step st op)).
  - assert (Hassign : forall user, snd (assignProxyToAccount user st) = st).
    { intros user. rewrite assign_empty; [reflexivity | | exact Hp].
      rewrite Ha. apply lookup_empty. }
    destruct op as [user|user now]; cbn [pool_step].
    + by rewrite Hassign.
    + by rewrite reserve_assignment, Hassign.
Qed.

(** First assignments in a row, for usernames that are all different and
    not bound yet: each binding is stored, the count grows by one each
    time, and the indices go round the proxy list. *)
Lemma assign_in_turn (users : list string) :
  forall st,
    NoDup users ->
    (forall u, u ∈ users -> proxyAssignment st !! u = None) ->
    proxies st <> [] ->
    let st' := pool_run (Assign <$> users) st in
    size (proxyAssignment st') = (size (proxyAssignment st) + length users)%nat
    /\ proxies st' = proxies st
    /\ (forall u, u ∉ users -> proxyAssignment st' !! u = proxyAssignment st !! u)
    /\ (forall i user, users !! i = Some user ->
          proxyAssignment st' !! user
          = Some ((size (proxyAssignment st) + i) mod length (proxies st))%nat).
Proof.
  induction users as [|u rest IH]; intros st Hnd Hun Hne; cbv zeta.
  { cbn. split; [lia|]. split; [reflexivity|]. split; [done|]. intros i user H. discriminate. }
  apply NoDup_cons in Hnd as [Hu Hnd].
  cbn [fmap list_fmap pool_run fold_left pool_step].
  fold (pool_run (Assign <$> rest) (snd (assignProxyToAccount u st))).
  assert (Hfresh := assign_fresh u st (Hun u ltac:(by left)) Hne). cbv zeta in Hfresh.
  rewrite Hfresh. cbn [snd].
  set (index := (size (proxyAssignment st) mod length (proxies st))%nat).
  set (st1 := set_proxyAssignment (<[u := index]> (proxyAssignment st)) st).
  assert (Hsize : size (proxyAssignment st1) = S (size (proxyAssignment st))).
  { unfold st1. cbn. apply map_size_insert_None. apply Hun. by left. }
  destruct (IH st1 Hnd) as (I1 & I2 & I3 & I4).
  { intros v Hv. unfold st1. cbn. rewrite lookup_insert_ne; [apply Hun; by right|].
    intros ->. contradiction. }
  { exact Hne. }
  split; [rewrite I1, Hsize; cbn [length]; lia|].
  split; [by rewrite I2|]. split.
  - intros v Hv. rewrite I3 by (intros H; apply Hv; by right).
    unfold st1. cbn. apply lookup_insert_ne. intros ->. apply Hv. by left.
  - intros [|i] user Hi.
    + cbn in Hi. injection Hi as <-. rewrite I3 by exact Hu.
      unfold st1. cbn. rewrite lookup_insert_eq. by rewrite Nat.add_0_r.
    + cbn in Hi. rewrite (I4 i user Hi). rewrite Hsize.
      change (proxies st1) with (proxies st). do 2 f_equal. lia.
Qed.

(** C9: sticky round-robin assignment.  With a proxy list that is not
    empty, usernames that have no proxy yet and ask for one in turn: the
    first assignment of each returns [proxies[assignedCount % |proxies|]],
    where [assignedCount] is the number of usernames bound when it asks,
    which is one more for each username bound before it; the binding is
    stored, and whatever the pool does afterwards ([ops]: assignments and
    reservations for any usernames), assigning again for that username
    returns the same proxy.  With an empty proxy list the assignment
    returns none and binds nothing. *)
Theorem sticky_round_robin (users : list string) (ops : list PoolOp) (st : Provider) :
  NoDup users ->
  (forall u, u ∈ users -> proxyAssignment st !! u = None) ->
  let assignedCount := size (proxyAssignment st) in
  let st' := pool_run (Assign <$> users) st in
  (proxies st <> [] ->
     size (proxyAssignment st') = (assignedCount + length users)%nat
     /\ forall i user, users !! i = Some user ->
          let before := pool_run (Assign <$> take i users) st in
          let index := ((assignedCount + i) mod length (proxies st))%nat in
          size (proxyAssignment before) = (assignedCount + i)%nat
          /\ fst (assignProxyToAccount user before) = Some index
          /\ is_Some (proxies st !! index)
          /\ proxyAssignment (snd (assignProxyToAccount user before)) !! user = Some index
          /\ proxyAssignment st' !! user = Some index
          /\ fst (assignProxyToAccount user (pool_run ops st')) = Some index)
  /\ (proxies st = [] ->
      forall user, user ∈ users -> assignProxyToAccount user st = (None, st)).
Proof.
  intros Hnd Hun assignedCount st'. split.
  - intros Hne.
    destruct (assign_in_turn users st Hnd Hun Hne) as (A1 & A2 & A3 & A4).
    split; [exact A1|].
    intros i user Hi before index.
    assert (Hlt : (i < length users)%nat) by (eapply lookup_lt_Some; eauto).
    assert (Hnotin : user ∉ take i users).
    { intros Hin. apply elem_of_take in Hin as (j & Hj & Hji).
      assert (j = i) by (eapply NoDup_lookup; eauto). lia. }
    destruct (assign_in_turn (take i users) st) as (B1 & B2 & B3 & _).
    { eapply sublist_NoDup; [exact Hnd|apply sublist_take]. }
    { intros u Hu. apply Hun. apply elem_of_take in Hu as (j & Hj & _).
      by eapply list_elem_of_lookup_2. }
    { exact Hne. }
    fold before in B1, B2, B3. rewrite length_take in B1.
    replace (i `min` length users)%nat with i in B1 by lia.
    assert (Hbefore : assignProxyToAccount user before
                      = (Some index,
                         set_proxyAssignment (<[user := index]> (proxyAssignment before)) before)).
    { rewrite (assign_fresh user before).
      - cbv zeta. rewrite B1, B2. reflexivity.
      - rewrite B3 by exact Hnotin. apply Hun. by eapply list_elem_of_lookup_2.
      - by rewrite B2. }
    split; [exact B1|]. split; [by rewrite Hbefore|]. split.
    { apply lookup_lt_is_Some. apply Nat.mod_upper_bound.
      destruct (proxies st); [congruence | discriminate]. }
    split; [rewrite Hbefore; cbn; apply lookup_insert_eq|].
    split; [by apply A4|].
    rewrite (assign_bound user index); [reflexivity|].
    apply run_keeps. by apply A4.
  - intros He user Hu. apply assign_empty; [by apply Hun|exact He].
Qed.

(** The theorem at a pool of two proxies with one username bound: the next
    three usernames get the proxies of index 1, 0 and 1, and the first of
    them keeps its proxy. *)
Lemma sticky_round_robin_witness :
  let st := snd (assignProxyToAccount "alice" (set_proxies two_proxies initial)) in
  let users := ["bob"; "carol"; "dave"] in
  let ops := [Assign "erin"; Reserve "bob" 5; Reserve "alice" 7] in
  let st' := pool_run (Assign <$> users) st in
  size (proxyAssignment st') = 4%nat
  /\ proxyAssignment st' !! "bob" = Some 1%nat
  /\ proxyAssignment st' !! "carol" = Some 0%nat
  /\ proxyAssignment st' !! "dave" = Some 1%nat
  /\ fst (assignProxyToAccount "bob" (pool_run ops st')) = Some 1%nat.
Proof.
  intros st users ops st'.
  destruct (sticky_round_robin users ops st) as [H _].
  - apply (bool_decide_unpack _). vm_compute. exact I.
  - intros u Hu. unfold users in Hu.
    repeat (apply elem_of_cons in Hu as [->|Hu]; [vm_compute; reflexivity|]).
    by apply elem_of_nil in Hu.
  - destruct H as [H1 H2]; [discriminate|].
    split; [exact H1|].
    destruct (H2 0%nat "bob" eq_refl) as (_ & _ & _ & _ & Hb & Hs).
    destruct (H2 1%nat "carol" eq_refl) as (_ & _ & _ & _ & Hc & _).
    destruct (H2 2%nat "dave" eq_refl) as (_ & _ & _ & _ & Hd & _).
    split; [exact Hb|]. split; [exact Hc|]. split; [exact Hd|exact Hs].
Defined.

End Pool.

(** ** Health tracker: the request window *)

Module Window.

Lemma lookup_put_health (user : string) (h : AccountHealth) (st : Provider) :
  accountHealth (put_health user h st) !! user = Some h.
Proof. cbn. apply lookup_insert_eq. Qed.

Lemma lookup_put_health_ne (user other : string) (h : AccountHealth) (st : Provider) :
  user <> other ->
  accountHealth (put_health user h st) !! other = accountHealth st !! other.
Proof. intros Hne. cbn. by apply lookup_insert_ne. Qed.

(** [getAccountHealth] returns what the map holds afterwards. *)
Lemma getAccountHealth_lookup (user : string) (st : Provider) :
  accountHealth (snd (getAccountHealth user st)) !! user
  = Some (fst (getAccountHealth user st)).
Proof.
  unfold getAccountHealth.
  destruct (accountHealth st !! user) eqn:H; cbn [fst snd]; [exact H |].
  apply lookup_put_health.
Qed.

Lemma strongly_sorted_filter {A} (R : relation A) (P : A -> Prop)
    `{!forall x, Decision (P x)} (l : list A) :
  StronglySorted R l -> StronglySorted R (filter P l).
Proof.
  induction 1 as [|x l Hl IH Hx]; [constructor |].
  rewrite filter_cons. destruct (decide (P x)); [| exact IH].
  constructor; [exact IH |].
  rewrite Forall_forall in *. intros y Hy.
  apply list_elem_of_filter in Hy as [_ Hy]. by apply Hx.
Qed.

(** The first timestamp of a chronological window is its oldest. *)
Lemma head_is_oldest (now window oldest : Z) (rest history : list Z) :
  Sorted Z.le history ->
  filter (in_window now window) history = oldest :: rest ->
  forall t, t ∈ oldest :: rest -> oldest <= t.
Proof.
  intros Hs Heq t Ht.
  apply (Sorted_StronglySorted Z.le) in Hs.
  apply (strongly_sorted_filter Z.le (in_window now window)) in Hs.
  rewrite Heq in Hs. apply StronglySorted_inv in Hs as [_ Hall].
  apply elem_of_cons in Ht as [->|Ht]; [lia |].
  rewrite Forall_forall in Hall. by apply Hall.
Qed.

(** A window of 200 timestamps, the oldest at time 1: at time 1000 the
    request is refused and the wait is [900000 - (1000 - 1)]. *)
Example full_window_refuses :
  let history := Z.of_nat <$> seq 1 200 in
  let st := put_health "bob" (set_requestHistory history fresh_health) initial in
  fst (canAccountMakeRequest "bob" 1000 st)
  = {| canRequest := false; waitTime := Some 899001 |}.
Proof. vm_compute. reflexivity. Qed.

End Window.

(** ** Account registry: load *)

Module Registry.

Lemma load_one_fst (cred : Account) (health : gmap string AccountHealth) :
  fst (load_one cred health) = loaded cred.
Proof.
  unfold load_one, loaded. destruct (isLocked cred); reflexivity.
Qed.

Lemma load_each_fst (accounts : list Account) (health : gmap string AccountHealth) :
  fst (load_each accounts health) = loaded <$> accounts.
Proof.
  revert health. induction accounts as [|cred rest IH]; intros health; [reflexivity |].
  cbn [load_each]. pose proof (load_one_fst cred health) as H1.
  destruct (load_one cred health) as [cred' health1]. cbn [fst] in H1.
  specialize (IH health1). destruct (load_each rest health1) as [rest' health2].
  cbn [fst] in *. by rewrite H1, IH.
Qed.

Lemma load_one_sets (cred : Account) (health : gmap string AccountHealth) :
  isLocked cred = true ->
  status <$> snd (load_one cred health) !! username cred = Some LOCKED.
Proof.
  intros Hl. unfold load_one. rewrite Hl. cbn [snd]. rewrite lookup_alter_eq.
  destruct (health !! username cred) as [h|] eqn:Hh.
  - by rewrite Hh.
  - by rewrite lookup_insert_eq.
Qed.

Lemma load_one_stays (cred : Account) (user : string) (health : gmap string AccountHealth) :
  status <$> health !! user = Some LOCKED ->
  status <$> snd (load_one cred health) !! user = Some LOCKED.
Proof.
  intros Hu. unfold load_one.
  set (health1 := match health !! username cred with
                  | Some _ => health
                  | None => <[username cred := fresh_health]> health
                  end).
  assert (H1 : status <$> health1 !! user = Some LOCKED).
  { subst health1. destruct (health !! username cred) eqn:Hc; [exact Hu |].
    rewrite lookup_insert_ne; [exact Hu |].
    intros Heq. rewrite Heq in Hc. by rewrite Hc in Hu. }
  destruct (isLocked cred); cbn [snd]; [| exact H1].
  destruct (decide (username cred = user)) as [Heq|Hne].
  - rewrite Heq, lookup_alter_eq. by destruct (health1 !! user).
  - by rewrite lookup_alter_ne.
Qed.

Lemma load_each_stays (accounts : list Account) (user : string)
    (health : gmap string AccountHealth) :
  status <$> health !! user = Some LOCKED ->
  status <$> snd (load_each accounts health) !! user = Some LOCKED.
Proof.
  revert health. induction accounts as [|cred rest IH]; intros health Hu; [exact Hu |].
  cbn [load_each]. pose proof (load_one_stays cred user health Hu) as H1.
  destruct (load_one cred health) as [cred' health1]. cbn [snd] in H1.
  specialize (IH health1 H1). by destruct (load_each rest health1).
Qed.

Lemma load_each_locks (accounts : list Account) (c : Account)
    (health : gmap string AccountHealth) :
  c ∈ accounts -> isLocked c = true ->
  status <$> snd (load_each accounts health) !! username c = Some LOCKED.
Proof.
  revert health. induction accounts as [|cred rest IH]; intros health Hin Hl.
  - by apply elem_of_nil in Hin.
  - cbn [load_each]. apply elem_of_cons in Hin as [->|Hin].
    + pose proof (load_one_sets cred health Hl) as H1.
      destruct (load_one cred health) as [cred' health1]. cbn [snd] in H1.
      pose proof (load_each_stays rest (username cred) health1 H1) as H2.
      by destruct (load_each rest health1).
    + destruct (load_one cred health) as [cred' health1].
      specialize (IH health1 Hin Hl). by destruct (load_each rest health1).
Qed.

Lemma loaded_locked (c : Account) : isLocked (loaded c) = isLocked c.
Proof. unfold loaded. by destruct (isLocked c) eqn:H. Qed.

Lemma loaded_username (c : Account) : username (loaded c) = username c.
Proof. unfold loaded. by destruct (isLocked c). Qed.

(** C10: a load that runs to completion (no other load in progress, no
    non-empty set loaded before, [data.json] readable) leaves in memory the
    entries of the file with [usable] set on every entry that is not locked,
    whatever [usable] the file held; every loaded account that is not locked
    is usable, and every loaded account that is locked has the health
    status [LOCKED]. *)
Theorem loadCredentials_flags (accounts : list Account) (st : Provider) :
  loadingCredentials st = false ->
  credentialsLoaded st && (0 <? Z.of_nat (length (credentials st))) = false ->
  dataFile st = Some accounts ->
  let st' := loadCredentials st in
  credentials st' = loaded <$> accounts
  /\ forall c, c ∈ credentials st' ->
       (isLocked c = false -> usable c = true)
       /\ (isLocked c = true ->
             status <$> accountHealth st' !! username c = Some LOCKED).
Proof.
  intros Hg1 Hg2 Hfile. cbv zeta. unfold loadCredentials.
  rewrite Hg1, Hg2, Hfile.
  pose proof (load_each_fst accounts (accountHealth st)) as Hfst.
  pose proof (load_each_locks accounts) as Hlocks.
  destruct (load_each accounts (accountHealth st)) as [creds health] eqn:Hload.
  cbn [fst] in Hfst. subst creds. cbn.
  split; [reflexivity |]. intros c Hc.
  apply list_elem_of_fmap in Hc as (c0 & -> & Hc0). split.
  - unfold loaded. destruct (isLocked c0) eqn:Hl; [congruence | reflexivity].
  - rewrite loaded_locked, loaded_username. intros Hl.
    specialize (Hlocks c0 (accountHealth st) Hc0 Hl). by rewrite Hload in Hlocks.
Qed.

(** The theorem at a file with an unlocked account saved as unusable and a
    locked account: after the load the first is usable and the second has
    the health status [LOCKED]. *)
Lemma loadCredentials_flags_witness :
  let file := [mk_account "alice" false false; mk_account "bob" true true] in
  let st' := loadCredentials (set_dataFile (Some file) initial) in
  credentials st' = [mk_account "alice" true false; mk_account "bob" true true]
  /\ status <$> accountHealth st' !! "bob" = Some LOCKED.
Proof.
  intros file st'.
  destruct (loadCredentials_flags file (set_dataFile (Some file) initial))
    as [Hcreds Hall]; [reflexivity | reflexivity | reflexivity |].
  split; [exact Hcreds |].
  apply (Hall (mk_account "bob" true true)); [| reflexivity].
  rewrite Hcreds. apply elem_of_cons. right. apply elem_of_cons. by left.
Defined.

End Registry.

(** ** Registry: writes of the file *)

Module Writes.

(** A save that is waited for is a save that is started and whose write
    ends at once, as the file system answers; the writes that were in
    flight before are still in flight. *)
Lemma save_is_start_then_settle (st : Provider) :
  saveCredentials st
  = set_writeAnswers (fun n => writeAnswers st (S n))
      (write_settles (length (writesInFlight st)) (writeAnswers st 0%nat)
         (saveCredentials_start st)).
Proof.
  unfold saveCredentials, write_settles, saveCredentials_start.
  cbn [writesInFlight set_writesInFlight].
  rewrite list_lookup_middle by reflexivity.
  rewrite delete_middle, app_nil_r.
  destruct (writeAnswers st 0%nat); reflexivity.
Qed.

(** A save touches nothing that the provider holds in memory. *)
Lemma save_memory (st : Provider) :
  credentials (saveCredentials st) = credentials st
  /\ accountHealth (saveCredentials st) = accountHealth st
  /\ writesInFlight (saveCredentials st) = writesInFlight st
  /\ dataFile (saveCredentials st)
     = (if writeAnswers st 0%nat then Some (credentials st) else dataFile st).
Proof. by repeat split. Qed.

(** Two writes in flight may end in either order: the file then holds the
    content of the one that ended last, which can be the older one. *)
Example writes_may_overtake :
  let st := set_writesInFlight [[mk_account "bob" false true]; [mk_account "bob" true false]]
              initial in
  dataFile (write_settles 0 true (write_settles 0 true st)) = Some [mk_account "bob" true false]
  /\ dataFile (write_settles 0 true (write_settles 1 true st))
     = Some [mk_account "bob" false true].
Proof. vm_compute. split; reflexivity. Qed.

End Writes.

(** ** Health tracker: outcomes *)

Module Health.

Import Window.

Lemma getAccountHealth_credentials (user : string) (st : Provider) :
  credentials (snd (getAccountHealth user st)) = credentials st.
Proof. unfold getAccountHealth. by destruct (accountHealth st !! user). Qed.

(** The tracker does not touch the file system. *)
Lemma getAccountHealth_disk (user : string) (st : Provider) :
  dataFile (snd (getAccountHealth user st)) = dataFile st
  /\ writesInFlight (snd (getAccountHealth user st)) = writesInFlight st
  /\ writeAnswers (snd (getAccountHealth user st)) = writeAnswers st.
Proof. unfold getAccountHealth. by destruct (accountHealth st !! user). Qed.

Lemma getAccountHealth_put (user : string) (h : AccountHealth) (st : Provider) :
  getAccountHealth user (put_health user h st) = (h, put_health user h st).
Proof. unfold getAccountHealth. by rewrite lookup_put_health. Qed.

Lemma push_bounded_length {A} (n : nat) (x : A) (l : list A) :
  (length l <= n)%nat -> (length (push_bounded (Z.of_nat n) x l) <= n)%nat.
Proof.
  intros Hl. unfold push_bounded.
  destruct (Z.ltb_spec (Z.of_nat n) (Z.of_nat (length (l ++ [x])))) as [Hlt|Hge].
  - rewrite length_drop, length_app. cbn [length]. lia.
  - lia.
Qed.

Lemma fresh_health_ok : health_ok fresh_health.
Proof. split; cbn; lia. Qed.

Lemma record_error_history (t : ErrorType) (message : string) (now : Z)
    (rtt : option Z) (h : AccountHealth) :
  (length (errorHistory h) <= 25)%nat ->
  (length (errorHistory (record_error t message now (record_use now rtt h))) <= 25)%nat.
Proof.
  intros Hl. cbn [record_error record_use errorHistory].
  change ERROR_HISTORY_LIMIT with (Z.of_nat 25). by apply push_bounded_length.
Qed.

(** With at most 25 entries in the history, fewer than 50 of them are
    recent [AUTH] errors. *)
Lemma recent_auth_below_threshold (now : Z) (h : AccountHealth) :
  (length (errorHistory h) <= 25)%nat ->
  (AUTH_ERROR_THRESHOLD
     <=? Z.of_nat (length (filter (recent_auth now AUTH_ERROR_WINDOW_MS) (errorHistory h))))
  = false.
Proof.
  intros Hl. unfold AUTH_ERROR_THRESHOLD. apply Z.leb_gt.
  pose proof (length_filter (recent_auth now AUTH_ERROR_WINDOW_MS) (errorHistory h)).
  lia.
Qed.

Lemma switch_break_history (t : ErrorType) (now : Z) (h : AccountHealth) :
  errorHistory (switch_break t now h) = errorHistory h.
Proof.
  destruct t; cbn [switch_break];
    repeat match goal with |- context [if ?b then _ else _] => destruct b end;
    reflexivity.
Qed.

(** A failure whose kind ends its [switch] case in [break], on a record
    with a bounded history: the call returns [true] and the record is the
    old one after [record_use], [record_error] and [switch_break]; the
    [DISABLED] test that follows the [switch] cannot fire. *)
Lemma update_break (user message : string) (rtt : option Z) (now : Z) (st : Provider) :
  let health := fst (getAccountHealth user st) in
  let t := classifyError message in
  breaks t ->
  (length (errorHistory health) <= 25)%nat ->
  updateAccountHealth user false (Some message) rtt now st
  = (true,
     put_health user
       (switch_break t now (record_error t message now (record_use now rtt health)))
       (snd (getAccountHealth user st))).
Proof.
  cbv zeta. intros (H1 & H2 & H3) Hl. unfold updateAccountHealth.
  destruct (getAccountHealth user st) as [health st1]. cbn [fst snd] in *.
  set (t := classifyError message) in *.
  set (h := switch_break t now (record_error t message now (record_use now rtt health))).
  assert (Hdead :
    (let '(recentAuthErrors, st2) :=
       countRecentAuthErrors user AUTH_ERROR_WINDOW_MS now (put_health user h st1) in
     if AUTH_ERROR_THRESHOLD <=? recentAuthErrors
     then (false, put_health user (set_status DISABLED h) st2)
     else (true, st2))
    = (true, put_health user h st1)).
  { unfold countRecentAuthErrors. rewrite getAccountHealth_put.
    rewrite recent_auth_below_threshold; [reflexivity |].
    subst h. rewrite switch_break_history. by apply record_error_history. }
  destruct t; try exact Hdead; congruence.
Qed.

Lemma update_break_ok (user message : string) (rtt : option Z) (now : Z) (st : Provider) :
  breaks (classifyError message) ->
  health_ok (fst (getAccountHealth user st)) ->
  forall after,
    accountHealth (snd (updateAccountHealth user false (Some message) rtt now st)) !! user
      = Some after ->
    health_ok after.
Proof.
  intros Hb [Hcf Hl] after. rewrite update_break by assumption.
  cbn [snd]. rewrite lookup_put_health. intros [= <-]. split.
  - destruct (classifyError message); cbn [switch_break];
      repeat match goal with |- context [if ?b then _ else _] => destruct b end;
      cbn; lia.
  - rewrite switch_break_history. by apply record_error_history.
Qed.

(** C7 (as written, refuted): three unclassified failures bring the
    counter of a fresh account to 3; the [NOT_FOUND] failure that follows
    leaves it at 3, not at 2. *)
Lemma not_found_does_not_lower_counter :
  let st0 := loadCredentials (set_dataFile (Some [mk_account "bob" true false]) initial) in
  let fail t st := snd (updateAccountHealth "bob" false (Some "boom") None t st) in
  let st3 := fail 3 (fail 2 (fail 1 st0)) in
  let st4 := snd (updateAccountHealth "bob" false (Some "Tweet not found") None 4 st3) in
  classifyError "Tweet not found" = NOT_FOUND
  /\ consecutiveFailures <$> accountHealth st3 !! "bob" = Some 3
  /\ consecutiveFailures <$> accountHealth st4 !! "bob" = Some 3
  /\ consecutiveFailures <$> accountHealth st4 !! "bob" <> Some (3 - 1).
Proof. vm_compute. repeat split; congruence. Qed.

(** C7 (amended): a failure classified as [NOT_FOUND] leaves the
    [consecutiveFailures] counter of the account at the value it had before
    the call (the increment that every failure gets is taken back), changes
    no status, and returns [true]. *)
Theorem not_found_keeps_counter (user message : string) (rtt : option Z) (now : Z)
    (st : Provider) :
  classifyError message = NOT_FOUND ->
  let before := fst (getAccountHealth user st) in
  health_ok before ->
  let result := updateAccountHealth user false (Some message) rtt now st in
  fst result = true
  /\ exists after,
       accountHealth (snd result) !! user = Some after
       /\ consecutiveFailures after = consecutiveFailures before
       /\ status after = status before.
Proof.
  intros Hc before [Hcf Hl] result. subst result.
  rewrite update_break; [| rewrite Hc; repeat split; discriminate | exact Hl].
  rewrite Hc. cbn [fst snd]. split; [reflexivity |].
  eexists. split; [apply lookup_put_health |].
  cbn [switch_break set_consecutiveFailures record_error record_use
       consecutiveFailures status].
  fold before. split; [lia | reflexivity].
Qed.

Lemma not_found_keeps_counter_witness :
  let st0 := loadCredentials (set_dataFile (Some [mk_account "bob" true false]) initial) in
  let fail t st := snd (updateAccountHealth "bob" false (Some "boom") None t st) in
  let st3 := fail 3 (fail 2 (fail 1 st0)) in
  let result := updateAccountHealth "bob" false (Some "Tweet not found") None 4 st3 in
  fst result = true
  /\ exists after,
       accountHealth (snd result) !! "bob" = Some after
       /\ consecutiveFailures after = 3
       /\ status after = HEALTHY.
Proof.
  intros st0 fail st3 result.
  apply (not_found_keeps_counter "bob" "Tweet not found" None 4 st3).
  - vm_compute. reflexivity.
  - split; vm_compute; [discriminate | lia].
Defined.

(** *** Terminal signals *)

(** A failure whose kind is [TIMEOUT], [ACCOUNT_LOCKED] or
    [ACCOUNT_SUSPENDED], on an account of the registry. *)
Lemma update_terminal (user message : string) (rtt : option Z) (now : Z)
    (i : nat) (c : Account) (st : Provider) :
  let t := classifyError message in
  ~ breaks t ->
  list_find (has_username user) (credentials st) = Some (i, c) ->
  let result := updateAccountHealth user false (Some message) rtt now st in
  fst result = false
  /\ status <$> accountHealth (snd result) !! user = Some (terminal_status t)
  /\ credentials (snd result) = <[i := set_flags false true c]> (credentials st)
  /\ dataFile (snd result) = dataFile st
  /\ writesInFlight (snd result) = writesInFlight st ++ [credentials (snd result)].
Proof.
  cbv zeta. intros Hnb Hfind. unfold updateAccountHealth.
  pose proof (getAccountHealth_credentials user st) as Hcr.
  pose proof (getAccountHealth_disk user st) as (Hd & Hw & _).
  destruct (getAccountHealth user st) as [health st1]. cbn [snd] in Hcr, Hd, Hw.
  apply list_find_Some in Hfind as Hlook. destruct Hlook as [Hlook _].
  set (t := classifyError message) in *.
  assert (Hgoal : forall h,
    let st2 := put_health user (set_status (terminal_status t) h) st1 in
    let result :=
      match list_find (has_username user) (credentials st2) with
      | Some (i, _) => (false, saveCredentials_start (lock_account i st2))
      | None => (false, st2)
      end in
    fst result = false
    /\ status <$> accountHealth (snd result) !! user = Some (terminal_status t)
    /\ credentials (snd result) = <[i := set_flags false true c]> (credentials st)
    /\ dataFile (snd result) = dataFile st
    /\ writesInFlight (snd result) = writesInFlight st ++ [credentials (snd result)]).
  { intros h. cbv zeta.
    change (credentials (put_health user (set_status (terminal_status t) h) st1))
      with (credentials st1).
    rewrite Hcr, Hfind. unfold lock_account.
    change (credentials (put_health user (set_status (terminal_status t) h) st1))
      with (credentials st1).
    rewrite Hcr, Hlook. cbn [fst snd]. split; [reflexivity |].
    split; [| split; [reflexivity | split; [exact Hd | cbn; by rewrite Hw]]].
    cbn [saveCredentials_start set_writesInFlight set_credentials accountHealth].
    by rewrite lookup_put_health. }
  unfold terminal_status in Hgoal.
  destruct t; try apply Hgoal; exfalso; apply Hnb; repeat split; discriminate.
Qed.




Lemma terminal_health (user : string) (h : AccountHealth) (st : Provider) :
  accountHealth
    (snd (match list_find (has_username user) (credentials (put_health user h st)) with
          | Some (i, _) => (false, saveCredentials_start (lock_account i (put_health user h st)))
          | None => (false, put_health user h st)
          end)) !! user = Some h.
Proof.
  destruct (list_find _ _) as [[j ?]|]; cbn [snd].
  - unfold lock_account.
    destruct (credentials (put_health user h st) !! j); cbn; apply lookup_insert_eq.
  - apply lookup_put_health.
Qed.

(** [health_ok] is kept by every call of [updateAccountHealth]. *)
Lemma update_health_ok (user : string) (success : bool) (error : option string)
    (rtt : option Z) (now : Z) (st : Provider) (after : AccountHealth) :
  health_ok (fst (getAccountHealth user st)) ->
  accountHealth (snd (updateAccountHealth user success error rtt now st)) !! user
    = Some after ->
  health_ok after.
Proof.
  intros Hok Hafter.
  destruct success; [| destruct error as [message|]].
  - destruct Hok as [Hcf Hl]. unfold updateAccountHealth in Hafter.
    destruct (getAccountHealth user st) as [health st1]. cbn [fst snd] in *.
    rewrite lookup_put_health in Hafter. injection Hafter as <-.
    unfold record_success.
    match goal with |- context [if ?b then _ else _] => destruct b end;
      split; cbn; (lia || exact Hl).
  - destruct (decide (breaks (classifyError message))) as [Hb|Hnb].
    + by eapply update_break_ok.
    + destruct Hok as [Hcf Hl]. unfold updateAccountHealth in Hafter.
      destruct (getAccountHealth user st) as [health st1]. cbn [fst snd] in *.
      destruct (classifyError message) eqn:Hc;
        try (exfalso; apply Hnb; repeat split; discriminate);
        rewrite terminal_health in Hafter; injection Hafter as <-;
        (split; [cbn; lia |]);
        change (errorHistory (set_status ?s ?h)) with (errorHistory h);
        by apply record_error_history.
  - destruct Hok as [Hcf Hl]. unfold updateAccountHealth in Hafter.
    destruct (getAccountHealth user st) as [health st1]. cbn [fst snd] in *.
    rewrite lookup_put_health in Hafter. injection Hafter as <-.
    split; [exact Hcf | exact Hl].
Qed.

(** The same timeout in the dispatcher: the [catch] block of
    [executeWithAccount] takes it before [updateAccountHealth] can, and there
    the status is [SUSPENDED]. *)
Example dispatcher_timeout_suspends :
  let st0 := loadCredentials (set_dataFile (Some [mk_account "bob" true false]) initial) in
  let result := executeWithAccount_catch 0 "Request timeout" 1000 st0 in
  fst result = SkipSuspended
  /\ status <$> accountHealth (snd result) !! "bob" = Some SUSPENDED
  /\ requestCount <$> accountHealth (snd result) !! "bob" = Some 0
  /\ dataFile (snd result) = Some [mk_account "bob" false true].
Proof. vm_compute. repeat split. Qed.

(** *** The DISABLED threshold *)

(** Under [health_ok] no call of [updateAccountHealth] is the one that
    sets [DISABLED]. *)
Lemma disabled_is_never_set (user : string) (success : bool) (error : option string)
    (rtt : option Z) (now : Z) (st : Provider) (after : AccountHealth) :
  health_ok (fst (getAccountHealth user st)) ->
  accountHealth (snd (updateAccountHealth user success error rtt now st)) !! user
    = Some after ->
  status after = DISABLED ->
  status (fst (getAccountHealth user st)) = DISABLED.
Proof.
  intros [Hcf Hl] Hafter Hd.
  destruct success.
  - unfold updateAccountHealth in Hafter.
    destruct (getAccountHealth user st) as [health st1]. cbn [fst snd] in *.
    rewrite lookup_put_health in Hafter. injection Hafter as <-.
    unfold record_success in Hd.
    match type of Hd with context [if ?b then _ else _] => destruct b eqn:Hb end;
      [discriminate | exact Hd].
  - destruct error as [message|].
    + destruct (decide (breaks (classifyError message))) as [Hb|Hnb].
      * rewrite update_break in Hafter by assumption. cbn [snd] in Hafter.
        rewrite lookup_put_health in Hafter. injection Hafter as <-.
        destruct (classifyError message); cbn [switch_break] in Hd;
          repeat match type of Hd with
                 | context [if ?b then _ else _] => destruct b
                 end; try discriminate; exact Hd.
      * unfold updateAccountHealth in Hafter.
        destruct (getAccountHealth user st) as [health st1]. cbn [fst snd] in *.
        destruct (classifyError message);
          try (exfalso; apply Hnb; repeat split; discriminate);
          rewrite terminal_health in Hafter; injection Hafter as <-; discriminate.
    + unfold updateAccountHealth in Hafter.
      destruct (getAccountHealth user st) as [health st1]. cbn [fst snd] in *.
      rewrite lookup_put_health in Hafter. by injection Hafter as <-.
Qed.

(** C4 (the code at the failing input): fifty login failures in a row for
    one account of the registry, 121 seconds apart, all within 24 hours.
    Each is classified [AUTH]; every call returns [true]; at the end the
    account is in [COOLDOWN], not [DISABLED], with 50 consecutive failures
    counted, 50 [AUTH] errors tallied, and 25 entries in its error
    history. *)
Theorem fifty_auth_failures_do_not_disable :
  let st0 := loadCredentials (set_dataFile (Some [mk_account "bob" true false]) initial) in
  let times := (fun k => Z.of_nat k * 121000) <$> seq 1 50 in
  let result := repeated_failures "bob" "Login failed" times st0 in
  classifyError "Login failed" = AUTH
  /\ length times = 50%nat
  /\ last times = Some 6050000
  /\ 6050000 < AUTH_ERROR_WINDOW_MS
  /\ fst result = replicate 50 true
  /\ status <$> accountHealth (snd result) !! "bob" = Some COOLDOWN
  /\ consecutiveFailures <$> accountHealth (snd result) !! "bob" = Some 50
  /\ (fun h => errorCounts h AUTH) <$> accountHealth (snd result) !! "bob" = Some 50
  /\ (fun h => length (errorHistory h)) <$> accountHealth (snd result) !! "bob"
     = Some 25%nat.
Proof. vm_compute. repeat split. Qed.

End Health.

(** ** Error classification *)

Module Classify.

(** C5 (as written, refuted): on the message ["status 401"] rule 2 of
    section 4.3 gives [ACCOUNT_SUSPENDED]; the code looks for
    ["response status: 401"], does not find it, and answers [AUTH] by the
    later rule on ["401"]. *)
Lemma status_401_is_auth :
  classify_spec "status 401" = ACCOUNT_SUSPENDED
  /\ classifyError "status 401" = AUTH
  /\ classifyError "status 401" <> classify_spec "status 401".
Proof. vm_compute. repeat split; congruence. Qed.

(** The message of scenario 2 goes the other way: the code answers
    [ACCOUNT_SUSPENDED], the rule as worded does not trigger. *)
Example response_status_401 :
  classifyError "Response status: 401" = ACCOUNT_SUSPENDED
  /\ classify_spec "Response status: 401" = AUTH.
Proof. vm_compute. split; reflexivity. Qed.

Lemma some_code_326_exists (errors : list Json.value) :
  some_code_326 errors = Some true -> existsb has_code_326 errors = true.
Proof.
  induction errors as [|err rest IH]; [discriminate |].
  cbn [some_code_326 existsb]. intros H.
  destruct err; cbn [code_is_326 has_code_326] in *; try (rewrite IH; [reflexivity | exact H]);
    try discriminate.
  destruct (Json.get (Json.units "code") members) as [[]|];
    try (rewrite IH; [reflexivity | exact H]).
  destruct (Json.is_326 m e); [reflexivity |]. by rewrite IH.
Qed.

Lemma some_code_326_no_null (errors : list Json.value) :
  Forall (fun err => err <> Json.JNull) errors ->
  some_code_326 errors = Some (existsb has_code_326 errors).
Proof.
  induction 1 as [|err rest Hn _ IH]; [reflexivity |].
  cbn [some_code_326 existsb].
  destruct err; cbn [code_is_326 has_code_326]; try exact IH; try congruence.
  destruct (Json.get (Json.units "code") members) as [[]|]; try exact IH.
  destruct (Json.is_326 m e); [reflexivity | exact IH].
Qed.

(** Where the [try] block of the code returns [ACCOUNT_LOCKED], rule 1 as
    worded triggers too. *)
Lemma json_code_326_spec (message : string) :
  json_code_326 message = true -> spec_json_rule message = true.
Proof.
  unfold json_code_326, spec_json_rule.
  destruct (Json.parse message) as [[]|]; try discriminate.
  destruct (Json.get (Json.units "errors") members) as [[]|]; try discriminate.
  destruct (some_code_326 items) as [[]|] eqn:H; try discriminate.
  intros _. by apply some_code_326_exists.
Qed.

(** The converse fails on a [null] entry that comes first: reading its
    [code] throws, the [catch] swallows the error, and the substring rules
    decide. *)
Example null_entry_hides_code_326 :
  let message := Str.quoted "{'errors':[null,{'code':326}]}" in
  spec_json_rule message = true
  /\ json_code_326 message = false
  /\ classifyError message = UNKNOWN.
Proof. vm_compute. repeat split. Qed.

(** The cascade of [if]s of [classifyError] is a first match over
    [substring_rules], after the JSON test. *)
Lemma classifyError_table (error_message : string) :
  classifyError error_message
  = (if json_code_326 (Str.toLowerCase error_message) then ACCOUNT_LOCKED
     else first_match substring_rules (Str.toLowerCase error_message)).
Proof.
  unfold classifyError.
  destruct (json_code_326 (Str.toLowerCase error_message)); [reflexivity |].
  cbn [first_match substring_rules triggers existsb fst snd].
  repeat match goal with
         | |- context [Str.includes ?m ?n] =>
             destruct (Str.includes m n); cbn [orb]; try reflexivity
         end.
Qed.

(** Where the code and section 4.3 part: on every message for which the
    JSON test and rule 2 come out the same in both, the two classifications
    agree. *)
Lemma agrees_with_spec (error_message : string) :
  let message := Str.toLowerCase error_message in
  json_code_326 message = spec_json_rule message ->
  triggers message (["response status: 401"; "status code: 401"], ACCOUNT_SUSPENDED)
  = triggers message (["status 401"; "status code: 401"], ACCOUNT_SUSPENDED) ->
  classifyError error_message = classify_spec error_message.
Proof.
  cbv zeta. intros Hjson Hrule. rewrite classifyError_table. unfold classify_spec.
  rewrite Hjson. destruct (spec_json_rule _); [reflexivity |].
  unfold substring_rules, spec_rules. cbn [first_match]. by rewrite Hrule.
Qed.

(** Without a [null] entry the [try] block of the code and rule 1 as worded
    answer the same. *)
Lemma json_code_326_no_null (error_message : string) :
  no_null_entry error_message ->
  json_code_326 (Str.toLowerCase error_message)
  = spec_json_rule (Str.toLowerCase error_message).
Proof.
  unfold no_null_entry, json_code_326, spec_json_rule.
  destruct (Json.parse (Str.toLowerCase error_message)) as [[]|]; try reflexivity.
  destruct (Json.get (Json.units "errors") members) as [[]|]; try reflexivity.
  intros Hn. rewrite (some_code_326_no_null items Hn).
  by destruct (existsb has_code_326 items).
Qed.

(** The lower-casing is that of the runtime where it matters: a Kelvin sign
    is a [k], and a dotted capital I is an [i]. *)
Example kelvin_sign_is_k :
  classifyError ("networ" ++ kelvin_sign ++ " down") = NETWORK
  /\ classifyError ("soc" ++ kelvin_sign ++ "et hang up") = NETWORK
  /\ classifyError
       ("LOG" ++ String (ascii_of_N 196) (String (ascii_of_N 176) "N failed")) = UNKNOWN.
Proof. vm_compute. repeat split. Qed.

(** C5 (amended): [classifyError] is a function of the message alone, and
    for every message it answers the kind that the rules of section 4.3
    give by first match on the lower-cased message, with
    ["response status: 401"] in place of ["status 401"] in rule 2: a JSON
    body with [errors[].code == 326] gives [ACCOUNT_LOCKED]; then
    ["response status: 401"] or ["status code: 401"] give
    [ACCOUNT_SUSPENDED]; then the timeout, network, rate-limit, auth,
    not-found and locked-account substrings give their kinds; otherwise
    [UNKNOWN].  The claim is about the messages whose [errors] array, if
    there is one, has no [null] entry. *)
Theorem classifyError_first_match (error_message : string) :
  no_null_entry error_message ->
  classifyError error_message = classify_amended error_message.
Proof.
  intros Hn. rewrite classifyError_table. unfold classify_amended.
  rewrite (json_code_326_no_null error_message Hn). reflexivity.
Qed.

Lemma classifyError_first_match_witness :
  let locked := Str.quoted "{'errors':[{'code':326,'message':'To protect'}]}" in
  no_null_entry locked
  /\ classifyError locked = classify_amended locked
  /\ classifyError locked = ACCOUNT_LOCKED
  /\ classifyError "Response status: 401" = classify_amended "Response status: 401"
  /\ classifyError "Rate Limit exceeded" = classify_amended "Rate Limit exceeded".
Proof.
  assert (no_null_entry (Str.quoted "{'errors':[{'code':326,'message':'To protect'}]}")) as H.
  { vm_compute. repeat constructor. discriminate. }
  split; [exact H|].
  split; [exact (classifyError_first_match _ H)|].
  split; [vm_compute; reflexivity|].
  split; apply classifyError_first_match; vm_compute; exact I.
Defined.

End Classify.

(** ** Account selection *)

Module Select.

Import Window.

Lemma health_view_lookup (user : string) (h : AccountHealth) (st : Provider) :
  accountHealth st !! user = Some h ->
  health_view user st = (status h, cooldownUntil h).
Proof. intros H. unfold health_view, getAccountHealth. by rewrite H. Qed.

Lemma canRequest_snd (user : string) (now : Z) (st : Provider) :
  snd (canAccountMakeRequest user now st)
  = put_health user
      (set_requestHistory
         (filter (in_window now RATE_LIMIT_WINDOW_MS)
                 (requestHistory (fst (getAccountHealth user st))))
         (fst (getAccountHealth user st)))
      (snd (getAccountHealth user st)).
Proof.
  unfold canAccountMakeRequest.
  destruct (getAccountHealth user st) as [health st1]. cbn [fst snd].
  destruct (_ <? _); [reflexivity |].
  by destruct (filter _ _).
Qed.

Lemma canRequest_credentials (user : string) (now : Z) (st : Provider) :
  credentials (snd (canAccountMakeRequest user now st)) = credentials st.
Proof.
  rewrite canRequest_snd. cbn [put_health set_accountHealth credentials].
  apply Health.getAccountHealth_credentials.
Qed.

Lemma health_view_ext (user : string) (st1 st2 : Provider) :
  accountHealth st1 !! user = accountHealth st2 !! user ->
  health_view user st1 = health_view user st2.
Proof.
  intros H. unfold health_view, getAccountHealth. rewrite H.
  by destruct (accountHealth st2 !! user).
Qed.

Lemma getAccountHealth_view (user other : string) (st : Provider) :
  health_view other (snd (getAccountHealth user st)) = health_view other st.
Proof.
  unfold getAccountHealth.
  destruct (accountHealth st !! user) eqn:Hu; cbn [snd]; [reflexivity |].
  destruct (decide (user = other)) as [<-|Hne].
  - unfold health_view, getAccountHealth. by rewrite lookup_put_health, Hu.
  - apply health_view_ext. by apply lookup_put_health_ne.
Qed.

Lemma canRequest_view (user other : string) (now : Z) (st : Provider) :
  health_view other (snd (canAccountMakeRequest user now st)) = health_view other st.
Proof.
  rewrite canRequest_snd.
  destruct (decide (user = other)) as [<-|Hne].
  - unfold health_view. by rewrite Health.getAccountHealth_put.
  - rewrite <- (getAccountHealth_view user other st).
    apply health_view_ext. by apply lookup_put_health_ne.
Qed.

Lemma canRequest_entry (user other : string) (now : Z) (st : Provider) :
  is_Some (accountHealth st !! other) \/ other = user ->
  is_Some (accountHealth (snd (canAccountMakeRequest user now st)) !! other).
Proof.
  rewrite canRequest_snd. intros H.
  destruct (decide (user = other)) as [<-|Hne].
  - rewrite lookup_put_health. by eexists.
  - rewrite lookup_put_health_ne by exact Hne.
    destruct H as [H|H]; [| congruence].
    unfold getAccountHealth. destruct (accountHealth st !! user); cbn [snd]; [exact H |].
    by rewrite lookup_put_health_ne by exact Hne.
Qed.

Lemma is_available_snd (now : Z) (acc : Account) (st : Provider) :
  snd (is_available now acc st)
  = snd (canAccountMakeRequest (username acc) now (snd (getAccountHealth (username acc) st))).
Proof.
  unfold is_available.
  destruct (getAccountHealth (username acc) st) as [health st1]. cbn [snd].
  by destruct (canAccountMakeRequest (username acc) now st1).
Qed.

Lemma is_available_view (now : Z) (acc : Account) (other : string) (st : Provider) :
  health_view other (snd (is_available now acc st)) = health_view other st.
Proof. by rewrite is_available_snd, canRequest_view, getAccountHealth_view. Qed.

Lemma is_available_credentials (now : Z) (acc : Account) (st : Provider) :
  credentials (snd (is_available now acc st)) = credentials st.
Proof.
  by rewrite is_available_snd, canRequest_credentials, Health.getAccountHealth_credentials.
Qed.

Lemma is_available_entry (now : Z) (acc : Account) (other : string) (st : Provider) :
  is_Some (accountHealth st !! other) \/ other = username acc ->
  is_Some (accountHealth (snd (is_available now acc st)) !! other).
Proof.
  intros H. rewrite is_available_snd. apply canRequest_entry.
  destruct H as [H|H]; [left | by right].
  unfold getAccountHealth. destruct (accountHealth st !! username acc) eqn:Hu;
    cbn [snd]; [exact H |].
  destruct (decide (username acc = other)) as [<-|Hne].
  - rewrite lookup_put_health. by eexists.
  - by rewrite lookup_put_health_ne by exact Hne.
Qed.

Lemma is_available_passes (now : Z) (acc : Account) (st : Provider) :
  fst (is_available now acc st) = true ->
  passes now acc (health_view (username acc) st).
Proof.
  unfold is_available, health_view.
  destruct (getAccountHealth (username acc) st) as [health st1]. cbn [fst].
  destruct (canAccountMakeRequest (username acc) now st1) as [check st2]. cbn [fst].
  intros H. repeat (apply andb_prop in H as [H ?]).
  repeat match goal with
         | H : negb _ = true |- _ => apply negb_true_iff in H
         | H : bool_decide _ = false |- _ => apply bool_decide_eq_false in H
         end.
  unfold passes. cbn [fst snd].
  do 4 (split; [assumption |]).
  intros Hc t Ht Ht0.
  match goal with
  | H : _ && _ && _ = false |- _ => rename H into Hcool
  end.
  rewrite Ht in Hcool. cbn [truthy before] in Hcool.
  rewrite bool_decide_eq_true_2 in Hcool by exact Hc.
  destruct (Z.eqb_spec t 0); [contradiction |].
  cbn [negb andb] in Hcool. by apply Z.ltb_ge in Hcool.
Qed.

Lemma filter_available_snd_props (now : Z) (creds : list Account) :
  forall (base : nat) (st : Provider),
    credentials (snd (filter_available now base creds st)) = credentials st
    /\ (forall other, health_view other (snd (filter_available now base creds st))
                      = health_view other st)
    /\ (forall other, is_Some (accountHealth st !! other) \/ other ∈ username <$> creds ->
          is_Some (accountHealth (snd (filter_available now base creds st)) !! other)).
Proof.
  induction creds as [|acc rest IH]; intros base st.
  - cbn [filter_available snd]. split; [reflexivity |]. split; [reflexivity |].
    intros other [H|H]; [exact H | by apply elem_of_nil in H].
  - cbn [filter_available].
    pose proof (is_available_credentials now acc st) as Hc.
    pose proof (fun other => is_available_view now acc other st) as Hv.
    pose proof (fun other => is_available_entry now acc other st) as He.
    destruct (is_available now acc st) as [keep st1]. cbn [snd] in *.
    specialize (IH (S base) st1). destruct IH as (IHc & IHv & IHe).
    destruct (filter_available now (S base) rest st1) as [kept st2]. cbn [snd] in *.
    split; [congruence |]. split.
    + intros other. by rewrite IHv, Hv.
    + intros other H. apply IHe. rewrite fmap_cons, elem_of_cons in H.
      destruct H as [H|[H|H]]; [left; apply He; by left | left; apply He; by right | by right].
Qed.

Lemma filter_available_passes (now : Z) (creds : list Account) :
  forall (base : nat) (st : Provider) (i : nat),
    i ∈ fst (filter_available now base creds st) ->
    exists acc, (base <= i)%nat
                /\ creds !! (i - base)%nat = Some acc
                /\ passes now acc (health_view (username acc) st).
Proof.
  induction creds as [|acc rest IH]; intros base st i Hi.
  - by apply elem_of_nil in Hi.
  - cbn [filter_available] in Hi.
    pose proof (is_available_passes now acc st) as Hp.
    pose proof (fun other => is_available_view now acc other st) as Hv.
    destruct (is_available now acc st) as [keep st1]. cbn [fst snd] in *.
    specialize (IH (S base) st1).
    destruct (filter_available now (S base) rest st1) as [kept st2]. cbn [fst] in *.
    assert (Hrest : i ∈ kept ->
              exists acc0, (base <= i)%nat /\ (acc :: rest) !! (i - base)%nat = Some acc0
                           /\ passes now acc0 (health_view (username acc0) st)).
    { intros Hk. destruct (IH i Hk) as (acc0 & Hle & Hlook & Hpass).
      exists acc0. split; [lia |]. split.
      - replace (i - base)%nat with (S (i - S base)) by lia. exact Hlook.
      - by rewrite <- Hv. }
    destruct keep; [| by apply Hrest].
    apply elem_of_cons in Hi as [->|Hi]; [| by apply Hrest].
    exists acc. split; [lia |]. split; [by rewrite Nat.sub_diag | by apply Hp].
Qed.

(** What holds of an account that [selectAvailableAccount] returns as
    selected, in every state of the provider: it is flagged usable and not
    locked, it has a health record, whose status is neither [LOCKED] nor
    [DISABLED], and which is not in a cooldown that has a deadline later
    than [now].  The status [SUSPENDED] is not among the tests. *)
Lemma selected_passes (now : Z) (random : nat) (i : nat) (st : Provider) :
  fst (selectAvailableAccount now random st) = Selected i ->
  let st' := snd (selectAvailableAccount now random st) in
  exists acc health,
    credentials st' !! i = Some acc
    /\ accountHealth st' !! username acc = Some health
    /\ usable acc = true
    /\ isLocked acc = false
    /\ status health <> DISABLED
    /\ status health <> LOCKED
    /\ (status health = COOLDOWN ->
          forall t, cooldownUntil health = Some t -> t <> 0 -> t <= now).
Proof.
  unfold selectAvailableAccount. set (st0 := loadCredentials st).
  pose proof (filter_available_passes now (credentials st0) 0 st0) as Hpass.
  pose proof (filter_available_snd_props now (credentials st0) 0 st0) as (Hc & Hv & He).
  destruct (filter_available now 0 (credentials st0) st0) as [available st1].
  cbn [fst snd] in *.
  destruct (available !! (random mod length available)%nat) as [j|] eqn:Hj.
  - cbn [fst snd]. intros [= <-].
    destruct (Hpass j) as (acc & _ & Hlook & Hp).
    { by eapply list_elem_of_lookup_2. }
    rewrite Nat.sub_0_r in Hlook.
    destruct (He (username acc)) as [health Hh].
    { right. apply list_elem_of_fmap. exists acc. split; [reflexivity |].
      by eapply list_elem_of_lookup_2. }
    exists acc, health. rewrite Hc. split; [exact Hlook |]. split; [exact Hh |].
    rewrite <- (Hv (username acc)), (health_view_lookup _ _ _ Hh) in Hp.
    exact Hp.
  - destruct (soonest_wait now 0 (credentials st1) None st1) as [[[k w]|] st2];
      discriminate.
Qed.

End Select.

(** ** A suspended account that is selected *)

Module Race.

Import Dispatch.

(** C2 (the code at the failing input): after the schedule
    [race_schedule] on a registry that holds the one account ["bob"], the
    health status of ["bob"] is [SUSPENDED], its entry is flagged usable and
    not locked, and [selectAvailableAccount] returns it as the selected
    account. *)
Theorem suspended_account_is_selected :
  match run 8 race_schedule (started [] (Some [mk_account "bob" true false])) with
  | Some w =>
      let result := selectAvailableAccount 5000 0 (provider w) in
      status <$> accountHealth (provider w) !! "bob" = Some SUSPENDED
      /\ (fun c => (usable c, isLocked c)) <$> credentials (provider w) !! 0%nat
         = Some (true, false)
      /\ fst result = Selected 0
      /\ username <$> credentials (snd result) !! 0%nat = Some "bob"
      /\ status <$> accountHealth (snd result) !! "bob" = Some SUSPENDED
  | None => False
  end.
Proof. vm_compute. repeat split. Qed.

(** A third call that enters afterwards is dispatched on the suspended
    account: its cookies are installed and its executor is started. *)
Example suspended_account_is_dispatched :
  match run 8 (race_schedule ++ [Enter 5000; Attempt 2 5000 0 true])
            (started [] (Some [mk_account "bob" true false])) with
  | Some w => point <$> calls w !! 2%nat = Some (InExecutor 0)
  | None => False
  end.
Proof. vm_compute. reflexivity. Qed.

End Race.

(** ** Concurrency gate: the counter and the calls in flight *)

Module GateCount.
Import Dispatch.

Lemma max_concurrent_50 (cpuCount : Z) : MAX_CONCURRENT_OPERATIONS cpuCount = 50.
Proof. unfold MAX_CONCURRENT_OPERATIONS. lia. Qed.

Lemma ops_getAccountHealth user st :
  concurrentOperations (snd (getAccountHealth user st)) = concurrentOperations st.
Proof. unfold getAccountHealth. destruct (accountHealth st !! user); reflexivity. Qed.

Lemma ops_canRequest user now st :
  concurrentOperations (snd (canAccountMakeRequest user now st)) = concurrentOperations st.
Proof. rewrite Select.canRequest_snd. cbn. apply ops_getAccountHealth. Qed.

Lemma ops_is_available now acc st :
  concurrentOperations (snd (is_available now acc st)) = concurrentOperations st.
Proof.
  rewrite Select.is_available_snd, ops_canRequest. apply ops_getAccountHealth.
Qed.

Lemma ops_filter_available now creds :
  forall base st,
    concurrentOperations (snd (filter_available now base creds st)) = concurrentOperations st.
Proof.
  induction creds as [|acc rest IH]; intros base st; [reflexivity|].
  cbn [filter_available].
  pose proof (ops_is_available now acc st) as H1.
  destruct (is_available now acc st) as [keep st1].
  pose proof (IH (S base) st1) as H2.
  destruct (filter_available now (S base) rest st1) as [kept st2].
  cbn in *. congruence.
Qed.

Lemma ops_soonest_wait now creds :
  forall base soonest st,
    concurrentOperations (snd (soonest_wait now base creds soonest st))
    = concurrentOperations st.
Proof.
  induction creds as [|acc rest IH]; intros base soonest st; [reflexivity|].
  cbn [soonest_wait].
  pose proof (ops_canRequest (username acc) now st) as H1.
  destruct (canAccountMakeRequest (username acc) now st) as [check st1].
  rewrite IH. exact H1.
Qed.

Lemma ops_loadCredentials st :
  concurrentOperations (loadCredentials st) = concurrentOperations st.
Proof.
  unfold loadCredentials.
  destruct (loadingCredentials st); [reflexivity|].
  destruct (credentialsLoaded st && _); [reflexivity|].
  destruct (dataFile st) as [accounts|]; [|reflexivity].
  destruct (load_each accounts (accountHealth st)). reflexivity.
Qed.

Lemma ops_select now random st :
  concurrentOperations (snd (selectAvailableAccount now random st)) = concurrentOperations st.
Proof.
  unfold selectAvailableAccount.
  pose proof (ops_filter_available now (credentials (loadCredentials st)) 0 (loadCredentials st))
    as H1.
  destruct (filter_available now 0 _ (loadCredentials st)) as [available st1].
  cbn in H1. rewrite ops_loadCredentials in H1.
  destruct (available !! _); [exact H1|].
  pose proof (ops_soonest_wait now (credentials st1) 0 None st1) as H2.
  destruct (soonest_wait now 0 (credentials st1) None st1) as [[[i w]|] st2];
    cbn in *; congruence.
Qed.

Lemma ops_lock_account i st :
  concurrentOperations (lock_account i st) = concurrentOperations st.
Proof. unfold lock_account. destruct (credentials st !! i); reflexivity. Qed.

Lemma ops_update user success error rtt now st :
  concurrentOperations (snd (updateAccountHealth user success error rtt now st))
  = concurrentOperations st.
Proof.
  unfold updateAccountHealth.
  pose proof (ops_getAccountHealth user st) as H1.
  destruct (getAccountHealth user st) as [health st1]. cbn in H1.
  destruct success; [exact H1|].
  destruct error as [message|]; [|exact H1].
  destruct (classifyError message);
    try (match goal with
         | |- context [list_find ?P ?l] =>
             destruct (list_find P l) as [[i c]|]; cbn;
             [rewrite ops_lock_account|]; exact H1
         end);
    unfold countRecentAuthErrors;
    match goal with
    | |- context [getAccountHealth user ?s] =>
        pose proof (ops_getAccountHealth user s) as H2;
        destruct (getAccountHealth user s) as [h2 st2]
    end;
    cbn in H2;
    match goal with
    | |- context [if ?b then _ else _] => destruct b
    end; cbn; congruence.
Qed.

Lemma ops_getProxy user now st :
  concurrentOperations (snd (getProxyForAccount user now st)) = concurrentOperations st.
Proof.
  unfold getProxyForAccount, assignProxyToAccount.
  destruct (proxyAssignment st !! user) as [p|].
  - destruct (proxies st !! p) as [q|]; [|reflexivity].
    destruct (now <? nextRequestAt q); reflexivity.
  - destruct (bool_decide _); [reflexivity|]. cbn.
    destruct (proxies st !! _) as [q|]; [|reflexivity].
    destruct (now <? nextRequestAt q); reflexivity.
Qed.

Lemma ops_mark_unusable i s st :
  concurrentOperations (mark_unusable i s st) = concurrentOperations st.
Proof.
  unfold mark_unusable.
  destruct (credentials (saveCredentials (lock_account i st)) !! i) as [c|].
  - pose proof (ops_getAccountHealth (username c) (saveCredentials (lock_account i st))) as H.
    destruct (getAccountHealth (username c) _) as [h st1]. cbn in *.
    rewrite H. apply ops_lock_account.
  - cbn. apply ops_lock_account.
Qed.

Lemma ops_catch i message now st :
  concurrentOperations (snd (executeWithAccount_catch i message now st))
  = concurrentOperations st.
Proof.
  unfold executeWithAccount_catch.
  destruct (credentials st !! i) as [c|]; [|reflexivity].
  destruct (_ || _); [apply ops_mark_unusable|].
  destruct (Str.includes message "User tweets fetch timed out"); [apply ops_mark_unusable|].
  destruct (Str.includes message _); [apply ops_update|].
  destruct (_ || _); [apply ops_mark_unusable|].
  pose proof (ops_update (username c) false (Some message) None now st) as H.
  destruct (updateAccountHealth _ _ _ _ _ _). exact H.
Qed.

Lemma ops_tryLogin_resume i answer st :
  concurrentOperations (snd (tryLogin_resume i answer st)) = concurrentOperations st.
Proof.
  unfold tryLogin_resume.
  destruct (credentials st !! i) as [c|]; [|reflexivity].
  destruct answer as [cookies|message]; [reflexivity|].
  destruct (login_code_326 message); [|reflexivity].
  pose proof (ops_getAccountHealth (username c) (saveCredentials (lock_account i st))) as H.
  destruct (getAccountHealth (username c) _) as [h st1]. cbn in *.
  rewrite H. apply ops_lock_account.
Qed.

Lemma ops_check now st :
  concurrentOperations (snd (checkCircuitBreaker now st)) = concurrentOperations st.
Proof.
  unfold checkCircuitBreaker. destruct (circuitState st); try reflexivity.
  destruct (_ <? _); reflexivity.
Qed.

Lemma ops_breaker success now st :
  concurrentOperations (updateCircuitBreaker success now st) = concurrentOperations st.
Proof.
  unfold updateCircuitBreaker. destruct (circuitState st), success; cbn; try reflexivity.
  destruct (_ <=? _); reflexivity.
Qed.

Lemma gate_counted_resume k c c' st w :
  calls w !! k = Some c ->
  concurrentOperations st = concurrentOperations (provider w) ->
  gate_counted w -> gate_counted (resume k c' st w).
Proof.
  intros _ Hst [H1 H2]. unfold gate_counted, resume. cbn.
  rewrite length_insert. split; [congruence|exact H2].
Qed.

Lemma gate_counted_leave k c st w :
  calls w !! k = Some c ->
  concurrentOperations st = concurrentOperations (provider w) ->
  gate_counted w -> gate_counted (leave k st w).
Proof.
  intros Hk Hst [H1 H2]. unfold gate_counted, leave. cbn.
  rewrite length_delete by (eexists; exact Hk).
  apply lookup_lt_Some in Hk.
  unfold releaseSemaphore. rewrite Hst, H1.
  destruct (0 <? Z.of_nat (length (calls w))) eqn:E; [|lia].
  cbn. lia.
Qed.

Lemma gate_counted_step cpuCount w e w' :
  gate_counted w -> step cpuCount w e = Some w' -> gate_counted w'.
Proof.
  intros Hw.
  destruct e as [now|k now random ok|k answer now|k outcome rtt now|j ok|answers];
    cbn [step];
    [| | | |destruct (writesInFlight (provider w) !! j) eqn:Hj; [|discriminate];
            intros [= <-]; unfold gate_counted, write_settles; cbn [provider calls];
            rewrite Hj; destruct ok; exact Hw
          |intros [= <-]; exact Hw].
  - pose proof (ops_check now (provider w)) as H1.
    destruct (checkCircuitBreaker now (provider w)) as [allowed st1]. cbn in H1.
    destruct allowed; [|discriminate].
    unfold try_acquire. rewrite max_concurrent_50.
    destruct (concurrentOperations st1 <? 50) eqn:E; [|discriminate].
    intros [= <-]. destruct Hw as [H2 H3]. unfold gate_counted. cbn.
    rewrite length_app. cbn. lia.
  - destruct (calls w !! k) as [c|] eqn:Hk; [|discriminate].
    destruct (point c); try discriminate.
    destruct (attempt c <? 10).
    + pose proof (ops_select now random (provider w)) as H1.
      destruct (selectAvailableAccount now random (provider w)) as [selection st1].
      cbn in H1.
      destruct selection as [i|i wait|].
      * destruct (credentials st1 !! i) as [acc|]; [|discriminate].
        destruct (_ || _).
        { intros [= <-]. eapply gate_counted_resume; eauto. }
        set (st2 := snd (updateAccountHealth _ _ _ _ _ _)).
        assert (concurrentOperations st2 = concurrentOperations (provider w)) as H2.
        { unfold st2. rewrite ops_update, ops_getProxy. exact H1. }
        destruct (tryLogin_begin i ok st2) as [[|]|]; intros [= <-];
          eapply gate_counted_resume; eauto.
        unfold login_failed. rewrite ops_update. exact H2.
      * destruct (credentials st1 !! i) as [acc|]; [|discriminate].
        destruct (_ || _); intros [= <-]; eapply gate_counted_resume; eauto.
      * intros [= <-]. eapply gate_counted_leave; eauto. rewrite ops_breaker. exact H1.
    + intros [= <-]. eapply gate_counted_leave; eauto. apply ops_breaker.
  - destruct (calls w !! k) as [c|] eqn:Hk; [|discriminate].
    destruct (point c) as [|i|i]; try discriminate.
    destruct (credentials (provider w) !! i) as [acc|]; [|discriminate].
    pose proof (ops_tryLogin_resume i answer (provider w)) as H1.
    destruct (tryLogin_resume i answer (provider w)) as [success st1]. cbn in H1.
    destruct success; intros [= <-]; eapply gate_counted_resume; eauto.
    unfold login_failed. rewrite ops_update. exact H1.
  - destruct (calls w !! k) as [c|] eqn:Hk; [|discriminate].
    destruct (point c) as [|i|i]; try discriminate.
    destruct (credentials (provider w) !! i) as [acc|]; [|discriminate].
    destruct outcome as [| |message].
    + intros [= <-]. eapply gate_counted_leave; eauto.
      rewrite ops_breaker. apply ops_update.
    + intros [= <-]. eapply gate_counted_resume; eauto. apply ops_update.
    + pose proof (ops_catch i message now (provider w)) as H1.
      destruct (executeWithAccount_catch i message now (provider w)) as [caught st1].
      cbn in H1.
      destruct caught; intros [= <-]; eapply gate_counted_resume; eauto.
Qed.

Lemma gate_counted_run cpuCount schedule :
  forall w w', gate_counted w -> run cpuCount schedule w = Some w' -> gate_counted w'.
Proof.
  induction schedule as [|e rest IH]; intros w w' Hw; cbn [run].
  - intros [= <-]. exact Hw.
  - destruct (step cpuCount w e) as [w1|] eqn:E; [|discriminate].
    apply IH. eapply gate_counted_step; eauto.
Qed.

(** X1: on every schedule of the event loop, from the provider as it starts,
    the counter of the gate equals the number of calls of
    [executeWithAccount] in flight, and at most 50 are in flight: whichever
    way a call leaves (result, no account, attempts used up), its [finally]
    gives its place back, and nothing else moves the counter. *)
Theorem gate_counts_calls (cpuCount : Z) (schedule : list Event)
    (proxyList : list Proxy) (file : option (list Account)) (w : World) :
  run cpuCount schedule (started proxyList file) = Some w ->
  concurrentOperations (provider w) = Z.of_nat (length (calls w))
  /\ (length (calls w) <= 50)%nat.
Proof.
  apply gate_counted_run. unfold gate_counted, started. cbn [provider calls].
  rewrite ops_loadCredentials. cbn. split; [reflexivity|lia].
Qed.

Lemma gate_counts_calls_witness :
  match run 8 race_schedule (started [] (Some [mk_account "bob" true false])) with
  | Some w =>
      concurrentOperations (provider w) = Z.of_nat (length (calls w))
      /\ (length (calls w) <= 50)%nat
  | None => False
  end.
Proof.
  destruct (run 8 race_schedule (started [] (Some [mk_account "bob" true false])))
    as [w|] eqn:E.
  - exact (gate_counts_calls 8 race_schedule [] _ w E).
  - revert E. vm_compute. discriminate.
Defined.

End GateCount.

(** ** Runs of the gate, of the breaker and of the proxy pool *)

Module GateRuns.

Lemma gate_step_bounds cpuCount st op :
  0 <= concurrentOperations st <= 50 ->
  0 <= concurrentOperations (gate_step cpuCount st op) <= 50.
Proof.
  intros H. destruct op; unfold gate_step, try_acquire, releaseSemaphore.
  - replace (MAX_CONCURRENT_OPERATIONS cpuCount) with 50
      by (unfold MAX_CONCURRENT_OPERATIONS; lia).
    destruct (concurrentOperations st <? 50) eqn:E; cbn; lia.
  - destruct (0 <? concurrentOperations st) eqn:E; cbn; lia.
Qed.

(** X2: whatever sequence of acquisitions and releases runs, the counter of
    the gate stays between 0 and 50: a release of an empty gate does nothing
    and an acquisition of a full gate does not get through. *)
Theorem gate_bounds (cpuCount : Z) (ops : list GateOp) (st : Provider) :
  0 <= concurrentOperations st <= 50 ->
  0 <= concurrentOperations (gate_run cpuCount ops st) <= 50.
Proof.
  revert st. induction ops as [|op ops IH]; intros st H; [exact H|].
  apply IH, gate_step_bounds, H.
Qed.

Lemma gate_bounds_witness :
  0 <= concurrentOperations (gate_run 8 [Release; Acquire; Acquire; Release; Release; Release]
                               initial) <= 50.
Proof. apply (gate_bounds 8 _ initial). cbn. lia. Defined.

End GateRuns.

Module BreakerRuns.

Lemma breaker_step_ok st op : breaker_ok st -> breaker_ok (breaker_step st op).
Proof.
  unfold breaker_ok, breaker_step, checkCircuitBreaker, updateCircuitBreaker,
    CIRCUIT_FAILURE_THRESHOLD.
  destruct op as [now|success now]; destruct (circuitState st) eqn:E; intros H; cbn.
  - rewrite E. exact H.
  - destruct (_ <? _); cbn; [exact H|rewrite E; exact H].
  - rewrite E. exact H.
  - destruct success; cbn; [lia|].
    destruct (15 <=? circuitFailureCount st + 1) eqn:E2; cbn; lia.
  - rewrite E. exact H.
  - destruct success; cbn; [lia|exact H].
Qed.

(** X3: over any sequence of checks and reports the failure count of the
    breaker stays between 0 and 15; it is below 15 while the breaker is
    closed and exactly 15 while it is open or half open. *)
Theorem breaker_invariant (ops : list BreakerOp) (st : Provider) :
  breaker_ok st -> breaker_ok (breaker_run ops st).
Proof.
  revert st. induction ops as [|op ops IH]; intros st H; [exact H|].
  apply IH, breaker_step_ok, H.
Qed.

Lemma breaker_invariant_witness :
  breaker_ok (breaker_run (replicate 20 (Report false 5) ++ [Check 70000; Report true 70001])
                initial).
Proof. apply (breaker_invariant _ initial). cbn. unfold CIRCUIT_FAILURE_THRESHOLD. lia. Defined.

Lemma open_step_holds st op :
  circuitState st = OPEN -> early_check (circuitOpenTime st) op -> breaker_step st op = st.
Proof.
  intros Hs Hop. destruct op as [now|success now]; cbn in *;
    unfold checkCircuitBreaker, updateCircuitBreaker; rewrite Hs; [|reflexivity].
  destruct (CIRCUIT_RESET_TIMEOUT_MS <? now - circuitOpenTime st) eqn:E; [lia|reflexivity].
Qed.

(** X4: an open breaker stays as it is, state, count and opening time,
    under any reports (successes included) and under any check that comes
    no later than 60 s after it opened. *)
Theorem open_holds (ops : list BreakerOp) (st : Provider) :
  circuitState st = OPEN ->
  Forall (early_check (circuitOpenTime st)) ops ->
  breaker_run ops st = st.
Proof.
  intros Hs. induction 1 as [|op ops Hop _ IH]; [reflexivity|].
  cbn. rewrite (open_step_holds st op Hs Hop). exact IH.
Qed.

Lemma open_holds_witness :
  let st := consecutive_failures 15 1000 initial in
  breaker_run [Report true 2000; Check 61000; Report true 61000] st = st.
Proof.
  apply (open_holds _ (consecutive_failures 15 1000 initial)).
  - reflexivity.
  - repeat first [apply List.Forall_nil | apply List.Forall_cons];
      first [exact I | vm_compute; discriminate].
Defined.

End BreakerRuns.

Module PoolSpacing.

(** X5: once [getProxyForAccount] has reserved a proxy at [now], a request
    for that proxy, by the same account or by another one that is assigned
    to it, gets the proxy exactly when it comes at [now + 1000] or later; an
    earlier request gets nothing and leaves the pool as it is. *)
Theorem reservation_spacing (user other : string) (now later : Z) (p : nat) (st : Provider) :
  fst (getProxyForAccount user now st) = Some p ->
  let st1 := snd (getProxyForAccount user now st) in
  fst (assignProxyToAccount other st1) = Some p ->
  fst (getProxyForAccount other later st1) = (if later <? now + 1000 then None else Some p)
  /\ (later < now + 1000 ->
      proxies (snd (getProxyForAccount other later st1)) = proxies st1).
Proof.
  intros H1 st1 H2.
  assert (exists q, proxies st1 !! p = Some q /\ nextRequestAt q = now + 1000) as (q & Hq & Hn).
  { subst st1. revert H1. unfold getProxyForAccount.
    destruct (assignProxyToAccount user st) as [[p'|] st0]; [|discriminate].
    destruct (proxies st0 !! p') as [q|] eqn:Hq; [|discriminate].
    destruct (now <? nextRequestAt q); [discriminate|].
    cbn. intros [= ->]. eexists. split.
    - apply list_lookup_insert_eq. eapply lookup_lt_Some; eauto.
    - reflexivity. }
  unfold getProxyForAccount.
  destruct (assignProxyToAccount other st1) as [[p'|] st2] eqn:E; [|discriminate].
  cbn in H2. injection H2 as ->.
  pose proof (Pool.assign_proxies other st1) as Hp. rewrite E in Hp. cbn in Hp.
  rewrite Hp, Hq, Hn.
  destruct (later <? now + 1000) eqn:E2; cbn.
  - split; [reflexivity|]. intros _. exact Hp.
  - split; [reflexivity|]. lia.
Qed.

Lemma reservation_spacing_witness :
  let st := set_proxies two_proxies initial in
  let st1 := snd (getProxyForAccount "alice" 5000 st) in
  fst (assignProxyToAccount "carol" (snd (assignProxyToAccount "bob" st1))) = Some 0%nat
  /\ fst (getProxyForAccount "alice" 5999 st1) = None
  /\ fst (getProxyForAccount "alice" 6000 st1) = Some 0%nat.
Proof.
  split; [reflexivity|].
  split.
  - apply (reservation_spacing "alice" "alice" 5000 5999 0 (set_proxies two_proxies initial));
      reflexivity.
  - apply (reservation_spacing "alice" "alice" 5000 6000 0 (set_proxies two_proxies initial));
      reflexivity.
Defined.

End PoolSpacing.

(** ** Health tracker: frame, counting, escalation and promotion *)

Module Frame.

Lemma outside_put user h st : outside_tracker (put_health user h st) = outside_tracker st.
Proof. reflexivity. Qed.

Lemma outside_get user st :
  outside_tracker (snd (getAccountHealth user st)) = outside_tracker st.
Proof. unfold getAccountHealth. destruct (accountHealth st !! user); reflexivity. Qed.

Lemma outside_lock i st : outside_tracker (lock_account i st) = outside_tracker st.
Proof. unfold lock_account. destruct (credentials st !! i); reflexivity. Qed.

Lemma health_get_ne user other st :
  other <> user ->
  accountHealth (snd (getAccountHealth user st)) !! other = accountHealth st !! other.
Proof.
  intros Hne. unfold getAccountHealth. destruct (accountHealth st !! user); [reflexivity|].
  cbn. by rewrite lookup_insert_ne.
Qed.

Lemma health_lock i st : accountHealth (lock_account i st) = accountHealth st.
Proof. unfold lock_account. destruct (credentials st !! i); reflexivity. Qed.

Lemma credentials_put user h st : credentials (put_health user h st) = credentials st.
Proof. reflexivity. Qed.

Lemma lock_length i st : length (credentials (lock_account i st)) = length (credentials st).
Proof.
  unfold lock_account. destruct (credentials st !! i); [|reflexivity].
  cbn. apply length_insert.
Qed.

Lemma lock_lookup i j c st :
  credentials st !! j = Some c ->
  exists c', credentials (lock_account i st) !! j = Some c'
             /\ same_identity c c'
             /\ (j <> i -> c' = c)
             /\ (j = i -> c' = set_flags false true c).
Proof.
  intros Hj. unfold lock_account. destruct (credentials st !! i) as [a|] eqn:Hi.
  - cbn. destruct (decide (j = i)) as [->|Hne].
    + rewrite list_lookup_insert_eq by (eapply lookup_lt_Some; eauto).
      assert (a = c) as -> by congruence.
      eexists. split; [reflexivity|]. split; [by repeat split|]. split; [done|done].
    + rewrite list_lookup_insert_ne by done. exists c.
      split; [exact Hj|]. split; [by repeat split|]. split; [done|done].
  - exists c. split; [exact Hj|]. split; [by repeat split|]. split; [done|].
    intros ->. congruence.
Qed.

End Frame.

Module Tracker.
Import Frame.

(** The three shapes of the state that [updateAccountHealth] returns. *)
Lemma update_cases user success error rtt now st :
  let health := record_use now rtt (fst (getAccountHealth user st)) in
  let st1 := snd (getAccountHealth user st) in
  let st' := snd (updateAccountHealth user success error rtt now st) in
  (exists h, st' = put_health user h st1)
  \/ (exists h h2, st' = put_health user h2 (put_health user h st1))
  \/ (exists h i c,
        list_find (has_username user) (credentials st1) = Some (i, c)
        /\ st' = saveCredentials_start (lock_account i (put_health user h st1))).
Proof.
  cbv zeta. unfold updateAccountHealth.
  destruct (getAccountHealth user st) as [health st1]. cbn [fst snd].
  destruct success; [left; eauto|].
  destruct error as [message|]; [|left; eauto].
  destruct (classifyError message);
    try (match goal with
         | |- context [list_find ?P (credentials (put_health ?u ?h ?s))] =>
             change (credentials (put_health u h s)) with (credentials s);
             destruct (list_find P (credentials s)) as [[i c]|] eqn:Hf; cbn [snd];
             [right; right; eauto | left; eauto]
         end);
    unfold countRecentAuthErrors; rewrite Health.getAccountHealth_put;
    match goal with
    | |- context [if ?b then _ else _] => destruct b
    end; cbn [snd]; [right; left; eauto | left; eauto | right; left; eauto | left; eauto
                     | right; left; eauto | left; eauto | right; left; eauto | left; eauto
                     | right; left; eauto | left; eauto].
Qed.

(** X6: a report to the tracker touches the health record of its username
    and nothing of any other username; it changes no proxy, no assignment,
    neither the gate nor the breaker; it keeps the registry's length, and of
    a registry entry it changes the flags at most, and only of an entry with
    the reported username. *)
Theorem update_frame (user : string) (success : bool) (error : option string)
    (rtt : option Z) (now : Z) (st : Provider) :
  let st' := snd (updateAccountHealth user success error rtt now st) in
  outside_tracker st' = outside_tracker st
  /\ (forall other, other <> user -> accountHealth st' !! other = accountHealth st !! other)
  /\ length (credentials st') = length (credentials st)
  /\ (forall j c, credentials st !! j = Some c ->
        exists c', credentials st' !! j = Some c'
                   /\ same_identity c c'
                   /\ (username c <> user -> c' = c)).
Proof.
  cbv zeta.
  pose proof (outside_get user st) as Ho.
  pose proof (fun other => health_get_ne user other st) as Hh.
  pose proof (Health.getAccountHealth_credentials user st) as Hc.
  destruct (update_cases user success error rtt now st)
    as [(h & ->) | [(h & h2 & ->) | (h & i & c & Hf & ->)]].
  - split; [exact Ho|]. split.
    + intros other Hne. rewrite Window.lookup_put_health_ne by done. by apply Hh.
    + cbn [credentials put_health set_accountHealth]. rewrite Hc. split; [done|].
      intros j c Hj. exists c. by repeat split.
  - split; [exact Ho|]. split.
    + intros other Hne. rewrite !Window.lookup_put_health_ne by done. by apply Hh.
    + cbn [credentials put_health set_accountHealth]. rewrite Hc. split; [done|].
      intros j c Hj. exists c. by repeat split.
  - split; [rewrite <- Ho; apply (outside_lock i (put_health user h _))|]. split.
    + intros other Hne.
      change (accountHealth (saveCredentials_start ?s)) with (accountHealth s).
      rewrite health_lock, Window.lookup_put_health_ne by done. by apply Hh.
    + change (credentials (saveCredentials_start ?s)) with (credentials s).
      rewrite lock_length. cbn [credentials put_health set_accountHealth].
      rewrite Hc. split; [done|].
      intros j c0 Hj.
      destruct (lock_lookup i j c0 (put_health user h (snd (getAccountHealth user st))))
        as (c' & H1 & H2 & H3 & H4).
      { cbn [credentials put_health set_accountHealth]. by rewrite Hc. }
      exists c'. split; [exact H1|]. split; [exact H2|].
      intros Hu. apply H3. intros ->.
      apply list_find_Some in Hf as (Hi & Hp & _).
      rewrite Hc in Hi. unfold has_username in Hp. congruence.
Qed.

End Tracker.

Module Use.

(** X7: every call of [updateAccountHealth], success, failure of any kind
    or the mark that the dispatcher sets before it runs an operation
    ([success = false] without an error), adds one to [requestCount], sets
    [lastUsed], and appends [now] to the request window after the window is
    trimmed: one dispatched attempt takes two places of the 200. *)
Theorem every_update_counts (user : string) (success : bool) (error : option string)
    (rtt : option Z) (now : Z) (st : Provider) :
  let before := fst (getAccountHealth user st) in
  exists after,
    accountHealth (snd (updateAccountHealth user success error rtt now st)) !! user
      = Some after
    /\ requestCount after = requestCount before + 1
    /\ lastUsed after = now
    /\ requestHistory after
       = filter (in_window now RATE_LIMIT_WINDOW_MS) (requestHistory before) ++ [now].
Proof.
  cbv zeta.
  assert (Hwin : forall l, filter (in_window now RATE_LIMIT_WINDOW_MS) (l ++ [now])
                           = filter (in_window now RATE_LIMIT_WINDOW_MS) l ++ [now]).
  { intros l. rewrite filter_app. f_equal.
    rewrite filter_cons_True; [reflexivity|].
    unfold in_window, RATE_LIMIT_WINDOW_MS. lia. }
  unfold updateAccountHealth.
  destruct (getAccountHealth user st) as [health st1]. cbn [fst snd].
  destruct success; [|destruct error as [message|]].
  - eexists. split; [apply Window.lookup_put_health|].
    unfold record_success.
    match goal with |- context [if ?b then _ else _] => destruct b end;
      cbn; rewrite Hwin; done.
  - destruct (classifyError message) eqn:Hc;
      try (rewrite Health.terminal_health; eexists; split; [reflexivity|];
           cbn; rewrite Hwin; done);
      unfold countRecentAuthErrors; rewrite Health.getAccountHealth_put;
      match goal with |- context [if ?b then _ else _] => destruct b end;
      cbn [snd]; (eexists; split; [apply Window.lookup_put_health|]);
      unfold switch_break;
      repeat match goal with |- context [if ?b then _ else _] => destruct b end;
      cbn; rewrite Hwin; done.
  - eexists. split; [apply Window.lookup_put_health|]. cbn. rewrite Hwin. done.
Qed.

End Use.

Module Escalate.

Lemma failure_step (user message : string) (rtt : option Z) (now : Z) (st : Provider) :
  let t := classifyError message in
  let before := fst (getAccountHealth user st) in
  t = AUTH \/ t = NETWORK \/ t = UNKNOWN ->
  health_ok before ->
  exists after st',
    updateAccountHealth user false (Some message) rtt now st = (true, st')
    /\ getAccountHealth user st' = (after, st')
    /\ health_ok after
    /\ consecutiveFailures after = consecutiveFailures before + 1
    /\ consecutiveSuccesses after = 0
    /\ status after = (if fst (escalation t) <=? consecutiveFailures after
                       then snd (escalation t) else status before).
Proof.
  cbv zeta. intros Ht Hok.
  assert (breaks (classifyError message)) as Hb.
  { unfold breaks. destruct Ht as [-> | [-> | ->]]; repeat split; discriminate. }
  pose proof (Health.update_break user message rtt now st Hb (proj2 Hok)) as Hu.
  cbv zeta in Hu.
  eexists _, _. split; [exact Hu|]. split; [apply Health.getAccountHealth_put|].
  split.
  { eapply (Health.update_break_ok user message rtt now st Hb Hok).
    rewrite Hu. apply Window.lookup_put_health. }
  unfold switch_break, escalation, MAX_CONSECUTIVE_FAILURES.
  destruct Ht as [-> | [-> | ->]]; cbn;
    destruct (_ <=? consecutiveFailures (fst (getAccountHealth user st)) + 1) eqn:E;
    cbn; rewrite ?E; done.
Qed.

(** X8: failures in a row of one kind among AUTH, NETWORK and UNKNOWN, on a
    record whose counter is not negative, all leave the account usable, add
    one to [consecutiveFailures] each, and leave the status of the record
    as it was until the counter reaches the threshold of the kind (5 for
    AUTH, 10 for NETWORK, 50 for UNKNOWN), from where on the status is
    COOLDOWN for AUTH and PROBATION for the other two. *)
Theorem failures_escalate (user message : string) (times : list Z) (st : Provider) :
  let t := classifyError message in
  let before := fst (getAccountHealth user st) in
  t = AUTH \/ t = NETWORK \/ t = UNKNOWN ->
  health_ok before ->
  times <> [] ->
  let result := repeated_failures user message times st in
  fst result = replicate (length times) true
  /\ exists after,
       accountHealth (snd result) !! user = Some after
       /\ consecutiveFailures after = consecutiveFailures before + Z.of_nat (length times)
       /\ status after = (if fst (escalation t) <=? consecutiveFailures after
                          then snd (escalation t) else status before).
Proof.
  cbv zeta. intros Ht. revert st.
  induction times as [|now rest IH]; intros st Hok Hne; [done|].
  cbn [repeated_failures].
  destruct (failure_step user message None now st Ht Hok)
    as (h1 & st1 & Hu & Hg & Hok1 & Hcf & _ & Hs).
  rewrite Hu.
  destruct rest as [|now2 rest].
  - cbn [repeated_failures fst snd length replicate]. split; [reflexivity|].
    exists h1. split.
    + pose proof (Window.getAccountHealth_lookup user st1) as Hl.
      rewrite Hg in Hl. exact Hl.
    + split; [cbn; lia|exact Hs].
  - specialize (IH st1). rewrite Hg in IH. cbn [fst] in IH.
    specialize (IH Hok1 ltac:(done)).
    destruct (repeated_failures user message (now2 :: rest) st1) as [keeps st2].
    cbn [fst snd] in *. destruct IH as (Hk & after & Hl & Hcf2 & Hs2).
    split; [cbn [length replicate]; by rewrite Hk|].
    exists after. split; [exact Hl|]. split; [rewrite Hcf2, Hcf; cbn [length]; lia|].
    rewrite Hs2, Hs.
    assert (0 <= Z.of_nat (length (now2 :: rest))) by lia.
    destruct (fst (escalation (classifyError message)) <=? consecutiveFailures after) eqn:E1;
      [reflexivity|].
    destruct (fst (escalation (classifyError message)) <=? consecutiveFailures h1) eqn:E2;
      [|reflexivity].
    cbn [length] in *. lia.
Qed.

Lemma failures_escalate_witness :
  let st := loadCredentials (set_dataFile (Some [mk_account "bob" true false]) initial) in
  let result := repeated_failures "bob" "socket hang up" (Z.of_nat <$> seq 1 10) st in
  fst result = replicate 10 true
  /\ exists after,
       accountHealth (snd result) !! "bob" = Some after
       /\ consecutiveFailures after = 10
       /\ status after = PROBATION.
Proof.
  destruct (failures_escalate "bob" "socket hang up" (Z.of_nat <$> seq 1 10)
              (loadCredentials (set_dataFile (Some [mk_account "bob" true false]) initial)))
    as (H1 & after & H2 & H3 & H4).
  - right. left. vm_compute. reflexivity.
  - vm_compute. split; [discriminate|lia].
  - discriminate.
  - split; [exact H1|]. exists after. split; [exact H2|]. split; [exact H3|].
    rewrite H3 in H4. exact H4.
Defined.

Lemma success_step (user : string) (rtt : option Z) (now : Z) (st : Provider) :
  let before := fst (getAccountHealth user st) in
  exists after st',
    updateAccountHealth user true None rtt now st = (true, st')
    /\ getAccountHealth user st' = (after, st')
    /\ consecutiveFailures after = 0
    /\ consecutiveSuccesses after = consecutiveSuccesses before + 1
    /\ status after = (if bool_decide (status before = PROBATION)
                          && (3 <=? consecutiveSuccesses after)
                       then HEALTHY else status before).
Proof.
  cbv zeta. unfold updateAccountHealth.
  destruct (getAccountHealth user st) as [health st1]. cbn [fst snd].
  eexists _, _. split; [reflexivity|]. split; [apply Health.getAccountHealth_put|].
  unfold record_success. cbn.
  destruct (bool_decide (status health = PROBATION) && (3 <=? consecutiveSuccesses health + 1))
    eqn:E; cbn; rewrite ?E; done.
Qed.

(** X9: successes in a row reset [consecutiveFailures], add one to
    [consecutiveSuccesses] each, and change the status in one case only: a
    record that was in PROBATION is HEALTHY once the counter of successes
    has reached 3.  No number of successes lifts COOLDOWN, DISABLED, LOCKED
    or SUSPENDED. *)
Theorem successes_promote (user : string) (rtt : option Z) (times : list Z) (st : Provider) :
  let before := fst (getAccountHealth user st) in
  times <> [] ->
  exists after,
    accountHealth (repeated_successes user rtt times st) !! user = Some after
    /\ consecutiveFailures after = 0
    /\ consecutiveSuccesses after = consecutiveSuccesses before + Z.of_nat (length times)
    /\ status after = (if bool_decide (status before = PROBATION)
                          && (3 <=? consecutiveSuccesses after)
                       then HEALTHY else status before).
Proof.
  cbv zeta. revert st.
  induction times as [|now rest IH]; intros st Hne; [done|].
  cbn [repeated_successes].
  destruct (success_step user rtt now st) as (h1 & st1 & Hu & Hg & Hcf & Hcs & Hs).
  rewrite Hu. cbn [snd].
  destruct rest as [|now2 rest].
  - cbn [repeated_successes]. exists h1. split.
    + pose proof (Window.getAccountHealth_lookup user st1) as Hl.
      rewrite Hg in Hl. exact Hl.
    + split; [exact Hcf|]. split; [cbn; lia|exact Hs].
  - specialize (IH st1 ltac:(done)). rewrite Hg in IH. cbn [fst] in IH.
    destruct IH as (after & Hl & Hcf2 & Hcs2 & Hs2).
    exists after. split; [exact Hl|]. split; [exact Hcf2|].
    split; [rewrite Hcs2, Hcs; cbn [length]; lia|].
    rewrite Hs2, Hs.
    assert (0 <= Z.of_nat (length (now2 :: rest))) by lia.
    destruct (bool_decide (status (fst (getAccountHealth user st)) = PROBATION)) eqn:Ep;
      cbn [andb].
    + destruct (3 <=? consecutiveSuccesses h1) eqn:E1.
      * rewrite bool_decide_eq_false_2 by discriminate. cbn [andb].
        destruct (3 <=? consecutiveSuccesses after) eqn:E2; [reflexivity|].
        cbn [length] in *. lia.
      * apply bool_decide_eq_true in Ep. rewrite Ep.
        rewrite bool_decide_eq_true_2 by reflexivity. reflexivity.
    + apply bool_decide_eq_false in Ep. rewrite bool_decide_eq_false_2 by exact Ep.
      reflexivity.
Qed.

Lemma successes_promote_witness :
  let st := put_health "bob" (set_status PROBATION fresh_health) initial in
  exists after,
    accountHealth (repeated_successes "bob" (Some 120) [10; 20; 30] st) !! "bob" = Some after
    /\ consecutiveFailures after = 0
    /\ consecutiveSuccesses after = 3
    /\ status after = HEALTHY.
Proof.
  destruct (successes_promote "bob" (Some 120) [10; 20; 30]
              (put_health "bob" (set_status PROBATION fresh_health) initial))
    as (after & H1 & H2 & H3 & H4); [discriminate|].
  exists after. split; [exact H1|]. split; [exact H2|]. split; [exact H3|].
  rewrite H3 in H4. exact H4.
Defined.

End Escalate.

(** ** Account selection: eligibility, cooldown and the fallback *)

Module Budget.

Lemma check_by_window user now st :
  fst (canAccountMakeRequest user now st) = check_of now (window_of user now st).
Proof.
  unfold canAccountMakeRequest, window_of, check_of.
  destruct (getAccountHealth user st) as [health st1]. cbn [fst].
  destruct (_ <? _); [reflexivity|].
  destruct (filter _ _); reflexivity.
Qed.

Lemma window_ext user now st1 st2 :
  accountHealth st1 !! user = accountHealth st2 !! user ->
  window_of user now st1 = window_of user now st2.
Proof.
  intros H. unfold window_of, getAccountHealth. rewrite H.
  by destruct (accountHealth st2 !! user).
Qed.

Lemma window_get user other now st :
  window_of other now (snd (getAccountHealth user st)) = window_of other now st.
Proof.
  destruct (decide (user = other)) as [<-|Hne].
  - unfold window_of. unfold getAccountHealth at 2.
    destruct (accountHealth st !! user) eqn:E; cbn [snd].
    + reflexivity.
    + rewrite Health.getAccountHealth_put. unfold getAccountHealth. by rewrite E.
  - apply window_ext. unfold getAccountHealth.
    destruct (accountHealth st !! user); [reflexivity|].
    cbn. by rewrite lookup_insert_ne.
Qed.

Lemma window_put_ne user other h now st :
  user <> other -> window_of other now (put_health user h st) = window_of other now st.
Proof. intros Hne. apply window_ext. by apply Window.lookup_put_health_ne. Qed.

Lemma window_canRequest user other now st :
  window_of other now (snd (canAccountMakeRequest user now st)) = window_of other now st.
Proof.
  rewrite Select.canRequest_snd.
  destruct (decide (user = other)) as [<-|Hne].
  - unfold window_of at 1. rewrite Health.getAccountHealth_put. cbn [fst requestHistory set_requestHistory].
    unfold window_of. apply list_filter_filter_r. done.
  - rewrite window_put_ne by done. apply window_get.
Qed.

Lemma window_is_available now acc other st :
  window_of other now (snd (is_available now acc st)) = window_of other now st.
Proof. by rewrite Select.is_available_snd, window_canRequest, window_get. Qed.

Lemma window_filter_available now creds other :
  forall base st,
    window_of other now (snd (filter_available now base creds st)) = window_of other now st.
Proof.
  induction creds as [|acc rest IH]; intros base st; [reflexivity|].
  cbn [filter_available].
  pose proof (window_is_available now acc other st) as H1.
  destruct (is_available now acc st) as [keep st1].
  pose proof (IH (S base) st1) as H2.
  destruct (filter_available now (S base) rest st1) as [kept st2].
  cbn [snd] in *. congruence.
Qed.

Lemma is_available_budget now acc st :
  fst (is_available now acc st) = true ->
  (length (window_of (username acc) now st) < 200)%nat.
Proof.
  unfold is_available.
  pose proof (check_by_window (username acc) now (snd (getAccountHealth (username acc) st)))
    as Hc.
  rewrite window_get in Hc.
  destruct (getAccountHealth (username acc) st) as [health st1]. cbn [snd] in Hc.
  destruct (canAccountMakeRequest (username acc) now st1) as [check st2]. cbn [fst] in *.
  intros H. repeat (apply andb_prop in H as [H ?]).
  subst check. unfold check_of, REQUESTS_PER_HOUR in *.
  destruct (Z.of_nat (length (window_of (username acc) now st)) <? 200) eqn:E; [lia|].
  destruct (window_of (username acc) now st); discriminate.
Qed.

Lemma filter_available_budget now creds :
  forall base st i,
    i ∈ fst (filter_available now base creds st) ->
    exists acc, creds !! (i - base)%nat = Some acc
                /\ (base <= i)%nat
                /\ (length (window_of (username acc) now st) < 200)%nat.
Proof.
  induction creds as [|acc rest IH]; intros base st i Hi.
  - by apply elem_of_nil in Hi.
  - cbn [filter_available] in Hi.
    pose proof (is_available_budget now acc st) as Hb.
    pose proof (fun other => window_is_available now acc other st) as Hw.
    destruct (is_available now acc st) as [keep st1]. cbn [fst snd] in *.
    specialize (IH (S base) st1).
    destruct (filter_available now (S base) rest st1) as [kept st2]. cbn [fst] in *.
    assert (Hrest : i ∈ kept ->
              exists acc0, (acc :: rest) !! (i - base)%nat = Some acc0 /\ (base <= i)%nat
                /\ (length (window_of (username acc0) now st) < 200)%nat).
    { intros Hk. destruct (IH i Hk) as (acc0 & Hlook & Hle & Hlen).
      exists acc0. split.
      - replace (i - base)%nat with (S (i - S base)) by lia. exact Hlook.
      - split; [lia|]. by rewrite <- Hw. }
    destruct keep; [|by apply Hrest].
    apply elem_of_cons in Hi as [->|Hi]; [|by apply Hrest].
    exists acc. split; [by rewrite Nat.sub_diag|]. split; [lia|by apply Hb].
Qed.

Lemma trimmed_canRequest user other now st0 st :
  (forall u, window_of u now st = window_of u now st0) ->
  trimmed_record other now st0 st \/ other = user ->
  trimmed_record other now st0 (snd (canAccountMakeRequest user now st)).
Proof.
  intros Hw H. unfold trimmed_record. rewrite Select.canRequest_snd.
  destruct (decide (user = other)) as [<-|Hne].
  - rewrite Window.lookup_put_health. cbn. f_equal. apply Hw.
  - rewrite Window.lookup_put_health_ne by done.
    rewrite Frame.health_get_ne by done.
    destruct H as [H|H]; [exact H|congruence].
Qed.

Lemma trimmed_get user other now st0 st :
  trimmed_record other now st0 st ->
  trimmed_record other now st0 (snd (getAccountHealth user st)).
Proof.
  unfold trimmed_record, getAccountHealth. intros H.
  destruct (accountHealth st !! user) eqn:E; [exact H|]. cbn.
  destruct (decide (user = other)) as [<-|Hne].
  - rewrite E in H. discriminate.
  - by rewrite lookup_insert_ne.
Qed.

Lemma trimmed_is_available now acc other st0 st :
  (forall u, window_of u now st = window_of u now st0) ->
  trimmed_record other now st0 st \/ other = username acc ->
  trimmed_record other now st0 (snd (is_available now acc st)).
Proof.
  intros Hw H. rewrite Select.is_available_snd.
  apply trimmed_canRequest.
  - intros u. by rewrite window_get.
  - destruct H as [H|H]; [left; by apply trimmed_get|by right].
Qed.

Lemma trimmed_filter_available now creds other st0 :
  forall base st,
    (forall u, window_of u now st = window_of u now st0) ->
    trimmed_record other now st0 st \/ other ∈ username <$> creds ->
    trimmed_record other now st0 (snd (filter_available now base creds st)).
Proof.
  induction creds as [|acc rest IH]; intros base st Hw H.
  - destruct H as [H|H]; [exact H|by apply elem_of_nil in H].
  - cbn [filter_available].
    pose proof (trimmed_is_available now acc other st0 st Hw) as H1.
    pose proof (fun u => window_is_available now acc u st) as H2.
    destruct (is_available now acc st) as [keep st1]. cbn [snd] in *.
    specialize (IH (S base) st1).
    destruct (filter_available now (S base) rest st1) as [kept st2]. cbn [snd] in *.
    apply IH.
    + intros u. by rewrite H2.
    + rewrite fmap_cons in H. destruct H as [H|H].
      * left. apply H1. by left.
      * apply elem_of_cons in H as [H|H]; [left; apply H1; by right|by right].
Qed.

(** X10: the account that [selectAvailableAccount] selects is usable and not
    locked in the registry, its health is neither DISABLED nor LOCKED, a
    COOLDOWN it is in has a deadline that is over (or none), and its request
    window, trimmed to the last 15 minutes, holds fewer than 200 requests. *)
Theorem selected_is_eligible (now : Z) (random : nat) (i : nat) (st : Provider) :
  fst (selectAvailableAccount now random st) = Selected i ->
  let st' := snd (selectAvailableAccount now random st) in
  exists acc health,
    credentials st' !! i = Some acc
    /\ accountHealth st' !! username acc = Some health
    /\ usable acc = true
    /\ isLocked acc = false
    /\ status health <> DISABLED
    /\ status health <> LOCKED
    /\ (status health = COOLDOWN ->
          forall t, cooldownUntil health = Some t -> t <> 0 -> t <= now)
    /\ (length (requestHistory health) < 200)%nat
    /\ (forall t, t ∈ requestHistory health -> now - t < RATE_LIMIT_WINDOW_MS).
Proof.
  intros Hsel.
  destruct (Select.selected_passes now random i st Hsel)
    as (acc & health & H1 & H2 & H3 & H4 & H5 & H6 & H7).
  cbv zeta. exists acc, health. do 7 (split; [assumption|]).
  revert Hsel H1 H2. unfold selectAvailableAccount. set (st0 := loadCredentials st).
  pose proof (filter_available_budget now (credentials st0) 0 st0) as Hb.
  pose proof (Select.filter_available_snd_props now (credentials st0) 0 st0) as (Hc & _ & _).
  pose proof (fun other => window_filter_available now (credentials st0) other 0 st0) as Hw.
  destruct (filter_available now 0 (credentials st0) st0) as [available st1] eqn:Hst1.
  cbn [fst snd] in *.
  destruct (available !! (random mod length available)%nat) as [j|] eqn:Hj.
  - cbn [fst snd]. intros [= <-] H1 H2.
    destruct (Hb j) as (acc' & Hlook & _ & Hlen).
    { by eapply list_elem_of_lookup_2. }
    rewrite Nat.sub_0_r in Hlook. rewrite Hc in H1.
    assert (acc' = acc) as -> by congruence.
    pose proof (trimmed_filter_available now (credentials st0) (username acc) st0 0 st0
                  (fun _ => eq_refl)) as Ht.
    rewrite Hst1 in Ht. cbn [snd] in Ht. unfold trimmed_record in Ht.
    rewrite H2 in Ht. cbn in Ht.
    assert (requestHistory health = window_of (username acc) now st0) as ->.
    { assert (Some (requestHistory health) = Some (window_of (username acc) now st0)) as Hq.
      { apply Ht. right. apply list_elem_of_fmap. exists acc. split; [reflexivity|].
        by eapply list_elem_of_lookup_2. }
      by injection Hq. }
    split; [exact Hlen|].
    intros t Hin. unfold window_of in Hin. apply list_elem_of_filter in Hin as [Hin _].
    exact Hin.
  - destruct (soonest_wait now 0 (credentials st1) None st1) as [[[k w]|] st2];
      discriminate.
Qed.

Lemma selected_is_eligible_witness :
  let st := set_dataFile (Some [mk_account "alice" true true; mk_account "bob" false false])
              initial in
  let st' := snd (selectAvailableAccount 5000 7 st) in
  exists acc health,
    credentials st' !! 1%nat = Some acc
    /\ accountHealth st' !! username acc = Some health
    /\ usable acc = true
    /\ isLocked acc = false
    /\ status health <> DISABLED
    /\ status health <> LOCKED
    /\ (status health = COOLDOWN ->
          forall t, cooldownUntil health = Some t -> t <> 0 -> t <= 5000)
    /\ (length (requestHistory health) < 200)%nat
    /\ (forall t, t ∈ requestHistory health -> 5000 - t < RATE_LIMIT_WINDOW_MS).
Proof.
  apply (selected_is_eligible 5000 7 1
           (set_dataFile (Some [mk_account "alice" true true; mk_account "bob" false false])
              initial)).
  vm_compute. reflexivity.
Defined.

End Budget.

Module Rest.

Lemma load_one_view cred u m st :
  status <$> snd (load_one cred m) !! u = Some LOCKED
  \/ health_view u (set_accountHealth (snd (load_one cred m)) st)
     = health_view u (set_accountHealth m st).
Proof.
  unfold load_one.
  set (m1 := match m !! username cred with
             | Some _ => m
             | None => <[username cred := fresh_health]> m
             end).
  assert (H1 : health_view u (set_accountHealth m1 st) = health_view u (set_accountHealth m st)).
  { subst m1. destruct (m !! username cred) eqn:E; [reflexivity|].
    destruct (decide (username cred = u)) as [<-|Hne].
    - unfold health_view, getAccountHealth. cbn. by rewrite lookup_insert_eq, E.
    - apply Select.health_view_ext. cbn. by rewrite lookup_insert_ne. }
  destruct (isLocked cred); cbn [snd]; [|by right].
  destruct (decide (username cred = u)) as [<-|Hne].
  - left. rewrite lookup_alter_eq. subst m1.
    destruct (m !! username cred) eqn:E.
    + by rewrite E.
    + by rewrite lookup_insert_eq.
  - right. rewrite <- H1. apply Select.health_view_ext. cbn. by rewrite lookup_alter_ne.
Qed.

Lemma load_each_view accounts u st :
  forall m,
    status <$> snd (load_each accounts m) !! u = Some LOCKED
    \/ health_view u (set_accountHealth (snd (load_each accounts m)) st)
       = health_view u (set_accountHealth m st).
Proof.
  induction accounts as [|cred rest IH]; intros m; [by right|].
  cbn [load_each].
  pose proof (load_one_view cred u m st) as H1.
  destruct (load_one cred m) as [cred' m1]. cbn [snd] in H1.
  pose proof (IH m1) as H2.
  pose proof (Registry.load_each_stays rest u m1) as H3.
  destruct (load_each rest m1) as [rest' m2]. cbn [snd] in *.
  destruct H1 as [H1|H1]; [left; by apply H3|].
  destruct H2 as [H2|H2]; [by left|right; congruence].
Qed.

Lemma loadCredentials_view u st :
  fst (health_view u (loadCredentials st)) = LOCKED
  \/ health_view u (loadCredentials st) = health_view u st.
Proof.
  unfold loadCredentials.
  destruct (loadingCredentials st); [by right|].
  destruct (credentialsLoaded st && _); [by right|].
  destruct (dataFile st) as [accounts|]; [|right; by apply Select.health_view_ext].
  pose proof (load_each_view accounts u st (accountHealth st)) as H.
  destruct (load_each accounts (accountHealth st)) as [creds m]. cbn [snd] in H.
  destruct H as [H|H].
  - left. destruct (m !! u) as [h|] eqn:E; [|cbn in H; discriminate].
    unfold health_view, getAccountHealth. cbn. rewrite E. cbn in *. congruence.
  - right. etrans; [|etrans; [exact H|]]; by apply Select.health_view_ext.
Qed.

Lemma selected_view now random i st :
  fst (selectAvailableAccount now random st) = Selected i ->
  forall u, health_view u (snd (selectAvailableAccount now random st))
            = health_view u (loadCredentials st).
Proof.
  unfold selectAvailableAccount. set (st0 := loadCredentials st).
  pose proof (Select.filter_available_snd_props now (credentials st0) 0 st0) as (_ & Hv & _).
  destruct (filter_available now 0 (credentials st0) st0) as [available st1].
  cbn [fst snd] in *.
  destruct (available !! (random mod length available)%nat) as [j|] eqn:Hj.
  - intros _. exact Hv.
  - destruct (soonest_wait now 0 (credentials st1) None st1) as [[[k w]|] st2];
      discriminate.
Qed.

Lemma soonest_view now creds u :
  forall base soonest st,
    health_view u (snd (soonest_wait now base creds soonest st)) = health_view u st.
Proof.
  induction creds as [|acc rest IH]; intros base soonest st; [reflexivity|].
  cbn [soonest_wait].
  pose proof (Select.canRequest_view (username acc) u now st) as H1.
  destruct (canAccountMakeRequest (username acc) now st) as [check st1]. cbn [snd] in H1.
  by rewrite IH.
Qed.

(** A selection changes no status and no deadline, beyond what its
    [loadCredentials] does. *)
Lemma select_view now random st u :
  health_view u (snd (selectAvailableAccount now random st))
  = health_view u (loadCredentials st).
Proof.
  unfold selectAvailableAccount. set (st0 := loadCredentials st).
  pose proof (Select.filter_available_snd_props now (credentials st0) 0 st0) as (_ & Hv & _).
  destruct (filter_available now 0 (credentials st0) st0) as [available st1].
  cbn [fst snd] in *.
  destruct (available !! (random mod length available)%nat) as [j|]; [apply Hv|].
  pose proof (soonest_view now (credentials st1) u 0%nat None st1) as Hs.
  destruct (soonest_wait now 0 (credentials st1) None st1) as [[[k w]|] st2];
    cbn [snd] in *; by rewrite Hs.
Qed.

(** A report about a username changes no status and no deadline of
    another. *)
Lemma update_view_ne user other success error rtt now st :
  other <> user ->
  health_view other (snd (updateAccountHealth user success error rtt now st))
  = health_view other st.
Proof.
  intros Hne. rewrite <- (Select.getAccountHealth_view user other st).
  apply Select.health_view_ext.
  destruct (Tracker.update_cases user success error rtt now st)
    as [(h1 & ->) | [(h1 & h2 & ->) | (h1 & i & c & Hf & ->)]].
  - by rewrite Window.lookup_put_health_ne.
  - by rewrite !Window.lookup_put_health_ne.
  - change (accountHealth (saveCredentials_start ?s)) with (accountHealth s).
    by rewrite Frame.health_lock, Window.lookup_put_health_ne.
Qed.

(** While nothing is reported about it, a username in COOLDOWN stays
    there with its deadline, or is found locked by a reload. *)
Lemma rest_run_view user deadline ops :
  forall st,
    Forall (spares user) ops ->
    health_view user st = (COOLDOWN, Some deadline) \/ fst (health_view user st) = LOCKED ->
    health_view user (rest_run ops st) = (COOLDOWN, Some deadline)
    \/ fst (health_view user (rest_run ops st)) = LOCKED.
Proof.
  induction ops as [|op ops IH]; intros st Hall Hst; [exact Hst|].
  apply Forall_cons in Hall as [Hop Hall].
  cbn [rest_run fold_left]. fold (rest_run ops (rest_step st op)).
  apply IH; [exact Hall|].
  destruct op as [now random|other success error rtt now]; cbn [rest_step].
  - rewrite select_view.
    destruct (loadCredentials_view user st) as [H|H]; [by right|by rewrite H].
  - cbn in Hop. by rewrite update_view_ne.
Qed.

(** X11: a failure that is classified RATE_LIMIT leaves the account usable
    and puts it in COOLDOWN until two minutes after the report, whatever
    its status was.  Until that deadline no selection returns an account of
    that username, whatever selections and whatever reports about other
    usernames come in between.  (A further report about the username itself
    can end the rest before the deadline; see [network_failure_ends_rest].) *)
Theorem rate_limit_rests (user message : string) (rtt : option Z) (now later : Z)
    (random : nat) (ops : list RestOp) (st : Provider) :
  classifyError message = RATE_LIMIT ->
  (length (errorHistory (fst (getAccountHealth user st))) <= 25)%nat ->
  now + COOLDOWN_DURATION_MS <> 0 ->
  Forall (spares user) ops ->
  later < now + COOLDOWN_DURATION_MS ->
  let result := updateAccountHealth user false (Some message) rtt now st in
  let rested := rest_run ops (snd result) in
  fst result = true
  /\ health_view user (snd result) = (COOLDOWN, Some (now + COOLDOWN_DURATION_MS))
  /\ forall i acc,
       fst (selectAvailableAccount later random rested) = Selected i ->
       credentials (snd (selectAvailableAccount later random rested)) !! i = Some acc ->
       username acc <> user.
Proof.
  intros Hc Hl Hnz Hops Hlater. cbv zeta.
  assert (breaks (classifyError message)) as Hb.
  { rewrite Hc. repeat split; discriminate. }
  pose proof (Health.update_break user message rtt now st Hb Hl) as Hu. cbv zeta in Hu.
  rewrite Hu, Hc. cbn [fst snd].
  set (st1 := put_health user _ _).
  assert (Hview : health_view user st1 = (COOLDOWN, Some (now + COOLDOWN_DURATION_MS))).
  { unfold health_view, st1. rewrite Health.getAccountHealth_put. reflexivity. }
  split; [reflexivity|]. split; [exact Hview|].
  pose proof (rest_run_view user (now + COOLDOWN_DURATION_MS) ops st1 Hops (or_introl Hview))
    as Hrest.
  set (st2 := rest_run ops st1) in *.
  intros i acc Hsel Hi Heq.
  destruct (Select.selected_passes later random i st2 Hsel)
    as (acc' & health & H1 & H2 & _ & _ & _ & H6 & H7).
  assert (acc' = acc) as -> by congruence.
  pose proof (select_view later random st2 user) as Hv.
  rewrite Heq in H2. rewrite (Select.health_view_lookup _ _ _ H2) in Hv.
  destruct (loadCredentials_view user st2) as [Hlocked|Hsame].
  - rewrite <- Hv in Hlocked. cbn in Hlocked. contradiction.
  - rewrite Hsame in Hv. destruct Hrest as [Hrest|Hrest].
    + rewrite Hrest in Hv. injection Hv as Hs Ht.
      specialize (H7 Hs _ Ht Hnz). lia.
    + rewrite <- Hv in Hrest. cbn in Hrest. contradiction.
Qed.

Lemma rate_limit_rests_witness :
  let st := loadCredentials (set_dataFile (Some [mk_account "bob" true false;
                                                   mk_account "carol" true false]) initial) in
  let result := updateAccountHealth "bob" false (Some "Too Many Requests") None 1000 st in
  let ops := [Selects 2000 0; Reports "carol" false (Some "socket hang up") None 3000;
              Selects 4000 1] in
  fst result = true
  /\ health_view "bob" (snd result) = (COOLDOWN, Some 121000)
  /\ Forall (fun random =>
               forall i acc,
                 fst (selectAvailableAccount 120999 random (rest_run ops (snd result)))
                 = Selected i ->
                 credentials (snd (selectAvailableAccount 120999 random
                                     (rest_run ops (snd result)))) !! i = Some acc ->
                 username acc <> "bob") [0%nat; 1%nat].
Proof.
  assert (H : forall random,
    let st := loadCredentials (set_dataFile (Some [mk_account "bob" true false;
                                                     mk_account "carol" true false]) initial) in
    let result := updateAccountHealth "bob" false (Some "Too Many Requests") None 1000 st in
    let ops := [Selects 2000 0; Reports "carol" false (Some "socket hang up") None 3000;
                Selects 4000 1] in
    fst result = true
    /\ health_view "bob" (snd result) = (COOLDOWN, Some 121000)
    /\ forall i acc,
         fst (selectAvailableAccount 120999 random (rest_run ops (snd result))) = Selected i ->
         credentials (snd (selectAvailableAccount 120999 random
                             (rest_run ops (snd result)))) !! i = Some acc ->
         username acc <> "bob").
  { intros random.
    apply (rate_limit_rests "bob" "Too Many Requests" None 1000 120999 random
             [Selects 2000 0; Reports "carol" false (Some "socket hang up") None 3000;
              Selects 4000 1]
             (loadCredentials (set_dataFile (Some [mk_account "bob" true false;
                                                     mk_account "carol" true false]) initial))).
    - vm_compute. reflexivity.
    - vm_compute. lia.
    - unfold COOLDOWN_DURATION_MS. lia.
    - repeat constructor. cbn. discriminate.
    - unfold COOLDOWN_DURATION_MS. lia. }
  cbv zeta in H |- *.
  split; [apply (H 0%nat)|]. split; [apply (H 0%nat)|].
  repeat constructor; apply H.
Defined.

(** What the theorem leaves out: a report about the resting username
    itself.  After ten rate-limit failures in a row the account rests until
    120010; a network failure at 11 puts it in PROBATION, and the selection
    at 12 returns it. *)
Example network_failure_ends_rest :
  let st := loadCredentials (set_dataFile (Some [mk_account "bob" true false]) initial) in
  let limited :=
    fold_left (fun st k => snd (updateAccountHealth "bob" false (Some "Too Many Requests")
                                  None (Z.of_nat k) st)) (seq 1 10) st in
  let failed := snd (updateAccountHealth "bob" false (Some "socket hang up") None 11 limited) in
  health_view "bob" limited = (COOLDOWN, Some 120010)
  /\ classifyError "socket hang up" = NETWORK
  /\ fst (health_view "bob" failed) = PROBATION
  /\ fst (selectAvailableAccount 12 0 failed) = Selected 0%nat.
Proof. vm_compute. repeat split. Qed.

End Rest.

Module Fallback.
Import Budget.

Lemma wait_positive now trimmed w :
  Forall (in_window now RATE_LIMIT_WINDOW_MS) trimmed ->
  waitTime (check_of now trimmed) = Some w ->
  check_of now trimmed = {| canRequest := false; waitTime := Some w |} /\ 0 < w.
Proof.
  intros Hall. unfold check_of.
  destruct (_ <? _); [discriminate|].
  destruct trimmed as [|oldest rest]; [discriminate|].
  cbn. intros [= <-]. split; [reflexivity|].
  apply Forall_cons in Hall as [Hin _]. unfold in_window in Hin. lia.
Qed.

Lemma window_in_window user now st :
  Forall (in_window now RATE_LIMIT_WINDOW_MS) (window_of user now st).
Proof.
  apply Forall_forall. intros t Ht. unfold window_of in Ht.
  by apply list_elem_of_filter in Ht as [Ht _].
Qed.

Lemma soonest_wait_spec now creds st0 :
  forall base soonest st,
    (forall u, window_of u now st = window_of u now st0) ->
    match fst (soonest_wait now base creds soonest st) with
    | Some (i, w) =>
        (soonest = Some (i, w)
         \/ exists acc, (base <= i)%nat /\ creds !! (i - base)%nat = Some acc
                        /\ wait_of now st0 acc = Some w)
        /\ (forall i0 w0, soonest = Some (i0, w0) -> w <= w0)
        /\ (forall acc w', acc ∈ creds -> wait_of now st0 acc = Some w' -> w <= w')
    | None => soonest = None /\ forall acc, acc ∈ creds -> wait_of now st0 acc = None
    end.
Proof.
  induction creds as [|acc rest IH]; intros base soonest st Hw.
  - cbn [soonest_wait fst]. destruct soonest as [[i w]|].
    + split; [by left|]. split.
      * intros i0 w0 [= <- <-]. lia.
      * intros acc w' Hin. by apply elem_of_nil in Hin.
    + split; [reflexivity|]. intros acc Hin. by apply elem_of_nil in Hin.
  - cbn [soonest_wait].
    pose proof (check_by_window (username acc) now st) as Hc.
    pose proof (fun u => window_canRequest (username acc) u now st) as Hw1.
    assert (Hwait : wait_of now st0 acc
                    = waitTime (check_of now (window_of (username acc) now st))).
    { unfold wait_of. by rewrite check_by_window, Hw. }
    destruct (canAccountMakeRequest (username acc) now st) as [check st1].
    cbn [fst snd] in *. subst check.
    match goal with
    | |- context [soonest_wait now (S base) rest ?s st1] => set (soonest1 := s)
    end.
    specialize (IH (S base) soonest1 st1 ltac:(intros u; by rewrite Hw1)).
    assert (Hstep :
      match waitTime (check_of now (window_of (username acc) now st)) with
      | Some w =>
          0 < w
          /\ soonest1 = (if match soonest with
                            | Some (_, minWait) => w <? minWait
                            | None => true
                            end
                         then Some (base, w) else soonest)
      | None => soonest1 = soonest
      end).
    { subst soonest1.
      destruct (waitTime (check_of now (window_of (username acc) now st))) as [w|] eqn:E;
        [|reflexivity].
      destruct (wait_positive now _ w (window_in_window _ _ _) E) as [Hck Hpos].
      split; [exact Hpos|]. rewrite Hck. cbn [canRequest negb andb].
      destruct (Z.eqb_spec w 0); [lia|]. reflexivity. }
    clearbody soonest1.
    destruct (fst (soonest_wait now (S base) rest soonest1 st1)) as [[i w]|].
    + destruct IH as (Hfrom & Hmin0 & Hmin).
      destruct (waitTime (check_of now (window_of (username acc) now st))) as [wa|] eqn:E.
      * destruct Hstep as [Hpos ->].
        destruct soonest as [[i0 w0]|].
        -- destruct (wa <? w0) eqn:Hlt.
           ++ split.
              { destruct Hfrom as [[= <- <-]|(acc' & Hle & Hlook & Hwt)].
                - right. exists acc. split; [lia|]. split; [by rewrite Nat.sub_diag|exact Hwait].
                - right. exists acc'. split; [lia|]. split; [|exact Hwt].
                  replace (i - base)%nat with (S (i - S base)) by lia. exact Hlook. }
              split.
              { intros i1 w1 [= <- <-]. specialize (Hmin0 _ _ eq_refl). lia. }
              { intros a w' Hin Hwt. apply elem_of_cons in Hin as [->|Hin].
                - rewrite Hwait in Hwt. injection Hwt as <-. by apply (Hmin0 base).
                - by eapply Hmin. }
           ++ split.
              { destruct Hfrom as [Heq|(acc' & Hle & Hlook & Hwt)]; [by left|].
                right. exists acc'. split; [lia|]. split; [|exact Hwt].
                replace (i - base)%nat with (S (i - S base)) by lia. exact Hlook. }
              split; [exact Hmin0|].
              intros a w' Hin Hwt. apply elem_of_cons in Hin as [->|Hin].
              ** rewrite Hwait in Hwt. injection Hwt as <-.
                 specialize (Hmin0 _ _ eq_refl). lia.
              ** by eapply Hmin.
        -- split.
           { destruct Hfrom as [[= <- <-]|(acc' & Hle & Hlook & Hwt)].
             - right. exists acc. split; [lia|]. split; [by rewrite Nat.sub_diag|exact Hwait].
             - right. exists acc'. split; [lia|]. split; [|exact Hwt].
               replace (i - base)%nat with (S (i - S base)) by lia. exact Hlook. }
           split; [intros ? ? [=]|].
           intros a w' Hin Hwt. apply elem_of_cons in Hin as [->|Hin].
           ++ rewrite Hwait in Hwt. injection Hwt as <-. by apply (Hmin0 base).
           ++ by eapply Hmin.
      * subst soonest1. split.
        { destruct Hfrom as [Heq|(acc' & Hle & Hlook & Hwt)]; [by left|].
          right. exists acc'. split; [lia|]. split; [|exact Hwt].
          replace (i - base)%nat with (S (i - S base)) by lia. exact Hlook. }
        split; [exact Hmin0|].
        intros a w' Hin Hwt. apply elem_of_cons in Hin as [->|Hin].
        -- rewrite Hwait in Hwt. discriminate.
        -- by eapply Hmin.
    + destruct IH as (Hnone & Hall). subst soonest1.
      destruct (waitTime (check_of now (window_of (username acc) now st))) as [wa|] eqn:E.
      * destruct Hstep as [_ Hs].
        destruct soonest as [[i0 w0]|]; [destruct (wa <? w0)|]; discriminate.
      * split; [symmetry; exact Hstep|].
        intros a Hin. apply elem_of_cons in Hin as [->|Hin]; [exact Hwait|by apply Hall].
Qed.

(** X12: when no account passes the filter, [selectAvailableAccount] falls
    back on the accounts that are over their request budget: it names the
    one whose wait is least, that wait is positive and is the one that
    [canAccountMakeRequest] reports (the window of the account holds 200
    requests or more); it returns nothing exactly when no account is over
    budget.  The fallback reads neither the flags nor the status of the
    account it names. *)
Theorem fallback_least_wait (now : Z) (random : nat) (st : Provider) :
  let st0 := loadCredentials st in
  match fst (selectAvailableAccount now random st) with
  | Selected _ => True
  | MustWait i w =>
      fst (filter_available now 0 (credentials st0) st0) = []
      /\ 0 < w
      /\ (exists acc, credentials st0 !! i = Some acc /\ wait_of now st0 acc = Some w
                      /\ (200 <= length (window_of (username acc) now st0))%nat)
      /\ (forall other w', other ∈ credentials st0 ->
            wait_of now st0 other = Some w' -> w <= w')
  | NoAccount =>
      fst (filter_available now 0 (credentials st0) st0) = []
      /\ forall other, other ∈ credentials st0 -> wait_of now st0 other = None
  end.
Proof.
  cbv zeta. unfold selectAvailableAccount. set (st0 := loadCredentials st).
  pose proof (Select.filter_available_snd_props now (credentials st0) 0 st0) as (Hc & _ & _).
  pose proof (fun other => window_filter_available now (credentials st0) other 0 st0) as Hw.
  destruct (filter_available now 0 (credentials st0) st0) as [available st1].
  cbn [fst snd] in *.
  destruct (available !! (random mod length available)%nat) as [j|] eqn:Hj; [exact I|].
  assert (available = []) as ->.
  { destruct available as [|a l]; [reflexivity|].
    apply lookup_ge_None in Hj.
    pose proof (Nat.mod_upper_bound random (length (a :: l))) as Hm.
    cbn [length] in *. lia. }
  pose proof (soonest_wait_spec now (credentials st1) st0 0 None st1 Hw) as Hs.
  destruct (soonest_wait now 0 (credentials st1) None st1) as [[[i w]|] st2];
    cbn [fst] in *; rewrite Hc in Hs.
  - destruct Hs as ([Habs|(acc & _ & Hlook & Hwt)] & _ & Hmin); [discriminate|].
    rewrite Nat.sub_0_r in Hlook.
    assert (0 < w /\ (200 <= length (window_of (username acc) now st0))%nat) as [Hpos Hlen].
    { revert Hwt. unfold wait_of. rewrite check_by_window. intros Hwt.
      destruct (wait_positive now _ w (window_in_window _ _ _) Hwt) as [Hck Hpos].
      split; [exact Hpos|].
      revert Hck. unfold check_of, REQUESTS_PER_HOUR.
      destruct (Z.of_nat (length (window_of (username acc) now st0)) <? 200) eqn:E;
        [discriminate|]. intros _. lia. }
    split; [reflexivity|]. split; [exact Hpos|]. split; [eauto|exact Hmin].
  - destruct Hs as [_ Hall]. split; [reflexivity|exact Hall].
Qed.

End Fallback.

(** ** Driver session: the outcomes of a login *)

Module Login.

Lemma lock_account_at i c st :
  credentials st !! i = Some c ->
  credentials (lock_account i st) = <[i := set_flags false true c]> (credentials st).
Proof. intros H. unfold lock_account. rewrite H. reflexivity. Qed.

Lemma locked_refuses i c ok answer st :
  credentials st !! i = Some c -> isLocked c = true ->
  tryLogin i ok answer st = (false, st).
Proof. intros H Hl. unfold tryLogin, tryLogin_begin. by rewrite H, Hl. Qed.





(** The same login on a file system that refuses the write: [tryLogin]
    returns true, the registry in memory holds the cookie, and the file is
    as it was. *)
Example login_resolved_write_fails :
  let st := set_writeAnswers (fun _ => false)
              (loadCredentials (set_dataFile (Some [mk_account "bob" true false]) initial)) in
  let result := tryLogin 0 true (LoginResolved [session_cookie "s"]) st in
  fst result = true
  /\ cookie <$> credentials (snd result) = [[stored_cookie (session_cookie "s")]]
  /\ dataFile (snd result) = Some [mk_account "bob" true false].
Proof. vm_compute. repeat split. Qed.

End Login.

(** ** Dispatcher: errors that skip the tracker, and the flags of the registry *)

Module Catch.

Lemma fst_get_ext user st1 st2 :
  accountHealth st1 !! user = accountHealth st2 !! user ->
  fst (getAccountHealth user st1) = fst (getAccountHealth user st2).
Proof.
  intros H. unfold getAccountHealth. rewrite H. by destruct (accountHealth st2 !! user).
Qed.

Lemma dataFile_get user st : dataFile (snd (getAccountHealth user st)) = dataFile st.
Proof. unfold getAccountHealth. by destruct (accountHealth st !! user). Qed.

Lemma mark_unusable_effects account s c st :
  credentials st !! account = Some c ->
  let st' := mark_unusable account s st in
  credentials st' = <[account := set_flags false true c]> (credentials st)
  /\ dataFile st'
     = (if writeAnswers st 0%nat then Some (credentials st') else dataFile st)
  /\ writesInFlight st' = writesInFlight st
  /\ fst (health_view (username c) st') = s
  /\ requestCount (fst (getAccountHealth (username c) st'))
     = requestCount (fst (getAccountHealth (username c) st)).
Proof.
  intros Hc. cbv zeta. unfold mark_unusable.
  assert (Hl : credentials (saveCredentials (lock_account account st)) !! account
               = Some (set_flags false true c)).
  { change (credentials (saveCredentials ?x)) with (credentials x).
    rewrite (Login.lock_account_at account c st Hc).
    apply list_lookup_insert_eq. eapply lookup_lt_Some; eauto. }
  rewrite Hl. cbn [username set_flags].
  set (st1 := saveCredentials (lock_account account st)).
  assert (Hh : accountHealth st1 = accountHealth st).
  { unfold st1. cbn. apply Frame.health_lock. }
  assert (Hc1 : credentials st1 = <[account := set_flags false true c]> (credentials st)).
  { unfold st1. change (credentials (saveCredentials ?x)) with (credentials x).
    apply (Login.lock_account_at account c st Hc). }
  assert (Hd1 : dataFile st1
                = (if writeAnswers st 0%nat then Some (credentials st1) else dataFile st)).
  { unfold st1, lock_account. rewrite Hc. reflexivity. }
  assert (Hw1 : writesInFlight st1 = writesInFlight st).
  { unfold st1, lock_account. rewrite Hc. reflexivity. }
  clearbody st1.
  pose proof (fst_get_ext (username c) st1 st ltac:(by rewrite Hh)) as Hf.
  pose proof (Health.getAccountHealth_credentials (username c) st1) as Hc2.
  pose proof (Health.getAccountHealth_disk (username c) st1) as (Hd2 & Hw2 & _).
  destruct (getAccountHealth (username c) st1) as [h st2]. cbn [fst snd] in *.
  unfold health_view. rewrite Health.getAccountHealth_put. cbn.
  split; [congruence|]. split; [by rewrite Hd2, Hd1, Hc2|]. split; [congruence|].
  split; [reflexivity|]. by rewrite Hf.
Qed.



End Catch.

Module Flags.
Import Dispatch.

Lemma flags_lock i st : flags_ok st -> flags_ok (lock_account i st).
Proof.
  unfold flags_ok, lock_account. intros H.
  destruct (credentials st !! i) as [c|] eqn:E; [|exact H]. cbn.
  apply Forall_insert; [exact H|]. cbn. discriminate.
Qed.

Lemma flags_same st st' : credentials st' = credentials st -> flags_ok st -> flags_ok st'.
Proof. unfold flags_ok. by intros ->. Qed.

Lemma flags_loaded accounts : Forall (fun c => isLocked c = false -> usable c = true)
                                     (loaded <$> accounts).
Proof.
  apply Forall_fmap, Forall_forall. intros c _. unfold loaded. cbn.
  destruct (isLocked c) eqn:E; [by rewrite E|reflexivity].
Qed.

Lemma flags_loadCredentials st : flags_ok st -> flags_ok (loadCredentials st).
Proof.
  intros H. unfold loadCredentials.
  destruct (loadingCredentials st); [exact H|].
  destruct (credentialsLoaded st && _); [exact H|].
  destruct (dataFile st) as [accounts|]; [|unfold flags_ok; cbn; constructor].
  pose proof (Registry.load_each_fst accounts (accountHealth st)) as Hf.
  destruct (load_each accounts (accountHealth st)) as [creds m]. cbn [fst] in Hf.
  unfold flags_ok. cbn. rewrite Hf. apply flags_loaded.
Qed.

Lemma credentials_soonest now creds :
  forall base soonest st,
    credentials (snd (soonest_wait now base creds soonest st)) = credentials st.
Proof.
  induction creds as [|acc rest IH]; intros base soonest st; [reflexivity|].
  cbn [soonest_wait].
  pose proof (Select.canRequest_credentials (username acc) now st) as H1.
  destruct (canAccountMakeRequest (username acc) now st) as [check st1].
  rewrite IH. exact H1.
Qed.

Lemma credentials_select now random st :
  credentials (snd (selectAvailableAccount now random st)) = credentials (loadCredentials st).
Proof.
  unfold selectAvailableAccount. set (st0 := loadCredentials st).
  pose proof (Select.filter_available_snd_props now (credentials st0) 0 st0) as (Hc & _ & _).
  destruct (filter_available now 0 (credentials st0) st0) as [available st1].
  cbn [snd] in Hc.
  destruct (available !! _); [exact Hc|].
  pose proof (credentials_soonest now (credentials st1) 0 None st1) as H2.
  destruct (soonest_wait now 0 (credentials st1) None st1) as [[[i w]|] st2];
    cbn [snd] in *; congruence.
Qed.

Lemma flags_select now random st :
  flags_ok st -> flags_ok (snd (selectAvailableAccount now random st)).
Proof.
  intros H. eapply flags_same; [apply credentials_select|]. by apply flags_loadCredentials.
Qed.

Lemma flags_update user success error rtt now st :
  flags_ok st -> flags_ok (snd (updateAccountHealth user success error rtt now st)).
Proof.
  intros H.
  pose proof (Health.getAccountHealth_credentials user st) as Hc.
  destruct (Tracker.update_cases user success error rtt now st)
    as [(h & ->) | [(h & h2 & ->) | (h & i & c & Hf & ->)]].
  - eapply flags_same; [|exact H]. cbn. exact Hc.
  - eapply flags_same; [|exact H]. cbn. exact Hc.
  - eapply flags_same; [reflexivity|]. apply flags_lock.
    eapply flags_same; [|exact H]. cbn. exact Hc.
Qed.

Lemma credentials_getProxy user now st :
  credentials (snd (getProxyForAccount user now st)) = credentials st.
Proof.
  unfold getProxyForAccount, assignProxyToAccount.
  destruct (proxyAssignment st !! user) as [p|].
  - destruct (proxies st !! p) as [q|]; [|reflexivity].
    destruct (now <? nextRequestAt q); reflexivity.
  - destruct (bool_decide _); [reflexivity|]. cbn.
    destruct (proxies st !! _) as [q|]; [|reflexivity].
    destruct (now <? nextRequestAt q); reflexivity.
Qed.

Lemma flags_mark_unusable i s st : flags_ok st -> flags_ok (mark_unusable i s st).
Proof.
  intros H. unfold mark_unusable.
  assert (flags_ok (saveCredentials (lock_account i st))) as H1.
  { eapply flags_same; [reflexivity|]. by apply flags_lock. }
  destruct (credentials (saveCredentials (lock_account i st)) !! i) as [c|]; [|exact H1].
  pose proof (Health.getAccountHealth_credentials (username c)
                (saveCredentials (lock_account i st))) as Hc.
  destruct (getAccountHealth (username c) _) as [h st1]. cbn [snd] in Hc.
  eapply flags_same; [|exact H1]. cbn. exact Hc.
Qed.

Lemma flags_catch i message now st :
  flags_ok st -> flags_ok (snd (executeWithAccount_catch i message now st)).
Proof.
  intros H. unfold executeWithAccount_catch.
  destruct (credentials st !! i) as [c|]; [|exact H].
  destruct (_ || _); [by apply flags_mark_unusable|].
  destruct (Str.includes message "User tweets fetch timed out");
    [by apply flags_mark_unusable|].
  destruct (Str.includes message _); [by apply flags_update|].
  destruct (_ || _); [by apply flags_mark_unusable|].
  pose proof (flags_update (username c) false (Some message) None now st H) as H1.
  destruct (updateAccountHealth _ _ _ _ _ _). exact H1.
Qed.

Lemma flags_tryLogin_resume i answer st :
  flags_ok st -> flags_ok (snd (tryLogin_resume i answer st)).
Proof.
  intros H. unfold tryLogin_resume.
  destruct (credentials st !! i) as [c|] eqn:E; [|exact H].
  destruct answer as [cookies|message].
  - cbn [snd]. unfold flags_ok. cbn. apply Forall_insert; [exact H|]. reflexivity.
  - destruct (login_code_326 message); [|exact H].
    assert (flags_ok (saveCredentials (lock_account i st))) as H1.
    { eapply flags_same; [reflexivity|]. by apply flags_lock. }
    pose proof (Health.getAccountHealth_credentials (username c)
                  (saveCredentials (lock_account i st))) as Hc.
    destruct (getAccountHealth (username c) _) as [h st1]. cbn [snd] in *.
    eapply flags_same; [|exact H1]. cbn. exact Hc.
Qed.

Lemma flags_check now st : flags_ok st -> flags_ok (snd (checkCircuitBreaker now st)).
Proof.
  intros H. unfold checkCircuitBreaker. destruct (circuitState st); try exact H.
  destruct (_ <? _); exact H.
Qed.

Lemma flags_breaker success now st : flags_ok st -> flags_ok (updateCircuitBreaker success now st).
Proof.
  intros H. unfold updateCircuitBreaker. destruct (circuitState st), success; try exact H.
  cbn. destruct (_ <=? _); exact H.
Qed.

Lemma flags_release st : flags_ok st -> flags_ok (releaseSemaphore st).
Proof. intros H. unfold releaseSemaphore. destruct (_ <? _); exact H. Qed.

Lemma flags_step cpuCount w e w' :
  flags_ok (provider w) -> step cpuCount w e = Some w' -> flags_ok (provider w').
Proof.
  intros Hw.
  destruct e as [now|k now random ok|k answer now|k outcome rtt now|j ok|answers];
    cbn [step];
    [| | | |destruct (writesInFlight (provider w) !! j) eqn:Hj; [|discriminate];
            intros [= <-]; unfold flags_ok, write_settles; cbn [provider];
            rewrite Hj; destruct ok; exact Hw
          |intros [= <-]; exact Hw].
  - pose proof (flags_check now (provider w) Hw) as H1.
    destruct (checkCircuitBreaker now (provider w)) as [allowed st1]. cbn [snd] in H1.
    destruct allowed; [|discriminate].
    unfold try_acquire. destruct (_ <? _); [|discriminate].
    intros [= <-]. exact H1.
  - destruct (calls w !! k) as [c|] eqn:Hk; [|discriminate].
    destruct (point c); try discriminate.
    destruct (attempt c <? 10).
    + pose proof (flags_select now random (provider w) Hw) as H1.
      destruct (selectAvailableAccount now random (provider w)) as [selection st1].
      cbn [snd] in H1.
      destruct selection as [i|i wait|].
      * destruct (credentials st1 !! i) as [acc|]; [|discriminate].
        destruct (_ || _); [intros [= <-]; exact H1|].
        set (st2 := snd (updateAccountHealth _ _ _ _ _ _)).
        assert (flags_ok st2) as H2.
        { unfold st2. apply flags_update.
          eapply flags_same; [apply credentials_getProxy|exact H1]. }
        destruct (tryLogin_begin i ok st2) as [[|]|]; intros [= <-]; cbn [provider resume];
          try exact H2.
        unfold login_failed. by apply flags_update.
      * destruct (credentials st1 !! i) as [acc|]; [|discriminate].
        destruct (_ || _); intros [= <-]; exact H1.
      * intros [= <-]. cbn [provider leave]. by apply flags_release, flags_breaker.
    + intros [= <-]. cbn [provider leave]. by apply flags_release, flags_breaker.
  - destruct (calls w !! k) as [c|] eqn:Hk; [|discriminate].
    destruct (point c) as [|i|i]; try discriminate.
    destruct (credentials (provider w) !! i) as [acc|]; [|discriminate].
    pose proof (flags_tryLogin_resume i answer (provider w) Hw) as H1.
    destruct (tryLogin_resume i answer (provider w)) as [success st1]. cbn [snd] in H1.
    destruct success; intros [= <-]; cbn [provider resume]; [exact H1|].
    unfold login_failed. by apply flags_update.
  - destruct (calls w !! k) as [c|] eqn:Hk; [|discriminate].
    destruct (point c) as [|i|i]; try discriminate.
    destruct (credentials (provider w) !! i) as [acc|]; [|discriminate].
    destruct outcome as [| |message].
    + intros [= <-]. cbn [provider leave]. apply flags_release. apply flags_breaker.
      by apply flags_update.
    + intros [= <-]. cbn [provider resume]. by apply flags_update.
    + pose proof (flags_catch i message now (provider w) Hw) as H1.
      destruct (executeWithAccount_catch i message now (provider w)) as [caught st1].
      cbn [snd] in H1.
      destruct caught; intros [= <-]; exact H1.
Qed.

(** X16: on every schedule of the event loop, from the provider as it
    starts, every entry of the registry that is not locked is usable: the
    two flags are only ever written together, so the test of [usable] in
    the selection filter never excludes an account that [isLocked] lets
    through. *)
Theorem unlocked_is_usable (cpuCount : Z) (schedule : list Event)
    (proxyList : list Proxy) (file : option (list Account)) (w : World) :
  run cpuCount schedule (started proxyList file) = Some w ->
  forall c, c ∈ credentials (provider w) -> isLocked c = false -> usable c = true.
Proof.
  assert (Hrun : forall schedule w0 w1,
            flags_ok (provider w0) -> run cpuCount schedule w0 = Some w1 ->
            flags_ok (provider w1)).
  { clear. induction schedule as [|e rest IH]; intros w0 w1 H0; cbn [run].
    - by intros [= <-].
    - destruct (step cpuCount w0 e) as [w2|] eqn:E; [|discriminate].
      apply IH. eapply flags_step; eauto. }
  intros Hr.
  apply (proj1 (Forall_forall (fun c => isLocked c = false -> usable c = true) _)).
  apply (Hrun schedule (started proxyList file) w); [|exact Hr].
  unfold started. cbn [provider]. apply flags_loadCredentials.
  unfold flags_ok. cbn. constructor.
Qed.

Lemma unlocked_is_usable_witness :
  match run 8 race_schedule (started [] (Some [mk_account "bob" false false])) with
  | Some w => Forall (fun c => isLocked c = false -> usable c = true) (credentials (provider w))
  | None => False
  end.
Proof.
  destruct (run 8 race_schedule (started [] (Some [mk_account "bob" false false])))
    as [w|] eqn:E.
  - apply Forall_forall. exact (unlocked_is_usable 8 race_schedule [] _ w E).
  - revert E. vm_compute. discriminate.
Defined.

End Flags.

(** ** Periodic sweep *)

Module Sweep.

Lemma view_put user h st : health_view user (put_health user h st) = (status h, cooldownUntil h).
Proof. unfold health_view. by rewrite Health.getAccountHealth_put. Qed.

Lemma view_put_ne user other h st :
  user <> other -> health_view other (put_health user h st) = health_view other st.
Proof. intros Hne. apply Select.health_view_ext. by apply Window.lookup_put_health_ne. Qed.

Lemma view_get user st :
  health_view user st
  = (status (fst (getAccountHealth user st)), cooldownUntil (fst (getAccountHealth user st))).
Proof. reflexivity. Qed.

Lemma view_tryLogin_ne i ok answer c other st :
  credentials st !! i = Some c ->
  username c <> other ->
  health_view other (snd (tryLogin i ok answer st)) = health_view other st.
Proof.
  intros Hc Hne. unfold tryLogin.
  destruct (tryLogin_begin i ok st) as [success|]; [reflexivity|].
  unfold tryLogin_resume. rewrite Hc.
  destruct answer as [cookies|message].
  - cbn [snd]. by apply Select.health_view_ext.
  - destruct (login_code_326 message); [|reflexivity].
    pose proof (Select.getAccountHealth_view (username c) other
                  (saveCredentials (lock_account i st))) as Hv.
    destruct (getAccountHealth (username c) _) as [h st1]. cbn [snd] in *.
    rewrite view_put_ne by done. rewrite Hv.
    apply Select.health_view_ext. cbn. by rewrite Frame.health_lock.
Qed.

Lemma tryLogin_status i ok answer c st :
  credentials st !! i = Some c ->
  let result := tryLogin i ok answer st in
  health_view (username c) (snd result) = health_view (username c) st
  \/ (fst result = false
      /\ fst (health_view (username c) (snd result)) = LOCKED
      /\ exists message, answer = LoginRejected message /\ login_code_326 message = true).
Proof.
  intros Hc. cbv zeta. unfold tryLogin.
  destruct (tryLogin_begin i ok st) as [success|]; [by left|].
  unfold tryLogin_resume. rewrite Hc.
  destruct answer as [cookies|message].
  - left. cbn [snd]. by apply Select.health_view_ext.
  - destruct (login_code_326 message) eqn:E; [|by left].
    right.
    destruct (getAccountHealth (username c) _) as [h st1]. cbn [fst snd].
    split; [reflexivity|]. split; [by rewrite view_put|eauto].
Qed.

Lemma tryLogin_username i ok answer c st :
  credentials st !! i = Some c ->
  exists c', credentials (snd (tryLogin i ok answer st)) !! i = Some c'
             /\ username c' = username c.
Proof.
  intros Hc. unfold tryLogin.
  destruct (tryLogin_begin i ok st) as [success|]; [eauto|].
  unfold tryLogin_resume. rewrite Hc.
  assert (i < length (credentials st))%nat as Hi by (eapply lookup_lt_Some; eauto).
  destruct answer as [cookies|message].
  - cbn [snd]. eexists. split; [apply list_lookup_insert_eq; exact Hi|].
    destruct (0 <? _); reflexivity.
  - destruct (login_code_326 message) eqn:E; [|eauto].
    pose proof (Health.getAccountHealth_credentials (username c)
                  (saveCredentials (lock_account i st))) as Hg.
    destruct (getAccountHealth (username c) _) as [h st1]. cbn [fst snd] in *.
    cbn [credentials put_health set_accountHealth].
    rewrite Hg. change (credentials (saveCredentials ?x)) with (credentials x).
    rewrite (Login.lock_account_at i c st Hc).
    eexists. split; [apply list_lookup_insert_eq; exact Hi|reflexivity].
Qed.

(** What [sweep_account] does to the view of any username. *)
Lemma sweep_account_view i now ok answer other st :
  let st' := sweep_account i now ok answer st in
  health_view other st' = health_view other st
  \/ (exists cred, credentials st !! i = Some cred /\ username cred = other
        /\ isLocked cred = false
        /\ (fst (health_view other st) = COOLDOWN \/ fst (health_view other st) = PROBATION)
        /\ (fst (health_view other st') = PROBATION
            \/ fst (health_view other st') = COOLDOWN
            \/ (fst (health_view other st') = LOCKED
                /\ exists message, answer = LoginRejected message
                                   /\ login_code_326 message = true))).
Proof.
  cbv zeta. unfold sweep_account.
  destruct (credentials st !! i) as [cred|] eqn:Hc; [|by left].
  destruct (decide (username cred = other)) as [Hu|Hne].
  - (* the swept account has this username *)
    subst other.
    rewrite (view_get (username cred) st).
    pose proof (Health.getAccountHealth_credentials (username cred) st) as Hcr.
    destruct (getAccountHealth (username cred) st) as [h st1]. cbn [fst snd] in *.
    set (h1 := set_requestHistory _ h).
    assert (Hs1 : status h1 = status h) by reflexivity.
    assert (Hd1 : cooldownUntil h1 = cooldownUntil h) by reflexivity.
    clearbody h1.
    case_bool_decide as E1; [left; by rewrite view_put, Hs1, Hd1|].
    destruct (bool_decide (status h1 = LOCKED) || isLocked cred) eqn:E2;
      [left; by rewrite view_put, Hs1, Hd1|].
    apply orb_false_iff in E2 as [E2 E2'].
    apply bool_decide_eq_false in E2.
    case_bool_decide as E3; [left; by rewrite view_put, Hs1, Hd1|].
    set (h2 := if bool_decide (status h1 = COOLDOWN) && _ && _ then _ else h1).
    set (h3 := if truthy (lastErrorTime h2) && _ then _ else h2).
    assert (Hs3 : status h3 = status h2 /\ cooldownUntil h3 = cooldownUntil h2).
    { unfold h3. destruct (truthy (lastErrorTime h2) && _); by split. }
    destruct Hs3 as [Hs3 Hd3].
    destruct (decide (status h = COOLDOWN \/ status h = PROBATION)) as [Hcp|Hncp].
    + right. exists cred. split; [reflexivity|]. split; [reflexivity|].
      split; [exact E2'|]. split; [exact Hcp|].
      assert (Hs2 : status h2 = PROBATION \/ status h2 = COOLDOWN).
      { unfold h2. destruct (_ && _ && _); cbn; [by left|]. rewrite Hs1. tauto. }
      set (st2 := put_health (username cred) h3 (put_health (username cred) h1 st1)).
      set (st3 := if negb (usable cred) && negb (isLocked cred) then _ else st2).
      assert (Hv3 : health_view (username cred) st3 = (status h3, cooldownUntil h3)).
      { unfold st3. destruct (negb (usable cred) && negb (isLocked cred)).
        - etrans; [|apply (view_put (username cred) h3 (put_health (username cred) h1 st1))].
          by apply Select.health_view_ext.
        - apply view_put. }
      assert (Hc3 : exists c3, credentials st3 !! i = Some c3 /\ username c3 = username cred).
      { unfold st3. destruct (negb (usable cred) && negb (isLocked cred)).
        - cbn. eexists. split; [apply list_lookup_insert_eq|reflexivity].
          rewrite Hcr. eapply lookup_lt_Some; eauto.
        - cbn. rewrite Hcr. eauto. }
      clearbody st3.
      destruct (_ && (COOLDOWN_DURATION_MS <? now - lastUsed h3)).
      * destruct Hc3 as (c3 & Hc3 & Hu3).
        pose proof (tryLogin_status i ok answer c3 st3 Hc3) as Ht. cbv zeta in Ht.
        rewrite Hu3 in Ht.
        destruct (tryLogin i ok answer st3) as [success st4]. cbn [fst snd] in Ht.
        destruct success.
        -- destruct (getAccountHealth (username cred) st4) as [h4 st5].
           rewrite view_put. cbn. by left.
        -- destruct Ht as [Ht|(_ & Ht & Hm)].
           ++ rewrite Ht, Hv3. cbn [fst]. rewrite Hs3. tauto.
           ++ right. right. by split.
      * rewrite Hv3. cbn [fst]. rewrite Hs3. tauto.
    + left.
      assert (Hh2 : h2 = h1).
      { unfold h2. rewrite (bool_decide_eq_false_2 (status h1 = COOLDOWN)); [reflexivity|].
        rewrite Hs1. tauto. }
      assert (Hs2 : status h2 = status h1) by (by rewrite Hh2).
      assert (Hd2 : cooldownUntil h2 = cooldownUntil h1) by (by rewrite Hh2).
      rewrite (bool_decide_eq_false_2 (status h3 = PROBATION)) by (rewrite Hs3, Hs2, Hs1; tauto).
      rewrite (bool_decide_eq_false_2 (status h3 = COOLDOWN)) by (rewrite Hs3, Hs2, Hs1; tauto).
      cbn [orb andb].
      destruct (negb (usable cred) && negb (isLocked cred)).
      * etrans; [|rewrite <- Hs1, <- Hd1, <- Hs2, <- Hd2, <- Hs3, <- Hd3;
                   apply (view_put (username cred) h3 (put_health (username cred) h1 st1))].
        by apply Select.health_view_ext.
      * rewrite view_put. by rewrite Hs3, Hd3, Hs2, Hd2, Hs1, Hd1.
  - (* another username *)
    left.
    pose proof (Select.getAccountHealth_view (username cred) other st) as Hv.
    pose proof (Health.getAccountHealth_credentials (username cred) st) as Hcr.
    destruct (getAccountHealth (username cred) st) as [h st1]. cbn [fst snd] in *.
    set (h1 := set_requestHistory _ h).
    assert (Hv1 : health_view other (put_health (username cred) h1 st1) = health_view other st).
    { by rewrite view_put_ne. }
    case_bool_decide; [exact Hv1|].
    destruct (_ || _); [exact Hv1|].
    case_bool_decide; [exact Hv1|].
    set (h2 := if bool_decide (status h1 = COOLDOWN) && _ && _ then _ else h1).
    set (h3 := if truthy (lastErrorTime h2) && _ then _ else h2).
    set (st2 := put_health (username cred) h3 (put_health (username cred) h1 st1)).
    set (st3 := if negb (usable cred) && negb (isLocked cred) then _ else st2).
    assert (Hv3 : health_view other st3 = health_view other st).
    { rewrite <- Hv1. unfold st3. destruct (negb (usable cred) && negb (isLocked cred)).
      - etrans; [|apply (view_put_ne (username cred) other h3); done].
        by apply Select.health_view_ext.
      - by apply view_put_ne. }
    assert (Hc3 : exists c3, credentials st3 !! i = Some c3 /\ username c3 = username cred).
    { unfold st3. destruct (negb (usable cred) && negb (isLocked cred)).
      - cbn. eexists. split; [apply list_lookup_insert_eq|reflexivity].
        rewrite Hcr. eapply lookup_lt_Some; eauto.
      - cbn. rewrite Hcr. eauto. }
    clearbody st3.
    destruct (_ && (COOLDOWN_DURATION_MS <? now - lastUsed h3)); [|exact Hv3].
    destruct Hc3 as (c3 & Hc3 & Hu3).
    pose proof (view_tryLogin_ne i ok answer c3 other st3 Hc3 ltac:(by rewrite Hu3)) as Ht.
    destruct (tryLogin i ok answer st3) as [success st4]. cbn [snd] in Ht.
    destruct success; [|by rewrite Ht].
    pose proof (Select.getAccountHealth_view (username cred) other st4) as Hv4.
    destruct (getAccountHealth (username cred) st4) as [h4 st5]. cbn [snd] in Hv4.
    rewrite view_put_ne by done. by rewrite Hv4, Ht.
Qed.

Lemma sweep_fold_view now driver other (indices : list nat) :
  forall st,
    fst (health_view other st) <> COOLDOWN ->
    fst (health_view other st) <> PROBATION ->
    health_view other
      (fold_left (fun st i => sweep_account i now (fst (driver i)) (snd (driver i)) st)
                 indices st)
    = health_view other st.
Proof.
  induction indices as [|i rest IH]; intros st H1 H2; [reflexivity|].
  cbn [fold_left].
  destruct (sweep_account_view i now (fst (driver i)) (snd (driver i)) other st)
    as [Hv|(cred & _ & _ & _ & [Hs|Hs] & _)]; try contradiction.
  rewrite IH; rewrite Hv; done.
Qed.

(** X17: the periodic sweep changes the status of no username that is
    neither in COOLDOWN nor in PROBATION when the sweep has loaded the
    registry: HEALTHY, DISABLED, LOCKED and SUSPENDED all come out of
    [checkAccountHealth] as they went in, with their cooldown deadline,
    whatever the driver answers to the logins that the sweep tries. *)
Theorem sweep_keeps_settled (now : Z) (driver : nat -> bool * LoginAnswer) (user : string)
    (st : Provider) :
  fst (health_view user (loadCredentials st)) <> COOLDOWN ->
  fst (health_view user (loadCredentials st)) <> PROBATION ->
  health_view user (checkAccountHealth now driver st) = health_view user (loadCredentials st).
Proof. intros H1 H2. unfold checkAccountHealth. by apply sweep_fold_view. Qed.

Lemma sweep_keeps_settled_witness :
  let st := loadCredentials
              (set_dataFile (Some [mk_account "alice" true true; mk_account "bob" true false])
                 initial) in
  let st := snd (updateAccountHealth "bob" false (Some "Response status: 401") None 1000 st) in
  let driver := fun _ : nat => (true, LoginResolved [session_cookie "s"]) in
  health_view "alice" (checkAccountHealth 9000000 driver st) = (LOCKED, None)
  /\ health_view "bob" (checkAccountHealth 9000000 driver st) = (SUSPENDED, None).
Proof.
  split.
  - rewrite sweep_keeps_settled; [reflexivity|vm_compute; discriminate|vm_compute; discriminate].
  - rewrite sweep_keeps_settled; [reflexivity|vm_compute; discriminate|vm_compute; discriminate].
Defined.

Lemma tryLogin_record i ok answer c st :
  credentials st !! i = Some c ->
  let result := tryLogin i ok answer st in
  fst (getAccountHealth (username c) (snd result)) = fst (getAccountHealth (username c) st)
  \/ (fst result = false
      /\ status (fst (getAccountHealth (username c) (snd result))) = LOCKED
      /\ exists message, answer = LoginRejected message /\ login_code_326 message = true).
Proof.
  intros Hc. cbv zeta. unfold tryLogin.
  destruct (tryLogin_begin i ok st) as [success|]; [by left|].
  unfold tryLogin_resume. rewrite Hc.
  destruct answer as [cookies|message].
  - left. cbn [snd]. by apply Catch.fst_get_ext.
  - destruct (login_code_326 message) eqn:E; [|by left].
    right.
    destruct (getAccountHealth (username c) _) as [h st1]. cbn [fst snd].
    split; [reflexivity|]. split; [by rewrite Health.getAccountHealth_put|eauto].
Qed.

(** X18: the sweep ends a cooldown that is over: an account that is not
    locked in the registry and whose health is in COOLDOWN with a deadline
    before [now] leaves the sweep in PROBATION with [consecutiveFailures]
    at 0, unless the sweep tried a login and the driver rejected it with
    code 326, which leaves it LOCKED. *)
Theorem sweep_ends_cooldown (i : nat) (now deadline : Z) (ok : bool) (answer : LoginAnswer)
    (cred : Account) (st : Provider) :
  credentials st !! i = Some cred ->
  isLocked cred = false ->
  health_view (username cred) st = (COOLDOWN, Some deadline) ->
  deadline <> 0 ->
  deadline < now ->
  let after := fst (getAccountHealth (username cred) (sweep_account i now ok answer st)) in
  (status after = PROBATION /\ consecutiveFailures after = 0)
  \/ (status after = LOCKED
      /\ exists message, answer = LoginRejected message /\ login_code_326 message = true).
Proof.
  intros Hc Hl Hv Hnz Hlt. cbv zeta. unfold sweep_account. rewrite Hc.
  rewrite (view_get (username cred) st) in Hv. injection Hv as Hs Hd.
  pose proof (Health.getAccountHealth_credentials (username cred) st) as Hcr.
  destruct (getAccountHealth (username cred) st) as [h st1]. cbn [fst snd] in *.
  set (h1 := set_requestHistory _ h).
  assert (Hs1 : status h1 = COOLDOWN) by exact Hs.
  assert (Hd1 : cooldownUntil h1 = Some deadline) by exact Hd.
  clearbody h1.
  rewrite (bool_decide_eq_false_2 (status h1 = HEALTHY)) by (rewrite Hs1; discriminate).
  rewrite (bool_decide_eq_false_2 (status h1 = LOCKED)) by (rewrite Hs1; discriminate).
  rewrite Hl. cbn [orb].
  rewrite (bool_decide_eq_false_2 (status h1 = SUSPENDED)) by (rewrite Hs1; discriminate).
  rewrite (bool_decide_eq_true_2 (status h1 = COOLDOWN)) by exact Hs1.
  rewrite Hd1. cbn [truthy later_than andb].
  destruct (Z.eqb_spec deadline 0) as [|_]; [contradiction|].
  destruct (Z.ltb_spec deadline now) as [_|]; [|lia].
  cbn [negb andb].
  set (h2 := set_consecutiveFailures 0 (set_status PROBATION h1)).
  set (h3 := if truthy (lastErrorTime h2) && _ then _ else h2).
  assert (Hs3 : status h3 = PROBATION /\ consecutiveFailures h3 = 0).
  { unfold h3. destruct (truthy (lastErrorTime h2) && _); by split. }
  destruct Hs3 as [Hs3 Hf3].
  set (st2 := put_health (username cred) h3 (put_health (username cred) h1 st1)).
  match goal with
  | |- context [if negb (usable cred) && ?b then ?X else ?Y] =>
      set (st3 := if negb (usable cred) && b then X else Y)
  end.
  assert (Hg3 : fst (getAccountHealth (username cred) st3) = h3).
  { unfold st3. destruct (negb (usable cred) && _).
    - etrans; [apply (Catch.fst_get_ext _ _ st2); reflexivity|].
      unfold st2. by rewrite Health.getAccountHealth_put.
    - unfold st2. by rewrite Health.getAccountHealth_put. }
  assert (Hc3 : exists c3, credentials st3 !! i = Some c3 /\ username c3 = username cred).
  { unfold st3. destruct (negb (usable cred) && _).
    - cbn. eexists. split; [apply list_lookup_insert_eq|reflexivity].
      rewrite Hcr. eapply lookup_lt_Some; eauto.
    - cbn. rewrite Hcr. eauto. }
  clearbody st3.
  destruct (_ && (COOLDOWN_DURATION_MS <? now - lastUsed h3)).
  - destruct Hc3 as (c3 & Hc3 & Hu3).
    pose proof (tryLogin_record i ok answer c3 st3 Hc3) as Ht. cbv zeta in Ht.
    rewrite Hu3 in Ht.
    destruct (tryLogin i ok answer st3) as [success st4]. cbn [fst snd] in Ht.
    destruct success.
    + destruct (getAccountHealth (username cred) st4) as [h4 st5].
      rewrite Health.getAccountHealth_put. cbn. by left.
    + destruct Ht as [Ht|(_ & Ht & Hm)].
      * left. by rewrite Ht, Hg3.
      * right. by split.
  - left. by rewrite Hg3.
Qed.

Lemma sweep_ends_cooldown_witness :
  let st := loadCredentials (set_dataFile (Some [mk_account "bob" true false]) initial) in
  let st := snd (updateAccountHealth "bob" false (Some "Too Many Requests") None 1000 st) in
  let after := fst (getAccountHealth "bob"
                      (sweep_account 0 121001 true (LoginRejected "Login failed") st)) in
  (status after = PROBATION /\ consecutiveFailures after = 0)
  \/ (status after = LOCKED
      /\ exists message, LoginRejected "Login failed" = LoginRejected message
                         /\ login_code_326 message = true).
Proof.
  apply (sweep_ends_cooldown 0 121001 121000 true (LoginRejected "Login failed")
           (mk_account "bob" true false)
           (snd (updateAccountHealth "bob" false (Some "Too Many Requests") None 1000
                   (loadCredentials
                      (set_dataFile (Some [mk_account "bob" true false]) initial))))).
  - reflexivity.
  - reflexivity.
  - vm_compute. reflexivity.
  - discriminate.
  - lia.
Defined.

End Sweep.

(** ** Administration of the registry file *)

Module Admin.
Import TwitterService.

Lemma find_username_None user (accounts : list Account) :
  list_find (has_username user) accounts = None <-> user ∉ username <$> accounts.
Proof.
  rewrite list_find_None, Forall_forall. split.
  - intros H Hin. apply list_elem_of_fmap in Hin as (a & -> & Ha). by apply (H a).
  - intros H a Ha Hu. apply H. apply list_elem_of_fmap. exists a. by split.
Qed.





End Admin.

(** ** Normalisation of search results *)

Module Normalise.
Import Tweets.

Lemma has_gt_strip s : forall inTag, has_gt (strip_from inTag s) = true -> has_gt s = true.
Proof.
  induction s as [|c r IH]; intros inTag; cbn; [done|].
  destruct inTag.
  - destruct (Ascii.eqb c ">"); [by rewrite orb_true_l|].
    intros H. apply IH in H. by rewrite H, orb_true_r.
  - destruct (Ascii.eqb c "<" && has_gt r) eqn:E.
    + intros H. apply IH in H. by rewrite H, orb_true_r.
    + cbn. destruct (Ascii.eqb c ">"); [done|]. cbn. apply IH.
Qed.

Lemma tag_free_strip s : forall inTag, tag_free (strip_from inTag s) = true.
Proof.
  induction s as [|c r IH]; intros inTag; cbn; [done|].
  destruct inTag.
  - destruct (Ascii.eqb c ">"); apply IH.
  - destruct (Ascii.eqb c "<" && has_gt r) eqn:E; [apply IH|].
    cbn. rewrite IH, andb_true_r. apply negb_true_iff.
    apply andb_false_iff in E as [E|E]; [by rewrite E|].
    destruct (has_gt (strip_from false r)) eqn:E2; [|by rewrite andb_false_r].
    apply has_gt_strip in E2. congruence.
Qed.

Lemma strip_tag_free s : tag_free s = true -> strip_from false s = s.
Proof.
  induction s as [|c r IH]; cbn; [done|].
  intros H. apply andb_prop in H as [H1 H2]. apply negb_true_iff in H1.
  rewrite H1. by rewrite IH.
Qed.

(** X22: the text that the normalisation derives from the HTML of a tweet
    holds no complete tag (no [<] with a [>] after it) and is no longer
    than the HTML; stripping is idempotent, and a string without a complete
    tag, for example one with a lone [<], is returned as it is. *)
Theorem stripTags_leaves_no_tag (html : string) :
  tag_free (stripTags html) = true
  /\ stripTags (stripTags html) = stripTags html
  /\ (tag_free html = true -> stripTags html = html)
  /\ (String.length (stripTags html) <= String.length html)%nat.
Proof.
  unfold stripTags. split; [apply tag_free_strip|].
  split; [apply strip_tag_free, tag_free_strip|].
  split; [apply strip_tag_free|].
  assert (forall s b, (String.length (strip_from b s) <= String.length s)%nat) as H.
  { induction s as [|c r IH]; intros b; cbn; [lia|].
    destruct b.
    - destruct (Ascii.eqb c ">"); [specialize (IH false)|specialize (IH true)]; lia.
    - destruct (_ && _); cbn; [specialize (IH true)|specialize (IH false)]; lia. }
  apply H.
Qed.

Lemma split_on_nonempty sep s : split_on sep s <> [].
Proof.
  induction s as [|c r IH]; cbn; [done|].
  destruct (Ascii.eqb c sep); [done|]. by destruct (split_on sep r).
Qed.

Lemma split_on_part sep part :
  has_char sep part = false -> split_on sep part = [part].
Proof.
  induction part as [|c r IH]; cbn; [done|].
  intros H. apply orb_false_iff in H as [H1 H2]. rewrite H1, IH by done. reflexivity.
Qed.

Lemma split_on_app sep part rest :
  has_char sep part = false ->
  split_on sep (part ++ String sep rest) = part :: split_on sep rest.
Proof.
  induction part as [|c r IH].
  - intros _. change (EmptyString ++ String sep rest)%string with (String sep rest).
    cbn. by rewrite Ascii.eqb_refl.
  - intros H. cbn in H. apply orb_false_iff in H as [H1 H2].
    change (String c r ++ String sep rest)%string
      with (String c (r ++ String sep rest)%string).
    cbn [split_on]. rewrite H1, IH by done. reflexivity.
Qed.

Lemma split_join sep parts :
  parts <> [] ->
  Forall (fun part => has_char sep part = false) parts ->
  split_on sep (join_with sep parts) = parts.
Proof.
  induction parts as [|part rest IH]; [done|].
  intros _ Hall. apply Forall_cons in Hall as [Hp Hrest].
  destruct rest as [|next rest].
  - cbn. by apply split_on_part.
  - change (join_with sep (part :: next :: rest))
      with (part ++ String sep (join_with sep (next :: rest)))%string.
    rewrite split_on_app by done. f_equal. by apply IH.
Qed.

(** X23: a tweet without a username whose [permanentUrl] has at least four
    components between [/] gets the fourth component as its username
    (for [https://x.com/alice/status/1], [alice]); the URL and the HTML are
    left as they are. *)
Theorem username_from_permalink (tweet : Tweet) (parts : list string) (user : string) :
  is_set (tweet_username tweet) = false ->
  Forall (fun part => has_char "/" part = false) parts ->
  parts !! 3%nat = Some user ->
  permanentUrl tweet = Some (join_with "/" parts) ->
  tweet_username (normalizeTweet tweet) = Some user
  /\ permanentUrl (normalizeTweet tweet) = permanentUrl tweet
  /\ html (normalizeTweet tweet) = html tweet.
Proof.
  intros Hu Hall H3 Hurl.
  assert (Hne : parts <> []) by (by destruct parts).
  assert (Hlen : (4 <= length parts)%nat).
  { apply lookup_lt_Some in H3. lia. }
  assert (Hset : is_set (Some (join_with "/" parts)) = true).
  { destruct parts as [|p0 [|p1 rest]]; [done|cbn in Hlen; lia|].
    cbn [is_set join_with]. by destruct p0. }
  unfold normalizeTweet. rewrite Hurl, Hu, Hset. cbn [negb andb].
  rewrite (split_join "/" parts Hne Hall).
  destruct (Z.leb_spec 4 (Z.of_nat (length parts))) as [_|]; [|lia].
  rewrite H3.
  destruct (html (set_tweet_username (Some user) tweet)) as [h|] eqn:Eh; cbn in Eh.
  - destruct (_ && _); cbn; by rewrite ?Eh.
  - cbn. by rewrite Eh.
Qed.

Lemma username_from_permalink_witness :
  let tweet := {| tweet_username := None;
                  permanentUrl := Some "https://x.com/alice/status/1";
                  text := None; html := Some "<p>hello <b>world</b></p>" |} in
  tweet_username (normalizeTweet tweet) = Some "alice"
  /\ permanentUrl (normalizeTweet tweet) = Some "https://x.com/alice/status/1"
  /\ html (normalizeTweet tweet) = Some "<p>hello <b>world</b></p>".
Proof.
  apply (username_from_permalink
           {| tweet_username := None; permanentUrl := Some "https://x.com/alice/status/1";
              text := None; html := Some "<p>hello <b>world</b></p>" |}
           ["https:"; ""; "x.com"; "alice"; "status"; "1"] "alice").
  - reflexivity.
  - repeat constructor.
  - reflexivity.
  - reflexivity.
Defined.

End Normalise.

(** ** Paginated fetches *)

Module Fetches.
Import Timeline.

Section Large.
Context {A : Type}.
Implicit Types (driver : Z -> Z -> option string -> Page A).

Lemma large_loop_spec driver maxTweets batchSize :
  forall fuel allTweets cursor fetchedCount batchCount,
    (Z.to_nat (maxTweets - fetchedCount) <= fuel)%nat ->
    fetchedCount = Z.of_nat (length allTweets) ->
    0 <= batchCount <= fetchedCount ->
    exists tweets last batches,
      large_loop fuel driver maxTweets batchSize allTweets cursor fetchedCount batchCount
      = Some (tweets, last, batches)
      /\ batchCount <= batches <= Z.max (Z.max 0 maxTweets) batchCount
      /\ (length allTweets <= length tweets)%nat
      /\ (honours_count driver ->
          Z.of_nat (length tweets) <= Z.max maxTweets fetchedCount).
Proof.
  induction fuel as [|fuel IH]; intros allTweets cursor fetchedCount batchCount Hf He Hb.
  - cbn [large_loop]. destruct (Z.ltb_spec fetchedCount maxTweets) as [Hlt|Hge]; [lia|].
    eexists _, _, _. split; [reflexivity|]. split; [lia|]. split; [lia|]. intros _. lia.
  - cbn [large_loop]. destruct (Z.ltb_spec fetchedCount maxTweets) as [Hlt|Hge].
    + destruct (driver (batchCount + 1) (Z.min batchSize (maxTweets - fetchedCount)) cursor)
        as [|tweets next] eqn:Ed.
      * eexists _, _, _. split; [reflexivity|]. split; [lia|]. split; [lia|]. intros _. lia.
      * destruct tweets as [|t tweets].
        { eexists _, _, _. split; [reflexivity|]. split; [lia|]. split; [lia|].
          intros _. lia. }
        assert (Hpage : honours_count driver ->
                  Z.of_nat (length (t :: tweets)) <= maxTweets - fetchedCount).
        { intros Hh. specialize (Hh _ _ _ _ _ Ed). lia. }
        destruct (Tweets.is_set next).
        -- destruct (IH (allTweets ++ t :: tweets) next
                       (fetchedCount + Z.of_nat (length (t :: tweets))) (batchCount + 1))
             as (tw & last & batches & Hr & Hbt & Hlen & Hhon).
           { cbn [length]. lia. }
           { rewrite length_app. lia. }
           { cbn [length]. lia. }
           exists tw, last, batches. split; [exact Hr|]. split; [cbn [length] in *; lia|].
           split; [rewrite length_app in Hlen; lia|].
           intros Hh. specialize (Hhon Hh). specialize (Hpage Hh). lia.
        -- eexists _, _, _. split; [reflexivity|]. split; [lia|].
           split; [rewrite length_app; lia|].
           intros Hh. specialize (Hpage Hh). rewrite length_app. lia.
    + eexists _, _, _. split; [reflexivity|]. split; [lia|]. split; [lia|]. intros _. lia.
Qed.

(** X24: [getUserTweetsLarge] returns, whatever the driver answers (the
    fuel of the loop is enough): it never throws, a batch that fails only
    ends the loop.  [totalFetched] is the number of tweets returned, the
    number of batches asked for is at most [maxTweets] (none when
    [maxTweets] is not positive), and when the driver returns no more
    tweets than it is asked for, at most [maxTweets] tweets come back. *)
Theorem large_fetch_returns (driver : Z -> Z -> option string -> Page A)
    (maxTweets batchSize : Z) :
  exists fetched,
    getUserTweetsLarge driver maxTweets batchSize = Some fetched
    /\ totalFetched fetched = Z.of_nat (length (lf_tweets fetched))
    /\ requestedAmount fetched = maxTweets
    /\ 0 <= batchesCompleted fetched <= Z.max 0 maxTweets
    /\ (honours_count driver -> totalFetched fetched <= Z.max 0 maxTweets).
Proof.
  unfold getUserTweetsLarge.
  destruct (large_loop_spec driver maxTweets batchSize (Z.to_nat maxTweets) [] None 0 0)
    as (tw & last & batches & Hr & Hbt & _ & Hhon); [lia|reflexivity|lia|].
  rewrite Hr. eexists. split; [reflexivity|]. cbn.
  split; [reflexivity|]. split; [reflexivity|]. split; [lia|].
  intros Hh. specialize (Hhon Hh). lia.
Qed.

End Large.

Section Range.
Context {A : Type}.
Implicit Types (tweets : list (option Z * A)) (l : list (Z * A)).

Lemma insert_perm x l : insert_newest_first x l ≡ₚ x :: l.
Proof.
  induction l as [|y rest IH]; cbn; [done|].
  destruct (fst x <=? fst y); [|done].
  rewrite IH. apply Permutation_swap.
Qed.

Lemma insert_sorted x l :
  Sorted newer_first l -> Sorted newer_first (insert_newest_first x l).
Proof.
  induction 1 as [|y rest Hs IH Hhd]; cbn; [by repeat constructor|].
  destruct (Z.leb_spec (fst x) (fst y)) as [Hle|Hgt].
  - constructor; [exact IH|].
    destruct rest as [|z rest]; cbn.
    + constructor. exact Hle.
    + destruct (Z.leb_spec (fst x) (fst z)).
      * constructor. by inversion Hhd.
      * constructor. exact Hle.
  - constructor; [by constructor|]. constructor. unfold newer_first. lia.
Qed.

Lemma sort_from l : forall sorted,
  Sorted newer_first sorted ->
  Sorted newer_first (fold_left (fun s x => insert_newest_first x s) l sorted)
  /\ fold_left (fun s x => insert_newest_first x s) l sorted ≡ₚ l ++ sorted.
Proof.
  induction l as [|x rest IH]; intros sorted Hs; cbn [fold_left]; [by split|].
  destruct (IH (insert_newest_first x sorted) (insert_sorted x sorted Hs)) as [H1 H2].
  split; [exact H1|]. rewrite H2, insert_perm. cbn.
  by rewrite Permutation_middle.
Qed.

Lemma range_loop_spec startDate endDate maxTweets :
  forall tweets allTweets fetchedCount batchCount,
    fetchedCount = Z.of_nat (length allTweets) ->
    0 <= batchCount ->
    let '(kept, processed, found) :=
      range_loop tweets startDate endDate maxTweets allTweets fetchedCount batchCount in
    exists n : nat,
      processed = batchCount + Z.of_nat n
      /\ (n <= length tweets)%nat
      /\ kept = allTweets ++ omap (in_range startDate endDate) (take n tweets)
      /\ Z.of_nat (length kept) <= Z.max maxTweets (fetchedCount + 1)
      /\ (found = true ->
          exists d t, tweets !! (n - 1)%nat = Some (Some d, t) /\ d < endDate /\ (0 < n)%nat).
Proof.
  induction tweets as [|entry rest IH]; intros allTweets fetchedCount batchCount He Hb.
  - cbn [range_loop]. exists 0%nat. cbn. rewrite app_nil_r.
    split; [lia|]. split; [lia|]. split; [done|]. split; [lia|discriminate].
  - cbn [range_loop].
    destruct (older (fst entry) endDate) eqn:Eo.
    + exists 1%nat. split; [lia|]. split; [cbn; lia|].
      destruct entry as [[d|] t]; cbn in Eo; [|discriminate].
      apply Z.ltb_lt in Eo.
      split.
      { cbn. unfold in_range. cbn.
        destruct (Z.leb_spec endDate d); [lia|]. cbn. by rewrite app_nil_r. }
      split; [lia|]. intros _. exists d, t. cbn. split; [done|]. split; [lia|lia].
    + destruct (in_range startDate endDate entry) as [kept|] eqn:Ei.
      * destruct (Z.leb_spec maxTweets (fetchedCount + 1)) as [Hle|Hgt].
        -- exists 1%nat. split; [lia|]. split; [cbn; lia|].
           split; [cbn; by rewrite Ei|]. split; [rewrite length_app; cbn; lia|discriminate].
        -- specialize (IH (allTweets ++ [kept]) (fetchedCount + 1) (batchCount + 1)).
           destruct (range_loop rest startDate endDate maxTweets (allTweets ++ [kept])
                       (fetchedCount + 1) (batchCount + 1)) as [[k p] f].
           destruct IH as (n & Hp & Hn & Hk & Hlen & Hf);
             [rewrite length_app; cbn; lia|lia|].
           exists (S n). split; [lia|]. split; [cbn; lia|].
           split; [cbn; rewrite Ei, Hk, <- app_assoc; done|]. split; [lia|].
           intros Hft. destruct (Hf Hft) as (d & t & Hl & Hd & Hpos).
           exists d, t. split; [|split; [exact Hd|lia]].
           replace (S n - 1)%nat with (S (n - 1)) by lia. exact Hl.
      * destruct (Z.leb_spec maxTweets fetchedCount) as [Hle|Hgt].
        -- exists 1%nat. split; [lia|]. split; [cbn; lia|].
           split; [cbn; rewrite Ei; by rewrite app_nil_r|]. split; [lia|discriminate].
        -- specialize (IH allTweets fetchedCount (batchCount + 1)).
           destruct (range_loop rest startDate endDate maxTweets allTweets
                       fetchedCount (batchCount + 1)) as [[k p] f].
           destruct IH as (n & Hp & Hn & Hk & Hlen & Hf); [done|lia|].
           exists (S n). split; [lia|]. split; [cbn; lia|].
           split; [cbn; rewrite Ei, Hk; done|]. split; [lia|].
           intros Hft. destruct (Hf Hft) as (d & t & Hl & Hd & Hpos).
           exists d, t. split; [|split; [exact Hd|lia]].
           replace (S n - 1)%nat with (S (n - 1)) by lia. exact Hl.
Qed.

(** X25: [getUserTimelineInDateRange] returns, newest first, exactly the
    tweets of the part of the timeline it has read whose date lies between
    [endDate] and [startDate] (both included); [totalInRange] is their
    number and is at most [maxTweets] (at most 1 when [maxTweets] is not
    positive); it reads no more than the iterator yields, and when it
    reports [reachedEndOfRange], the last tweet it read is older than
    [endDate]. *)
Theorem timeline_in_range (tweets : list (option Z * A)) (startDate endDate maxTweets : Z) :
  let fetched := getUserTimelineInDateRange tweets startDate endDate maxTweets in
  let processed := take (Z.to_nat (totalProcessed fetched)) tweets in
  Sorted newer_first (rf_tweets fetched)
  /\ rf_tweets fetched ≡ₚ omap (in_range startDate endDate) processed
  /\ Forall (fun kept => endDate <= fst kept <= startDate) (rf_tweets fetched)
  /\ totalInRange fetched = Z.of_nat (length (rf_tweets fetched))
  /\ totalInRange fetched <= Z.max 1 maxTweets
  /\ 0 <= totalProcessed fetched <= Z.of_nat (length tweets)
  /\ (reachedEndOfRange fetched = true ->
      exists d t, last processed = Some (Some d, t) /\ d < endDate).
Proof.
  cbv zeta. unfold getUserTimelineInDateRange.
  pose proof (range_loop_spec startDate endDate maxTweets tweets [] 0 0 eq_refl ltac:(lia))
    as Hspec.
  destruct (range_loop tweets startDate endDate maxTweets [] 0 0) as [[kept processed] found].
  destruct Hspec as (n & Hp & Hn & Hk & Hlen & Hf).
  cbn [rf_tweets totalInRange totalProcessed reachedEndOfRange].
  destruct (sort_from kept [] ltac:(constructor)) as [Hsorted Hperm].
  rewrite app_nil_r in Hperm. fold (sort_newest_first kept) in Hsorted, Hperm.
  assert (Z.to_nat processed = n) as -> by lia.
  cbn [app] in Hk. subst kept.
  split; [exact Hsorted|]. split; [exact Hperm|]. split.
  { rewrite Hperm. apply Forall_forall. intros [d t] Hin.
    apply list_elem_of_omap in Hin as ([od t0] & _ & Hin).
    unfold in_range in Hin. cbn in Hin. destruct od as [d0|]; [|discriminate].
    destruct (Z.leb_spec endDate d0), (Z.leb_spec d0 startDate); cbn in Hin;
      try discriminate.
    injection Hin as <- <-. cbn. lia. }
  split; [reflexivity|]. split; [rewrite Hperm; cbn in Hlen; lia|]. split; [lia|].
  intros Hft. destruct (Hf Hft) as (d & t & Hl & Hd & Hpos).
  exists d, t. split; [|exact Hd].
  rewrite last_lookup, length_take, lookup_take_lt by lia.
  replace (Nat.pred (n `min` length tweets)) with (n - 1)%nat by lia. exact Hl.
Qed.

End Range.

End Fetches.

(** ** Proxy pool and registry: what later calls cannot undo *)

Module PoolOrder.

Lemma not_earlier_refl st : not_earlier st st.
Proof. intros p q H. exists q. split; [exact H|lia]. Qed.

Lemma not_earlier_trans st1 st2 st3 :
  not_earlier st1 st2 -> not_earlier st2 st3 -> not_earlier st1 st3.
Proof.
  intros H1 H2 p q Hp. destruct (H1 p q Hp) as (q' & Hq' & Hle).
  destruct (H2 p q' Hq') as (q'' & Hq'' & Hle'). exists q''. split; [exact Hq''|lia].
Qed.

Lemma reserve_not_earlier user now st :
  not_earlier st (snd (getProxyForAccount user now st)).
Proof.
  assert (Hsame : forall st0, proxies st0 = proxies st -> not_earlier st st0).
  { intros st0 Ha p q H. exists q. rewrite Ha. split; [exact H|lia]. }
  unfold getProxyForAccount.
  pose proof (Pool.assign_proxies user st) as Ha.
  destruct (assignProxyToAccount user st) as [[p|] st0]; cbn [snd] in *;
    [|by apply Hsame].
  destruct (proxies st0 !! p) as [a|] eqn:Ep; [|by apply Hsame].
  destruct (Z.ltb_spec now (nextRequestAt a)) as [Hlt|Hge]; [by apply Hsame|].
  intros p' q H. cbn [snd proxies set_proxies]. rewrite <- Ha in H.
  destruct (decide (p' = p)) as [->|Hne].
  - rewrite list_lookup_insert_eq by (eapply lookup_lt_Some; eauto).
    eexists. split; [reflexivity|]. cbn. assert (q = a) as -> by congruence. lia.
  - rewrite list_lookup_insert_ne by done. exists q. split; [exact H|lia].
Qed.

Lemma step_not_earlier st op : not_earlier st (pool_step st op).
Proof.
  destruct op as [user|user now]; cbn [pool_step].
  - intros p q H. exists q. rewrite Pool.assign_proxies. split; [exact H|lia].
  - apply reserve_not_earlier.
Qed.

Lemma run_not_earlier ops : forall st, not_earlier st (pool_run ops st).
Proof.
  induction ops as [|op ops IH]; intros st; [apply not_earlier_refl|].
  cbn. eapply not_earlier_trans; [apply step_not_earlier|apply IH].
Qed.

Lemma granted user now p st :
  fst (getProxyForAccount user now st) = Some p ->
  (exists q, proxies st !! p = Some q /\ nextRequestAt q <= now)
  /\ (exists q', proxies (snd (getProxyForAccount user now st)) !! p = Some q'
                 /\ nextRequestAt q' = now + 1000).
Proof.
  unfold getProxyForAccount.
  pose proof (Pool.assign_proxies user st) as Ha.
  destruct (assignProxyToAccount user st) as [[p'|] st0]; cbn [snd] in *; [|discriminate].
  destruct (proxies st0 !! p') as [a|] eqn:Ep; [|discriminate].
  destruct (Z.ltb_spec now (nextRequestAt a)) as [Hlt|Hge]; [discriminate|].
  cbn [fst snd]. intros [= ->]. split.
  - exists a. rewrite <- Ha. split; [exact Ep|lia].
  - eexists. cbn. split; [apply list_lookup_insert_eq; eapply lookup_lt_Some; eauto|].
    reflexivity.
Qed.

(** X26: a proxy is never granted twice within a second: after
    [getProxyForAccount] has granted a proxy at [now], and whatever
    assignments and reservations follow, any later grant of that proxy, to
    any username, is made at [now + 1000] or later. *)
Theorem proxy_spacing_holds (user other : string) (now later : Z) (p : nat)
    (ops : list PoolOp) (st : Provider) :
  fst (getProxyForAccount user now st) = Some p ->
  fst (getProxyForAccount other later (pool_run ops (snd (getProxyForAccount user now st))))
    = Some p ->
  now + 1000 <= later.
Proof.
  intros H1 H2.
  destruct (granted user now p st H1) as (_ & q1 & Hq1 & Hn1).
  destruct (granted other later p _ H2) as ((q2 & Hq2 & Hn2) & _).
  destruct (run_not_earlier ops _ p q1 Hq1) as (q' & Hq' & Hle).
  assert (q' = q2) as -> by congruence. lia.
Qed.

Lemma proxy_spacing_holds_witness :
  let st := set_proxies two_proxies initial in
  let ops := [Reserve "bob" 5100; Assign "carol"; Reserve "carol" 5200] in
  fst (getProxyForAccount "carol" 6000
         (pool_run ops (snd (getProxyForAccount "alice" 5000 st)))) = Some 0%nat
  /\ 5000 + 1000 <= 6000.
Proof.
  split; [reflexivity|].
  apply (proxy_spacing_holds "alice" "carol" 5000 6000 0
           [Reserve "bob" 5100; Assign "carol"; Reserve "carol" 5200]
           (set_proxies two_proxies initial)); reflexivity.
Defined.

End PoolOrder.

(** ** Proxy pool: loadProxies *)

Module ProxyFile.
Import Proxies.

Lemma plain_char_facts c :
  plain_char c = true ->
  ascii_space c = false
  /\ (forall c2, wide_space2 c c2 = false)
  /\ (forall c2 c3, wide_space3 c c2 c3 = false)
  /\ Ascii.eqb c line_feed = false
  /\ Ascii.eqb c ":" = false.
Proof.
  unfold plain_char, ascii_space, wide_space2, wide_space3.
  intros H. apply andb_prop in H as [H H3]. apply andb_prop in H as [H1 H2].
  apply N.leb_le in H1, H2. apply negb_true_iff, N.eqb_neq in H3.
  assert (Hn : forall k, (k < 33 \/ 126 < k)%N -> (N_of_ascii c =? k)%N = false).
  { intros k Hk. apply N.eqb_neq. lia. }
  split.
  { rewrite (Hn 32%N) by lia. rewrite orb_false_r. apply andb_false_iff. right.
    apply N.leb_gt. lia. }
  split; [intros c2; by rewrite (Hn 194%N) by lia|].
  split.
  { intros c2 c3. cbv zeta.
    rewrite (Hn 225%N), (Hn 226%N), (Hn 227%N), (Hn 239%N) by lia. reflexivity. }
  split.
  - apply Ascii.eqb_neq. intros Heq. rewrite Heq in H1.
    change (N_of_ascii line_feed) with 10%N in H1. lia.
  - apply Ascii.eqb_neq. intros Heq. apply H3. rewrite Heq. reflexivity.
Qed.

Lemma colon_facts :
  ascii_space ":" = false
  /\ (forall c2, wide_space2 ":" c2 = false)
  /\ (forall c2 c3, wide_space3 ":" c2 c3 = false)
  /\ Ascii.eqb ":" line_feed = false.
Proof. repeat split. Qed.

Lemma trim_start_line l : Forall line_char l -> trim_start l = l.
Proof.
  intros H. destruct H as [|c1 r1 (H1 & H2 & H3 & _) _]; [reflexivity|].
  cbn. rewrite H1. destruct r1 as [|c2 r2]; [reflexivity|]. rewrite H2.
  destruct r2 as [|c3 r3]; [reflexivity|]. by rewrite H3.
Qed.

Lemma trim_end_line l : Forall line_char l -> trim_end_reversed l = l.
Proof.
  intros H. destruct H as [|c1 r1 (H1 & _) Hr]; [reflexivity|].
  cbn. rewrite H1. destruct Hr as [|c2 r2 (_ & H2 & _) Hr]; [reflexivity|].
  rewrite H2. destruct Hr as [|c3 r3 (_ & _ & H3 & _) _]; [reflexivity|]. by rewrite H3.
Qed.

Lemma trim_line s : Forall line_char (list_ascii_of_string s) -> trim s = s.
Proof.
  intros H. unfold trim. rewrite (trim_start_line _ H).
  rewrite trim_end_line by (by apply Forall_rev).
  by rewrite rev_involutive, string_of_list_ascii_of_string.
Qed.

Lemma plain_line_chars s : plain s = true -> Forall line_char (list_ascii_of_string s).
Proof.
  induction s as [|c r IH]; cbn; [constructor|].
  intros H. apply andb_prop in H as [Hc Hr]. constructor; [|by apply IH].
  destruct (plain_char_facts c Hc) as (H1 & H2 & H3 & H4 & _). by repeat split.
Qed.

Lemma plain_no_colon s : plain s = true -> has_char ":" s = false.
Proof.
  induction s as [|c r IH]; cbn; [done|].
  intros H. apply andb_prop in H as [Hc Hr].
  destruct (plain_char_facts c Hc) as (_ & _ & _ & _ & H5). by rewrite H5, IH.
Qed.

Lemma chars_app a c b :
  list_ascii_of_string (a ++ String c b)
  = list_ascii_of_string a ++ c :: list_ascii_of_string b.
Proof.
  induction a as [|x r IH]; [reflexivity|].
  change (String x r ++ String c b)%string with (String x (r ++ String c b)%string).
  cbn. by rewrite IH.
Qed.

Lemma entry_line_chars e :
  plain_entry e -> Forall line_char (list_ascii_of_string (entry_line e)).
Proof.
  intros (Hh & Hp & Hu & Hw). unfold entry_line.
  cbn [join_with]. rewrite !chars_app.
  pose proof colon_facts as (C1 & C2 & C3 & C4).
  assert (line_char ":") as Hc by (by repeat split).
  repeat (apply Forall_app; split; [by apply plain_line_chars|]; constructor; [exact Hc|]).
  by apply plain_line_chars.
Qed.

Lemma line_no_feed s : Forall line_char (list_ascii_of_string s) -> has_char line_feed s = false.
Proof.
  induction s as [|c r IH]; cbn [has_char list_ascii_of_string]; [done|].
  intros H. apply Forall_cons in H as [(_ & _ & _ & H4) Hr]. by rewrite H4, IH.
Qed.

Lemma entry_line_fields e :
  plain_entry e ->
  Tweets.split_on ":" (entry_line e)
  = [entry_host e; entry_port e; entry_username e; entry_password e].
Proof.
  intros (Hh & Hp & Hu & Hw). unfold entry_line.
  apply Normalise.split_join; [done|].
  repeat constructor; by apply plain_no_colon.
Qed.

Lemma entry_line_not_empty e : entry_line e <> EmptyString.
Proof.
  unfold entry_line. cbn [join_with]. destruct (entry_host e); discriminate.
Qed.

(** X28: [loadProxies] reads back a well-formed [proxies.txt]: the file that
    lists proxies one per line as [host:port:username:password], with
    components of printable ASCII characters other than the space and the
    colon, gives those proxies in their order, with the four components as
    written.  And for every file, the proxy at index [i] has the id
    [proxy-i] and is ready at once ([nextRequestAt = 0]). *)
Theorem proxies_file_reads_back (entries : list ProxyEntry) :
  Forall plain_entry entries ->
  loadProxies (Some (join_with line_feed (entry_line <$> entries))) = imap entry_proxy entries
  /\ forall file i p,
       loadProxies file !! i = Some p ->
       lp_id p = ("proxy-" ++ decimal i)%string /\ lp_nextRequestAt p = 0.
Proof.
  intros Hall.
  assert (Hread : loadProxies (Some (join_with line_feed (entry_line <$> entries)))
                  = imap entry_proxy entries).
  { unfold loadProxies.
    destruct entries as [|e0 rest]; [reflexivity|].
    set (lines := entry_line <$> e0 :: rest).
    assert (Hlines : Forall (fun line => Forall line_char (list_ascii_of_string line)) lines).
    { unfold lines. apply Forall_fmap. eapply Forall_impl; [exact Hall|].
      intros e He. by apply entry_line_chars. }
    rewrite (Normalise.split_join line_feed lines); [|done|].
    2:{ eapply Forall_impl; [exact Hlines|]. intros l Hl. by apply line_no_feed. }
    assert (Hfilter : List.filter (fun line => negb (String.eqb (trim line) EmptyString)) lines
                      = lines).
    { unfold lines. clear Hlines. induction Hall as [|e es He _ IH]; [reflexivity|].
      rewrite fmap_cons. cbn [List.filter].
      rewrite (trim_line _ (entry_line_chars e He)).
      destruct (String.eqb_spec (entry_line e) EmptyString) as [Heq|_];
        [by apply entry_line_not_empty in Heq|].
      cbn [negb]. by rewrite IH. }
    rewrite Hfilter.
    assert (Htrim : trim <$> lines = lines).
    { clear Hfilter. induction Hlines as [|l ls Hl _ IH]; [reflexivity|].
      rewrite fmap_cons, IH. by rewrite (trim_line l Hl). }
    rewrite Htrim. unfold lines. rewrite imap_fmap.
    apply imap_ext. intros i e Hi. unfold compose. cbv beta zeta.
    rewrite Forall_forall in Hall.
    rewrite (entry_line_fields e) by (apply Hall; by eapply list_elem_of_lookup_2).
    reflexivity. }
  split; [exact Hread|].
  intros file i p Hp. unfold loadProxies in Hp.
  destruct file as [data|]; [|discriminate].
  rewrite list_lookup_imap in Hp.
  destruct (_ !! i) as [line|]; [|discriminate]. by injection Hp as <-.
Qed.

Lemma proxies_file_reads_back_witness :
  let entries := [ {| entry_host := "10.0.0.1"; entry_port := "8000";
                      entry_username := "u"; entry_password := "p" |};
                   {| entry_host := "10.0.0.2"; entry_port := "8000";
                      entry_username := "u"; entry_password := "" |} ] in
  loadProxies (Some (join_with line_feed (entry_line <$> entries))) = imap entry_proxy entries
  /\ forall file i p,
       loadProxies file !! i = Some p ->
       lp_id p = ("proxy-" ++ decimal i)%string /\ lp_nextRequestAt p = 0.
Proof.
  apply (proxies_file_reads_back
           [ {| entry_host := "10.0.0.1"; entry_port := "8000";
                entry_username := "u"; entry_password := "p" |};
             {| entry_host := "10.0.0.2"; entry_port := "8000";
                entry_username := "u"; entry_password := "" |} ]).
  repeat constructor.
Defined.

End ProxyFile.

(** ** Dispatcher: no account is ever DISABLED *)

Module NeverDisabled.
Import Dispatch.

Lemma ok_same st st' : accountHealth st' = accountHealth st -> records_ok st -> records_ok st'.
Proof. unfold records_ok. by intros ->. Qed.

Lemma ok_put user h st : record_ok h -> records_ok st -> records_ok (put_health user h st).
Proof.
  intros Hh Hst u h' Hl. destruct (decide (user = u)) as [<-|Hne].
  - rewrite Window.lookup_put_health in Hl. by injection Hl as <-.
  - rewrite Window.lookup_put_health_ne in Hl by done. by eapply Hst.
Qed.

Lemma fresh_ok : record_ok fresh_health.
Proof. split; [apply Health.fresh_health_ok|discriminate]. Qed.

Lemma ok_get user st :
  records_ok st ->
  record_ok (fst (getAccountHealth user st)) /\ records_ok (snd (getAccountHealth user st)).
Proof.
  intros H. unfold getAccountHealth. destruct (accountHealth st !! user) as [h|] eqn:E.
  - split; [by eapply H|exact H].
  - split; [apply fresh_ok|]. apply ok_put; [apply fresh_ok|exact H].
Qed.

Lemma ok_set_status s h : s <> DISABLED -> record_ok h -> record_ok (set_status s h).
Proof. intros Hs [Hh _]. split; [exact Hh|exact Hs]. Qed.

Lemma ok_canRequest user now st :
  records_ok st -> records_ok (snd (canAccountMakeRequest user now st)).
Proof.
  intros H. rewrite Select.canRequest_snd.
  destruct (ok_get user st H) as [[Hh Hd] Hst].
  apply ok_put; [|exact Hst]. split; [exact Hh|exact Hd].
Qed.

Lemma ok_is_available now acc st :
  records_ok st -> records_ok (snd (is_available now acc st)).
Proof.
  intros H. rewrite Select.is_available_snd. apply ok_canRequest. by apply ok_get.
Qed.

Lemma ok_filter_available now creds :
  forall base st, records_ok st -> records_ok (snd (filter_available now base creds st)).
Proof.
  induction creds as [|acc rest IH]; intros base st H; [exact H|].
  cbn [filter_available].
  pose proof (ok_is_available now acc st H) as H1.
  destruct (is_available now acc st) as [keep st1].
  pose proof (IH (S base) st1 H1) as H2.
  destruct (filter_available now (S base) rest st1) as [kept st2]. exact H2.
Qed.

Lemma ok_soonest now creds :
  forall base soonest st,
    records_ok st -> records_ok (snd (soonest_wait now base creds soonest st)).
Proof.
  induction creds as [|acc rest IH]; intros base soonest st H; [exact H|].
  cbn [soonest_wait].
  pose proof (ok_canRequest (username acc) now st H) as H1.
  destruct (canAccountMakeRequest (username acc) now st) as [check st1].
  by apply IH.
Qed.

Lemma ok_load_one cred m :
  (forall u h, m !! u = Some h -> record_ok h) ->
  forall u h, snd (load_one cred m) !! u = Some h -> record_ok h.
Proof.
  intros Hm. unfold load_one.
  set (m1 := match m !! username cred with
             | Some _ => m
             | None => <[username cred := fresh_health]> m
             end).
  assert (H1 : forall u h, m1 !! u = Some h -> record_ok h).
  { subst m1. destruct (m !! username cred) eqn:E; [exact Hm|].
    intros u h Hl. destruct (decide (username cred = u)) as [<-|Hne].
    - rewrite lookup_insert_eq in Hl. injection Hl as <-. apply fresh_ok.
    - rewrite lookup_insert_ne in Hl by done. by eapply Hm. }
  destruct (isLocked cred); cbn [snd]; [|exact H1].
  intros u h Hl. destruct (decide (username cred = u)) as [<-|Hne].
  - rewrite lookup_alter_eq in Hl. destruct (m1 !! username cred) as [h0|] eqn:E; [|discriminate].
    cbn in Hl. injection Hl as <-. apply ok_set_status; [discriminate|by eapply H1].
  - rewrite lookup_alter_ne in Hl by done. by eapply H1.
Qed.

Lemma ok_load_each accounts :
  forall m, (forall u h, m !! u = Some h -> record_ok h) ->
  forall u h, snd (load_each accounts m) !! u = Some h -> record_ok h.
Proof.
  induction accounts as [|cred rest IH]; intros m Hm; [exact Hm|].
  cbn [load_each].
  pose proof (ok_load_one cred m Hm) as H1.
  destruct (load_one cred m) as [cred' m1]. cbn [snd] in H1.
  pose proof (IH m1 H1) as H2.
  destruct (load_each rest m1) as [rest' m2]. exact H2.
Qed.

Lemma ok_loadCredentials st : records_ok st -> records_ok (loadCredentials st).
Proof.
  intros H. unfold loadCredentials.
  destruct (loadingCredentials st); [exact H|].
  destruct (credentialsLoaded st && _); [exact H|].
  destruct (dataFile st) as [accounts|]; [|exact H].
  pose proof (ok_load_each accounts (accountHealth st) H) as H1.
  destruct (load_each accounts (accountHealth st)) as [creds m]. exact H1.
Qed.

Lemma ok_select now random st :
  records_ok st -> records_ok (snd (selectAvailableAccount now random st)).
Proof.
  intros H. unfold selectAvailableAccount.
  pose proof (ok_filter_available now (credentials (loadCredentials st)) 0 (loadCredentials st)
                (ok_loadCredentials st H)) as H1.
  destruct (filter_available now 0 _ (loadCredentials st)) as [available st1].
  cbn [snd] in H1.
  destruct (available !! _); [exact H1|].
  pose proof (ok_soonest now (credentials st1) 0 None st1 H1) as H2.
  destruct (soonest_wait now 0 (credentials st1) None st1) as [[[i w]|] st2]; exact H2.
Qed.

Lemma ok_update user success error rtt now st :
  records_ok st -> records_ok (snd (updateAccountHealth user success error rtt now st)).
Proof.
  intros H u h Hl.
  destruct (ok_get user st H) as [[Hh Hd] Hst].
  destruct (decide (u = user)) as [->|Hne].
  - split.
    + eapply Health.update_health_ok; [exact Hh|exact Hl].
    + intros Hs. apply Hd. eapply Health.disabled_is_never_set; [exact Hh|exact Hl|exact Hs].
  - apply (Hst u h). rewrite <- Hl. symmetry.
    destruct (Tracker.update_cases user success error rtt now st)
      as [(h1 & ->) | [(h1 & h2 & ->) | (h1 & i & c & Hf & ->)]].
    + by rewrite Window.lookup_put_health_ne.
    + by rewrite !Window.lookup_put_health_ne.
    + change (accountHealth (saveCredentials_start ?s)) with (accountHealth s).
      by rewrite Frame.health_lock, Window.lookup_put_health_ne.
Qed.

Lemma health_getProxy user now st :
  accountHealth (snd (getProxyForAccount user now st)) = accountHealth st.
Proof.
  unfold getProxyForAccount, assignProxyToAccount.
  destruct (proxyAssignment st !! user) as [p|].
  - destruct (proxies st !! p) as [q|]; [|reflexivity].
    destruct (now <? nextRequestAt q); reflexivity.
  - destruct (bool_decide _); [reflexivity|]. cbn.
    destruct (proxies st !! _) as [q|]; [|reflexivity].
    destruct (now <? nextRequestAt q); reflexivity.
Qed.

Lemma ok_lock i st : records_ok st -> records_ok (lock_account i st).
Proof. apply ok_same, Frame.health_lock. Qed.

Lemma ok_mark_unusable i s st :
  s <> DISABLED -> records_ok st -> records_ok (mark_unusable i s st).
Proof.
  intros Hs H. unfold mark_unusable.
  assert (records_ok (saveCredentials (lock_account i st))) as H1.
  { eapply ok_same; [reflexivity|]. by apply ok_lock. }
  destruct (credentials (saveCredentials (lock_account i st)) !! i) as [c|]; [|exact H1].
  destruct (ok_get (username c) _ H1) as [Hh Hst].
  destruct (getAccountHealth (username c) _) as [h st1]. cbn [fst snd] in *.
  apply ok_put; [by apply ok_set_status|exact Hst].
Qed.

Lemma ok_catch i message now st :
  records_ok st -> records_ok (snd (executeWithAccount_catch i message now st)).
Proof.
  intros H. unfold executeWithAccount_catch.
  destruct (credentials st !! i) as [c|]; [|exact H].
  destruct (_ || _); [by apply ok_mark_unusable|].
  destruct (Str.includes message "User tweets fetch timed out");
    [by apply ok_mark_unusable|].
  destruct (Str.includes message _); [by apply ok_update|].
  destruct (_ || _); [by apply ok_mark_unusable|].
  pose proof (ok_update (username c) false (Some message) None now st H) as H1.
  destruct (updateAccountHealth _ _ _ _ _ _). exact H1.
Qed.

Lemma ok_tryLogin_resume i answer st :
  records_ok st -> records_ok (snd (tryLogin_resume i answer st)).
Proof.
  intros H. unfold tryLogin_resume.
  destruct (credentials st !! i) as [c|] eqn:E; [|exact H].
  destruct answer as [cookies|message]; [exact H|].
  destruct (login_code_326 message); [|exact H].
  assert (records_ok (saveCredentials (lock_account i st))) as H1.
  { eapply ok_same; [reflexivity|]. by apply ok_lock. }
  destruct (ok_get (username c) _ H1) as [Hh Hst].
  destruct (getAccountHealth (username c) _) as [h st1]. cbn [fst snd] in *.
  apply ok_put; [by apply ok_set_status|exact Hst].
Qed.

Lemma ok_check now st : records_ok st -> records_ok (snd (checkCircuitBreaker now st)).
Proof.
  intros H. unfold checkCircuitBreaker. destruct (circuitState st); try exact H.
  destruct (_ <? _); exact H.
Qed.

Lemma ok_breaker success now st : records_ok st -> records_ok (updateCircuitBreaker success now st).
Proof.
  intros H. unfold updateCircuitBreaker. destruct (circuitState st), success; try exact H.
  cbn. destruct (_ <=? _); exact H.
Qed.

Lemma ok_release st : records_ok st -> records_ok (releaseSemaphore st).
Proof. intros H. unfold releaseSemaphore. destruct (_ <? _); exact H. Qed.

Lemma ok_step cpuCount w e w' :
  records_ok (provider w) -> step cpuCount w e = Some w' -> records_ok (provider w').
Proof.
  intros Hw.
  destruct e as [now|k now random ok|k answer now|k outcome rtt now|j ok|answers];
    cbn [step];
    [| | | |destruct (writesInFlight (provider w) !! j) eqn:Hj; [|discriminate];
            intros [= <-]; unfold records_ok, write_settles; cbn [provider];
            rewrite Hj; destruct ok; exact Hw
          |intros [= <-]; exact Hw].
  - pose proof (ok_check now (provider w) Hw) as H1.
    destruct (checkCircuitBreaker now (provider w)) as [allowed st1]. cbn [snd] in H1.
    destruct allowed; [|discriminate].
    unfold try_acquire. destruct (_ <? _); [|discriminate].
    intros [= <-]. exact H1.
  - destruct (calls w !! k) as [c|] eqn:Hk; [|discriminate].
    destruct (point c); try discriminate.
    destruct (attempt c <? 10).
    + pose proof (ok_select now random (provider w) Hw) as H1.
      destruct (selectAvailableAccount now random (provider w)) as [selection st1].
      cbn [snd] in H1.
      destruct selection as [i|i wait|].
      * destruct (credentials st1 !! i) as [acc|]; [|discriminate].
        destruct (_ || _); [intros [= <-]; exact H1|].
        set (st2 := snd (updateAccountHealth _ _ _ _ _ _)).
        assert (records_ok st2) as H2.
        { unfold st2. apply ok_update.
          eapply ok_same; [apply health_getProxy|exact H1]. }
        destruct (tryLogin_begin i ok st2) as [[|]|]; intros [= <-]; cbn [provider resume];
          try exact H2.
        unfold login_failed. by apply ok_update.
      * destruct (credentials st1 !! i) as [acc|]; [|discriminate].
        destruct (_ || _); intros [= <-]; exact H1.
      * intros [= <-]. cbn [provider leave]. by apply ok_release, ok_breaker.
    + intros [= <-]. cbn [provider leave]. by apply ok_release, ok_breaker.
  - destruct (calls w !! k) as [c|] eqn:Hk; [|discriminate].
    destruct (point c) as [|i|i]; try discriminate.
    destruct (credentials (provider w) !! i) as [acc|]; [|discriminate].
    pose proof (ok_tryLogin_resume i answer (provider w) Hw) as H1.
    destruct (tryLogin_resume i answer (provider w)) as [success st1]. cbn [snd] in H1.
    destruct success; intros [= <-]; cbn [provider resume]; [exact H1|].
    unfold login_failed. by apply ok_update.
  - destruct (calls w !! k) as [c|] eqn:Hk; [|discriminate].
    destruct (point c) as [|i|i]; try discriminate.
    destruct (credentials (provider w) !! i) as [acc|]; [|discriminate].
    destruct outcome as [| |message].
    + intros [= <-]. cbn [provider leave]. apply ok_release. apply ok_breaker.
      by apply ok_update.
    + intros [= <-]. cbn [provider resume]. by apply ok_update.
    + pose proof (ok_catch i message now (provider w) Hw) as H1.
      destruct (executeWithAccount_catch i message now (provider w)) as [caught st1].
      cbn [snd] in H1.
      destruct caught; intros [= <-]; exact H1.
Qed.

(** X29: on every schedule of the event loop, from the provider as it
    starts, no health record is ever DISABLED: every record keeps a failure
    counter that is not negative and an error history of at most 25
    entries, so the count of recent AUTH errors stays below the threshold
    of 50 that the DISABLED transition of [updateAccountHealth] waits
    for. *)
Theorem no_account_is_ever_disabled (cpuCount : Z) (schedule : list Event)
    (proxyList : list Proxy) (file : option (list Account)) (w : World) :
  run cpuCount schedule (started proxyList file) = Some w ->
  forall user h,
    accountHealth (provider w) !! user = Some h ->
    status h <> DISABLED
    /\ 0 <= consecutiveFailures h
    /\ (length (errorHistory h) <= 25)%nat
    /\ forall now,
         fst (countRecentAuthErrors user AUTH_ERROR_WINDOW_MS now (provider w))
         < AUTH_ERROR_THRESHOLD.
Proof.
  assert (Hrun : forall schedule w0 w1,
            records_ok (provider w0) -> run cpuCount schedule w0 = Some w1 ->
            records_ok (provider w1)).
  { clear. induction schedule as [|e rest IH]; intros w0 w1 H0; cbn [run].
    - by intros [= <-].
    - destruct (step cpuCount w0 e) as [w2|] eqn:E; [|discriminate].
      apply IH. eapply ok_step; eauto. }
  intros Hr user h Hl.
  assert (records_ok (provider w)) as Hok.
  { apply (Hrun schedule (started proxyList file) w); [|exact Hr].
    unfold started. cbn [provider]. apply ok_loadCredentials. intros u h0 Hu.
    cbn in Hu. by rewrite lookup_empty in Hu. }
  destruct (Hok user h Hl) as [[Hcf Hlen] Hd].
  split; [exact Hd|]. split; [exact Hcf|]. split; [exact Hlen|].
  intros now. unfold countRecentAuthErrors, getAccountHealth. rewrite Hl. cbn [fst].
  pose proof (length_filter (recent_auth now AUTH_ERROR_WINDOW_MS) (errorHistory h)) as Hf.
  unfold AUTH_ERROR_THRESHOLD. lia.
Qed.

Lemma no_account_is_ever_disabled_witness :
  match run 8 race_schedule (started [] (Some [mk_account "bob" true false])) with
  | Some w =>
      match accountHealth (provider w) !! "bob" with
      | Some h => status h <> DISABLED
      | None => False
      end
  | None => False
  end.
Proof.
  destruct (run 8 race_schedule (started [] (Some [mk_account "bob" true false])))
    as [w|] eqn:E.
  - destruct (accountHealth (provider w) !! "bob") as [h|] eqn:Eh.
    + exact (proj1 (no_account_is_ever_disabled 8 race_schedule [] _ w E "bob" h Eh)).
    + revert E Eh. vm_compute. intros [= <-]. discriminate.
  - revert E. vm_compute. discriminate.
Defined.

End NeverDisabled.

(** ** Logins that do not overlap: what is lost stays locked *)

Module Sequential.
Import Dispatch.

Lemma names_lookup st st' i c c' :
  username <$> credentials st' = username <$> credentials st ->
  credentials st !! i = Some c -> credentials st' !! i = Some c' ->
  username c' = username c.
Proof.
  intros Hn Hc Hc'.
  assert ((username <$> credentials st') !! i = Some (username c')) as H1
    by (by rewrite list_lookup_fmap, Hc').
  assert ((username <$> credentials st) !! i = Some (username c)) as H2
    by (by rewrite list_lookup_fmap, Hc).
  congruence.
Qed.

Lemma names_lookup_back st st' i c' :
  username <$> credentials st' = username <$> credentials st ->
  credentials st' !! i = Some c' ->
  exists c, credentials st !! i = Some c /\ username c = username c'.
Proof.
  intros Hn Hc'.
  assert ((username <$> credentials st) !! i = Some (username c')) as H
    by (by rewrite <- Hn, list_lookup_fmap, Hc').
  rewrite list_lookup_fmap in H.
  destruct (credentials st !! i) as [c|]; [|discriminate].
  exists c. split; [reflexivity|]. cbn in H. congruence.
Qed.

Lemma keeps_refl st : keeps st st.
Proof.
  split; [reflexivity|]. split; [reflexivity|]. split.
  - intros i c c' Hc Hc' Hl. congruence.
  - intros u H. by left.
Qed.

Lemma keeps_trans st1 st2 st3 : keeps st1 st2 -> keeps st2 st3 -> keeps st1 st3.
Proof.
  intros (A1 & A2 & A3 & A4) (B1 & B2 & B3 & B4).
  split; [congruence|]. split; [congruence|]. split.
  - intros i c c'' Hc Hc'' Hl.
    destruct (names_lookup_back st2 st3 i c'' B2 Hc'') as (c' & Hc' & _).
    eapply B3; eauto.
  - intros u Hu. destruct (B4 u Hu) as [H2|H2]; [|by right].
    destruct (A4 u H2) as [H1|H1]; [by left|]. right.
    intros i c'' Hc'' Hn.
    destruct (names_lookup_back st2 st3 i c'' B2 Hc'') as (c' & Hc' & Hn').
    eapply B3; eauto. eapply H1; eauto. congruence.
Qed.

(** [keeps] looks at the memory of the provider only. *)
Lemma keeps_memory st st1 st2 :
  keeps st st1 ->
  credentialsLoaded st2 = credentialsLoaded st1 ->
  credentials st2 = credentials st1 ->
  accountHealth st2 = accountHealth st1 ->
  keeps st st2.
Proof.
  intros (K1 & K2 & K3 & K4) E1 E2 E3.
  split; [congruence|]. split; [by rewrite E2|]. split.
  - intros i c c' Hc Hc' Hl. rewrite E2 in Hc'. exact (K3 i c c' Hc Hc' Hl).
  - intros u Hu. rewrite (Select.health_view_ext u st2 st1) in Hu by (by rewrite E3).
    destruct (K4 u Hu) as [H|H]; [by left|right].
    intros i c' Hc'. rewrite E2 in Hc'. by apply (H i c').
Qed.

(** Only records of the tracker changed, and no status became lost. *)
Lemma keeps_health st st' :
  credentialsLoaded st' = credentialsLoaded st ->
  credentials st' = credentials st ->
  (forall u, lost (fst (health_view u st')) -> lost (fst (health_view u st))) ->
  keeps st st'.
Proof.
  intros H1 H2 H3. split; [exact H1|]. rewrite H2. split; [reflexivity|].
  split; [intros i c c' Hc Hc' Hl; congruence|]. intros u Hu. left. by apply H3.
Qed.

Lemma keeps_view st st' :
  credentialsLoaded st' = credentialsLoaded st ->
  credentials st' = credentials st ->
  (forall u, health_view u st' = health_view u st) ->
  keeps st st'.
Proof. intros H1 H2 H3. apply keeps_health; try done. intros u. by rewrite H3. Qed.

Lemma orderly_keeps st st' : orderly st -> keeps st st' -> orderly st'.
Proof.
  intros (H1 & H2 & H3 & H4) (K1 & K2 & K3 & K4).
  split; [congruence|]. split.
  { intros He. apply H2. apply (f_equal (fmap username)) in He. rewrite K2 in He.
    by apply fmap_nil_inv in He. }
  split; [by rewrite K2|].
  intros i c' Hc' Hlost.
  destruct (K4 _ Hlost) as [Hl|Hl]; [|by eapply Hl].
  destruct (names_lookup_back st st' i c' K2 Hc') as (c & Hc & Hn).
  eapply K3; eauto. apply (H4 i c Hc). by rewrite Hn.
Qed.

Lemma loaded_get user st :
  credentialsLoaded (snd (getAccountHealth user st)) = credentialsLoaded st.
Proof. unfold getAccountHealth. by destruct (accountHealth st !! user). Qed.

Lemma keeps_get user st : keeps st (snd (getAccountHealth user st)).
Proof.
  apply keeps_view; [apply loaded_get|apply Health.getAccountHealth_credentials|].
  intros u. apply Select.getAccountHealth_view.
Qed.

Lemma loaded_canRequest user now st :
  credentialsLoaded (snd (canAccountMakeRequest user now st)) = credentialsLoaded st.
Proof. rewrite Select.canRequest_snd. cbn. apply loaded_get. Qed.

Lemma keeps_canRequest user now st : keeps st (snd (canAccountMakeRequest user now st)).
Proof.
  apply keeps_view; [apply loaded_canRequest|apply Select.canRequest_credentials|].
  intros u. apply Select.canRequest_view.
Qed.

Lemma keeps_is_available now acc st : keeps st (snd (is_available now acc st)).
Proof.
  rewrite Select.is_available_snd.
  eapply keeps_trans; [apply keeps_get|apply keeps_canRequest].
Qed.

Lemma keeps_filter_available now creds :
  forall base st, keeps st (snd (filter_available now base creds st)).
Proof.
  induction creds as [|acc rest IH]; intros base st; [apply keeps_refl|].
  cbn [filter_available].
  pose proof (keeps_is_available now acc st) as H1.
  destruct (is_available now acc st) as [keep st1].
  pose proof (IH (S base) st1) as H2.
  destruct (filter_available now (S base) rest st1) as [kept st2].
  eapply keeps_trans; eauto.
Qed.

Lemma keeps_soonest now creds :
  forall base soonest st, keeps st (snd (soonest_wait now base creds soonest st)).
Proof.
  induction creds as [|acc rest IH]; intros base soonest st; [apply keeps_refl|].
  cbn [soonest_wait].
  pose proof (keeps_canRequest (username acc) now st) as H1.
  destruct (canAccountMakeRequest (username acc) now st) as [check st1].
  eapply keeps_trans; [exact H1|apply IH].
Qed.

Lemma loadCredentials_loaded st :
  credentialsLoaded st = true -> credentials st <> [] -> loadCredentials st = st.
Proof.
  intros Hl Hne. unfold loadCredentials.
  destruct (loadingCredentials st); [reflexivity|]. rewrite Hl.
  destruct (credentials st) as [|c l]; [done|]. reflexivity.
Qed.

Lemma keeps_select now random st :
  orderly st -> keeps st (snd (selectAvailableAccount now random st)).
Proof.
  intros (Hl & Hne & _). unfold selectAvailableAccount.
  rewrite (loadCredentials_loaded st Hl Hne).
  pose proof (keeps_filter_available now (credentials st) 0 st) as H1.
  destruct (filter_available now 0 (credentials st) st) as [available st1].
  cbn [snd] in H1.
  destruct (available !! _); [exact H1|].
  pose proof (keeps_soonest now (credentials st1) 0 None st1) as H2.
  destruct (soonest_wait now 0 (credentials st1) None st1) as [[[i w]|] st2];
    cbn [snd] in *; eapply keeps_trans; eauto.
Qed.

Lemma keeps_outside st st' :
  credentialsLoaded st' = credentialsLoaded st ->
  credentials st' = credentials st ->
  accountHealth st' = accountHealth st ->
  keeps st st'.
Proof.
  intros H1 H2 H3. apply keeps_view; try done.
  intros u. apply Select.health_view_ext. by rewrite H3.
Qed.

Lemma keeps_getProxy user now st : keeps st (snd (getProxyForAccount user now st)).
Proof.
  unfold getProxyForAccount, assignProxyToAccount.
  destruct (proxyAssignment st !! user) as [p|].
  - destruct (proxies st !! p) as [q|]; [|apply keeps_refl].
    destruct (now <? nextRequestAt q); [apply keeps_refl|by apply keeps_outside].
  - destruct (bool_decide _); [apply keeps_refl|]. cbn.
    destruct (proxies st !! _) as [q|]; [|by apply keeps_outside].
    destruct (now <? nextRequestAt q); by apply keeps_outside.
Qed.

Lemma keeps_check now st : keeps st (snd (checkCircuitBreaker now st)).
Proof.
  unfold checkCircuitBreaker. destruct (circuitState st); try apply keeps_refl.
  destruct (_ <? _); [by apply keeps_outside|apply keeps_refl].
Qed.

Lemma keeps_breaker success now st : keeps st (updateCircuitBreaker success now st).
Proof.
  unfold updateCircuitBreaker. destruct (circuitState st), success;
    try apply keeps_refl; try (by apply keeps_outside).
  cbn. destruct (_ <=? _); by apply keeps_outside.
Qed.

Lemma keeps_release st : keeps st (releaseSemaphore st).
Proof.
  unfold releaseSemaphore. destruct (_ <? _); [by apply keeps_outside|apply keeps_refl].
Qed.

(** Locking the entry [i] and giving its username the status [s]. *)
Lemma keeps_lock_put i c s h st :
  NoDup (username <$> credentials st) ->
  credentials st !! i = Some c ->
  keeps st (put_health (username c) (set_status s h) (saveCredentials (lock_account i st))).
Proof.
  intros Hnd Hc.
  assert (Hcr : credentials (put_health (username c) (set_status s h)
                               (saveCredentials (lock_account i st)))
                = <[i := set_flags false true c]> (credentials st)).
  { cbn [credentials put_health set_accountHealth].
    change (credentials (saveCredentials ?x)) with (credentials x).
    apply (Login.lock_account_at i c st Hc). }
  assert (Hi : (i < length (credentials st))%nat) by (eapply lookup_lt_Some; eauto).
  split.
  { cbn. unfold lock_account. by rewrite Hc. }
  split.
  { rewrite Hcr, list_fmap_insert. cbn [username set_flags].
    apply list_insert_id. by rewrite list_lookup_fmap, Hc. }
  split.
  - intros j a a' Ha Ha' Hl. rewrite Hcr in Ha'.
    destruct (decide (j = i)) as [->|Hne].
    + rewrite list_lookup_insert_eq in Ha' by done. by injection Ha' as <-.
    + rewrite list_lookup_insert_ne in Ha' by done. congruence.
  - intros u Hu. destruct (decide (username c = u)) as [<-|Hne].
    + right. intros j a' Ha' Hn. rewrite Hcr in Ha'.
      destruct (decide (j = i)) as [->|Hji].
      * rewrite list_lookup_insert_eq in Ha' by done. by injection Ha' as <-.
      * exfalso. rewrite list_lookup_insert_ne in Ha' by done.
        apply Hji. eapply NoDup_lookup; [exact Hnd| |].
        -- rewrite list_lookup_fmap, Ha'. cbn. rewrite Hn. reflexivity.
        -- by rewrite list_lookup_fmap, Hc.
    + left. rewrite Sweep.view_put_ne in Hu by done.
      erewrite Select.health_view_ext; [exact Hu|].
      cbn. by rewrite Frame.health_lock.
Qed.

Lemma keeps_mark_unusable i s st :
  NoDup (username <$> credentials st) -> keeps st (mark_unusable i s st).
Proof.
  intros Hnd. unfold mark_unusable.
  destruct (credentials st !! i) as [c|] eqn:Hc.
  - assert (Hl : credentials (saveCredentials (lock_account i st)) !! i
                 = Some (set_flags false true c)).
    { change (credentials (saveCredentials ?x)) with (credentials x).
      rewrite (Login.lock_account_at i c st Hc).
      apply list_lookup_insert_eq. eapply lookup_lt_Some; eauto. }
    rewrite Hl. cbn [username set_flags].
    pose proof (keeps_get (username c) (saveCredentials (lock_account i st))) as Hg.
    pose proof (Catch.fst_get_ext (username c) (saveCredentials (lock_account i st)) st
                  ltac:(cbn; by rewrite Frame.health_lock)) as Hf.
    unfold getAccountHealth in *.
    destruct (accountHealth (saveCredentials (lock_account i st)) !! username c) as [h|] eqn:E;
      cbn [fst snd] in *.
    + by apply keeps_lock_put.
    + pose proof (keeps_lock_put i c s fresh_health st Hnd Hc) as Hk.
      split; [apply Hk|]. split; [apply Hk|]. split; [apply Hk|].
      intros u Hu. destruct Hk as (_ & _ & _ & Hk). apply Hk.
      erewrite Select.health_view_ext; [exact Hu|].
      cbn. destruct (decide (username c = u)) as [<-|Hne].
      * by rewrite !lookup_insert_eq.
      * by rewrite !lookup_insert_ne.
  - unfold lock_account. rewrite Hc.
    assert (credentials (saveCredentials st) !! i = None) as -> by exact Hc.
    by apply keeps_outside.
Qed.

Lemma keeps_put user h' st stb :
  keeps st stb ->
  (lost (status h') -> lost (fst (health_view user st))) ->
  keeps st (put_health user h' stb).
Proof.
  intros (K1 & K2 & K3 & K4) Hh.
  split; [exact K1|]. split; [exact K2|]. split; [exact K3|].
  intros u Hu. destruct (decide (user = u)) as [<-|Hne].
  - left. rewrite Sweep.view_put in Hu. by apply Hh.
  - rewrite Sweep.view_put_ne in Hu by done. by apply K4.
Qed.

Lemma lock_put_commute i u h st :
  saveCredentials (lock_account i (put_health u h st))
  = put_health u h (saveCredentials (lock_account i st)).
Proof.
  unfold lock_account. cbn [credentials put_health set_accountHealth].
  destruct (credentials st !! i); reflexivity.
Qed.

Lemma lost_switch_break t now h : lost (status (switch_break t now h)) -> lost (status h).
Proof.
  unfold switch_break, lost.
  destruct t; try destruct (_ <=? _); cbn; intros [H|H]; try discriminate; tauto.
Qed.

Lemma keeps_update user success error rtt now st :
  NoDup (username <$> credentials st) ->
  keeps st (snd (updateAccountHealth user success error rtt now st)).
Proof.
  intros Hnd. unfold updateAccountHealth.
  pose proof (keeps_get user st) as Hg.
  pose proof (Health.getAccountHealth_credentials user st) as Hcr.
  assert (Hv : fst (health_view user st) = status (fst (getAccountHealth user st)))
    by reflexivity.
  destruct (getAccountHealth user st) as [health st1]. cbn [fst snd] in *.
  destruct success.
  { cbn [snd]. apply keeps_put; [exact Hg|]. rewrite Hv. unfold record_success.
    match goal with |- context [if ?b then _ else _] => destruct b end; cbn;
      [intros [H|H]; discriminate|done]. }
  destruct error as [message|]; [|cbn [snd]; apply keeps_put; [exact Hg|by rewrite Hv]].
  set (t := classifyError message).
  set (h1 := record_error t message now (record_use now rtt health)).
  assert (Hbreak :
    keeps st (snd (let health0 := switch_break t now h1 in
                   let st0 := put_health user health0 st1 in
                   let '(recentAuthErrors, st2) :=
                     countRecentAuthErrors user AUTH_ERROR_WINDOW_MS now st0 in
                   if AUTH_ERROR_THRESHOLD <=? recentAuthErrors
                   then (false, put_health user (set_status DISABLED health0) st2)
                   else (true, st2)))).
  { cbv zeta. unfold countRecentAuthErrors. rewrite Health.getAccountHealth_put.
    assert (keeps st (put_health user (switch_break t now h1) st1)) as Hk.
    { apply keeps_put; [exact Hg|]. rewrite Hv. intros H. by apply lost_switch_break in H. }
    destruct (_ <=? _); cbn [snd]; [|exact Hk].
    apply keeps_put; [exact Hk|]. cbn. intros [H|H]; discriminate. }
  assert (Hterm : forall s,
    keeps st (snd (let health0 := set_status s h1 in
                   let st0 := put_health user health0 st1 in
                   match list_find (has_username user) (credentials st0) with
                   | Some (i, _) => (false, saveCredentials_start (lock_account i st0))
                   | None => (false, st0)
                   end))).
  { intros s. cbv zeta. cbn [credentials put_health set_accountHealth].
    destruct (list_find (has_username user) (credentials st1)) as [[i c]|] eqn:Ef; cbn [snd].
    - apply list_find_Some in Ef as (Hi & Hu & _). unfold has_username in Hu.
      apply (keeps_memory _
               (saveCredentials (lock_account i (put_health user (set_status s h1) st1))));
        [|reflexivity..].
      rewrite lock_put_commute. eapply keeps_trans; [exact Hg|].
      rewrite <- Hu. apply keeps_lock_put; [by rewrite Hcr|exact Hi].
    - destruct Hg as (K1 & K2 & K3 & K4).
      split; [exact K1|]. split; [exact K2|]. split; [exact K3|].
      intros u Hu. destruct (decide (user = u)) as [<-|Hne].
      + right. intros j c' Hc' Hn. exfalso.
        apply list_find_None in Ef. rewrite Forall_forall in Ef.
        apply (Ef c'); [by eapply list_elem_of_lookup_2|exact Hn].
      + rewrite Sweep.view_put_ne in Hu by done. by apply K4. }
  destruct t eqn:Et; first [exact Hbreak | apply (Hterm LOCKED) | apply (Hterm SUSPENDED)].
Qed.

Lemma keeps_catch i message now st :
  NoDup (username <$> credentials st) ->
  keeps st (snd (executeWithAccount_catch i message now st)).
Proof.
  intros Hnd. unfold executeWithAccount_catch.
  destruct (credentials st !! i) as [c|]; [|apply keeps_refl].
  destruct (_ || _); [by apply keeps_mark_unusable|].
  destruct (Str.includes message "User tweets fetch timed out");
    [by apply keeps_mark_unusable|].
  destruct (Str.includes message _); [by apply keeps_update|].
  destruct (_ || _); [by apply keeps_mark_unusable|].
  pose proof (keeps_update (username c) false (Some message) None now st Hnd) as H1.
  destruct (updateAccountHealth _ _ _ _ _ _). exact H1.
Qed.

Lemma resume_rejected i message c st :
  credentials st !! i = Some c ->
  snd (tryLogin_resume i (LoginRejected message) st)
  = if login_code_326 message then mark_unusable i LOCKED st else st.
Proof.
  intros Hc. unfold tryLogin_resume, mark_unusable. rewrite Hc.
  destruct (login_code_326 message); [|reflexivity].
  assert (Hl : credentials (saveCredentials (lock_account i st)) !! i
               = Some (set_flags false true c)).
  { change (credentials (saveCredentials ?x)) with (credentials x).
    rewrite (Login.lock_account_at i c st Hc).
    apply list_lookup_insert_eq. eapply lookup_lt_Some; eauto. }
  rewrite Hl. cbn [username set_flags].
  by destruct (getAccountHealth (username c) _).
Qed.

Lemma orderly_names st : orderly st -> NoDup (username <$> credentials st).
Proof. by intros (_ & _ & H & _). Qed.

(** The events other than [LoginSettles]. *)
Lemma keeps_step cpuCount w e w' :
  orderly (provider w) ->
  (forall k answer now, e <> LoginSettles k answer now) ->
  step cpuCount w e = Some w' ->
  keeps (provider w) (provider w').
Proof.
  intros Hw He. pose proof (orderly_names _ Hw) as Hnd.
  destruct e as [now|k now random ok|k answer now|k outcome rtt now|j ok|answers];
    cbn [step];
    [| |by edestruct He| |destruct (writesInFlight (provider w) !! j) eqn:Hj; [|discriminate];
            intros [= <-]; unfold write_settles; cbn [provider];
            rewrite Hj; destruct ok;
            (eapply keeps_memory; [apply keeps_refl|reflexivity..])
          |intros [= <-]; (eapply keeps_memory; [apply keeps_refl|reflexivity..])].
  - pose proof (keeps_check now (provider w)) as H1.
    destruct (checkCircuitBreaker now (provider w)) as [allowed st1]. cbn [snd] in H1.
    destruct allowed; [|discriminate].
    unfold try_acquire. destruct (_ <? _); [|discriminate].
    intros [= <-]. cbn [provider]. eapply keeps_trans; [exact H1|]. by apply keeps_outside.
  - destruct (calls w !! k) as [c|] eqn:Hk; [|discriminate].
    destruct (point c); try discriminate.
    destruct (attempt c <? 10).
    + pose proof (keeps_select now random (provider w) Hw) as H1.
      destruct (selectAvailableAccount now random (provider w)) as [selection st1].
      cbn [snd] in H1.
      pose proof (orderly_names _ (orderly_keeps _ _ Hw H1)) as Hnd1.
      destruct selection as [i|i wait|].
      * destruct (credentials st1 !! i) as [acc|]; [|discriminate].
        destruct (_ || _); [intros [= <-]; exact H1|].
        set (st2 := snd (updateAccountHealth _ _ _ _ _ _)).
        assert (keeps (provider w) st2) as H2.
        { unfold st2. eapply keeps_trans; [exact H1|].
          pose proof (keeps_getProxy (username acc) now st1) as Hp.
          eapply keeps_trans; [exact Hp|]. apply keeps_update.
          destruct Hp as (_ & -> & _). exact Hnd1. }
        destruct (tryLogin_begin i ok st2) as [[|]|]; intros [= <-]; cbn [provider resume];
          try exact H2.
        unfold login_failed. eapply keeps_trans; [exact H2|]. apply keeps_update.
        destruct H2 as (_ & -> & _). exact Hnd.
      * destruct (credentials st1 !! i) as [acc|]; [|discriminate].
        destruct (_ || _); intros [= <-]; exact H1.
      * intros [= <-]. cbn [provider leave].
        eapply keeps_trans; [exact H1|].
        eapply keeps_trans; [apply keeps_breaker|apply keeps_release].
    + intros [= <-]. cbn [provider leave].
      eapply keeps_trans; [apply keeps_breaker|apply keeps_release].
  - destruct (calls w !! k) as [c|] eqn:Hk; [|discriminate].
    destruct (point c) as [|i|i]; try discriminate.
    destruct (credentials (provider w) !! i) as [acc|]; [|discriminate].
    destruct outcome as [| |message].
    + intros [= <-]. cbn [provider leave].
      eapply keeps_trans; [by apply keeps_update|].
      eapply keeps_trans; [apply keeps_breaker|apply keeps_release].
    + intros [= <-]. cbn [provider resume]. by apply keeps_update.
    + pose proof (keeps_catch i message now (provider w) Hnd) as H1.
      destruct (executeWithAccount_catch i message now (provider w)) as [caught st1].
      cbn [snd] in H1.
      destruct caught; intros [= <-]; exact H1.
Qed.

Lemma quiet_elem w c i : quiet w = true -> c ∈ calls w -> point c <> InLogin i.
Proof.
  intros Hq Hin Hp. unfold quiet in Hq. rewrite forallb_forall in Hq.
  apply list_elem_of_In in Hin. specialize (Hq c Hin).
  unfold in_login in Hq. rewrite Hp in Hq. discriminate.
Qed.

Lemma quiet_lookup w k c i : quiet w = true -> calls w !! k = Some c -> point c <> InLogin i.
Proof. intros Hq Hk. eapply quiet_elem; [exact Hq|by eapply list_elem_of_lookup_2]. Qed.

Lemma resume_lookup k c' st w k0 c :
  calls (resume k c' st w) !! k0 = Some c -> c = c' \/ calls w !! k0 = Some c.
Proof.
  cbn [calls resume]. intros H. destruct (decide (k0 = k)) as [->|Hne].
  - left. pose proof (lookup_lt_Some _ _ _ H) as Hlt. rewrite length_insert in Hlt.
    rewrite list_lookup_insert_eq in H by exact Hlt. congruence.
  - right. by rewrite list_lookup_insert_ne in H.
Qed.

Lemma leave_lookup k st w k0 c : calls (leave k st w) !! k0 = Some c -> c ∈ calls w.
Proof.
  cbn [calls leave]. intros H. eapply list_elem_of_delete_inv.
  by eapply list_elem_of_lookup_2.
Qed.

(** A call enters [tryLogin] only from [tryLogin_begin], which has seen the
    account unlocked. *)
Lemma step_pending cpuCount w e w1 :
  quiet w = true -> step cpuCount w e = Some w1 -> pending_unlocked w1.
Proof.
  intros Hq Hs k0 c0 i0 a Hk Hp Ha.
  assert (Hold : c0 ∈ calls w -> isLocked a = false).
  { intros Hin. by destruct (quiet_elem w c0 i0 Hq Hin). }
  assert (Hres : forall k c' st, w1 = resume k c' st w -> point c' = AtLoopHead \/
                   (exists i, point c' = InExecutor i) -> isLocked a = false).
  { intros k c' st -> Hc'. apply resume_lookup in Hk as [->|Hk].
    - destruct Hc' as [Hc'|[i Hc']]; congruence.
    - apply Hold. by eapply list_elem_of_lookup_2. }
  assert (Hlv : forall k st, w1 = leave k st w -> isLocked a = false).
  { intros k st ->. apply Hold. by eapply leave_lookup. }
  destruct e as [now|k now random ok|k answer now|k outcome rtt now|j ok|answers];
    cbn [step] in Hs;
    [| | | |destruct (writesInFlight (provider w) !! j); [|discriminate];
            injection Hs as <-; apply Hold; by eapply list_elem_of_lookup_2
          |injection Hs as <-; apply Hold; by eapply list_elem_of_lookup_2].
  - destruct (checkCircuitBreaker now (provider w)) as [[] st1]; [|discriminate].
    destruct (try_acquire cpuCount st1) as [[] st2]; [|discriminate].
    injection Hs as <-. cbn [calls] in Hk.
    apply lookup_app_Some in Hk as [Hk|[_ Hk]].
    + apply Hold. by eapply list_elem_of_lookup_2.
    + apply list_lookup_singleton_Some in Hk as [_ <-]. discriminate.
  - destruct (calls w !! k) as [c|] eqn:Hc; [|discriminate].
    destruct (point c); try discriminate.
    destruct (attempt c <? 10); [|injection Hs as <-; by eapply Hlv].
    destruct (selectAvailableAccount now random (provider w)) as [[i|i wait|] st1].
    + destruct (credentials st1 !! i) as [acc|]; [|discriminate].
      destruct (_ || _); [injection Hs as <-; eapply Hres; [reflexivity|by left]|].
      set (st2 := snd (updateAccountHealth _ _ _ _ _ _)) in Hs.
      destruct (tryLogin_begin i ok st2) as [[|]|] eqn:Hb; injection Hs as <-.
      * eapply Hres; [reflexivity|]. right. by exists i.
      * eapply Hres; [reflexivity|by left].
      * apply resume_lookup in Hk as [->|Hk]; [|apply Hold; by eapply list_elem_of_lookup_2].
        cbn in Hp. injection Hp as <-. cbn [provider resume] in Ha.
        unfold tryLogin_begin in Hb. rewrite Ha in Hb.
        destruct (isLocked a); [discriminate|reflexivity].
    + destruct (credentials st1 !! i) as [acc|]; [|discriminate].
      destruct (_ || _); injection Hs as <-; (eapply Hres; [reflexivity|by left]).
    + injection Hs as <-. by eapply Hlv.
  - destruct (calls w !! k) as [c|] eqn:Hc; [|discriminate].
    destruct (point c) as [|i|i] eqn:Hpc; try discriminate.
    by destruct (quiet_lookup w k c i Hq Hc).
  - destruct (calls w !! k) as [c|] eqn:Hc; [|discriminate].
    destruct (point c) as [|i|i]; try discriminate.
    destruct (credentials (provider w) !! i) as [acc|]; [|discriminate].
    destruct outcome as [| |message].
    + injection Hs as <-. by eapply Hlv.
    + injection Hs as <-. eapply Hres; [reflexivity|by left].
    + destruct (executeWithAccount_catch i message now (provider w)) as [caught st1].
      destruct caught; injection Hs as <-; (eapply Hres; [reflexivity|by left]).
Qed.

Lemma step_orderly cpuCount w e w1 :
  quiet w = true -> orderly (provider w) -> step cpuCount w e = Some w1 ->
  orderly (provider w1).
Proof.
  intros Hq Hw Hs. eapply orderly_keeps; [exact Hw|].
  eapply keeps_step; [exact Hw| |exact Hs].
  intros k answer now ->. cbn [step] in Hs.
  destruct (calls w !! k) as [c|] eqn:Hc; [|discriminate].
  destruct (point c) as [|i|i] eqn:Hpc; try discriminate.
  by destruct (quiet_lookup w k c i Hq Hc).
Qed.

Lemma resume_rejected_fst i message st :
  fst (tryLogin_resume i (LoginRejected message) st) = false.
Proof.
  unfold tryLogin_resume. destruct (credentials st !! i); [|reflexivity].
  destruct (login_code_326 message); [|reflexivity].
  by destruct (getAccountHealth _ _).
Qed.

(** A login that resolves unlocks an account whose status is not lost. *)
Lemma resolved_orderly i acc newCookies st :
  orderly st -> credentials st !! i = Some acc -> isLocked acc = false ->
  orderly (snd (tryLogin_resume i (LoginResolved newCookies) st)).
Proof.
  intros (O1 & O2 & O3 & O4) Hacc Hl. unfold tryLogin_resume. rewrite Hacc. cbn [snd].
  set (c := set_flags true false _).
  assert (username c = username acc) as Hn by (unfold c; by destruct (0 <? _)).
  assert (username <$> <[i := c]> (credentials st) = username <$> credentials st) as Hnames.
  { rewrite list_fmap_insert, Hn. apply list_insert_id. by rewrite list_lookup_fmap, Hacc. }
  split; [exact O1|]. split.
  { cbn. intros H. apply (f_equal length) in H. rewrite length_insert in H.
    destruct (credentials st); [done|discriminate]. }
  split; [cbn; by rewrite Hnames|].
  intros j c' Hc' Hlost.
  assert (fst (health_view (username c') st) = SUSPENDED
          \/ fst (health_view (username c') st) = LOCKED) as Hlost'.
  { erewrite Select.health_view_ext; [exact Hlost|reflexivity]. }
  cbn in Hc'. destruct (decide (j = i)) as [->|Hne].
  - rewrite list_lookup_insert_eq in Hc' by (by eapply lookup_lt_Some).
    injection Hc' as <-. rewrite Hn in Hlost'.
    pose proof (O4 i acc Hacc Hlost'). congruence.
  - rewrite list_lookup_insert_ne in Hc' by done. by apply (O4 j c').
Qed.

Lemma settle_orderly cpuCount w k answer now w2 :
  orderly (provider w) -> pending_unlocked w ->
  step cpuCount w (LoginSettles k answer now) = Some w2 ->
  orderly (provider w2).
Proof.
  intros Hw Hp Hs. cbn [step] in Hs.
  destruct (calls w !! k) as [c|] eqn:Hc; [|discriminate].
  destruct (point c) as [|i|i] eqn:Hpc; try discriminate.
  destruct (credentials (provider w) !! i) as [acc|] eqn:Hacc; [|discriminate].
  pose proof (Hp k c i acc Hc Hpc Hacc) as Hl.
  destruct answer as [newCookies|message].
  - pose proof (resolved_orderly i acc newCookies (provider w) Hw Hacc Hl) as H1.
    destruct (tryLogin_resume i (LoginResolved newCookies) (provider w)) as [success st1].
    cbn [snd] in H1.
    destruct success; injection Hs as <-; cbn [provider resume]; [exact H1|].
    eapply orderly_keeps; [exact H1|]. apply keeps_update. by apply orderly_names.
  - pose proof (resume_rejected i message acc (provider w) Hacc) as H1.
    pose proof (resume_rejected_fst i message (provider w)) as H2.
    destruct (tryLogin_resume i (LoginRejected message) (provider w)) as [success st1].
    cbn [fst snd] in H1, H2. subst success. injection Hs as <-. cbn [provider resume].
    assert (keeps (provider w) st1) as Hk.
    { rewrite H1. destruct (login_code_326 message); [|apply keeps_refl].
      apply keeps_mark_unusable. by apply orderly_names. }
    eapply orderly_keeps; [exact Hw|]. eapply keeps_trans; [exact Hk|].
    apply keeps_update. destruct Hk as (_ & -> & _). by apply orderly_names.
Qed.

Lemma run_sequential_orderly cpuCount n :
  forall schedule w w', (length schedule <= n)%nat ->
    quiet w = true -> orderly (provider w) ->
    run_sequential cpuCount schedule w = Some w' ->
    orderly (provider w').
Proof.
  induction n as [|n IH]; intros schedule w w' Hn Hq Hw Hr.
  { destruct schedule; [|cbn in Hn; lia]. cbn in Hr. by injection Hr as <-. }
  destruct schedule as [|e rest]; [cbn in Hr; by injection Hr as <-|].
  cbn [run_sequential] in Hr. cbn [length] in Hn.
  destruct (step cpuCount w e) as [w1|] eqn:Hs; [|discriminate].
  pose proof (step_orderly cpuCount w e w1 Hq Hw Hs) as Hw1.
  destruct (quiet w1) eqn:Hq1; [apply (IH rest w1 w'); [lia|done..]|].
  destruct rest as [|[| |k answer now| | |] rest']; try discriminate.
  destruct (step cpuCount w1 (LoginSettles k answer now)) as [w2|] eqn:Hs2; [|discriminate].
  destruct (quiet w2) eqn:Hq2; [|discriminate].
  apply (IH rest' w2 w'); [cbn [length] in Hn; lia|exact Hq2| |exact Hr].
  eapply settle_orderly; [exact Hw1| |exact Hs2].
  eapply step_pending; [exact Hq|exact Hs].
Qed.

Lemma run_sequential_run cpuCount n :
  forall schedule w w', (length schedule <= n)%nat ->
    run_sequential cpuCount schedule w = Some w' -> run cpuCount schedule w = Some w'.
Proof.
  induction n as [|n IH]; intros schedule w w' Hn Hr.
  { destruct schedule; [exact Hr|cbn in Hn; lia]. }
  destruct schedule as [|e rest]; [exact Hr|].
  cbn [run_sequential] in Hr. cbn [run]. cbn [length] in Hn.
  destruct (step cpuCount w e) as [w1|]; [|discriminate].
  destruct (quiet w1); [apply IH; [lia|exact Hr]|].
  destruct rest as [|[| |k answer now| | |] rest']; try discriminate.
  cbn [run].
  destruct (step cpuCount w1 (LoginSettles k answer now)) as [w2|]; [|discriminate].
  destruct (quiet w2); [|discriminate].
  apply IH; [cbn [length] in Hn; lia|exact Hr].
Qed.

Lemma view_status_at u st : fst (health_view u st) = status_at (accountHealth st) u.
Proof.
  unfold health_view, getAccountHealth, status_at.
  by destruct (accountHealth st !! u).
Qed.

Lemma load_one_lost cred m u :
  lost (status_at (snd (load_one cred m)) u) ->
  lost (status_at m u) \/ (username cred = u /\ isLocked cred = true).
Proof.
  unfold load_one.
  set (m1 := match m !! username cred with
             | Some _ => m
             | None => <[username cred := fresh_health]> m
             end).
  assert (lost (status_at m1 u) -> lost (status_at m u)) as H1.
  { unfold m1, status_at. destruct (m !! username cred) eqn:Hm; [done|].
    destruct (decide (username cred = u)) as [<-|Hne].
    - rewrite lookup_insert_eq. cbn. intros [H|H]; discriminate.
    - by rewrite lookup_insert_ne. }
  destruct (isLocked cred); cbn [snd]; [|intros H; left; by apply H1].
  destruct (decide (username cred = u)) as [<-|Hne]; [by right|].
  intros H. left. apply H1. unfold status_at in *. by rewrite lookup_alter_ne in H.
Qed.

Lemma load_each_lost accounts u :
  forall m, lost (status_at (snd (load_each accounts m)) u) ->
    lost (status_at m u)
    \/ exists c, c ∈ accounts /\ username c = u /\ isLocked c = true.
Proof.
  induction accounts as [|cred rest IH]; intros m; [by left|].
  cbn [load_each].
  pose proof (load_one_lost cred m u) as H1.
  destruct (load_one cred m) as [cred' m1]. cbn [snd] in H1.
  specialize (IH m1). destruct (load_each rest m1) as [rest' m2]. cbn [snd] in *.
  intros H. destruct (IH H) as [H2|(c & Hc & Hu & Hl)].
  - destruct (H1 H2) as [H3|[Hu Hl]]; [by left|].
    right. exists cred. split; [by left|done].
  - right. exists c. split; [by right|done].
Qed.

(** The registry as [onModuleInit] leaves it. *)
Lemma started_orderly proxyList accounts :
  accounts <> [] -> NoDup (username <$> accounts) ->
  orderly (provider (started proxyList (Some accounts))).
Proof.
  intros Hne Hnd. cbn [provider started]. unfold loadCredentials. cbn.
  pose proof (Registry.load_each_fst accounts ∅) as Hf.
  pose proof (fun u => load_each_lost accounts u ∅) as Hs.
  destruct (load_each accounts ∅) as [creds health]. cbn [fst snd] in *.
  assert (username <$> creds = username <$> accounts) as Hnames.
  { rewrite Hf, <- list_fmap_compose. apply list_fmap_ext.
    intros ? c _. cbn. unfold loaded. by destruct (isLocked c). }
  split; [reflexivity|]. split.
  { cbn. intros ->. destruct accounts; [done|discriminate]. }
  split; [cbn; by rewrite Hnames|].
  intros i c' Hc' Hlost. cbn in Hc'. rewrite view_status_at in Hlost. cbn in Hlost.
  rewrite Hf, list_lookup_fmap in Hc'.
  destruct (accounts !! i) as [c|] eqn:Hc; [|discriminate]. cbn in Hc'.
  assert (username c' = username c /\ isLocked c' = isLocked c) as [Hu Hl].
  { injection Hc' as <-. unfold loaded. destruct (isLocked c) eqn:E; cbn; by rewrite ?E. }
  rewrite Hl. destruct (Hs _ Hlost) as [H|(c0 & Hin & Hu0 & Hl0)].
  { unfold status_at in H. rewrite lookup_empty in H. destruct H; discriminate. }
  apply list_elem_of_lookup in Hin as [j Hj].
  assert (i = j) as ->.
  { eapply NoDup_lookup; [exact Hnd| |].
    - rewrite list_lookup_fmap, Hc. reflexivity.
    - rewrite list_lookup_fmap, Hj. cbn. congruence. }
  congruence.
Qed.



End Sequential.

(** ** Request windows: the order of the clock, and the budget test *)

Module Chronology.
Import Dispatch.

Lemma upto_nil t : upto t [].
Proof. split; constructor. Qed.

Lemma upto_mono t t' l : t <= t' -> upto t l -> upto t' l.
Proof.
  intros Hle [Hs Hf]. split; [exact Hs|].
  eapply Forall_impl; [exact Hf|]. cbn. intros x Hx. lia.
Qed.

Lemma upto_filter (P : Z -> Prop) `{!forall x, Decision (P x)} t l :
  upto t l -> upto t (filter P l).
Proof.
  intros [Hs Hf]. split.
  - apply StronglySorted_Sorted. apply Window.strongly_sorted_filter.
    by apply (Sorted_StronglySorted Z.le).
  - rewrite Forall_forall in *. intros x Hx.
    apply list_elem_of_filter in Hx as [_ Hx]. by apply Hf.
Qed.

Lemma upto_push t now l : t <= now -> upto t l -> upto now (l ++ [now]).
Proof.
  intros Hle [Hs Hf]. split.
  - apply StronglySorted_Sorted.
    apply (Sorted_StronglySorted Z.le) in Hs.
    induction Hs as [|x l Hl IH Hx]; [repeat constructor|].
    apply Forall_cons in Hf as [Hxt Hf].
    cbn. constructor; [by apply IH|].
    apply Forall_app. split; [exact Hx|]. constructor; [lia|constructor].
  - apply Forall_app. split.
    + eapply Forall_impl; [exact Hf|]. cbn. intros x Hx. lia.
    + constructor; [lia|constructor].
Qed.

Lemma wu_same t st st' :
  accountHealth st' = accountHealth st -> windows_upto t st -> windows_upto t st'.
Proof. unfold windows_upto. by intros ->. Qed.

Lemma wu_mono t t' st : t <= t' -> windows_upto t st -> windows_upto t' st.
Proof. intros Hle H user h Hl. eapply upto_mono; [exact Hle|]. by eapply H. Qed.

Lemma wu_put t user h st :
  upto t (requestHistory h) -> windows_upto t st -> windows_upto t (put_health user h st).
Proof.
  intros Hh Hst u h' Hl. destruct (decide (user = u)) as [<-|Hne].
  - rewrite Window.lookup_put_health in Hl. by injection Hl as <-.
  - rewrite Window.lookup_put_health_ne in Hl by done. by eapply Hst.
Qed.

Lemma wu_get t user st :
  windows_upto t st ->
  upto t (requestHistory (fst (getAccountHealth user st)))
  /\ windows_upto t (snd (getAccountHealth user st)).
Proof.
  intros H. unfold getAccountHealth. destruct (accountHealth st !! user) as [h|] eqn:E.
  - split; [by eapply H|exact H].
  - split; [apply upto_nil|]. apply wu_put; [apply upto_nil|exact H].
Qed.

Lemma wu_canRequest t user now st :
  windows_upto t st -> windows_upto t (snd (canAccountMakeRequest user now st)).
Proof.
  intros H. rewrite Select.canRequest_snd.
  destruct (wu_get t user st H) as [Hh Hst].
  apply wu_put; [|exact Hst]. cbn. by apply upto_filter.
Qed.

Lemma wu_is_available t now acc st :
  windows_upto t st -> windows_upto t (snd (is_available now acc st)).
Proof.
  intros H. rewrite Select.is_available_snd. apply wu_canRequest. by apply wu_get.
Qed.

Lemma wu_filter_available t now creds :
  forall base st, windows_upto t st ->
    windows_upto t (snd (filter_available now base creds st)).
Proof.
  induction creds as [|acc rest IH]; intros base st H; [exact H|].
  cbn [filter_available].
  pose proof (wu_is_available t now acc st H) as H1.
  destruct (is_available now acc st) as [keep st1].
  pose proof (IH (S base) st1 H1) as H2.
  destruct (filter_available now (S base) rest st1) as [kept st2]. exact H2.
Qed.

Lemma wu_soonest t now creds :
  forall base soonest st,
    windows_upto t st -> windows_upto t (snd (soonest_wait now base creds soonest st)).
Proof.
  induction creds as [|acc rest IH]; intros base soonest st H; [exact H|].
  cbn [soonest_wait].
  pose proof (wu_canRequest t (username acc) now st H) as H1.
  destruct (canAccountMakeRequest (username acc) now st) as [check st1].
  by apply IH.
Qed.

Lemma wu_load_one t cred m :
  (forall u h, m !! u = Some h -> upto t (requestHistory h)) ->
  forall u h, snd (load_one cred m) !! u = Some h -> upto t (requestHistory h).
Proof.
  intros Hm. unfold load_one.
  set (m1 := match m !! username cred with
             | Some _ => m
             | None => <[username cred := fresh_health]> m
             end).
  assert (H1 : forall u h, m1 !! u = Some h -> upto t (requestHistory h)).
  { subst m1. destruct (m !! username cred) eqn:E; [exact Hm|].
    intros u h Hl. destruct (decide (username cred = u)) as [<-|Hne].
    - rewrite lookup_insert_eq in Hl. injection Hl as <-. apply upto_nil.
    - rewrite lookup_insert_ne in Hl by done. by eapply Hm. }
  destruct (isLocked cred); cbn [snd]; [|exact H1].
  intros u h Hl. destruct (decide (username cred = u)) as [<-|Hne].
  - rewrite lookup_alter_eq in Hl. destruct (m1 !! username cred) as [h0|] eqn:E; [|discriminate].
    cbn in Hl. injection Hl as <-. cbn. by eapply H1.
  - rewrite lookup_alter_ne in Hl by done. by eapply H1.
Qed.

Lemma wu_load_each t accounts :
  forall m, (forall u h, m !! u = Some h -> upto t (requestHistory h)) ->
  forall u h, snd (load_each accounts m) !! u = Some h -> upto t (requestHistory h).
Proof.
  induction accounts as [|cred rest IH]; intros m Hm; [exact Hm|].
  cbn [load_each].
  pose proof (wu_load_one t cred m Hm) as H1.
  destruct (load_one cred m) as [cred' m1]. cbn [snd] in H1.
  pose proof (IH m1 H1) as H2.
  destruct (load_each rest m1) as [rest' m2]. exact H2.
Qed.

Lemma wu_loadCredentials t st : windows_upto t st -> windows_upto t (loadCredentials st).
Proof.
  intros H. unfold loadCredentials.
  destruct (loadingCredentials st); [exact H|].
  destruct (credentialsLoaded st && _); [exact H|].
  destruct (dataFile st) as [accounts|]; [|exact H].
  pose proof (wu_load_each t accounts (accountHealth st) H) as H1.
  destruct (load_each accounts (accountHealth st)) as [creds m]. exact H1.
Qed.

Lemma wu_select t now random st :
  windows_upto t st -> windows_upto t (snd (selectAvailableAccount now random st)).
Proof.
  intros H. unfold selectAvailableAccount.
  pose proof (wu_filter_available t now (credentials (loadCredentials st)) 0 (loadCredentials st)
                (wu_loadCredentials t st H)) as H1.
  destruct (filter_available now 0 _ (loadCredentials st)) as [available st1].
  cbn [snd] in H1.
  destruct (available !! _); [exact H1|].
  pose proof (wu_soonest t now (credentials st1) 0 None st1 H1) as H2.
  destruct (soonest_wait now 0 (credentials st1) None st1) as [[[i w]|] st2]; exact H2.
Qed.

(** The window that a report leaves: the one it found, with the time of the
    report added, trimmed. *)
Lemma update_window user success error rtt now st h :
  accountHealth (snd (updateAccountHealth user success error rtt now st)) !! user = Some h ->
  requestHistory h
  = filter (in_window now RATE_LIMIT_WINDOW_MS)
      (requestHistory (fst (getAccountHealth user st)) ++ [now]).
Proof.
  unfold updateAccountHealth.
  destruct (getAccountHealth user st) as [health st1]. cbn [fst].
  destruct success.
  { cbn [snd]. rewrite Window.lookup_put_health. intros [= <-].
    unfold record_success. by destruct (_ && _). }
  destruct error as [message|];
    [|cbn [snd]; rewrite Window.lookup_put_health; by intros [= <-]].
  set (t := classifyError message).
  assert (Hterm : forall s h0,
    requestHistory h0 = filter (in_window now RATE_LIMIT_WINDOW_MS) (requestHistory health ++ [now]) ->
    accountHealth
      (snd (let health0 := set_status s h0 in
            let st0 := put_health user health0 st1 in
            match list_find (has_username user) (credentials st0) with
            | Some (i, _) => (false, saveCredentials_start (lock_account i st0))
            | None => (false, st0)
            end)) !! user = Some h ->
    requestHistory h
    = filter (in_window now RATE_LIMIT_WINDOW_MS) (requestHistory health ++ [now])).
  { intros s h0 Hh0. cbv zeta. rewrite Health.terminal_health. by intros [= <-]. }
  assert (Hbreak : forall h0,
    requestHistory h0 = filter (in_window now RATE_LIMIT_WINDOW_MS) (requestHistory health ++ [now]) ->
    accountHealth
      (snd (let health0 := switch_break t now h0 in
            let st0 := put_health user health0 st1 in
            let '(recentAuthErrors, st2) :=
              countRecentAuthErrors user AUTH_ERROR_WINDOW_MS now st0 in
            if AUTH_ERROR_THRESHOLD <=? recentAuthErrors
            then (false, put_health user (set_status DISABLED health0) st2)
            else (true, st2))) !! user = Some h ->
    requestHistory h
    = filter (in_window now RATE_LIMIT_WINDOW_MS) (requestHistory health ++ [now])).
  { intros h0 Hh0. cbv zeta. unfold countRecentAuthErrors.
    rewrite Health.getAccountHealth_put.
    assert (requestHistory (switch_break t now h0) = requestHistory h0) as Hsw.
    { unfold switch_break. destruct t; try destruct (_ <=? _); reflexivity. }
    destruct (_ <=? _); cbn [snd]; rewrite Window.lookup_put_health; intros [= <-];
      cbn; congruence. }
  destruct t eqn:Et; first [apply Hbreak; reflexivity | apply Hterm; reflexivity].
Qed.

Lemma wu_update t user success error rtt now st :
  t <= now -> windows_upto t st ->
  windows_upto now (snd (updateAccountHealth user success error rtt now st)).
Proof.
  intros Hle H u h Hl.
  destruct (wu_get t user st H) as [Hh Hst].
  destruct (decide (u = user)) as [->|Hne].
  - rewrite (update_window user success error rtt now st h Hl).
    apply upto_filter. by apply (upto_push t).
  - eapply upto_mono; [exact Hle|]. apply (Hst u h). rewrite <- Hl. symmetry.
    destruct (Tracker.update_cases user success error rtt now st)
      as [(h1 & ->) | [(h1 & h2 & ->) | (h1 & i & c & Hf & ->)]].
    + by rewrite Window.lookup_put_health_ne.
    + by rewrite !Window.lookup_put_health_ne.
    + change (accountHealth (saveCredentials_start ?s)) with (accountHealth s).
      by rewrite Frame.health_lock, Window.lookup_put_health_ne.
Qed.

Lemma wu_lock t i st : windows_upto t st -> windows_upto t (lock_account i st).
Proof. apply wu_same, Frame.health_lock. Qed.

Lemma wu_mark_unusable t i s st :
  windows_upto t st -> windows_upto t (mark_unusable i s st).
Proof.
  intros H. unfold mark_unusable.
  assert (windows_upto t (saveCredentials (lock_account i st))) as H1.
  { eapply wu_same; [reflexivity|]. by apply wu_lock. }
  destruct (credentials (saveCredentials (lock_account i st)) !! i) as [c|]; [|exact H1].
  destruct (wu_get t (username c) _ H1) as [Hh Hst].
  destruct (getAccountHealth (username c) _) as [h st1]. cbn [fst snd] in *.
  apply wu_put; [exact Hh|exact Hst].
Qed.

Lemma wu_catch t i message now st :
  t <= now -> windows_upto t st ->
  windows_upto now (snd (executeWithAccount_catch i message now st)).
Proof.
  intros Hle H. unfold executeWithAccount_catch.
  pose proof (wu_mono t now st Hle H) as Hn.
  destruct (credentials st !! i) as [c|]; [|exact Hn].
  destruct (_ || _); [by apply wu_mark_unusable|].
  destruct (Str.includes message "User tweets fetch timed out");
    [by apply wu_mark_unusable|].
  destruct (Str.includes message _); [by apply (wu_update t)|].
  destruct (_ || _); [by apply wu_mark_unusable|].
  pose proof (wu_update t (username c) false (Some message) None now st Hle H) as H1.
  destruct (updateAccountHealth _ _ _ _ _ _). exact H1.
Qed.

Lemma wu_tryLogin_resume t i answer st :
  windows_upto t st -> windows_upto t (snd (tryLogin_resume i answer st)).
Proof.
  intros H. unfold tryLogin_resume.
  destruct (credentials st !! i) as [c|] eqn:E; [|exact H].
  destruct answer as [cookies|message]; [exact H|].
  destruct (login_code_326 message); [|exact H].
  assert (windows_upto t (saveCredentials (lock_account i st))) as H1.
  { eapply wu_same; [reflexivity|]. by apply wu_lock. }
  destruct (wu_get t (username c) _ H1) as [Hh Hst].
  destruct (getAccountHealth (username c) _) as [h st1]. cbn [fst snd] in *.
  apply wu_put; [exact Hh|exact Hst].
Qed.

Lemma wu_check t now st : windows_upto t st -> windows_upto t (snd (checkCircuitBreaker now st)).
Proof.
  intros H. unfold checkCircuitBreaker. destruct (circuitState st); try exact H.
  destruct (_ <? _); exact H.
Qed.

Lemma wu_breaker t success now st :
  windows_upto t st -> windows_upto t (updateCircuitBreaker success now st).
Proof.
  intros H. unfold updateCircuitBreaker. destruct (circuitState st), success; try exact H.
  cbn. destruct (_ <=? _); exact H.
Qed.

Lemma wu_release t st : windows_upto t st -> windows_upto t (releaseSemaphore st).
Proof. intros H. unfold releaseSemaphore. destruct (_ <? _); exact H. Qed.

(** One event: the windows are in order up to the time the event read, or
    up to where they were when it read none. *)
Lemma wu_step cpuCount t w e w' :
  windows_upto t (provider w) -> step cpuCount w e = Some w' ->
  match event_time e with
  | Some now => t <= now -> windows_upto now (provider w')
  | None => windows_upto t (provider w')
  end.
Proof.
  intros Hw.
  destruct e as [now|k now random ok|k answer now|k outcome rtt now|j ok|answers];
    cbn [step event_time];
    [| | | |destruct (writesInFlight (provider w) !! j) eqn:Hj; [|discriminate];
            intros [= <-]; unfold windows_upto, write_settles; cbn [provider];
            rewrite Hj; destruct ok; exact Hw
          |intros [= <-]; exact Hw].
  - pose proof (wu_check t now (provider w) Hw) as H1.
    destruct (checkCircuitBreaker now (provider w)) as [allowed st1]. cbn [snd] in H1.
    destruct allowed; [|discriminate].
    unfold try_acquire. destruct (_ <? _); [|discriminate].
    intros [= <-] Hle. by apply (wu_mono t).
  - destruct (calls w !! k) as [c|] eqn:Hk; [|discriminate].
    destruct (point c); try discriminate.
    destruct (attempt c <? 10).
    + pose proof (wu_select t now random (provider w) Hw) as H1.
      destruct (selectAvailableAccount now random (provider w)) as [selection st1].
      cbn [snd] in H1.
      destruct selection as [i|i wait|].
      * destruct (credentials st1 !! i) as [acc|]; [|discriminate].
        destruct (_ || _); [intros [= <-] Hle; by apply (wu_mono t)|].
        set (st2 := snd (updateAccountHealth _ _ _ _ _ _)).
        assert (t <= now -> windows_upto now st2) as H2.
        { intros Hle. unfold st2. apply (wu_update t); [exact Hle|].
          eapply wu_same; [apply NeverDisabled.health_getProxy|exact H1]. }
        destruct (tryLogin_begin i ok st2) as [[|]|]; intros [= <-] Hle; cbn [provider resume];
          try (by apply H2).
        unfold login_failed. apply (wu_update now); [lia|by apply H2].
      * destruct (credentials st1 !! i) as [acc|]; [|discriminate].
        destruct (_ || _); intros [= <-] Hle; by apply (wu_mono t).
      * intros [= <-] Hle. cbn [provider leave]. apply wu_release, wu_breaker.
        by apply (wu_mono t).
    + intros [= <-] Hle. cbn [provider leave]. apply wu_release, wu_breaker.
      by apply (wu_mono t).
  - destruct (calls w !! k) as [c|] eqn:Hk; [|discriminate].
    destruct (point c) as [|i|i]; try discriminate.
    destruct (credentials (provider w) !! i) as [acc|]; [|discriminate].
    pose proof (wu_tryLogin_resume t i answer (provider w) Hw) as H1.
    destruct (tryLogin_resume i answer (provider w)) as [success st1]. cbn [snd] in H1.
    destruct success; intros [= <-] Hle; cbn [provider resume]; [by apply (wu_mono t)|].
    unfold login_failed. by apply (wu_update t).
  - destruct (calls w !! k) as [c|] eqn:Hk; [|discriminate].
    destruct (point c) as [|i|i]; try discriminate.
    destruct (credentials (provider w) !! i) as [acc|]; [|discriminate].
    destruct outcome as [| |message].
    + intros [= <-] Hle. cbn [provider leave]. apply wu_release. apply wu_breaker.
      by apply (wu_update t).
    + intros [= <-] Hle. cbn [provider resume]. by apply (wu_update t).
    + pose proof (wu_catch t i message now (provider w)) as H1.
      destruct (executeWithAccount_catch i message now (provider w)) as [caught st1].
      cbn [snd] in H1.
      destruct caught; intros [= <-] Hle; by apply H1.
Qed.

Lemma wu_run cpuCount schedule :
  forall t w w', clock_forward t schedule -> windows_upto t (provider w) ->
    run cpuCount schedule w = Some w' -> exists t', windows_upto t' (provider w').
Proof.
  induction schedule as [|e rest IH]; intros t w w' Hc Hw; cbn [run].
  - intros [= <-]. by exists t.
  - destruct (step cpuCount w e) as [w1|] eqn:E; [|discriminate].
    pose proof (wu_step cpuCount t w e w1 Hw E) as H1.
    cbn [clock_forward] in Hc. destruct (event_time e) as [now|].
    + destruct Hc as [Hle Hc]. apply (IH now w1 w' Hc). by apply H1.
    + by apply (IH t w1 w' Hc).
Qed.

(** The windows of a provider that runs by a clock that does not go back
    are in the order of the clock. *)
Lemma run_windows_sorted cpuCount schedule proxyList file t w user :
  clock_forward t schedule ->
  run cpuCount schedule (started proxyList file) = Some w ->
  Sorted Z.le (stored_window user (provider w)).
Proof.
  intros Hc Hr.
  destruct (wu_run cpuCount schedule t (started proxyList file) w Hc) as [t' Ht']; [|exact Hr|].
  - unfold started. cbn [provider]. apply wu_loadCredentials. intros u h Hu.
    cbn in Hu. by rewrite lookup_empty in Hu.
  - unfold stored_window. destruct (accountHealth (provider w) !! user) as [h|] eqn:E;
      [|constructor]. by destruct (Ht' user h E).
Qed.

(** C6: [canAccountMakeRequest] first trims the request window that the
    tracker holds for the account to the timestamps of the last 15 minutes
    ([now - t < 900000]), in their order, and stores it, leaving the rest
    of the record and every other record as they were; it answers ok
    exactly when fewer than 200 timestamps remain; otherwise it refuses
    with the wait [900000 - (now - oldest)], where [oldest] is the first
    timestamp that remains.  That one is the oldest when the window is in
    the order of the clock, which it is in every state that the dispatcher
    reaches by a clock that does not go back. *)
Theorem canRequest_window (user : string) (now : Z) (st : Provider) :
  let history := stored_window user st in
  let trimmed := filter (in_window now (15 * 60 * 1000)) history in
  let check := fst (canAccountMakeRequest user now st) in
  let st' := snd (canAccountMakeRequest user now st) in
  stored_window user st' = trimmed
  /\ (forall other, other <> user -> accountHealth st' !! other = accountHealth st !! other)
  /\ (forall h, accountHealth st !! user = Some h ->
        accountHealth st' !! user = Some (set_requestHistory trimmed h))
  /\ (forall t, t ∈ trimmed <-> t ∈ history /\ now - t < 15 * 60 * 1000)
  /\ (canRequest check = true <-> (length trimmed < 200)%nat)
  /\ (canRequest check = true -> waitTime check = None)
  /\ (canRequest check = false ->
        exists oldest rest,
          trimmed = oldest :: rest
          /\ waitTime check = Some (15 * 60 * 1000 - (now - oldest))
          /\ (Sorted Z.le history -> forall t, t ∈ trimmed -> oldest <= t))
  /\ (forall cpuCount schedule proxyList file t w,
        clock_forward t schedule ->
        run cpuCount schedule (started proxyList file) = Some w ->
        st = provider w ->
        Sorted Z.le history).
Proof.
  cbv zeta.
  assert (Hstored : stored_window user st = requestHistory (fst (getAccountHealth user st))).
  { unfold stored_window, getAccountHealth. by destruct (accountHealth st !! user). }
  assert (Hother : forall other, other <> user ->
            accountHealth (snd (canAccountMakeRequest user now st)) !! other
            = accountHealth st !! other).
  { intros other Hne. rewrite Select.canRequest_snd.
    rewrite Window.lookup_put_health_ne by done. by apply Frame.health_get_ne. }
  assert (Hrecord : accountHealth (snd (canAccountMakeRequest user now st)) !! user
                    = Some (set_requestHistory
                              (filter (in_window now (15 * 60 * 1000)) (stored_window user st))
                              (fst (getAccountHealth user st)))).
  { rewrite Select.canRequest_snd, Window.lookup_put_health, Hstored. reflexivity. }
  split.
  { unfold stored_window at 1. rewrite Hrecord. reflexivity. }
  split; [exact Hother|]. split.
  { intros h Hh. rewrite Hrecord. unfold getAccountHealth. by rewrite Hh. }
  rewrite Hstored. clear Hother Hrecord.
  split.
  { intros t. rewrite list_elem_of_filter. unfold in_window. tauto. }
  unfold canAccountMakeRequest.
  destruct (getAccountHealth user st) as [health st1]. cbn [fst].
  change RATE_LIMIT_WINDOW_MS with (15 * 60 * 1000). unfold REQUESTS_PER_HOUR.
  remember (filter (in_window now (15 * 60 * 1000)) (requestHistory health))
    as trimmed eqn:Htrim.
  assert (Hrun : forall cpuCount schedule proxyList file t w,
            clock_forward t schedule ->
            run cpuCount schedule (started proxyList file) = Some w ->
            st = provider w -> Sorted Z.le (requestHistory health)).
  { intros cpuCount schedule proxyList file t w Hc Hr ->. cbn [fst] in Hstored.
    rewrite <- Hstored. by eapply run_windows_sorted. }
  destruct (Z.ltb_spec (Z.of_nat (length trimmed)) 200) as [Hlt|Hge].
  - cbn [fst snd canRequest waitTime].
    split; [split; [intros _; lia | reflexivity] |].
    split; [reflexivity |]. split; [discriminate | exact Hrun].
  - destruct trimmed as [|oldest rest]; [cbn in Hge; lia |].
    cbn [fst snd canRequest waitTime].
    split; [split; [discriminate | intros H; exfalso; lia] |].
    split; [discriminate |]. split; [|exact Hrun].
    intros _. exists oldest, rest.
    split; [reflexivity |]. split; [reflexivity |].
    intros Hs t Ht. by eapply (Window.head_is_oldest now (15 * 60 * 1000)).
Qed.

(** A provider that has served 200 requests of one account within a
    second, by the clock: the window stored after the 200th report holds
    them all in order, and the next request is refused until the first of
    them is 15 minutes old. *)
Example served_window_refuses :
  let st := fold_left (fun st k => snd (updateAccountHealth "bob" true None None (Z.of_nat k) st))
                      (seq 1 200) initial in
  stored_window "bob" st = Z.of_nat <$> seq 1 200
  /\ fst (canAccountMakeRequest "bob" 1000 st)
     = {| canRequest := false; waitTime := Some 899001 |}
  /\ canRequest (fst (canAccountMakeRequest "bob" 900001 st)) = true.
Proof. vm_compute. repeat split. Qed.

End Chronology.

(** ** Registry: the provider does not depend on the file it has loaded *)

Module Reload.
Import Dispatch.

Lemma get_file user d st :
  getAccountHealth user (set_dataFile d st) = refile d (getAccountHealth user st).
Proof. unfold getAccountHealth. cbn. by destruct (accountHealth st !! user). Qed.

Lemma canRequest_file user now d st :
  canAccountMakeRequest user now (set_dataFile d st)
  = refile d (canAccountMakeRequest user now st).
Proof.
  unfold canAccountMakeRequest. rewrite get_file.
  destruct (getAccountHealth user st) as [h st1]. cbn [refile fst snd].
  destruct (_ <? _); [reflexivity|].
  by destruct (filter _ _).
Qed.

Lemma is_available_file now acc d st :
  is_available now acc (set_dataFile d st) = refile d (is_available now acc st).
Proof.
  unfold is_available. rewrite get_file.
  destruct (getAccountHealth (username acc) st) as [h st1]. cbn [refile fst snd].
  rewrite canRequest_file.
  by destruct (canAccountMakeRequest (username acc) now st1).
Qed.

Lemma filter_available_file now creds d :
  forall base st,
    filter_available now base creds (set_dataFile d st)
    = refile d (filter_available now base creds st).
Proof.
  induction creds as [|acc rest IH]; intros base st; [reflexivity|].
  cbn [filter_available]. rewrite is_available_file.
  destruct (is_available now acc st) as [keep st1]. cbn [refile fst snd].
  rewrite IH. by destruct (filter_available now (S base) rest st1).
Qed.

Lemma soonest_file now creds d :
  forall base soonest st,
    soonest_wait now base creds soonest (set_dataFile d st)
    = refile d (soonest_wait now base creds soonest st).
Proof.
  induction creds as [|acc rest IH]; intros base soonest st; [reflexivity|].
  cbn [soonest_wait]. rewrite canRequest_file.
  destruct (canAccountMakeRequest (username acc) now st) as [check st1].
  cbn [refile fst snd]. by rewrite IH.
Qed.

Lemma load_file d st :
  loaded_registry st -> loadCredentials (set_dataFile d st) = set_dataFile d st.
Proof.
  intros [Hl Hne]. unfold loadCredentials.
  cbn [loadingCredentials credentialsLoaded credentials set_dataFile].
  destruct (loadingCredentials st); [reflexivity|]. rewrite Hl.
  destruct (credentials st) as [|c l]; [done|]. reflexivity.
Qed.

Lemma load_loaded st : loaded_registry st -> loadCredentials st = st.
Proof.
  intros [Hl Hne]. unfold loadCredentials.
  destruct (loadingCredentials st); [reflexivity|]. rewrite Hl.
  destruct (credentials st) as [|c l]; [done|]. reflexivity.
Qed.

Lemma select_file now random d st :
  loaded_registry st ->
  selectAvailableAccount now random (set_dataFile d st)
  = refile d (selectAvailableAccount now random st).
Proof.
  intros Hl. unfold selectAvailableAccount. rewrite (load_file d st Hl), (load_loaded st Hl).
  change (credentials (set_dataFile d st)) with (credentials st).
  rewrite filter_available_file.
  destruct (filter_available now 0 (credentials st) st) as [available st1].
  cbn [refile fst snd].
  destruct (available !! _); [reflexivity|].
  change (credentials (set_dataFile d st1)) with (credentials st1).
  rewrite soonest_file.
  by destruct (soonest_wait now 0 (credentials st1) None st1) as [[[i w]|] st2].
Qed.

Lemma getProxy_file user now d st :
  getProxyForAccount user now (set_dataFile d st) = refile d (getProxyForAccount user now st).
Proof.
  unfold getProxyForAccount, assignProxyToAccount. cbn [proxyAssignment proxies set_dataFile].
  destruct (proxyAssignment st !! user) as [p|].
  - cbn [proxies set_dataFile]. destruct (proxies st !! p) as [q|]; [|reflexivity].
    by destruct (now <? nextRequestAt q).
  - destruct (bool_decide _); [reflexivity|]. cbn.
    destruct (proxies st !! _) as [q|]; [|reflexivity].
    by destruct (now <? nextRequestAt q).
Qed.

Lemma lock_file i d st : lock_account i (set_dataFile d st) = set_dataFile d (lock_account i st).
Proof. unfold lock_account. cbn. by destruct (credentials st !! i). Qed.

Lemma update_file user success error rtt now d st :
  updateAccountHealth user success error rtt now (set_dataFile d st)
  = refile d (updateAccountHealth user success error rtt now st).
Proof.
  unfold updateAccountHealth. rewrite get_file.
  destruct (getAccountHealth user st) as [health st1]. cbn [refile fst snd].
  destruct success; [reflexivity|].
  destruct error as [message|]; [|reflexivity].
  destruct (classifyError message);
    try (cbv zeta;
         change (credentials (put_health ?u ?h (set_dataFile d st1))) with (credentials st1);
         change (credentials (put_health ?u ?h st1)) with (credentials st1);
         destruct (list_find _ (credentials st1)) as [[i c]|]; [|reflexivity];
         cbn [refile fst snd]; f_equal;
         change (put_health ?u ?h (set_dataFile d st1)) with (set_dataFile d (put_health u h st1));
         by rewrite lock_file);
    cbv zeta; unfold countRecentAuthErrors;
    change (put_health ?u ?h (set_dataFile d st1)) with (set_dataFile d (put_health u h st1));
    rewrite get_file, Health.getAccountHealth_put; cbn [refile fst snd];
    by destruct (_ <=? _).
Qed.

Lemma save_file d st :
  saveCredentials (set_dataFile d st)
  = set_dataFile (if writeAnswers st 0%nat then Some (credentials st) else d)
      (saveCredentials st).
Proof. reflexivity. Qed.

Lemma mark_unusable_file i s d st :
  exists d', mark_unusable i s (set_dataFile d st) = set_dataFile d' (mark_unusable i s st).
Proof.
  unfold mark_unusable. rewrite lock_file, save_file.
  set (d' := if writeAnswers (lock_account i st) 0%nat then _ else d). exists d'.
  change (credentials (set_dataFile d' ?x)) with (credentials x).
  destruct (credentials (saveCredentials (lock_account i st)) !! i) as [c|]; [|reflexivity].
  rewrite get_file. by destruct (getAccountHealth (username c) _).
Qed.

Lemma catch_file i message now d st :
  exists d', executeWithAccount_catch i message now (set_dataFile d st)
             = refile d' (executeWithAccount_catch i message now st).
Proof.
  unfold executeWithAccount_catch. cbn [credentials set_dataFile].
  destruct (credentials st !! i) as [c|]; [|by exists d].
  destruct (mark_unusable_file i SUSPENDED d st) as [d1 H1].
  destruct (mark_unusable_file i LOCKED d st) as [d2 H2].
  destruct (_ || _); [exists d1; by rewrite H1|].
  destruct (Str.includes message "User tweets fetch timed out"); [exists d2; by rewrite H2|].
  destruct (Str.includes message _); [exists d; by rewrite update_file|].
  destruct (_ || _); [exists d1; by rewrite H1|].
  exists d. rewrite update_file.
  by destruct (updateAccountHealth (username c) false (Some message) None now st).
Qed.

Lemma tryLogin_begin_file i ok d st :
  tryLogin_begin i ok (set_dataFile d st) = tryLogin_begin i ok st.
Proof. reflexivity. Qed.

Lemma tryLogin_resume_file i answer d st :
  exists d', tryLogin_resume i answer (set_dataFile d st)
             = refile d' (tryLogin_resume i answer st).
Proof.
  unfold tryLogin_resume. cbn [credentials set_dataFile].
  destruct (credentials st !! i) as [c|]; [|by exists d].
  destruct answer as [newCookies|message].
  - eexists. cbn [refile fst snd]. f_equal.
  - destruct (login_code_326 message); [|by exists d].
    rewrite lock_file, save_file.
    exists (if writeAnswers (lock_account i st) 0%nat
            then Some (credentials (lock_account i st)) else d).
    rewrite get_file.
    destruct (getAccountHealth (username c) _) as [h st1]. reflexivity.
Qed.

Lemma check_file now d st :
  checkCircuitBreaker now (set_dataFile d st) = refile d (checkCircuitBreaker now st).
Proof.
  unfold checkCircuitBreaker. cbn [circuitState circuitOpenTime set_dataFile].
  destruct (circuitState st); try reflexivity. by destruct (_ <? _).
Qed.

Lemma breaker_file success now d st :
  updateCircuitBreaker success now (set_dataFile d st)
  = set_dataFile d (updateCircuitBreaker success now st).
Proof.
  unfold updateCircuitBreaker. cbn [circuitState circuitFailureCount set_dataFile].
  destruct (circuitState st), success; try reflexivity. cbn. by destruct (_ <=? _).
Qed.

Lemma acquire_file cpuCount d st :
  try_acquire cpuCount (set_dataFile d st) = refile d (try_acquire cpuCount st).
Proof. unfold try_acquire. cbn [concurrentOperations set_dataFile]. by destruct (_ <? _). Qed.

Lemma release_file d st :
  releaseSemaphore (set_dataFile d st) = set_dataFile d (releaseSemaphore st).
Proof. unfold releaseSemaphore. cbn [concurrentOperations set_dataFile]. by destruct (_ <? _). Qed.

Lemma settles_file j ok d st :
  exists d', write_settles j ok (set_dataFile d st) = set_dataFile d' (write_settles j ok st).
Proof.
  unfold write_settles. cbn [writesInFlight set_dataFile].
  destruct (writesInFlight st !! j) as [content|]; [|by exists d].
  destruct ok; eexists; reflexivity.
Qed.

(** *** The loaded registry stays loaded *)

Lemma reg_same st st' :
  credentialsLoaded st' = credentialsLoaded st ->
  length (credentials st') = length (credentials st) ->
  loaded_registry st -> loaded_registry st'.
Proof.
  intros H1 H2 [Hl Hne]. split; [congruence|].
  intros He. apply Hne. rewrite He in H2. by destruct (credentials st).
Qed.

Lemma reg_get user st : loaded_registry st -> loaded_registry (snd (getAccountHealth user st)).
Proof. unfold getAccountHealth. by destruct (accountHealth st !! user). Qed.

Lemma reg_canRequest user now st :
  loaded_registry st -> loaded_registry (snd (canAccountMakeRequest user now st)).
Proof. intros H. rewrite Select.canRequest_snd. by apply (reg_get user st). Qed.

Lemma reg_is_available now acc st :
  loaded_registry st -> loaded_registry (snd (is_available now acc st)).
Proof. intros H. rewrite Select.is_available_snd. by apply reg_canRequest, reg_get. Qed.

Lemma reg_filter_available now creds :
  forall base st, loaded_registry st ->
    loaded_registry (snd (filter_available now base creds st)).
Proof.
  induction creds as [|acc rest IH]; intros base st H; [exact H|].
  cbn [filter_available].
  pose proof (reg_is_available now acc st H) as H1.
  destruct (is_available now acc st) as [keep st1].
  pose proof (IH (S base) st1 H1) as H2.
  destruct (filter_available now (S base) rest st1) as [kept st2]. exact H2.
Qed.

Lemma reg_soonest now creds :
  forall base soonest st,
    loaded_registry st -> loaded_registry (snd (soonest_wait now base creds soonest st)).
Proof.
  induction creds as [|acc rest IH]; intros base soonest st H; [exact H|].
  cbn [soonest_wait].
  pose proof (reg_canRequest (username acc) now st H) as H1.
  destruct (canAccountMakeRequest (username acc) now st) as [check st1].
  by apply IH.
Qed.

Lemma reg_select now random st :
  loaded_registry st -> loaded_registry (snd (selectAvailableAccount now random st)).
Proof.
  intros H. unfold selectAvailableAccount. rewrite (load_loaded st H).
  pose proof (reg_filter_available now (credentials st) 0 st H) as H1.
  destruct (filter_available now 0 _ st) as [available st1]. cbn [snd] in H1.
  destruct (available !! _); [exact H1|].
  pose proof (reg_soonest now (credentials st1) 0 None st1 H1) as H2.
  destruct (soonest_wait now 0 (credentials st1) None st1) as [[[i w]|] st2]; exact H2.
Qed.

Lemma reg_getProxy user now st :
  loaded_registry st -> loaded_registry (snd (getProxyForAccount user now st)).
Proof.
  unfold getProxyForAccount, assignProxyToAccount.
  destruct (proxyAssignment st !! user) as [p|].
  - destruct (proxies st !! p) as [q|]; [|done].
    by destruct (now <? nextRequestAt q).
  - destruct (bool_decide _); [done|]. cbn.
    destruct (proxies st !! _) as [q|]; [|done].
    by destruct (now <? nextRequestAt q).
Qed.

Lemma reg_lock i st : loaded_registry st -> loaded_registry (lock_account i st).
Proof.
  apply reg_same; [|apply Frame.lock_length].
  unfold lock_account. by destruct (credentials st !! i).
Qed.

Lemma reg_update user success error rtt now st :
  loaded_registry st ->
  loaded_registry (snd (updateAccountHealth user success error rtt now st)).
Proof.
  intros H. pose proof (reg_get user st H) as H1.
  destruct (Tracker.update_cases user success error rtt now st)
    as [(h1 & ->) | [(h1 & h2 & ->) | (h1 & i & c & Hf & ->)]]; try exact H1.
  apply (reg_lock i (put_health user h1 (snd (getAccountHealth user st)))). exact H1.
Qed.

Lemma reg_mark_unusable i s st : loaded_registry st -> loaded_registry (mark_unusable i s st).
Proof.
  intros H. unfold mark_unusable.
  assert (loaded_registry (saveCredentials (lock_account i st))) as H1
    by (by apply (reg_lock i st)).
  destruct (credentials (saveCredentials (lock_account i st)) !! i) as [c|]; [|exact H1].
  pose proof (reg_get (username c) _ H1) as H2.
  destruct (getAccountHealth (username c) _) as [h st1]. exact H2.
Qed.

Lemma reg_catch i message now st :
  loaded_registry st -> loaded_registry (snd (executeWithAccount_catch i message now st)).
Proof.
  intros H. unfold executeWithAccount_catch.
  destruct (credentials st !! i) as [c|]; [|exact H].
  destruct (_ || _); [by apply reg_mark_unusable|].
  destruct (Str.includes message "User tweets fetch timed out");
    [by apply reg_mark_unusable|].
  destruct (Str.includes message _); [by apply reg_update|].
  destruct (_ || _); [by apply reg_mark_unusable|].
  pose proof (reg_update (username c) false (Some message) None now st H) as H1.
  destruct (updateAccountHealth _ _ _ _ _ _). exact H1.
Qed.

Lemma reg_tryLogin_resume i answer st :
  loaded_registry st -> loaded_registry (snd (tryLogin_resume i answer st)).
Proof.
  intros H. unfold tryLogin_resume.
  destruct (credentials st !! i) as [c|] eqn:E; [|exact H].
  destruct answer as [cookies|message].
  - cbn [snd]. revert H. apply reg_same; [reflexivity|]. cbn. apply length_insert.
  - destruct (login_code_326 message); [|exact H].
    assert (loaded_registry (saveCredentials (lock_account i st))) as H1
      by (by apply (reg_lock i st)).
    pose proof (reg_get (username c) _ H1) as H2.
    destruct (getAccountHealth (username c) _) as [h st1]. exact H2.
Qed.

Lemma reg_check now st : loaded_registry st -> loaded_registry (snd (checkCircuitBreaker now st)).
Proof.
  intros H. unfold checkCircuitBreaker. destruct (circuitState st); try exact H.
  destruct (_ <? _); exact H.
Qed.

Lemma reg_breaker success now st :
  loaded_registry st -> loaded_registry (updateCircuitBreaker success now st).
Proof.
  intros H. unfold updateCircuitBreaker. destruct (circuitState st), success; try exact H.
  cbn. destruct (_ <=? _); exact H.
Qed.

Lemma reg_release st : loaded_registry st -> loaded_registry (releaseSemaphore st).
Proof. intros H. unfold releaseSemaphore. destruct (_ <? _); exact H. Qed.

Lemma step_file cpuCount d w e :
  loaded_registry (provider w) ->
  match step cpuCount w e with
  | Some w1 =>
      loaded_registry (provider w1)
      /\ exists d1, step cpuCount (with_file d w) e = Some (with_file d1 w1)
  | None => step cpuCount (with_file d w) e = None
  end.
Proof.
  intros Hw.
  destruct e as [now|k now random ok|k answer now|k outcome rtt now|j ok|answers];
    cbn [step with_file provider calls].
  - rewrite check_file.
    pose proof (reg_check now (provider w) Hw) as H1.
    destruct (checkCircuitBreaker now (provider w)) as [allowed st1].
    cbn [refile fst snd] in *. destruct allowed; [|reflexivity].
    unfold try_acquire. cbn [concurrentOperations set_dataFile].
    destruct (_ <? _); [|reflexivity].
    split; [exact H1|]. by exists d.
  - destruct (calls w !! k) as [c|] eqn:Hk; [|reflexivity].
    destruct (point c); try reflexivity.
    destruct (attempt c <? 10).
    + rewrite (select_file now random d (provider w) Hw).
      pose proof (reg_select now random (provider w) Hw) as H1.
      destruct (selectAvailableAccount now random (provider w)) as [selection st1].
      cbn [refile fst snd] in *.
      destruct selection as [i|i wait|].
      * cbn [credentials set_dataFile].
        destruct (credentials st1 !! i) as [acc|]; [|reflexivity].
        destruct (_ || _); [split; [exact H1|by exists d]|].
        rewrite getProxy_file. cbn [refile fst snd].
        rewrite update_file. cbn [refile fst snd].
        set (st2 := snd (updateAccountHealth _ _ _ _ _ (snd (getProxyForAccount _ _ st1)))).
        assert (loaded_registry st2) as H2 by (by apply reg_update, reg_getProxy).
        rewrite tryLogin_begin_file.
        destruct (tryLogin_begin i ok st2) as [[|]|];
          try (split; [exact H2|by exists d]).
        unfold login_failed. rewrite update_file. cbn [refile fst snd].
        split; [by apply reg_update|by exists d].
      * cbn [credentials set_dataFile].
        destruct (credentials st1 !! i) as [acc|]; [|reflexivity].
        destruct (_ || _); (split; [exact H1|by exists d]).
      * unfold leave. cbn [provider calls with_file].
        rewrite breaker_file, release_file.
        split; [by apply reg_release, reg_breaker|by exists d].
    + unfold leave. cbn [provider calls with_file].
      rewrite breaker_file, release_file.
      split; [by apply reg_release, reg_breaker|by exists d].
  - destruct (calls w !! k) as [c|] eqn:Hk; [|reflexivity].
    destruct (point c) as [|i|i]; try reflexivity.
    cbn [credentials set_dataFile].
    destruct (credentials (provider w) !! i) as [acc|]; [|reflexivity].
    destruct (tryLogin_resume_file i answer d (provider w)) as [d1 Hd1]. rewrite Hd1.
    pose proof (reg_tryLogin_resume i answer (provider w) Hw) as H1.
    destruct (tryLogin_resume i answer (provider w)) as [success st1].
    cbn [refile fst snd] in *.
    destruct success; [split; [exact H1|by exists d1]|].
    unfold login_failed. rewrite update_file. cbn [refile fst snd].
    split; [by apply reg_update|by exists d1].
  - destruct (calls w !! k) as [c|] eqn:Hk; [|reflexivity].
    destruct (point c) as [|i|i]; try reflexivity.
    cbn [credentials set_dataFile].
    destruct (credentials (provider w) !! i) as [acc|]; [|reflexivity].
    destruct outcome as [| |message].
    + unfold leave. cbn [provider calls with_file].
      rewrite update_file. cbn [refile fst snd]. rewrite breaker_file, release_file.
      split; [by apply reg_release, reg_breaker, reg_update|by exists d].
    + rewrite update_file. cbn [refile fst snd].
      split; [by apply reg_update|by exists d].
    + destruct (catch_file i message now d (provider w)) as [d1 Hd1]. rewrite Hd1.
      pose proof (reg_catch i message now (provider w) Hw) as H1.
      destruct (executeWithAccount_catch i message now (provider w)) as [caught st1].
      cbn [refile fst snd] in *.
      destruct caught; (split; [exact H1|by exists d1]).
  - cbn [writesInFlight set_dataFile].
    destruct (writesInFlight (provider w) !! j) as [content|] eqn:Hj; [|reflexivity].
    destruct (settles_file j ok d (provider w)) as [d1 Hd1]. rewrite Hd1.
    split; [|by exists d1].
    unfold write_settles. rewrite Hj. by destruct ok.
  - split; [exact Hw|by exists d].
Qed.

Lemma run_file cpuCount schedule :
  forall d w,
    loaded_registry (provider w) ->
    match run cpuCount schedule w with
    | Some w1 => exists d1, run cpuCount schedule (with_file d w) = Some (with_file d1 w1)
    | None => run cpuCount schedule (with_file d w) = None
    end.
Proof.
  induction schedule as [|e rest IH]; intros d w Hw; cbn [run]; [by exists d|].
  pose proof (step_file cpuCount d w e Hw) as Hs.
  destruct (step cpuCount w e) as [w1|].
  - destruct Hs as [Hw1 [d1 ->]]. by apply IH.
  - by rewrite Hs.
Qed.

(** X27: once a registry that is not empty is loaded, the provider never
    reads [data.json] again.  Whatever the file holds, and whatever the
    schedule of the dispatcher is, the run goes the same way: from two
    worlds that differ in the content of the file only, a schedule either
    runs in neither, or runs in both and ends in worlds that again differ
    in the content of the file at most, with the same registry, health
    records, calls and writes in flight. *)
Theorem loaded_registry_is_not_reread (cpuCount : Z) (schedule : list Event)
    (file : option (list Account)) (w : World) :
  credentialsLoaded (provider w) = true ->
  credentials (provider w) <> [] ->
  without_file <$> run cpuCount schedule (with_file file w)
  = without_file <$> run cpuCount schedule w.
Proof.
  intros Hl Hne.
  pose proof (run_file cpuCount schedule file w (conj Hl Hne)) as H.
  destruct (run cpuCount schedule w) as [w1|].
  - destruct H as [d1 ->]. reflexivity.
  - by rewrite H.
Qed.

Lemma loaded_registry_is_not_reread_witness :
  let w := started [] (Some [mk_account "bob" true false]) in
  let file := Some [mk_account "bob" true false; mk_account "carol" true false] in
  without_file <$> run 8 race_schedule (with_file file w)
  = without_file <$> run 8 race_schedule w
  /\ is_Some (run 8 race_schedule w).
Proof.
  split.
  - apply (loaded_registry_is_not_reread 8 race_schedule
             (Some [mk_account "bob" true false; mk_account "carol" true false])
             (started [] (Some [mk_account "bob" true false]))).
    + reflexivity.
    + discriminate.
  - vm_compute. eauto.
Defined.

End Reload.
